(* ===== verification/_CoqProject ===== *)
-Q . S2P
Prelude.v
Word.v
Format.v
Instruction.v
BranchPredictor.v
Uop.v
Execute.v
Decode.v
Datapath.v
IsaMachine.v
AbstractMem.v
FlatMachine.v
SimpleMem.v
Dram.v
ReplacementPolicy.v
CacheConfig.v
CacheSet.v
LowerMemory.v
GeneralCache.v
CacheAddress.v
Device.v
MemoryDevices.v
CacheView.v
CacheRefinement.v
CacheDevice.v
Hierarchy.v
SharedCache.v
CacheWaits.v
MemoryAccess.v
MemoryPorts.v
Pipe.v
Runner.v
RunnerSpec.v
PipeInvariant.v
PipeRefinement.v
PipeRun.v
PipeHalt.v
Discipline.v
PipeTypes.v
PipeMemory.v
NoPanic.v
PipeWaits.v
Liveness.v
WholeSystem.v
Total.v
PipeStats.v
Elf.v
Allocator.v
Sorting.v
Workloads.v
Guest.v
UnitTests.v
MemoryTests.v
CacheTests.v
RunnerTests.v
Main.v
