(* ===== verification/Prelude.v ===== *)
(** * A verification of SimplePipeSim

    SimplePipeSim is a simulator of a five-stage RV32IM processor with two levels of caches
    over a main memory or a DRAM controller, and a runtime with small programs for it.  This
    library models the simulator's Rust sources ([src/simulator/src]) and the runtime
    ([src/runtime]) as functions and proves what makes them correct.

    ** How the program is put together, and where each part is modelled

    A program image ([Elf.v]) and a configuration ([Runner.v]) make a main memory
    ([SimpleMem.v] or [Dram.v]), an L2 cache above it, two L1 caches that share the L2
    ([GeneralCache.v]) and a processor ([Pipe.v]).  The runner ticks the processor and then
    the memory until an ECALL with a0 = 0 retires, and reports registers and counters.

    - [Prelude.v]: the outcome of an operation ([exec]: a value or a panic, with its kind),
      Rust's [Result], indexing and slicing, and their inversion lemmas and tactics.
    - [Word.v]: machine words as [Z] with their casts, overflow behaviour and bytes.
    - [Format.v], [Instruction.v]: [riscv/format_types.rs], [encoding.rs], [instruction.rs];
      an assembler as the reference for the decoder.
    - [BranchPredictor.v]: the [BranchPredict] trait as a class, the dummy and bimodal
      predictors, the two-level one whose bodies are [todo!()].
    - [Uop.v], [Decode.v], [Execute.v]: [hardware/uop.rs] and the [decode.rs] and [execute.rs]
      of the pipeline; [Datapath.v] composes them for one instruction.
    - [AbstractMem.v]: [mem/abstract_mem.rs] and [clock.rs].  Requests are cloned freely and
      share their cells, so the cells live in a heap, which every operation threads; with
      them, the draws made so far from the thread-local generator that the random policy of
      every set of every cache shares.  The traits are classes.
    - [SimpleMem.v], [Dram.v]: [mem/simple_mem.rs] and [mem/simple_dram/].
    - [ReplacementPolicy.v], [CacheConfig.v], [CacheSet.v], [LowerMemory.v],
      [GeneralCache.v]: [mem/general_cache/]; one definition per state of the controller.
      A cache holds its next level as a value: the two L1 caches are given the L2 in turn and
      hand back the L2 they leave, which is what sharing it by [Rc<RefCell>] does.
    - [MemoryAccess.v], [Pipe.v]: the MEM stage's transaction and the pipeline, one
      definition per stage, composed by [stages] and [tick] in the order of [pipe.rs].
    - [Runner.v]: [sim/runner.rs], [sim/cli.rs] and [simulation_config] of [main.rs].
    - [Elf.v]: [sim/elf.rs], with the [object] crate as a parameter.
    - [Main.v]: [main] of [main.rs] over the files and the terminal, and the tests on prebuilt
      programs ([simulator/tests/artifact_programs.rs]).
    - [Allocator.v], [Sorting.v], [Workloads.v]: the runtime's allocators and the algorithms
      of its programs.  [Guest.v]: its start-up, panic handler, system calls and console, and
      the [main] of every program, as functions of the calls made and of the allocator: every
      vector takes its block from it and gives it back, in the order of the sources.
    - [UnitTests.v], [MemoryTests.v], [CacheTests.v], [RunnerTests.v]: the repository's own
      [#[cfg(test)]] modules as programs of the model, with the assertions as panics; the
      last also holds the texts of the errors.

    ** What is proved

    - The command ([Main.v]) composes the rest: from the bytes of the file, through the
      loader, the configuration check and the simulation to the lines printed and the file
      written.  For a program that halts on the flat machine over the image of its segments
      and is disciplined, every sound configuration reports that machine's registers; a bad
      file is a panic and a refused configuration an error, with nothing printed.
      [Main.sound_config] says which accepted configurations are sound: the write policy is
      not write-back without write-allocate, offset and index take 1 to 31 bits at each level,
      L1 blocks have at least 4 bytes and are no larger than the L2's, and these no larger
      than the memory; [WholeSystem.fits] says the same of the levels of a system.  Others
      that the check accepts lose data ([Hierarchy.wb_nwa_loses_data]) or panic.
      [Main.run_fuel_more]: the result does not depend on the fuel.
    - The pipeline ([IsaMachine.v], [PipeInvariant.v], [PipeRefinement.v], [PipeRun.v],
      [PipeStats.v]).  [IsaMachine.isa_step] is a sequential RV32IM machine that executes one
      instruction word at a time, and lets a load's value arrive after later steps; as
      [uop.rs] does, it keeps bit 0 of the target of a JALR, which RV32IM clears.  The
      abstraction [abs] reads the registers off the register file and the latches; the
      invariant [Inv] relates every latch to it; each stage either leaves [abs] alone or takes
      a step.  Hence the trace of every run is an execution of the machine, the reported
      registers are those of the machine at the halting ECALL, no state that a run reaches
      makes the recovery panic, a pending recovery is that of the mispredicted branch in MEM and
      empties exactly ID and EXE, and the counters count the trace.  These theorems hold over
      every memory, cache configuration, replacement policy and predictor; they assume
      nothing about what a fetch or a load returns, and speak of runs that do not panic.
    - The datapath ([Datapath.v], [Execute.v], [Instruction.v]): one instruction has the
      RV32IM effect, the decoder inverts the assembler.
    - The memory hierarchy ([Device.v], [MemoryDevices.v], [CacheAddress.v], [CacheView.v],
      [CacheRefinement.v], [CacheDevice.v], [Hierarchy.v]).  [Device.DeviceLaws] is the
      contract of a memory device: contents as a view, at most one request in flight, bounded
      latency, a footprint in the heap of cells.  Main memory and DRAM satisfy it, and a cache
      over a device that satisfies it satisfies it, so hierarchies of any depth answer every
      sequence of accesses as a flat byte array, never panic and end each access in a bounded
      number of cycles - except under write-back without write-allocate, which loses data by
      a counterexample.  The laws are relative to a region of observed addresses.
    - The whole system ([FlatMachine.v], [SharedCache.v], [MemoryPorts.v], [PipeHalt.v],
      [PipeMemory.v], [WholeSystem.v]).  The two L1 caches share the L2, so that a request of
      one may be in flight below while the other works: [SharedCache.shows] says that together
      they show one flat memory, the data cache everywhere and the instruction cache on a
      region that no store touches, and every tick and registration keeps it.
      [MemoryPorts.v] follows the request of IF and that of MEM through it.  Hence the trace
      of a run is that of the executable flat machine of [FlatMachine.v] over the initial
      memory, the reported registers are those at its first halting ECALL, and two
      simulations of a program report the same registers however their configurations
      differ.  The hypotheses are on the configuration, which fits, and on the program: it
      does not modify its code, its accesses and every fetch, wrong paths included, stay in
      the reach of the caches.
    - Total correctness ([Discipline.v], [NoPanic.v], [CacheWaits.v], [PipeWaits.v],
      [Liveness.v], [Total.v]).  [Discipline.orderly] is the condition on a program: it
      executes code that is not among the last two words of the code region, with aligned
      accesses off the code; every aligned word of the region must be an instruction, since a
      wrong path may decode it.  A predictor may predict only targets it was told
      ([Discipline.PredictorLaws]).  Then each stage returns in every reachable state
      ([NoPanic.cycle_runs]).  [CacheWaits.caches_wait] bounds how long either L1 cache is
      busy while the other competes for the L2, over any next level that accepts only when it
      is free; [PipeWaits.due] turns this into a bound for the ports of IF and MEM, and
      [Liveness.rank] orders the states of the front end, so that in every cycle without an
      event the pair of the rank and the wait decreases.  Hence the processor always reaches
      its next event, and the simulation of a program that halts ends with the machine's
      registers.
    - Types ([PipeTypes.v]).  Words are unbounded integers in the model; whatever the memory
      answers, every field of a reachable processor fits its Rust type.
    - The guest ([Guest.v]): each program, from [start] on a heap that holds what it asks for,
      clears .bss, writes exactly its text, gives back every block and ends by the halting
      ECALL, after a panic too; on a heap too small for its first block it reports the failed
      allocation and ends.  [works] is a triple that counts the blocks and bytes in use.
    - Configuration and loading ([RunnerSpec.v], [CacheConfig.v], [Elf.v]): exactly the valid
      configurations and executables are accepted, errors name the first failure, nothing
      accepted panics while the machine is built, the levels that the hierarchy theorems cover
      are known exactly, and the image is that of the segments.
    - Every unit test of the repository passes when it runs on the model, in either build
      profile ([UnitTests.v] and the files above it), which compares the definitions with
      what the authors observe of their code.  These are evaluations on the tests' fixed
      inputs, and on one sequence of contents where a test of the cache draws them at random;
      the random test of the memory is proved for all contents and draws.
    - Components: exact latencies of both memories, replacement policies, address slicing,
      the bimodal predictor, the allocator's safety for every client, the sorting programs.

    ** Conventions, bounds and fuel

    Word arithmetic takes the build profile as an instance: with overflow checks (dev) or
    wrapping (release); a theorem that fixes no profile holds in both.  Counters ([usize] that
    only count) are [nat].  [Runner.run_loop] takes fuel and returns [None] when it does not
    reach the halt; its theorems hold for every fuel.  The loops of the pseudo-LRU tree, of the
    sorting programs and of the matrix product recurse on a bound that their theorems show to
    be enough, as the results are those of the finished loops.

    ** Not modelled

    Parsing of options ([clap]) and serialisation ([serde_json]), which are third-party: the
    options are an argument and the JSON text a parameter.  The guest's entry stub, which is
    assembly, its build script and the layout of its linker script, whose symbols are a
    parameter.  The bytes of the guest's memory (a vector is its block and its elements; what
    the start-up writes is a list of writes), and the compilation of the guest to machine
    code: [Guest.v] and the theorems on the processor speak of the same program on two levels
    that no theorem joins.  The plotting and sweep scripts, and the placeholder files
    [konata_log_dumper.rs] and [shell.rs], which are empty.  The answers of the random
    generator (a function of the ranges asked of it so far), the ELF parser and the texts that
    [core] and [alloc] give panics are parameters.

    ** Plan

    The operations that the sources define are modelled.  Left are relaxations of hypotheses:
    a region that IF may fetch from only on wrong paths, so that data may follow the code
    directly. *)
From stdpp Require Import base gmap list numbers sorting.
From Stdlib Require Import Lia.

(** * Panics

    A Rust operation either returns or panics.  [exec] is the type of such an
    outcome; the constructors of [panic] say which kind of check failed. *)

Inductive panic :=
  | PAssert        (* assert!, assert_eq! *)
  | PIndex         (* slice or array index out of range, slice length mismatch *)
  | POverflow      (* arithmetic or shift overflow, with overflow checks on *)
  | PUnwrap        (* Option::unwrap / expect on None, Result::unwrap on Err *)
  | PDivZero       (* division or remainder by zero *)
  | PExplicit      (* panic!(...) *)
  | PTodo          (* todo!() *)
  | PUnreachable.  (* unreachable!() *)

#[export] Instance panic_eq_dec : EqDecision panic.
Proof. solve_decision. Defined.

Inductive exec (A : Type) :=
  | Ret (a : A)
  | Panic (p : panic).
Arguments Ret {A} a.
Arguments Panic {A} p.

#[export] Instance exec_ret : MRet exec := @Ret.
#[export] Instance exec_bind : MBind exec := λ A B f m,
  match m with Ret a => f a | Panic p => Panic p end.
#[export] Instance exec_fmap : FMap exec := λ A B f m,
  match m with Ret a => Ret (f a) | Panic p => Panic p end.

(** Rust's [Result]. *)
Inductive Result (A E : Type) :=
  | Ok (a : A)
  | Err (e : E).
Arguments Ok {A E} a.
Arguments Err {A E} e.

#[export] Instance Result_eq_dec {A E} `{EqDecision A, EqDecision E} : EqDecision (Result A E).
Proof. solve_decision. Defined.

(** The [?] operator, and [map_err]. *)
Definition result_bind {A B E} (r : Result A E) (f : A → Result B E) : Result B E :=
  match r with Ok a => f a | Err e => Err e end.
Definition map_err {A E F} (f : E → F) (r : Result A E) : Result A F :=
  match r with Ok a => Ok a | Err e => Err (f e) end.

Declare Scope sim_scope.
Notation "'let?' x := r 'in' k" := (result_bind r (λ x, k))
  (at level 10, x pattern, r at level 100, k at level 200) : sim_scope.
#[global] Open Scope sim_scope.

(** [assert!(b)], [unwrap] and [expect]. *)
Definition assert_ (b : bool) : exec unit := if b then Ret tt else Panic PAssert.
Definition unwrap {A} (o : option A) : exec A :=
  match o with Some a => Ret a | None => Panic PUnwrap end.

Definition is_ret {A} (m : exec A) : bool := match m with Ret _ => true | Panic _ => false end.

(** * Indexing and slices *)

(** [l[i]] *)
Definition index {A} (l : list A) (i : nat) : exec A :=
  match l !! i with Some x => Ret x | None => Panic PIndex end.
(** [l[i] = x] *)
Definition set_index {A} (l : list A) (i : nat) (x : A) : exec (list A) :=
  if decide (i < length l) then Ret (<[i:=x]> l) else Panic PIndex.
(** [&l[a..a+n]] *)
Definition slice {A} (l : list A) (a n : nat) : exec (list A) :=
  if decide (a + n ≤ length l) then Ret (take n (drop a l)) else Panic PIndex.
(** [l[a..a+n].clone_from_slice(d)] *)
Definition write_slice {A} (l : list A) (a n : nat) (d : list A) : exec (list A) :=
  if decide (a + n ≤ length l ∧ length d = n)
  then Ret (take a l ++ d ++ drop (a + n) l) else Panic PIndex.

(** * Rewriting equations and inversion *)

Section exec_facts.
Context {A B : Type}.

Lemma bind_Ret (a : A) (f : A → exec B) : (Ret a ≫= f) = f a.
Proof. reflexivity. Qed.

Lemma Ret_inj (a b : A) : Ret a = Ret b → a = b.
Proof. by intros [= ->]. Qed.

Lemma bind_inv (m : exec A) (f : A → exec B) b :
  (m ≫= f) = Ret b → ∃ a, m = Ret a ∧ f a = Ret b.
Proof. destruct m as [a|]; [by exists a | done]. Qed.

Lemma assert_inv b u : assert_ b = Ret u → b = true.
Proof. by destruct b. Qed.

Lemma unwrap_inv (o : option A) a : unwrap o = Ret a → o = Some a.
Proof. destruct o; simpl; congruence. Qed.

Lemma index_inv (l : list A) i x : index l i = Ret x → l !! i = Some x.
Proof. unfold index. destruct (l !! i); congruence. Qed.

Lemma index_Ret (l : list A) i x : l !! i = Some x → index l i = Ret x.
Proof. unfold index. by intros ->. Qed.

Lemma set_index_inv (l l' : list A) i x :
  set_index l i x = Ret l' → i < length l ∧ l' = <[i:=x]> l.
Proof. unfold set_index. case_decide; [intros [= <-]; done | done]. Qed.

Lemma set_index_Ret (l : list A) i x :
  i < length l → set_index l i x = Ret (<[i:=x]> l).
Proof. intros. unfold set_index. by rewrite decide_True. Qed.

Lemma slice_inv (l d : list A) a n :
  slice l a n = Ret d → a + n ≤ length l ∧ d = take n (drop a l).
Proof. unfold slice. case_decide; [intros [= <-]; done | done]. Qed.

Lemma slice_Ret (l : list A) a n :
  a + n ≤ length l → slice l a n = Ret (take n (drop a l)).
Proof. intros. unfold slice. by rewrite decide_True. Qed.

Lemma write_slice_inv (l d l' : list A) a n :
  write_slice l a n d = Ret l' →
  a + n ≤ length l ∧ length d = n ∧ l' = take a l ++ d ++ drop (a + n) l.
Proof. unfold write_slice. case_decide; [intros [= <-]; naive_solver | done]. Qed.

Lemma write_slice_Ret (l d : list A) a n :
  a + n ≤ length l → length d = n →
  write_slice l a n d = Ret (take a l ++ d ++ drop (a + n) l).
Proof. intros. unfold write_slice. by rewrite decide_True. Qed.

Lemma length_write_slice (l d : list A) a n :
  a + n ≤ length l → length d = n →
  length (take a l ++ d ++ drop (a + n) l) = length l.
Proof. intros. rewrite !length_app, length_take, length_drop. lia. Qed.

Lemma length_slice (l : list A) a n :
  a + n ≤ length l → length (take n (drop a l)) = n.
Proof. intros. rewrite length_take, length_drop. lia. Qed.

Lemma lookup_slice (l : list A) a n i :
  i < n → take n (drop a l) !! i = l !! (a + i).
Proof. intros. by rewrite lookup_take_lt, lookup_drop. Qed.

Lemma lookup_write_slice (l d : list A) a n i :
  a + n ≤ length l → length d = n →
  (take a l ++ d ++ drop (a + n) l) !! i =
    if decide (a ≤ i < a + n) then d !! (i - a) else l !! i.
Proof.
  intros Hl Hd. case_decide.
  - rewrite lookup_app_r by (rewrite length_take; lia).
    rewrite length_take, lookup_app_l by lia. f_equal; lia.
  - destruct (decide (i < a)).
    + rewrite lookup_app_l by (rewrite length_take; lia). by rewrite lookup_take_lt.
    + rewrite lookup_app_r by (rewrite length_take; lia).
      rewrite length_take, lookup_app_r by lia.
      rewrite lookup_drop. f_equal; lia.
Qed.
End exec_facts.

(** [exec_inv] breaks a hypothesis [m ≫= f = Ret r] into the run of each part. *)
Ltac exec_inv_step :=
  match goal with
  | H : (_ ≫= _) = Ret _ |- _ =>
      let E := fresh "E" in apply bind_inv in H as (? & E & H)
  | H : Ret _ = Ret _ |- _ => injection H as H
  | H : mret _ = Ret _ |- _ => injection H as H
  | H : Panic _ = Ret _ |- _ => discriminate H
  | H : assert_ _ = Ret _ |- _ => apply assert_inv in H
  | H : unwrap _ = Ret _ |- _ => apply unwrap_inv in H
  | H : index _ _ = Ret _ |- _ => apply index_inv in H
  | H : set_index _ _ _ = Ret _ |- _ => apply set_index_inv in H as [? ?]
  | H : slice _ _ _ = Ret _ |- _ => apply slice_inv in H as [? ?]
  | H : write_slice _ _ _ _ = Ret _ |- _ => apply write_slice_inv in H as (? & ? & ?)
  end.
Ltac exec_inv := repeat (exec_inv_step; simplify_eq/=).

Create HintDb sim.
