(* ===== verification/Word.v ===== *)
(** Machine words: the fixed-width integers of the Rust sources as [Z], with
    wrap-around and the overflow checks of the build profile written out, and
    little-endian byte strings. *)
From S2P Require Import Prelude.
From stdpp Require Import base list numbers.
From Stdlib Require Import Lia.
#[local] Open Scope Z_scope.

(** * Build profile

    Rust arithmetic [a + b], [a - b], [a << n] panics on overflow when overflow
    checks are compiled in (the dev and test profiles) and wraps otherwise (the
    release profile).  Every definition that uses such arithmetic takes the
    profile as an instance argument, so theorems say which profile they need. *)
Class Profile := overflow_checks : bool.
Definition dev_profile : Profile := true.
Definition release_profile : Profile := false.

(** * Ranges and casts *)

Definition in_range (w z : Z) : Prop := 0 ≤ z < 2 ^ w.
Abbreviation is_u8 := (in_range 8).
Abbreviation is_u32 := (in_range 32).
Abbreviation is_usize := (in_range 64).

#[export] Instance in_range_dec w z : Decision (in_range w z).
Proof. unfold in_range. apply _. Defined.

(** [x as u8], [x as u16], [x as u32] *)
Definition wrap (w z : Z) : Z := z mod 2 ^ w.
Abbreviation as_u8 := (wrap 8).
Abbreviation as_u16 := (wrap 16).
Abbreviation as_u32 := (wrap 32).

(** [x as i8/i16/i32] of an unsigned word of the same width. *)
Definition signed (w z : Z) : Z := if z <? 2 ^ (w - 1) then z else z - 2 ^ w.
Abbreviation as_i8 := (signed 8).
Abbreviation as_i16 := (signed 16).
Abbreviation as_i32 := (signed 32).

(** * Arithmetic with the profile's overflow behaviour *)

Section ops.
Context `{Profile}.

(** [a + b], [a - b], [a * b] on unsigned words of [w] bits *)
Definition narrow (w z : Z) : exec Z :=
  if (0 <=? z) && (z <? 2 ^ w) then Ret z
  else if overflow_checks then Panic POverflow else Ret (wrap w z).
Definition word_add (w a b : Z) : exec Z := narrow w (a + b).
Definition word_sub (w a b : Z) : exec Z := narrow w (a - b).

(** [a << n], [a >> n]: without checks the shift amount is masked to the width *)
Definition word_shl (w a n : Z) : exec Z :=
  if (0 <=? n) && (n <? w) then Ret (wrap w (Z.shiftl a n))
  else if overflow_checks then Panic POverflow else Ret (wrap w (Z.shiftl a (n mod w))).
Definition word_shr (w a n : Z) : exec Z :=
  if (0 <=? n) && (n <? w) then Ret (Z.shiftr a n)
  else if overflow_checks then Panic POverflow else Ret (Z.shiftr a (n mod w)).
End ops.

(** [!a] on words of [w] bits *)
Definition word_not (w a : Z) : Z := 2 ^ w - 1 - a.

(** [usize::is_power_of_two], [usize::ilog2] (of a positive number) *)
Definition is_power_of_two (n : Z) : bool := (0 <? n) && (2 ^ Z.log2 n =? n).
Definition ilog2 (n : Z) : Z := Z.log2 n.

(** * Little-endian bytes *)

(** [u32::from_le_bytes], for any number of bytes; an element of the array is a [u8] *)
Fixpoint from_le_bytes (bs : list Z) : Z :=
  match bs with
  | [] => 0
  | b :: bs => as_u8 b + 256 * from_le_bytes bs
  end.
(** [x.to_le_bytes()[..n]] *)
Fixpoint to_le_bytes (n : nat) (x : Z) : list Z :=
  match n with
  | O => []
  | S n => x mod 256 :: to_le_bytes n (x / 256)
  end.

Definition bytes_ok (bs : list Z) : Prop := Forall is_u8 bs.

(** * Facts *)

Section range_facts.
Lemma wrap_range w z : 0 ≤ w → in_range w (wrap w z).
Proof. intros. unfold in_range, wrap. apply Z.mod_pos_bound. lia. Qed.

Lemma wrap_id w z : in_range w z → wrap w z = z.
Proof. unfold in_range, wrap. intros. apply Z.mod_small. lia. Qed.

Lemma wrap_wrap w z : 0 ≤ w → wrap w (wrap w z) = wrap w z.
Proof. intros. apply wrap_id, wrap_range. lia. Qed.

Lemma signed_range w z :
  1 ≤ w → in_range w z → - 2 ^ (w - 1) ≤ signed w z < 2 ^ (w - 1).
Proof.
  unfold in_range, signed. intros Hw Hz.
  assert (2 ^ w = 2 * 2 ^ (w - 1)) by (rewrite <- Z.pow_succ_r by lia; f_equal; lia).
  destruct (Z.ltb_spec z (2 ^ (w - 1))); lia.
Qed.

Lemma signed_mod w z : 1 ≤ w → wrap w (signed w z) = wrap w z.
Proof.
  intros. unfold signed, wrap. destruct (_ <? _); [done|].
  rewrite <- Zminus_mod_idemp_r, Z_mod_same_full, Z.sub_0_r. done.
Qed.

Lemma wrap_signed w z : 1 ≤ w → in_range w z → wrap w (signed w z) = z.
Proof. intros. rewrite signed_mod by done. by apply wrap_id. Qed.

Lemma signed_wrap w z :
  1 ≤ w → - 2 ^ (w - 1) ≤ z < 2 ^ (w - 1) → signed w (wrap w z) = z.
Proof.
  intros Hw Hz. unfold signed, wrap.
  assert (Ew : 2 ^ w = 2 * 2 ^ (w - 1)) by (rewrite <- Z.pow_succ_r by lia; f_equal; lia).
  destruct (decide (0 ≤ z)).
  - rewrite Z.mod_small by lia. by rewrite (proj2 (Z.ltb_lt _ _)) by lia.
  - replace (z mod 2 ^ w) with (z + 2 ^ w)
      by (rewrite <- (Z.mod_small (z + 2 ^ w) (2 ^ w)), <- (Z_mod_plus_full z 1) by lia; f_equal; lia).
    rewrite (proj2 (Z.ltb_ge _ _)) by lia. lia.
Qed.

Lemma signed_inj w a b :
  1 ≤ w → in_range w a → in_range w b → signed w a = signed w b → a = b.
Proof. intros Hw Ha Hb E. rewrite <- (wrap_signed w a), <- (wrap_signed w b) by done. by f_equal. Qed.

Lemma is_power_of_two_spec n : is_power_of_two n = true ↔ ∃ k, 0 ≤ k ∧ n = 2 ^ k.
Proof.
  unfold is_power_of_two. rewrite andb_true_iff, Z.ltb_lt, Z.eqb_eq. split.
  - intros [? ?]. exists (Z.log2 n). split; [apply Z.log2_nonneg | done].
  - intros (k & ? & ->). rewrite Z.log2_pow2 by done. lia.
Qed.

Lemma ilog2_pow2 k : 0 ≤ k → ilog2 (2 ^ k) = k.
Proof. apply Z.log2_pow2. Qed.
End range_facts.

Section ops_facts.
Context `{Profile}.

Lemma narrow_Ret w z : in_range w z → narrow w z = Ret z.
Proof.
  unfold narrow, in_range. intros [? ?].
  rewrite (proj2 (Z.leb_le _ _)), (proj2 (Z.ltb_lt _ _)) by lia. done.
Qed.
Lemma narrow_inv w z r : 0 ≤ w → narrow w z = Ret r → r = wrap w z ∧ in_range w r.
Proof.
  unfold narrow. intros Hw.
  destruct ((0 <=? z) && (z <? 2 ^ w)) eqn:E.
  - apply andb_true_iff in E as [E1 E2]. apply Z.leb_le in E1. apply Z.ltb_lt in E2.
    intros [= <-]. split; [symmetry; apply wrap_id|]; unfold in_range; lia.
  - destruct overflow_checks; [done|]. intros [= <-]. split; [done|]. by apply wrap_range.
Qed.
Lemma word_shl_Ret w a n : 0 ≤ n < w → word_shl w a n = Ret (wrap w (Z.shiftl a n)).
Proof.
  unfold word_shl. intros.
  rewrite (proj2 (Z.leb_le _ _)), (proj2 (Z.ltb_lt _ _)) by lia. done.
Qed.
Lemma word_shr_Ret w a n : 0 ≤ n < w → word_shr w a n = Ret (Z.shiftr a n).
Proof.
  unfold word_shr. intros.
  rewrite (proj2 (Z.leb_le _ _)), (proj2 (Z.ltb_lt _ _)) by lia. done.
Qed.
End ops_facts.

Section bytes_facts.
Lemma length_to_le_bytes n x : length (to_le_bytes n x) = n.
Proof. revert x. induction n; intros; simpl; auto. Qed.

Lemma to_le_bytes_ok n x : bytes_ok (to_le_bytes n x).
Proof.
  revert x. induction n; intros; simpl; constructor; [|apply IHn].
  unfold in_range. pose proof (Z.mod_pos_bound x 256). lia.
Qed.

Lemma from_le_bytes_bound bs : 0 ≤ from_le_bytes bs < 256 ^ Z.of_nat (length bs).
Proof.
  induction bs as [|b bs IH]; [simpl; lia|].
  cbn [from_le_bytes length]. rewrite Nat2Z.inj_succ, Z.pow_succ_r by lia.
  pose proof (wrap_range 8 b). unfold in_range in *. lia.
Qed.

Lemma from_le_bytes_u32 bs : (length bs ≤ 4)%nat → is_u32 (from_le_bytes bs).
Proof.
  intros. pose proof (from_le_bytes_bound bs).
  assert (256 ^ Z.of_nat (length bs) ≤ 256 ^ 4) by (apply Z.pow_le_mono_r; lia).
  split; lia.
Qed.

Lemma from_to_le_bytes n x : from_le_bytes (to_le_bytes n x) = x mod 256 ^ Z.of_nat n.
Proof.
  revert x. induction n as [|n IH]; intros x.
  - simpl. symmetry. apply Z.mod_1_r.
  - cbn [to_le_bytes from_le_bytes]. unfold wrap. change (2 ^ 8) with 256.
    rewrite IH, Nat2Z.inj_succ, Z.pow_succ_r, Z.mod_mod by lia.
    rewrite Z.rem_mul_r by lia. done.
Qed.

Lemma to_from_le_bytes bs : bytes_ok bs → to_le_bytes (length bs) (from_le_bytes bs) = bs.
Proof.
  induction 1 as [|b bs Hb _ IH]; [done|].
  cbn [from_le_bytes length to_le_bytes]. rewrite wrap_id by done. unfold in_range in Hb.
  replace (b + 256 * from_le_bytes bs) with (from_le_bytes bs * 256 + b) by lia.
  rewrite Z.div_add_l, (Z.div_small b), Z.add_0_r, IH by lia.
  by rewrite Z.add_comm, Z_mod_plus_full, Z.mod_small by lia.
Qed.

Lemma from_le_bytes_app bs1 bs2 :
  from_le_bytes (bs1 ++ bs2) =
    from_le_bytes bs1 + 256 ^ Z.of_nat (length bs1) * from_le_bytes bs2.
Proof.
  induction bs1 as [|b bs1 IH]; [simpl from_le_bytes; simpl length; lia|].
  cbn [app from_le_bytes length]. rewrite IH, Nat2Z.inj_succ, Z.pow_succ_r by lia. lia.
Qed.

Lemma from_le_bytes_zeros n : from_le_bytes (replicate n 0) = 0.
Proof. induction n as [|n IH]; [done|]. cbn [replicate from_le_bytes]. by rewrite IH. Qed.
End bytes_facts.

#[export] Hint Resolve wrap_range wrap_id to_le_bytes_ok : sim.
