(* ===== verification/Format.v ===== *)
(** The six RISC-V instruction formats of [simulator/src/riscv/format_types.rs]:
    a raw 32-bit word and the accessors that slice its fields. *)
From S2P Require Import Prelude Word.
From stdpp Require Import base list numbers.
From Stdlib Require Import Lia.
#[local] Open Scope Z_scope.

Section helper.
Context `{Profile}.

Definition sign_ext_helper (data bit_width : Z) : exec Z :=
  _ ← assert_ (bit_width <=? 32);
  shamt ← word_sub 64 32 bit_width;
  d ← word_shl 32 data shamt;
  mret (as_u32 (Z.shiftr (as_i32 d) shamt)).
End helper.

Record RType_ := RType { r_0 : Z }.
Record IType_ := IType { i_0 : Z }.
Record SType_ := SType { s_0 : Z }.
Record BType_ := BType { b_0 : Z }.
Record UType_ := UType { u_0 : Z }.
Record JType_ := JType { j_0 : Z }.

Module R.
Definition rs1 (x : RType_) : Z := as_u8 (Z.land (Z.shiftr (r_0 x) 15) 31).
Definition rs2 (x : RType_) : Z := as_u8 (Z.land (Z.shiftr (r_0 x) 20) 31).
Definition rd (x : RType_) : Z := as_u8 (Z.land (Z.shiftr (r_0 x) 7) 31).
Definition func3 (x : RType_) : Z := as_u8 (Z.land (Z.shiftr (r_0 x) 12) 7).
Definition func7 (x : RType_) : Z := as_u8 (Z.land (Z.shiftr (r_0 x) 25) 127).
End R.

Module I.
Definition rs1 (x : IType_) : Z := as_u8 (Z.land (Z.shiftr (i_0 x) 15) 31).
Definition imm11_0 (x : IType_) : Z := Z.shiftr (i_0 x) 20.
Definition rd (x : IType_) : Z := as_u8 (Z.land (Z.shiftr (i_0 x) 7) 31).
Definition func3 (x : IType_) : Z := as_u8 (Z.land (Z.shiftr (i_0 x) 12) 7).
Definition imm_sign_ext `{Profile} (x : IType_) : exec Z := sign_ext_helper (imm11_0 x) 12.
End I.

Module S.
Definition rs1 (x : SType_) : Z := as_u8 (Z.land (Z.shiftr (s_0 x) 15) 31).
Definition rs2 (x : SType_) : Z := as_u8 (Z.land (Z.shiftr (s_0 x) 20) 31).
Definition imm4_0 (x : SType_) : Z := Z.land (Z.shiftr (s_0 x) 7) 31.
Definition imm11_5 (x : SType_) : Z := Z.shiftr (s_0 x) 25.
Definition func3 (x : SType_) : Z := as_u8 (Z.land (Z.shiftr (s_0 x) 12) 7).
Definition sign_ext `{Profile} (x : SType_) : exec Z :=
  hi ← word_shl 32 (imm11_5 x) 5;
  origin_imm ← word_add 32 hi (imm4_0 x);
  sign_ext_helper origin_imm 12.
End S.

Module B.
Definition func3 (x : BType_) : Z := as_u8 (Z.land (Z.shiftr (b_0 x) 12) 7).
Definition rs1 (x : BType_) : Z := as_u8 (Z.land (Z.shiftr (b_0 x) 15) 31).
Definition rs2 (x : BType_) : Z := as_u8 (Z.land (Z.shiftr (b_0 x) 20) 31).
Definition imm11 (x : BType_) : Z := Z.land (Z.shiftr (b_0 x) 7) 1.
Definition imm4_1 (x : BType_) : Z := Z.land (Z.shiftr (b_0 x) 8) 15.
Definition imm10_5 (x : BType_) : Z := Z.land (Z.shiftr (b_0 x) 25) 63.
Definition imm12 (x : BType_) : Z := Z.shiftr (b_0 x) 31.
Definition sign_ext `{Profile} (x : BType_) : exec Z :=
  b12 ← word_shl 32 (imm12 x) 12;
  b11 ← word_shl 32 (imm11 x) 11;
  b10 ← word_shl 32 (imm10_5 x) 5;
  b4 ← word_shl 32 (imm4_1 x) 1;
  t ← word_add 32 b12 b11;
  t ← word_add 32 t b10;
  origin_imm ← word_add 32 t b4;
  sign_ext_helper origin_imm 13.
End B.

Module U.
Definition rd (x : UType_) : Z := as_u8 (Z.land (Z.shiftr (u_0 x) 7) 31).
Definition imm31_12 (x : UType_) : Z := Z.shiftr (u_0 x) 12.
Definition sign_ext `{Profile} (x : UType_) : exec Z := word_shl 32 (imm31_12 x) 12.
End U.

Module J.
Definition rd (x : JType_) : Z := as_u8 (Z.land (Z.shiftr (j_0 x) 7) 31).
Definition imm19_12 (x : JType_) : Z := Z.land (Z.shiftr (j_0 x) 12) 255.
Definition imm11 (x : JType_) : Z := Z.land (Z.shiftr (j_0 x) 20) 1.
Definition imm10_1 (x : JType_) : Z := Z.land (Z.shiftr (j_0 x) 21) 1023.
Definition imm20 (x : JType_) : Z := Z.shiftr (j_0 x) 31.
Definition sign_ext `{Profile} (x : JType_) : exec Z :=
  b20 ← word_shl 32 (imm20 x) 20;
  b19 ← word_shl 32 (imm19_12 x) 12;
  b11 ← word_shl 32 (imm11 x) 11;
  b10 ← word_shl 32 (imm10_1 x) 1;
  t ← word_add 32 b20 b19;
  t ← word_add 32 t b11;
  origin_imm ← word_add 32 t b10;
  sign_ext_helper origin_imm 21.
End J.

(** * Reference encoders

    The bit layouts of the RISC-V base formats (Unprivileged ISA, chapter 2),
    as sums of shifted fields.  [imm] arguments of the S, B, U and J encoders are
    signed byte offsets (B and J: even). *)

Definition bits (z lo n : Z) : Z := (z / 2 ^ lo) mod 2 ^ n.

Definition encode_R (func7 rs2 rs1 func3 rd opcode : Z) : Z :=
  func7 * 2 ^ 25 + rs2 * 2 ^ 20 + rs1 * 2 ^ 15 + func3 * 2 ^ 12 + rd * 2 ^ 7 + opcode.
Definition encode_I (imm rs1 func3 rd opcode : Z) : Z :=
  bits imm 0 12 * 2 ^ 20 + rs1 * 2 ^ 15 + func3 * 2 ^ 12 + rd * 2 ^ 7 + opcode.
Definition encode_S (imm rs2 rs1 func3 opcode : Z) : Z :=
  bits imm 5 7 * 2 ^ 25 + rs2 * 2 ^ 20 + rs1 * 2 ^ 15 + func3 * 2 ^ 12
  + bits imm 0 5 * 2 ^ 7 + opcode.
Definition encode_B (imm rs2 rs1 func3 opcode : Z) : Z :=
  bits imm 12 1 * 2 ^ 31 + bits imm 5 6 * 2 ^ 25 + rs2 * 2 ^ 20 + rs1 * 2 ^ 15
  + func3 * 2 ^ 12 + bits imm 1 4 * 2 ^ 8 + bits imm 11 1 * 2 ^ 7 + opcode.
Definition encode_U (imm20 rd opcode : Z) : Z := imm20 * 2 ^ 12 + rd * 2 ^ 7 + opcode.
Definition encode_J (imm rd opcode : Z) : Z :=
  bits imm 20 1 * 2 ^ 31 + bits imm 1 10 * 2 ^ 21 + bits imm 11 1 * 2 ^ 20
  + bits imm 12 8 * 2 ^ 12 + rd * 2 ^ 7 + opcode.

(** * Field slicing *)

Lemma land_ones_mod z n : 0 ≤ n → Z.land z (2 ^ n - 1) = z mod 2 ^ n.
Proof. intros. rewrite <- Z.land_ones by done. f_equal. rewrite Z.ones_equiv. lia. Qed.

Lemma field_spec z lo n : 0 ≤ lo → 0 ≤ n ≤ 8 →
  as_u8 (Z.land (Z.shiftr z lo) (2 ^ n - 1)) = bits z lo n.
Proof.
  intros. rewrite land_ones_mod, Z.shiftr_div_pow2 by lia. unfold bits, wrap.
  apply Z.mod_small. pose proof (Z.mod_pos_bound (z / 2 ^ lo) (2 ^ n)).
  pose proof (Z.pow_le_mono_r 2 n 8). lia.
Qed.

Lemma wide_field_spec z lo n : 0 ≤ lo → 0 ≤ n →
  Z.land (Z.shiftr z lo) (2 ^ n - 1) = bits z lo n.
Proof. intros. by rewrite land_ones_mod, Z.shiftr_div_pow2 by lia. Qed.

Lemma top_field_spec z lo : 0 ≤ lo ≤ 32 → is_u32 z → Z.shiftr z lo = bits z lo (32 - lo).
Proof.
  intros Hlo [Hz1 Hz2]. rewrite Z.shiftr_div_pow2 by lia. unfold bits. symmetry. apply Z.mod_small.
  split; [apply Z.div_pos; lia|]. apply Z.div_lt_upper_bound; [lia|].
  rewrite <- Z.pow_add_r by lia. by replace (lo + (32 - lo)) with 32 by lia.
Qed.

Lemma bits_range z lo n : 0 ≤ n → in_range n (bits z lo n).
Proof. intros. unfold bits, in_range. apply Z.mod_pos_bound. lia. Qed.

(** The value of sign extension: the [w]-bit two's complement reading of the
    field, as a 32-bit word; it never panics for the widths the formats use. *)
Lemma sign_ext_helper_spec `{Profile} data w :
  1 ≤ w ≤ 32 → in_range w data →
  sign_ext_helper data w = Ret (as_u32 (signed w data)).
Proof.
  intros Hw [Hd1 Hd2]. unfold sign_ext_helper.
  rewrite (proj2 (Z.leb_le w 32)) by lia. cbn [assert_]. rewrite bind_Ret.
  unfold word_sub. rewrite narrow_Ret by (unfold in_range; lia). rewrite bind_Ret.
  rewrite word_shl_Ret by lia. rewrite bind_Ret. unfold mret, exec_ret. f_equal.
  rewrite Z.shiftl_mul_pow2 by lia.
  assert (E32 : 2 ^ 32 = 2 ^ w * 2 ^ (32 - w)) by (rewrite <- Z.pow_add_r by lia; f_equal; lia).
  assert (E31 : 2 ^ (32 - 1) = 2 ^ (w - 1) * 2 ^ (32 - w))
    by (rewrite <- Z.pow_add_r by lia; f_equal; lia).
  assert (Hs : 0 < 2 ^ (32 - w)) by lia.
  rewrite Z.shiftr_div_pow2 by lia. f_equal. unfold signed. rewrite E31.
  rewrite (wrap_id 32 (data * _)) by
    (split; [lia | rewrite E32; apply Z.mul_lt_mono_pos_r; lia]).
  rewrite E32. clear E31 E32. set (s := 2 ^ (32 - w)) in *.
  destruct (Z.ltb_spec data (2 ^ (w - 1))).
  - rewrite (proj2 (Z.ltb_lt _ _)) by nia. by rewrite Z.div_mul by lia.
  - rewrite (proj2 (Z.ltb_ge _ _)) by nia. rewrite <- Z.mul_sub_distr_r.
    by rewrite Z.div_mul by lia.
Qed.

(** Reassembling two adjacent fields. *)
Lemma bits_split z lo n m : 0 ≤ lo → 0 ≤ n → 0 ≤ m →
  bits z lo n + 2 ^ n * bits z (lo + n) m = bits z lo (n + m).
Proof.
  intros. unfold bits. rewrite (Z.pow_add_r 2 lo n), <- Z.div_div by lia.
  rewrite (Z.pow_add_r 2 n m) by lia. rewrite Z.rem_mul_r by lia. lia.
Qed.

(** Sign extension of the low [w] bits of an offset that fits in [w] bits. *)
Lemma signed_bits imm w :
  1 ≤ w → - 2 ^ (w - 1) ≤ imm < 2 ^ (w - 1) → signed w (bits imm 0 w) = imm.
Proof. intros. unfold bits. rewrite Z.div_1_r. by apply signed_wrap. Qed.

(** A sub-field of a field. *)
Lemma bits_of_bits z lo n a m : 0 ≤ lo → 0 ≤ a → 0 ≤ m → a + m ≤ n →
  bits (bits z lo n) a m = bits z (lo + a) m.
Proof.
  intros. unfold bits. rewrite (Z.pow_add_r 2 lo a), <- Z.div_div by lia.
  replace n with (a + (n - a)) by lia. set (y := z / 2 ^ lo).
  rewrite (Z.pow_add_r 2 a (n - a)), Z.rem_mul_r by lia.
  rewrite (Z.mul_comm (2 ^ a)), Z.div_add, (Z.div_small (y mod _)), Z.add_0_l
    by (first [lia | apply Z.mod_pos_bound; lia]).
  replace (n - a) with (m + (n - a - m)) by lia.
  rewrite (Z.pow_add_r 2 m), Z.rem_mul_r by lia.
  rewrite (Z.mul_comm (2 ^ m)), Z_mod_plus_full, Z.mod_mod by lia. done.
Qed.
