(* ===== verification/Instruction.v ===== *)
(** Opcodes and instruction decoding: [simulator/src/riscv/encoding.rs] and
    [simulator/src/riscv/instruction.rs], with a reference assembler for the
    RV32IM instructions the simulator supports. *)
From S2P Require Import Prelude Word Format.
From stdpp Require Import base list numbers.
From Stdlib Require Import Lia.
#[local] Open Scope Z_scope.

Module OpcodeMap.
Inductive t :=
  | Op | OpImm | Load | Store | Branch | Jal | Jalr | Lui | Auipc | MiscMem | System.

#[export] Instance t_eq_dec : EqDecision t.
Proof. solve_decision. Defined.

Definition try_from (value : Z) : Result t unit :=
  match value with
  | 51 => Ok Op
  | 19 => Ok OpImm
  | 3 => Ok Load
  | 35 => Ok Store
  | 99 => Ok Branch
  | 111 => Ok Jal
  | 103 => Ok Jalr
  | 55 => Ok Lui
  | 23 => Ok Auipc
  | 15 => Ok MiscMem
  | 115 => Ok System
  | _ => Err tt
  end.
End OpcodeMap.

Module Inst.
Inductive t :=
(* LUI, AUIPC, JAL, JALR *)
| Lui (i : UType_) | Auipc (i : UType_) | Jal (i : JType_) | Jalr (i : IType_)
(* BRANCH *)
| Beq (i : BType_) | Bne (i : BType_) | Blt (i : BType_) | Bge (i : BType_)
| Bltu (i : BType_) | Bgeu (i : BType_)
(* LOAD *)
| Lb (i : IType_) | Lh (i : IType_) | Lw (i : IType_) | Lbu (i : IType_) | Lhu (i : IType_)
(* STORE *)
| Sb (i : SType_) | Sh (i : SType_) | Sw (i : SType_)
(* OP-IMM *)
| Addi (i : IType_) | Slti (i : IType_) | Sltiu (i : IType_) | Xori (i : IType_)
| Ori (i : IType_) | Andi (i : IType_) | Slli (i : IType_) | Srli (i : IType_)
| Srai (i : IType_)
(* OP: base and M extension *)
| Add (i : RType_) | Sub (i : RType_) | Sll (i : RType_) | Slt (i : RType_)
| Sltu (i : RType_) | Xor (i : RType_) | Srl (i : RType_) | Sra (i : RType_)
| Or (i : RType_) | And (i : RType_) | Mul (i : RType_) | Mulh (i : RType_)
| Mulhsu (i : RType_) | Mulhu (i : RType_) | Div (i : RType_) | Divu (i : RType_)
| Rem (i : RType_) | Remu (i : RType_)
(* SYSTEM *)
| Fence (i : IType_) | Ecall (i : IType_)
| Illegal (raw : Z).

Definition default : t := Illegal 0.

(** the raw word an instruction carries *)
Definition raw (i : t) : Z :=
  match i with
  | Lui x | Auipc x => u_0 x
  | Jal x => j_0 x
  | Beq x | Bne x | Blt x | Bge x | Bltu x | Bgeu x => b_0 x
  | Jalr x | Lb x | Lh x | Lw x | Lbu x | Lhu x
  | Addi x | Slti x | Sltiu x | Xori x | Ori x | Andi x | Slli x | Srli x | Srai x
  | Fence x | Ecall x => i_0 x
  | Sb x | Sh x | Sw x => s_0 x
  | Add x | Sub x | Sll x | Slt x | Sltu x | Xor x | Srl x | Sra x | Or x | And x
  | Mul x | Mulh x | Mulhsu x | Mulhu x | Div x | Divu x | Rem x | Remu x => r_0 x
  | Illegal r => r
  end.
End Inst.

Definition raw_binary_to_inst (raw_inst : Z) : exec Inst.t :=
  let raw_opcode := as_u8 (Z.land raw_inst 127) in
  match OpcodeMap.try_from raw_opcode with
  | Ok opcode =>
      match opcode with
      | OpcodeMap.Op =>
          let inst := RType raw_inst in
          match R.func3 inst with
          | 0 => match R.func7 inst with
                 | 32 => Ret (Inst.Sub inst)
                 | 0 => Ret (Inst.Add inst)
                 | 1 => Ret (Inst.Mul inst)
                 | _ => Ret (Inst.Illegal raw_inst)
                 end
          | 1 => match R.func7 inst with
                 | 0 => Ret (Inst.Sll inst)
                 | 1 => Ret (Inst.Mulh inst)
                 | _ => Ret (Inst.Illegal raw_inst)
                 end
          | 2 => match R.func7 inst with
                 | 0 => Ret (Inst.Slt inst)
                 | 1 => Ret (Inst.Mulhsu inst)
                 | _ => Ret (Inst.Illegal raw_inst)
                 end
          | 3 => match R.func7 inst with
                 | 0 => Ret (Inst.Sltu inst)
                 | 1 => Ret (Inst.Mulhu inst)
                 | _ => Ret (Inst.Illegal raw_inst)
                 end
          | 4 => match R.func7 inst with
                 | 0 => Ret (Inst.Xor inst)
                 | 1 => Ret (Inst.Div inst)
                 | _ => Ret (Inst.Illegal raw_inst)
                 end
          | 5 => match R.func7 inst with
                 | 0 => Ret (Inst.Srl inst)
                 | 32 => Ret (Inst.Sra inst)
                 | 1 => Ret (Inst.Divu inst)
                 | _ => Ret (Inst.Illegal raw_inst)
                 end
          | 6 => match R.func7 inst with
                 | 0 => Ret (Inst.Or inst)
                 | 1 => Ret (Inst.Rem inst)
                 | _ => Ret (Inst.Illegal raw_inst)
                 end
          | 7 => match R.func7 inst with
                 | 0 => Ret (Inst.And inst)
                 | 1 => Ret (Inst.Remu inst)
                 | _ => Ret (Inst.Illegal raw_inst)
                 end
          | _ => Panic PUnreachable
          end
      | OpcodeMap.OpImm =>
          let inst := IType raw_inst in
          match I.func3 inst with
          | 0 => Ret (Inst.Addi inst)
          | 2 => Ret (Inst.Slti inst)
          | 3 => Ret (Inst.Sltiu inst)
          | 4 => Ret (Inst.Xori inst)
          | 6 => Ret (Inst.Ori inst)
          | 7 => Ret (Inst.Andi inst)
          | 1 => Ret (Inst.Slli inst)
          | 5 => match Z.shiftr (I.imm11_0 inst) 5 with
                 | 0 => Ret (Inst.Srli inst)
                 | 32 => Ret (Inst.Srai inst)
                 | _ => Ret (Inst.Illegal raw_inst)
                 end
          | _ => Panic PUnreachable
          end
      | OpcodeMap.Load =>
          let inst := IType raw_inst in
          match I.func3 inst with
          | 0 => Ret (Inst.Lb inst)
          | 1 => Ret (Inst.Lh inst)
          | 2 => Ret (Inst.Lw inst)
          | 4 => Ret (Inst.Lbu inst)
          | 5 => Ret (Inst.Lhu inst)
          | _ => Ret (Inst.Illegal raw_inst)
          end
      | OpcodeMap.Store =>
          let inst := SType raw_inst in
          match S.func3 inst with
          | 0 => Ret (Inst.Sb inst)
          | 1 => Ret (Inst.Sh inst)
          | 2 => Ret (Inst.Sw inst)
          | _ => Ret (Inst.Illegal raw_inst)
          end
      | OpcodeMap.Branch =>
          let inst := BType raw_inst in
          match B.func3 inst with
          | 0 => Ret (Inst.Beq inst)
          | 1 => Ret (Inst.Bne inst)
          | 4 => Ret (Inst.Blt inst)
          | 5 => Ret (Inst.Bge inst)
          | 6 => Ret (Inst.Bltu inst)
          | 7 => Ret (Inst.Bgeu inst)
          | _ => Ret (Inst.Illegal raw_inst)
          end
      | OpcodeMap.Jal => Ret (Inst.Jal (JType raw_inst))
      | OpcodeMap.Jalr => Ret (Inst.Jalr (IType raw_inst))
      | OpcodeMap.Lui => Ret (Inst.Lui (UType raw_inst))
      | OpcodeMap.Auipc => Ret (Inst.Auipc (UType raw_inst))
      | OpcodeMap.MiscMem => Panic PTodo
      | OpcodeMap.System =>
          let inst := IType raw_inst in
          if I.imm11_0 inst =? 0 then Ret (Inst.Ecall inst) else Ret (Inst.Illegal raw_inst)
      end
  | Err _ => Ret (Inst.Illegal raw_inst)
  end.

(** * Reference assembler

    The supported instructions as an assembly programmer writes them. *)
Module Asm.
Inductive r_op :=
  | ADD | SUB | SLL | SLT | SLTU | XOR | SRL | SRA | OR | AND
  | MUL | MULH | MULHSU | MULHU | DIV | DIVU | REM | REMU.
Inductive i_op := ADDI | SLTI | SLTIU | XORI | ORI | ANDI.
Inductive shift_op := SLLI | SRLI | SRAI.
Inductive load_op := LB | LH | LW | LBU | LHU.
Inductive store_op := SB | SH | SW.
Inductive branch_op := BEQ | BNE | BLT | BGE | BLTU | BGEU.
Inductive u_op := LUI | AUIPC.

Inductive t :=
  | Arith (op : r_op) (rd rs1 rs2 : Z)
  | ArithImm (op : i_op) (rd rs1 imm : Z)
  | Shift (op : shift_op) (rd rs1 shamt : Z)
  | Load (op : load_op) (rd rs1 imm : Z)
  | Store (op : store_op) (rs1 rs2 imm : Z)
  | Branch (op : branch_op) (rs1 rs2 imm : Z)
  | Upper (op : u_op) (rd imm20 : Z)
  | Jal (rd imm : Z)
  | Jalr (rd rs1 imm : Z)
  | Ecall.

Definition func7 (op : r_op) : Z :=
  match op with
  | SUB | SRA => 32
  | MUL | MULH | MULHSU | MULHU | DIV | DIVU | REM | REMU => 1
  | _ => 0
  end.
Definition func3 (op : r_op) : Z :=
  match op with
  | ADD | SUB | MUL => 0
  | SLL | MULH => 1
  | SLT | MULHSU => 2
  | SLTU | MULHU => 3
  | XOR | DIV => 4
  | SRL | SRA | DIVU => 5
  | OR | REM => 6
  | AND | REMU => 7
  end.
Definition i_func3 (op : i_op) : Z :=
  match op with ADDI => 0 | SLTI => 2 | SLTIU => 3 | XORI => 4 | ORI => 6 | ANDI => 7 end.
Definition shift_func3 (op : shift_op) : Z := match op with SLLI => 1 | _ => 5 end.
Definition shift_func7 (op : shift_op) : Z := match op with SRAI => 32 | _ => 0 end.
Definition load_func3 (op : load_op) : Z :=
  match op with LB => 0 | LH => 1 | LW => 2 | LBU => 4 | LHU => 5 end.
Definition store_func3 (op : store_op) : Z := match op with SB => 0 | SH => 1 | SW => 2 end.
Definition branch_func3 (op : branch_op) : Z :=
  match op with BEQ => 0 | BNE => 1 | BLT => 4 | BGE => 5 | BLTU => 6 | BGEU => 7 end.

Definition assemble (a : t) : Z :=
  match a with
  | Arith op rd rs1 rs2 => encode_R (func7 op) rs2 rs1 (func3 op) rd 51
  | ArithImm op rd rs1 imm => encode_I imm rs1 (i_func3 op) rd 19
  | Shift op rd rs1 shamt => encode_I (shift_func7 op * 32 + shamt) rs1 (shift_func3 op) rd 19
  | Load op rd rs1 imm => encode_I imm rs1 (load_func3 op) rd 3
  | Store op rs1 rs2 imm => encode_S imm rs2 rs1 (store_func3 op) 35
  | Branch op rs1 rs2 imm => encode_B imm rs2 rs1 (branch_func3 op) 99
  | Upper op rd imm20 => encode_U imm20 rd (match op with LUI => 55 | AUIPC => 23 end)
  | Jal rd imm => encode_J imm rd 111
  | Jalr rd rs1 imm => encode_I imm rs1 0 rd 103
  | Ecall => 115
  end.

Definition reg (r : Z) : Prop := 0 ≤ r < 32.
Definition valid (a : t) : Prop :=
  match a with
  | Arith _ rd rs1 rs2 => reg rd ∧ reg rs1 ∧ reg rs2
  | ArithImm _ rd rs1 imm | Load _ rd rs1 imm | Jalr rd rs1 imm =>
      reg rd ∧ reg rs1 ∧ -2048 ≤ imm < 2048
  | Shift _ rd rs1 shamt => reg rd ∧ reg rs1 ∧ 0 ≤ shamt < 32
  | Store _ rs1 rs2 imm => reg rs1 ∧ reg rs2 ∧ -2048 ≤ imm < 2048
  | Branch _ rs1 rs2 imm => reg rs1 ∧ reg rs2 ∧ -4096 ≤ imm < 4096 ∧ imm mod 2 = 0
  | Upper _ rd imm20 => reg rd ∧ 0 ≤ imm20 < 2 ^ 20
  | Jal rd imm => reg rd ∧ -1048576 ≤ imm < 1048576 ∧ imm mod 2 = 0
  | Ecall => True
  end.
End Asm.

(** Reading an instruction back through the accessors the simulator uses. *)
Section disassemble.
Context `{Profile}.
Import Asm.

Definition r_asm (op : r_op) (x : RType_) : exec (option Asm.t) :=
  mret (Some (Arith op (R.rd x) (R.rs1 x) (R.rs2 x))).
Definition i_asm (op : i_op) (x : IType_) : exec (option Asm.t) :=
  imm ← I.imm_sign_ext x; mret (Some (ArithImm op (I.rd x) (I.rs1 x) (as_i32 imm))).
Definition shift_asm (op : shift_op) (x : IType_) : exec (option Asm.t) :=
  imm ← I.imm_sign_ext x; mret (Some (Shift op (I.rd x) (I.rs1 x) (Z.land imm 31))).
Definition load_asm (op : load_op) (x : IType_) : exec (option Asm.t) :=
  imm ← I.imm_sign_ext x; mret (Some (Load op (I.rd x) (I.rs1 x) (as_i32 imm))).
Definition store_asm (op : store_op) (x : SType_) : exec (option Asm.t) :=
  imm ← S.sign_ext x; mret (Some (Store op (S.rs1 x) (S.rs2 x) (as_i32 imm))).
Definition branch_asm (op : branch_op) (x : BType_) : exec (option Asm.t) :=
  imm ← B.sign_ext x; mret (Some (Branch op (B.rs1 x) (B.rs2 x) (as_i32 imm))).

Definition disassemble (i : Inst.t) : exec (option Asm.t) :=
  match i with
  | Inst.Lui x => mret (Some (Upper LUI (U.rd x) (U.imm31_12 x)))
  | Inst.Auipc x => mret (Some (Upper AUIPC (U.rd x) (U.imm31_12 x)))
  | Inst.Jal x => imm ← J.sign_ext x; mret (Some (Asm.Jal (J.rd x) (as_i32 imm)))
  | Inst.Jalr x => imm ← I.imm_sign_ext x; mret (Some (Asm.Jalr (I.rd x) (I.rs1 x) (as_i32 imm)))
  | Inst.Beq x => branch_asm BEQ x | Inst.Bne x => branch_asm BNE x
  | Inst.Blt x => branch_asm BLT x | Inst.Bge x => branch_asm BGE x
  | Inst.Bltu x => branch_asm BLTU x | Inst.Bgeu x => branch_asm BGEU x
  | Inst.Lb x => load_asm LB x | Inst.Lh x => load_asm LH x | Inst.Lw x => load_asm LW x
  | Inst.Lbu x => load_asm LBU x | Inst.Lhu x => load_asm LHU x
  | Inst.Sb x => store_asm SB x | Inst.Sh x => store_asm SH x | Inst.Sw x => store_asm SW x
  | Inst.Addi x => i_asm ADDI x | Inst.Slti x => i_asm SLTI x | Inst.Sltiu x => i_asm SLTIU x
  | Inst.Xori x => i_asm XORI x | Inst.Ori x => i_asm ORI x | Inst.Andi x => i_asm ANDI x
  | Inst.Slli x => shift_asm SLLI x | Inst.Srli x => shift_asm SRLI x
  | Inst.Srai x => shift_asm SRAI x
  | Inst.Add x => r_asm ADD x | Inst.Sub x => r_asm SUB x | Inst.Sll x => r_asm SLL x
  | Inst.Slt x => r_asm SLT x | Inst.Sltu x => r_asm SLTU x | Inst.Xor x => r_asm XOR x
  | Inst.Srl x => r_asm SRL x | Inst.Sra x => r_asm SRA x | Inst.Or x => r_asm OR x
  | Inst.And x => r_asm AND x | Inst.Mul x => r_asm MUL x | Inst.Mulh x => r_asm MULH x
  | Inst.Mulhsu x => r_asm MULHSU x | Inst.Mulhu x => r_asm MULHU x
  | Inst.Div x => r_asm DIV x | Inst.Divu x => r_asm DIVU x | Inst.Rem x => r_asm REM x
  | Inst.Remu x => r_asm REMU x
  | Inst.Ecall _ => mret (Some Asm.Ecall)
  | Inst.Fence _ | Inst.Illegal _ => mret None
  end.
End disassemble.

(** * Fields of the encoders

    Every format is an R-type layout whose fields hold pieces of the immediate. *)

Ltac field_solve := unfold bits, in_range in *; Z.div_mod_to_equations; lia.

Lemma encode_R_bits f7 rs2 rs1 f3 rd op :
  in_range 7 f7 → in_range 5 rs2 → in_range 5 rs1 → in_range 3 f3 → in_range 5 rd →
  in_range 7 op → let raw := encode_R f7 rs2 rs1 f3 rd op in
  bits raw 0 7 = op ∧ bits raw 7 5 = rd ∧ bits raw 12 3 = f3 ∧ bits raw 15 5 = rs1 ∧
  bits raw 20 5 = rs2 ∧ bits raw 25 7 = f7 ∧ is_u32 raw.
Proof. intros. subst raw. unfold encode_R. repeat split; field_solve. Qed.

Lemma encode_I_as_R imm rs1 f3 rd op :
  encode_I imm rs1 f3 rd op = encode_R (bits imm 5 7) (bits imm 0 5) rs1 f3 rd op.
Proof.
  unfold encode_I, encode_R.
  assert (E : bits imm 0 5 + 2 ^ 5 * bits imm 5 7 = bits imm 0 12) by (apply (bits_split imm 0 5 7); lia).
  lia.
Qed.

Lemma encode_S_as_R imm rs2 rs1 f3 op :
  encode_S imm rs2 rs1 f3 op = encode_R (bits imm 5 7) rs2 rs1 f3 (bits imm 0 5) op.
Proof. unfold encode_S, encode_R. lia. Qed.

Lemma encode_B_as_R imm rs2 rs1 f3 op :
  encode_B imm rs2 rs1 f3 op =
    encode_R (bits imm 12 1 * 64 + bits imm 5 6) rs2 rs1 f3 (bits imm 1 4 * 2 + bits imm 11 1) op.
Proof. unfold encode_B, encode_R. lia. Qed.

Lemma encode_U_bits imm rd op :
  in_range 20 imm → in_range 5 rd → in_range 7 op → let raw := encode_U imm rd op in
  bits raw 0 7 = op ∧ bits raw 7 5 = rd ∧ bits raw 12 20 = imm ∧ is_u32 raw.
Proof. intros. subst raw. unfold encode_U. repeat split; field_solve. Qed.

Lemma encode_J_bits imm rd op :
  in_range 5 rd → in_range 7 op → let raw := encode_J imm rd op in
  bits raw 0 7 = op ∧ bits raw 7 5 = rd ∧ bits raw 12 8 = bits imm 12 8 ∧
  bits raw 20 1 = bits imm 11 1 ∧ bits raw 21 10 = bits imm 1 10 ∧
  bits raw 31 1 = bits imm 20 1 ∧ is_u32 raw.
Proof.
  intros. subst raw. unfold encode_J.
  pose proof (bits_range imm 12 8). pose proof (bits_range imm 11 1).
  pose proof (bits_range imm 1 10). pose proof (bits_range imm 20 1).
  generalize dependent (bits imm 12 8). generalize dependent (bits imm 11 1).
  generalize dependent (bits imm 1 10). generalize dependent (bits imm 20 1).
  intros. repeat split; field_solve.
Qed.

(** The accessors in terms of [bits]. *)
Section accessors.
Context (z : Z).
Ltac acc :=
  lazymatch goal with
  | |- _ = bits _ ?lo ?n =>
      first [ exact (field_spec z lo n ltac:(lia) ltac:(lia))
            | exact (wide_field_spec z lo n ltac:(lia) ltac:(lia)) ]
  end.

Lemma acc_opcode : as_u8 (Z.land z 127) = bits z 0 7.
Proof. rewrite <- (Z.shiftr_0_r z) at 1. exact (field_spec z 0 7 ltac:(lia) ltac:(lia)). Qed.
Lemma acc_R : R.rs1 (RType z) = bits z 15 5 ∧ R.rs2 (RType z) = bits z 20 5 ∧
  R.rd (RType z) = bits z 7 5 ∧ R.func3 (RType z) = bits z 12 3 ∧ R.func7 (RType z) = bits z 25 7.
Proof. repeat split; acc. Qed.
Lemma acc_I : I.rs1 (IType z) = bits z 15 5 ∧ I.rd (IType z) = bits z 7 5 ∧
  I.func3 (IType z) = bits z 12 3.
Proof. repeat split; acc. Qed.
Lemma acc_S : S.rs1 (SType z) = bits z 15 5 ∧ S.rs2 (SType z) = bits z 20 5 ∧
  S.func3 (SType z) = bits z 12 3 ∧ S.imm4_0 (SType z) = bits z 7 5.
Proof. repeat split; acc. Qed.
Lemma acc_B : B.rs1 (BType z) = bits z 15 5 ∧ B.rs2 (BType z) = bits z 20 5 ∧
  B.func3 (BType z) = bits z 12 3 ∧ B.imm11 (BType z) = bits z 7 1 ∧
  B.imm4_1 (BType z) = bits z 8 4 ∧ B.imm10_5 (BType z) = bits z 25 6.
Proof. repeat split; acc. Qed.
Lemma acc_U : U.rd (UType z) = bits z 7 5.
Proof. acc. Qed.
Lemma acc_J : J.rd (JType z) = bits z 7 5 ∧ J.imm19_12 (JType z) = bits z 12 8 ∧
  J.imm11 (JType z) = bits z 20 1 ∧ J.imm10_1 (JType z) = bits z 21 10.
Proof. repeat split; acc. Qed.

Context (Hz : is_u32 z).
Lemma acc_top : I.imm11_0 (IType z) = bits z 20 12 ∧ S.imm11_5 (SType z) = bits z 25 7 ∧
  B.imm12 (BType z) = bits z 31 1 ∧ U.imm31_12 (UType z) = bits z 12 20 ∧
  J.imm20 (JType z) = bits z 31 1.
Proof using Hz. 
  repeat split.
  - exact (top_field_spec z 20 ltac:(lia) Hz).
  - exact (top_field_spec z 25 ltac:(lia) Hz).
  - exact (top_field_spec z 31 ltac:(lia) Hz).
  - exact (top_field_spec z 12 ltac:(lia) Hz).
  - exact (top_field_spec z 31 ltac:(lia) Hz).
Qed.
End accessors.

(** A word of an OP-IMM shift keeps its funct7 in the top of [imm11_0]. *)
Lemma shift_func7_bits z : is_u32 z → Z.shiftr (I.imm11_0 (IType z)) 5 = bits z 25 7.
Proof.
  intros. unfold I.imm11_0. rewrite Z.shiftr_shiftr by lia. by apply (top_field_spec z 25).
Qed.

(** * Immediates

    Each format's sign extension never panics (no overflow of the sums or the
    shifts, in any build profile) and computes the 32-bit two's complement word of
    the immediate the fields spell. *)
Section immediates.
Context `{Profile}.

Ltac imm_step :=
  lazymatch goal with
  | |- (word_shl 32 ?a ?n ≫= _) = _ =>
      rewrite (word_shl_Ret 32 a n), bind_Ret, (Z.shiftl_mul_pow2 a n) by lia;
      rewrite (wrap_id 32 (a * 2 ^ n)) by field_solve
  | |- (narrow 32 ?z ≫= _) = _ => rewrite (narrow_Ret 32 z), bind_Ret by field_solve
  end.

Lemma imm_I z : is_u32 z →
  I.imm_sign_ext (IType z) = Ret (as_u32 (signed 12 (bits z 20 12))).
Proof.
  intros Hz. unfold I.imm_sign_ext. destruct (acc_top z Hz) as (-> & _).
  apply sign_ext_helper_spec; [lia | by apply bits_range].
Qed.

Lemma imm_S z : is_u32 z →
  S.sign_ext (SType z) = Ret (as_u32 (signed 12 (bits z 25 7 * 2 ^ 5 + bits z 7 5))).
Proof.
  intros Hz. unfold S.sign_ext, word_add. destruct (acc_top z Hz) as (_ & -> & _).
  destruct (acc_S z) as (_ & _ & _ & ->).
  pose proof (bits_range z 25 7 ltac:(lia)). pose proof (bits_range z 7 5 ltac:(lia)).
  generalize dependent (bits z 25 7). generalize dependent (bits z 7 5). intros a ? b ?.
  repeat imm_step. apply sign_ext_helper_spec; [lia | field_solve].
Qed.

Lemma imm_B z : is_u32 z →
  B.sign_ext (BType z) = Ret (as_u32 (signed 13
    (bits z 31 1 * 2 ^ 12 + bits z 7 1 * 2 ^ 11 + bits z 25 6 * 2 ^ 5 + bits z 8 4 * 2 ^ 1))).
Proof.
  intros Hz. unfold B.sign_ext, word_add. destruct (acc_top z Hz) as (_ & _ & -> & _).
  destruct (acc_B z) as (_ & _ & _ & -> & -> & ->).
  pose proof (bits_range z 31 1 ltac:(lia)). pose proof (bits_range z 7 1 ltac:(lia)).
  pose proof (bits_range z 25 6 ltac:(lia)). pose proof (bits_range z 8 4 ltac:(lia)).
  generalize dependent (bits z 31 1). generalize dependent (bits z 7 1).
  generalize dependent (bits z 25 6). generalize dependent (bits z 8 4). intros a ? b ? c ? d ?.
  repeat imm_step. apply sign_ext_helper_spec; [lia | field_solve].
Qed.

Lemma imm_U z : is_u32 z → U.sign_ext (UType z) = Ret (bits z 12 20 * 2 ^ 12).
Proof.
  intros Hz. unfold U.sign_ext. destruct (acc_top z Hz) as (_ & _ & _ & -> & _).
  pose proof (bits_range z 12 20 ltac:(lia)). generalize dependent (bits z 12 20). intros a ?.
  rewrite word_shl_Ret by lia. rewrite Z.shiftl_mul_pow2 by lia.
  rewrite (wrap_id 32) by field_solve. done.
Qed.

Lemma imm_J z : is_u32 z →
  J.sign_ext (JType z) = Ret (as_u32 (signed 21
    (bits z 31 1 * 2 ^ 20 + bits z 12 8 * 2 ^ 12 + bits z 20 1 * 2 ^ 11 + bits z 21 10 * 2 ^ 1))).
Proof.
  intros Hz. unfold J.sign_ext, word_add. destruct (acc_top z Hz) as (_ & _ & _ & _ & ->).
  destruct (acc_J z) as (_ & -> & -> & ->).
  pose proof (bits_range z 31 1 ltac:(lia)). pose proof (bits_range z 12 8 ltac:(lia)).
  pose proof (bits_range z 20 1 ltac:(lia)). pose proof (bits_range z 21 10 ltac:(lia)).
  generalize dependent (bits z 31 1). generalize dependent (bits z 12 8).
  generalize dependent (bits z 20 1). generalize dependent (bits z 21 10). intros a ? b ? c ? d ?.
  repeat imm_step. apply sign_ext_helper_spec; [lia | field_solve].
Qed.
End immediates.

(** * Decoding *)

(** Decoding keeps the raw word, whatever it decodes to. *)
Lemma raw_binary_to_inst_raw z i : raw_binary_to_inst z = Ret i → Inst.raw i = z.
Proof.
  unfold raw_binary_to_inst. cbv zeta. destruct (OpcodeMap.try_from _) as [[]|].
  all: repeat match goal with
    | |- Ret _ = Ret _ → _ => intros [= <-]; reflexivity
    | |- Panic _ = Ret _ → _ => intros [=]
    | |- match ?x with _ => _ end = _ → _ => destruct x
    end.
Qed.

Section roundtrip.
Context `{Profile}.
Import Asm.

(** the fields of a well-formed R layout, as the accessors of every format read them *)
Ltac fields Hb :=
  destruct Hb as (Hop & Hrd & Hf3 & Hrs1 & Hrs2 & Hf7 & Hz).

Ltac decode_start z :=
  unfold raw_binary_to_inst; cbv zeta; rewrite (acc_opcode z);
  lazymatch goal with E : bits z 0 7 = _ |- _ => rewrite E end;
  cbn [OpcodeMap.try_from].

Ltac imm_range imm :=
  pose proof (bits_range imm 0 5 ltac:(lia)) as R05;
  pose proof (bits_range imm 5 7 ltac:(lia)) as R57;
  pose proof (bits_range imm 1 4 ltac:(lia)) as R14;
  pose proof (bits_range imm 5 6 ltac:(lia)) as R56;
  pose proof (bits_range imm 11 1 ltac:(lia)) as R11;
  pose proof (bits_range imm 12 1 ltac:(lia)) as R12.

Lemma roundtrip_R op rd rs1 rs2 :
  valid (Arith op rd rs1 rs2) →
  (raw_binary_to_inst (assemble (Arith op rd rs1 rs2)) ≫= disassemble)
    = Ret (Some (Arith op rd rs1 rs2)).
Proof.
  intros (? & ? & ?). cbn [assemble].
  pose proof (encode_R_bits (func7 op) rs2 rs1 (func3 op) rd 51) as Hb.
  set (z := encode_R _ _ _ _ _ _) in *.
  fields (Hb ltac:(by destruct op) ltac:(done) ltac:(done) ltac:(by destruct op) ltac:(done) ltac:(done)).
  decode_start z. destruct (acc_R z) as (E1 & E2 & E3 & E4 & E5). rewrite E4, E5, Hf3, Hf7.
  destruct op; cbn; unfold r_asm; by rewrite E1, E2, E3, Hrd, Hrs1, Hrs2.
Qed.

(** I-layout words: the immediate they spell *)
Lemma encode_I_bits imm rs1 f3 rd op :
  in_range 5 rs1 → in_range 3 f3 → in_range 5 rd → in_range 7 op →
  let z := encode_I imm rs1 f3 rd op in
  bits z 0 7 = op ∧ bits z 7 5 = rd ∧ bits z 12 3 = f3 ∧ bits z 15 5 = rs1 ∧
  bits z 20 12 = bits imm 0 12 ∧ bits z 25 7 = bits imm 5 7 ∧ is_u32 z.
Proof.
  intros ???? z. imm_range imm.
  pose proof (encode_R_bits (bits imm 5 7) (bits imm 0 5) rs1 f3 rd op) as Hb.
  rewrite <- encode_I_as_R in Hb. fold z in Hb.
  fields (Hb ltac:(done) ltac:(done) ltac:(done) ltac:(done) ltac:(done) ltac:(done)).
  repeat split; try done; try apply Hz.
  assert (E : bits imm 0 5 + 2 ^ 5 * bits imm 5 7 = bits imm 0 12) by (apply (bits_split imm 0 5 7); lia).
  assert (E' : bits z 20 5 + 2 ^ 5 * bits z 25 7 = bits z 20 12) by (apply (bits_split z 20 5 7); lia).
  congruence.
Qed.

(** the immediate of a format, back from its sign-extended word *)
Lemma decoded_imm imm : - 2 ^ 31 ≤ imm < 2 ^ 31 → as_i32 (as_u32 imm) = imm.
Proof. intros. by apply signed_wrap. Qed.

Lemma decoded_I imm rs1 f3 rd op :
  in_range 5 rs1 → in_range 3 f3 → in_range 5 rd → in_range 7 op → -2048 ≤ imm < 2048 →
  I.imm_sign_ext (IType (encode_I imm rs1 f3 rd op)) = Ret (as_u32 imm).
Proof.
  intros ??? ? Hi. destruct (encode_I_bits imm rs1 f3 rd op) as (_ & _ & _ & _ & E & _ & Hz); [done..|].
  rewrite imm_I by done. rewrite E, signed_bits by lia. done.
Qed.

Lemma roundtrip_imm op rd rs1 imm :
  valid (ArithImm op rd rs1 imm) →
  (raw_binary_to_inst (assemble (ArithImm op rd rs1 imm)) ≫= disassemble)
    = Ret (Some (ArithImm op rd rs1 imm)).
Proof.
  intros (? & ? & Hi). cbn [assemble].
  assert (in_range 3 (i_func3 op)) by (by destruct op).
  destruct (encode_I_bits imm rs1 (i_func3 op) rd 19) as (Hop & Hrd & Hf3 & Hrs1 & _); try done.
  pose proof (decoded_I imm rs1 (i_func3 op) rd 19) as Hd.
  set (z := encode_I _ _ _ _ _) in *. clearbody z.
  decode_start z. destruct (acc_I z) as (E1 & E2 & E3). rewrite E3, Hf3.
  destruct op; cbn [i_func3]; rewrite bind_Ret; cbn [disassemble]; unfold i_asm; rewrite Hd by done; rewrite bind_Ret, E1, E2, Hrd, Hrs1;
    by rewrite decoded_imm by lia.
Qed.

Lemma roundtrip_load op rd rs1 imm :
  valid (Load op rd rs1 imm) →
  (raw_binary_to_inst (assemble (Load op rd rs1 imm)) ≫= disassemble)
    = Ret (Some (Load op rd rs1 imm)).
Proof.
  intros (? & ? & Hi). cbn [assemble].
  assert (in_range 3 (load_func3 op)) by (by destruct op).
  destruct (encode_I_bits imm rs1 (load_func3 op) rd 3) as (Hop & Hrd & Hf3 & Hrs1 & _); try done.
  pose proof (decoded_I imm rs1 (load_func3 op) rd 3) as Hd.
  set (z := encode_I _ _ _ _ _) in *. clearbody z.
  decode_start z. destruct (acc_I z) as (E1 & E2 & E3). rewrite E3, Hf3.
  destruct op; cbn [load_func3]; rewrite bind_Ret; cbn [disassemble]; unfold load_asm; rewrite Hd by done; rewrite bind_Ret, E1, E2, Hrd, Hrs1;
    by rewrite decoded_imm by lia.
Qed.

Lemma roundtrip_jalr rd rs1 imm :
  valid (Jalr rd rs1 imm) →
  (raw_binary_to_inst (assemble (Jalr rd rs1 imm)) ≫= disassemble) = Ret (Some (Jalr rd rs1 imm)).
Proof.
  intros (? & ? & Hi). cbn [assemble].
  destruct (encode_I_bits imm rs1 0 rd 103) as (Hop & Hrd & Hf3 & Hrs1 & _); try done.
  pose proof (decoded_I imm rs1 0 rd 103) as Hd.
  set (z := encode_I _ _ _ _ _) in *. clearbody z.
  decode_start z. destruct (acc_I z) as (E1 & E2 & _). rewrite bind_Ret. cbn [disassemble].
  rewrite Hd by done. rewrite bind_Ret, E1, E2, Hrd, Hrs1. by rewrite decoded_imm by lia.
Qed.

Lemma roundtrip_shift op rd rs1 shamt :
  valid (Shift op rd rs1 shamt) →
  (raw_binary_to_inst (assemble (Shift op rd rs1 shamt)) ≫= disassemble)
    = Ret (Some (Shift op rd rs1 shamt)).
Proof.
  intros (? & ? & Hs). cbn [assemble].
  set (imm := shift_func7 op * 32 + shamt).
  assert (in_range 3 (shift_func3 op)) by (by destruct op).
  assert (Hi : -2048 ≤ imm < 2048) by (subst imm; destruct op; cbn; lia).
  assert (H7 : bits imm 5 7 = shift_func7 op)
    by (subst imm; destruct op; cbn [shift_func7]; field_solve).
  assert (Hm : Z.land (as_u32 imm) 31 = shamt).
  { change 31 with (2 ^ 5 - 1). rewrite land_ones_mod by lia. subst imm.
    unfold wrap. destruct op; cbn [shift_func7]; Z.div_mod_to_equations; lia. }
  destruct (encode_I_bits imm rs1 (shift_func3 op) rd 19) as (Hop & Hrd & Hf3 & Hrs1 & _ & Hf7 & Hz);
    try done.
  pose proof (decoded_I imm rs1 (shift_func3 op) rd 19) as Hd.
  set (z := encode_I _ _ _ _ _) in *. clearbody z. rewrite H7 in Hf7.
  decode_start z. destruct (acc_I z) as (E1 & E2 & E3).
  rewrite E3, Hf3, shift_func7_bits, Hf7 by done.
  destruct op; cbn [shift_func3 shift_func7]; rewrite bind_Ret; cbn [disassemble]; unfold shift_asm; rewrite Hd by done;
    by rewrite bind_Ret, E1, E2, Hrd, Hrs1, Hm.
Qed.

(** S-layout and B-layout words, as R layouts *)
Lemma roundtrip_store op rs1 rs2 imm :
  valid (Store op rs1 rs2 imm) →
  (raw_binary_to_inst (assemble (Store op rs1 rs2 imm)) ≫= disassemble)
    = Ret (Some (Store op rs1 rs2 imm)).
Proof.
  intros (? & ? & Hi). cbn [assemble]. rewrite encode_S_as_R. imm_range imm.
  assert (in_range 3 (store_func3 op)) by (by destruct op).
  pose proof (encode_R_bits (bits imm 5 7) rs2 rs1 (store_func3 op) (bits imm 0 5) 35) as Hb.
  set (z := encode_R _ _ _ _ _ _) in *. clearbody z.
  fields (Hb ltac:(done) ltac:(done) ltac:(done) ltac:(done) ltac:(done) ltac:(done)).
  decode_start z. destruct (acc_S z) as (E1 & E2 & E3 & _). rewrite E3, Hf3.
  assert (Hd : S.sign_ext (SType z) = Ret (as_u32 imm)).
  { rewrite imm_S by done. rewrite Hf7, Hrd.
    assert (E : bits imm 0 5 + 2 ^ 5 * bits imm 5 7 = bits imm 0 12) by (apply (bits_split imm 0 5 7); lia).
    replace (bits imm 5 7 * 2 ^ 5 + bits imm 0 5) with (bits imm 0 12) by lia.
    by rewrite signed_bits by lia. }
  destruct op; cbn [store_func3]; rewrite bind_Ret; cbn [disassemble]; unfold store_asm;
    rewrite Hd, bind_Ret, E1, E2, Hrs1, Hrs2; by rewrite decoded_imm by lia.
Qed.

Lemma roundtrip_branch op rs1 rs2 imm :
  valid (Branch op rs1 rs2 imm) →
  (raw_binary_to_inst (assemble (Branch op rs1 rs2 imm)) ≫= disassemble)
    = Ret (Some (Branch op rs1 rs2 imm)).
Proof.
  intros (? & ? & Hi & Heven). cbn [assemble]. rewrite encode_B_as_R. imm_range imm.
  assert (in_range 3 (branch_func3 op)) by (by destruct op).
  set (hi := bits imm 12 1 * 64 + bits imm 5 6). set (lo := bits imm 1 4 * 2 + bits imm 11 1).
  assert (in_range 7 hi ∧ in_range 5 lo) as [? ?] by (subst hi lo; unfold in_range in *; lia).
  pose proof (encode_R_bits hi rs2 rs1 (branch_func3 op) lo 99) as Hb.
  set (z := encode_R _ _ _ _ _ _) in *. clearbody z.
  fields (Hb ltac:(done) ltac:(done) ltac:(done) ltac:(done) ltac:(done) ltac:(done)).
  decode_start z. destruct (acc_B z) as (E1 & E2 & E3 & _). rewrite E3, Hf3.
  assert (Hd : B.sign_ext (BType z) = Ret (as_u32 imm)).
  { rewrite imm_B by done.
    assert (bits z 31 1 = bits imm 12 1 ∧ bits z 25 6 = bits imm 5 6 ∧
            bits z 8 4 = bits imm 1 4 ∧ bits z 7 1 = bits imm 11 1) as (-> & -> & -> & ->).
    { change (bits z 31 1) with (bits z (25 + 6) 1). change (bits z 25 6) with (bits z (25 + 0) 6).
      change (bits z 8 4) with (bits z (7 + 1) 4). change (bits z 7 1) with (bits z (7 + 0) 1).
      rewrite <- (bits_of_bits z 25 7 6 1), <- (bits_of_bits z 25 7 0 6),
        <- (bits_of_bits z 7 5 1 4), <- (bits_of_bits z 7 5 0 1), Hf7, Hrd by lia.
      subst hi lo. clear - R14 R56 R11 R12.
      generalize dependent (bits imm 12 1). generalize dependent (bits imm 5 6).
      generalize dependent (bits imm 1 4). generalize dependent (bits imm 11 1).
      intros. repeat split; field_solve. }
    assert (E : bits imm 12 1 * 2 ^ 12 + bits imm 11 1 * 2 ^ 11 + bits imm 5 6 * 2 ^ 5
                + bits imm 1 4 * 2 ^ 1 = bits imm 0 13) by (unfold bits; Z.div_mod_to_equations; lia).
    rewrite E. by rewrite signed_bits by lia. }
  destruct op; cbn [branch_func3]; rewrite bind_Ret; cbn [disassemble]; unfold branch_asm;
    rewrite Hd, bind_Ret, E1, E2, Hrs1, Hrs2; by rewrite decoded_imm by lia.
Qed.

Lemma roundtrip_upper op rd imm :
  valid (Upper op rd imm) →
  (raw_binary_to_inst (assemble (Upper op rd imm)) ≫= disassemble) = Ret (Some (Upper op rd imm)).
Proof.
  intros (? & ?). cbn [assemble].
  destruct (encode_U_bits imm rd (match op with LUI => 55 | AUIPC => 23 end))
    as (Hop & Hrd & Hi & Hz); [done | done | by destruct op |].
  set (z := encode_U _ _ _) in *. clearbody z.
  destruct (acc_top z Hz) as (_ & _ & _ & E & _).
  destruct op; decode_start z; rewrite bind_Ret; cbn [disassemble];
    by rewrite acc_U, E, Hrd, Hi.
Qed.

Lemma roundtrip_jal rd imm :
  valid (Jal rd imm) →
  (raw_binary_to_inst (assemble (Jal rd imm)) ≫= disassemble) = Ret (Some (Jal rd imm)).
Proof.
  intros (? & Hi & Heven). cbn [assemble].
  destruct (encode_J_bits imm rd 111) as (Hop & Hrd & E12 & E20 & E21 & E31 & Hz); [done..|].
  set (z := encode_J _ _ _) in *. clearbody z.
  decode_start z. rewrite bind_Ret. cbn [disassemble]. destruct (acc_J z) as (E & _).
  rewrite imm_J, E12, E20, E21, E31 by done.
  assert (Eq : bits imm 20 1 * 2 ^ 20 + bits imm 12 8 * 2 ^ 12 + bits imm 11 1 * 2 ^ 11
               + bits imm 1 10 * 2 ^ 1 = bits imm 0 21) by (unfold bits; Z.div_mod_to_equations; lia).
  rewrite Eq, signed_bits, bind_Ret, E, Hrd by lia. by rewrite decoded_imm by lia.
Qed.

(** C25: Every valid instruction of [Asm.t] - those of RV32IM but FENCE, on which
  the decoder panics, and EBREAK, which it takes for an illegal word - survives
  assembling, decoding by [raw_binary_to_inst] and reading back through the
  field accessors: the constructor, the registers and the sign-extended
  immediate are the ones that were assembled. *)
Theorem decode_assemble (a : Asm.t) :
  valid a → (raw_binary_to_inst (assemble a) ≫= disassemble) = Ret (Some a).
Proof.
  destruct a; intros; auto using roundtrip_R, roundtrip_imm, roundtrip_shift, roundtrip_load,
    roundtrip_store, roundtrip_branch, roundtrip_upper, roundtrip_jal, roundtrip_jalr.
Qed.
End roundtrip.

Lemma decode_assemble_witness :
  let a := Asm.Branch Asm.BGEU 10 11 (-4096) in
  (raw_binary_to_inst (Asm.assemble a) ≫= @disassemble release_profile) = Ret (Some a).
Proof. cbv zeta. apply (@decode_assemble release_profile). cbv. repeat split; discriminate. Defined.

Lemma try_from_misc_mem v : OpcodeMap.try_from v = Ok OpcodeMap.MiscMem → v = 15.
Proof.
  unfold OpcodeMap.try_from.
  repeat match goal with
  | |- Ok _ = Ok _ → _ => first [intros [=]; fail | intros _; reflexivity]
  | |- Err _ = Ok _ → _ => intros [=]
  | |- match ?x with _ => _ end = _ → _ => destruct x
  end.
Qed.

Lemma small_cases v : in_range 3 v →
  v = 0 ∨ v = 1 ∨ v = 2 ∨ v = 3 ∨ v = 4 ∨ v = 5 ∨ v = 6 ∨ v = 7.
Proof. unfold in_range. lia. Qed.

Ltac decode_branches :=
  repeat match goal with
  | |- ∃ i, Ret _ = Ret i => by eexists
  | |- ∃ i, match ?x with _ => _ end = Ret i => destruct x
  end.

(** Decoding panics exactly on the MISC-MEM opcode (FENCE): every other 32-bit
    word decodes, and the result carries that word unchanged. *)
Theorem raw_binary_to_inst_total (raw : Z) :
  is_u32 raw →
  if decide (raw mod 128 = 15) then raw_binary_to_inst raw = Panic PTodo
  else ∃ i, raw_binary_to_inst raw = Ret i ∧ Inst.raw i = raw.
Proof.
  intros Hz. case_decide as Hop.
  - unfold raw_binary_to_inst. cbv zeta. rewrite acc_opcode. unfold bits. rewrite Z.div_1_r.
    change (2 ^ 7) with 128. by rewrite Hop.
  - enough (∃ i, raw_binary_to_inst raw = Ret i) as [i Hi]
      by (exists i; eauto using raw_binary_to_inst_raw).
    unfold raw_binary_to_inst. cbv zeta. rewrite acc_opcode.
    destruct (acc_R raw) as (_ & _ & _ & -> & _). destruct (acc_I raw) as (_ & _ & ->).
    pose proof (bits_range raw 12 3 ltac:(lia)) as Hf3.
    assert (Hop' : bits raw 0 7 ≠ 15) by (unfold bits; rewrite Z.div_1_r; exact Hop).
    pose proof (try_from_misc_mem (bits raw 0 7)) as Hmisc.
    destruct (OpcodeMap.try_from (bits raw 0 7)) as [[]|]; try (eexists; reflexivity);
      try (exfalso; apply Hop', Hmisc; reflexivity).
    + destruct (small_cases _ Hf3) as [->|[->|[->|[->|[->|[->|[->| ->]]]]]]]; decode_branches.
    + destruct (small_cases _ Hf3) as [->|[->|[->|[->|[->|[->|[->| ->]]]]]]]; decode_branches.
    + decode_branches.
    + decode_branches.
    + decode_branches.
    + decode_branches.
Qed.
