(* ===== verification/BranchPredictor.v ===== *)
(** Branch predictors: [simulator/src/hardware/branch_predictor/].  The trait
    [BranchPredict] is a type class; its implementors are the always-not-taken
    [Dummy] predictor and the [Bimodal] one.  [two_level_adaptive] is a stub. *)
From S2P Require Import Prelude Word.
From stdpp Require Import base gmap list numbers.
From Stdlib Require Import Lia.
#[local] Open Scope Z_scope.

Record BranchPredictResult := { direction : bool; addr : Z }.

Definition BranchPredictResult_default : BranchPredictResult :=
  {| direction := false; addr := 0 |}.

Class BranchPredict (P : Type) := {
  branch_predict : P → Z → BranchPredictResult * P;
  mispredict_recovery : P → bool → Z → Z → P;
}.

(** * Dummy *)
Module Dummy.
Inductive Predictor := new.

Definition predict (p : Predictor) (pc : Z) : BranchPredictResult * Predictor :=
  ({| direction := false; addr := 0 |}, p).
Definition recovery (p : Predictor) (correct_direction : bool) (pc target_addr : Z) : Predictor := p.

#[export] Instance predictor : BranchPredict Predictor :=
  {| branch_predict := predict; mispredict_recovery := recovery |}.
End Dummy.

(** * Bimodal: a global two-bit counter and a table of branch targets *)
Module Bimodal.
Definition counter_new : Z := 0.
Definition get_direction (c : Z) : bool := if c <=? 1 then false else true.
Definition counter_increase (c : Z) : Z := if c <? 3 then c + 1 else c.
Definition counter_decrease (c : Z) : Z := if 0 <? c then c - 1 else c.

Record TagPcPair := { tag : Z; target_pc : Z }.

Record Predictor := {
  direction_precditor : Z;
  history_table : gmap Z TagPcPair;
}.

Definition new : Predictor := {| direction_precditor := counter_new; history_table := ∅ |}.

Definition pc_hash (pc : Z) : Z := Z.land pc 4294967295.

Definition predict (p : Predictor) (pc : Z) : BranchPredictResult * Predictor :=
  let miss := {| direction := false; addr := 0 |} in
  (if get_direction (direction_precditor p) then
     match history_table p !! pc with
     | Some tag_pc =>
         if tag tag_pc =? pc then {| direction := true; addr := target_pc tag_pc |} else miss
     | None => miss
     end
   else miss, p).

Definition recovery (p : Predictor) (correct_direction : bool) (pc target_addr : Z) : Predictor :=
  let c := if correct_direction then counter_increase (direction_precditor p)
           else counter_decrease (direction_precditor p) in
  let entry := {| tag := pc; target_pc := target_addr |} in
  {| direction_precditor := c;
     history_table :=
       match history_table p !! pc_hash pc with
       | Some _ => <[pc_hash pc := entry]> (history_table p)
       | None => <[pc_hash pc := entry]> (history_table p)
       end |}.

#[export] Instance predictor : BranchPredict Predictor :=
  {| branch_predict := predict; mispredict_recovery := recovery |}.

(** ** Specification: the history of recoveries a predictor was trained with *)

Record event := { ev_taken : bool; ev_pc : Z; ev_target : Z }.

Definition train (p : Predictor) (e : event) : Predictor :=
  recovery p (ev_taken e) (ev_pc e) (ev_target e).

(** the most recent target recorded for [pc]; the history is oldest first *)
Definition last_target (es : list event) (pc : Z) : option Z :=
  foldl (λ acc e, if ev_pc e =? pc then Some (ev_target e) else acc) None es.

(** the two-bit saturating counter, as a clamped walk *)
Definition clamp (z : Z) : Z := Z.max 0 (Z.min 3 z).
Definition walk (es : list event) : Z :=
  foldl (λ c e, clamp (c + (if ev_taken e then 1 else -1))) 0 es.

Definition pcs_ok (es : list event) : Prop := Forall (λ e, is_u32 (ev_pc e)) es.
End Bimodal.

(** * Two-level adaptive: constructor and methods are [todo!()] *)
Module TwoLevelAdaptive.
Definition new : exec Empty_set := Panic PTodo.
End TwoLevelAdaptive.

(** * Facts *)

Module BimodalFacts.
Import Bimodal.

(** The comment beside [pc_hash] announces a table of 2^8 entries; the mask keeps
  all 32 bits, so distinct branches never share an entry. *)
Lemma pc_hash_id pc : is_u32 pc → pc_hash pc = pc.
Proof.
  intros Hpc. unfold pc_hash. change 4294967295 with (Z.ones 32).
  rewrite Z.land_ones by lia. by apply Z.mod_small.
Qed.

Lemma recovery_table p d pc t :
  history_table (recovery p d pc t) =
    <[pc_hash pc := {| tag := pc; target_pc := t |}]> (history_table p).
Proof. cbn. by case_match. Qed.

Lemma walk_bound es : 0 ≤ walk es ≤ 3.
Proof.
  destruct es as [|e es _] using rev_ind; [cbn; lia|].
  unfold walk. rewrite foldl_app. cbn [foldl]. unfold clamp. lia.
Qed.

(** The trained state of the predictor is a function of the history: the counter
  is the clamped walk of the outcomes, the table maps each branch to its latest
  target, under its own address as tag. *)
Lemma train_spec es :
  pcs_ok es →
  let p := foldl train new es in
  direction_precditor p = walk es ∧
  ∀ pc, is_u32 pc →
    history_table p !! pc = (λ t, {| tag := pc; target_pc := t |}) <$> last_target es pc.
Proof.
  induction es as [|e es IH] using rev_ind; [done|].
  intros Hes. unfold pcs_ok in Hes. apply Forall_app in Hes as [Hes He].
  apply Forall_inv in He.
  unfold walk. rewrite !foldl_app. fold (walk es). cbn [foldl].
  destruct (IH Hes) as [IHc IHt]. clear IH. cbv zeta. unfold train.
  set (p := foldl _ new es) in *. split.
  - cbn. rewrite IHc. pose proof (walk_bound es).
    unfold counter_increase, counter_decrease, clamp.
    destruct (ev_taken e); [destruct (Z.ltb_spec (walk es) 3) | destruct (Z.ltb_spec 0 (walk es))]; lia.
  - intros pc Hpc. rewrite recovery_table, pc_hash_id by done.
    unfold last_target. rewrite foldl_app. fold (last_target es pc). cbn [foldl].
    destruct (Z.eqb_spec (ev_pc e) pc) as [<-|Hne].
    + by rewrite lookup_insert_eq.
    + rewrite lookup_insert_ne by done. apply IHt, Hpc.
Qed.
End BimodalFacts.

Section bimodal_theorems.
Import Bimodal BimodalFacts.

(** C33: The bimodal predictor has one saturating counter, which every recovered branch
  moves, and a table of targets by pc.  It predicts a branch taken exactly when the
  counter is in the upper half and that branch has been recovered before; the
  predicted target is then the branch's latest one. *)
Theorem bimodal_predict_spec es pc :
  pcs_ok es → is_u32 pc →
  fst (branch_predict (foldl train new es) pc) =
    match last_target es pc with
    | Some t => if 2 <=? walk es then {| direction := true; addr := t |}
                else {| direction := false; addr := 0 |}
    | None => {| direction := false; addr := 0 |}
    end.
Proof.
  intros Hes Hpc. destruct (train_spec es Hes) as [Hc Ht].
  cbn [branch_predict predictor predict fst]. rewrite Hc, (Ht pc Hpc). unfold get_direction.
  destruct (Z.leb_spec (walk es) 1); destruct (Z.leb_spec 2 (walk es)); try lia;
    destruct (last_target es pc); cbn; try done.
  by rewrite Z.eqb_refl.
Qed.

Lemma bimodal_predict_spec_witness :
  let es := [ {| ev_taken := true; ev_pc := 64; ev_target := 16 |};
              {| ev_taken := true; ev_pc := 64; ev_target := 32 |} ] in
  fst (branch_predict (foldl train new es) 64) = {| direction := true; addr := 32 |}.
Proof.
  intros es. rewrite (bimodal_predict_spec es 64).
  - reflexivity.
  - repeat constructor; cbn; lia.
  - split; lia.
Defined.
End bimodal_theorems.
