(* ===== verification/Uop.v ===== *)
(** Micro-ops: [simulator/src/hardware/uop.rs]. *)
From S2P Require Import Prelude Word Format Instruction BranchPredictor.
From stdpp Require Import base list numbers.
From Stdlib Require Import Lia.
#[local] Open Scope Z_scope.

Module Alu.
Inductive AluOpTypes :=
  | Add | Sll | Slt | Sltu | Xor | Srl | Or | And | Sub | Sra
  | Mul | Mulh | Mulhu | Mulhsu | Div | Divu | Rem | Remu.
Inductive AluOpOneSelect := RegRs1 | CurrentPc | Zero.
Inductive AluOpTwoSelect := RegRs2 | ImmSignExt.

#[export] Instance AluOpTypes_eq_dec : EqDecision AluOpTypes.
Proof. solve_decision. Defined.
End Alu.

Inductive MemoryAccessWidth := Byte | HalfWord | Word.

Definition width_len (w : MemoryAccessWidth) : nat :=
  match w with Byte => 1 | HalfWord => 2 | Word => 4 end.

Inductive LoadExtension := SignExt | ZeroExt.

Inductive MemoryAccess :=
  | LoadAccess (addr : Z) (width : MemoryAccessWidth) (extension : LoadExtension)
  | StoreAccess (addr : Z) (width : MemoryAccessWidth) (value : Z).

Module Access.
Definition addr (a : MemoryAccess) : Z :=
  match a with LoadAccess ad _ _ | StoreAccess ad _ _ => ad end.
Definition len (a : MemoryAccess) : nat :=
  match a with LoadAccess _ w _ | StoreAccess _ w _ => width_len w end.
Definition store_value (a : MemoryAccess) : option Z :=
  match a with StoreAccess _ _ v => Some v | LoadAccess _ _ _ => None end.
Definition is_load (a : MemoryAccess) : bool :=
  match a with LoadAccess _ _ _ => true | StoreAccess _ _ _ => false end.

Definition loaded_value (a : MemoryAccess) (bytes : list Z) : exec Z :=
  match a with
  | StoreAccess _ _ _ => Panic PExplicit
  | LoadAccess _ width extension =>
      _ ← assert_ (bool_decide (length bytes = width_len width));
      word ← write_slice (replicate 4 0) 0 (length bytes) bytes;
      let value := from_le_bytes word in
      mret (match width, extension with
            | Byte, SignExt => as_u32 (as_i8 (as_u8 value))
            | HalfWord, SignExt => as_u32 (as_i16 (as_u16 value))
            | _, ZeroExt | Word, SignExt => value
            end)
  end.
End Access.

Record BranchResolutionInputs := {
  br_inst : Inst.t;
  br_pc : Z;
  br_predicted : BranchPredictResult;
  br_rs1 : Z;
  br_rs2 : Z;
  br_target : Z;
}.

Module Branch.
Definition needs_recovery (b : BranchResolutionInputs) (actual_direction : bool) : bool :=
  negb (Bool.eqb (direction (br_predicted b)) actual_direction)
  || (actual_direction && negb (addr (br_predicted b) =? br_target b)).

Definition recovery_destination `{Profile} (b : BranchResolutionInputs) (actual_direction : bool)
    : exec Z :=
  if actual_direction then mret (br_target b) else word_add 32 (br_pc b) 4.
End Branch.

Record PreDecodeMicroOp := {
  raw_inst : Z;
  inst : Inst.t;
  pc : Z;
  rs1 : option (Z * Z);
  rs2 : option (Z * Z);
  immediate_signext : Z;
  alu_op_type : Alu.AluOpTypes;
  alu_op1_sel : Alu.AluOpOneSelect;
  alu_op2_sel : Alu.AluOpTwoSelect;
  alu_result : Z;
  alu_result_as_rd_dst_value : bool;
  rd_index : option Z;
  rd_write_value : option Z;
  bp_result : option BranchPredictResult;
  placeholder : bool;
}.

(** Rust assigns the fields of a micro-op one by one; [op_upd] is the general update. *)
Module Op.
Definition default : PreDecodeMicroOp := {|
  raw_inst := 0; inst := Inst.default; pc := 0; rs1 := None; rs2 := None;
  immediate_signext := 0; alu_op_type := Alu.Add; alu_op1_sel := Alu.RegRs1;
  alu_op2_sel := Alu.RegRs2; alu_result := 0; alu_result_as_rd_dst_value := false;
  rd_index := None; rd_write_value := None; bp_result := None; placeholder := false |}.

Definition with_rs1 v o := {|
  raw_inst := raw_inst o; inst := inst o; pc := pc o; rs1 := v; rs2 := rs2 o;
  immediate_signext := immediate_signext o; alu_op_type := alu_op_type o;
  alu_op1_sel := alu_op1_sel o; alu_op2_sel := alu_op2_sel o; alu_result := alu_result o;
  alu_result_as_rd_dst_value := alu_result_as_rd_dst_value o; rd_index := rd_index o;
  rd_write_value := rd_write_value o; bp_result := bp_result o; placeholder := placeholder o |}.
Definition with_rs2 v o := {|
  raw_inst := raw_inst o; inst := inst o; pc := pc o; rs1 := rs1 o; rs2 := v;
  immediate_signext := immediate_signext o; alu_op_type := alu_op_type o;
  alu_op1_sel := alu_op1_sel o; alu_op2_sel := alu_op2_sel o; alu_result := alu_result o;
  alu_result_as_rd_dst_value := alu_result_as_rd_dst_value o; rd_index := rd_index o;
  rd_write_value := rd_write_value o; bp_result := bp_result o; placeholder := placeholder o |}.
Definition with_imm v o := {|
  raw_inst := raw_inst o; inst := inst o; pc := pc o; rs1 := rs1 o; rs2 := rs2 o;
  immediate_signext := v; alu_op_type := alu_op_type o;
  alu_op1_sel := alu_op1_sel o; alu_op2_sel := alu_op2_sel o; alu_result := alu_result o;
  alu_result_as_rd_dst_value := alu_result_as_rd_dst_value o; rd_index := rd_index o;
  rd_write_value := rd_write_value o; bp_result := bp_result o; placeholder := placeholder o |}.
Definition with_alu ty s1 s2 o := {|
  raw_inst := raw_inst o; inst := inst o; pc := pc o; rs1 := rs1 o; rs2 := rs2 o;
  immediate_signext := immediate_signext o; alu_op_type := ty;
  alu_op1_sel := s1; alu_op2_sel := s2; alu_result := alu_result o;
  alu_result_as_rd_dst_value := alu_result_as_rd_dst_value o; rd_index := rd_index o;
  rd_write_value := rd_write_value o; bp_result := bp_result o; placeholder := placeholder o |}.
Definition with_alu_result v o := {|
  raw_inst := raw_inst o; inst := inst o; pc := pc o; rs1 := rs1 o; rs2 := rs2 o;
  immediate_signext := immediate_signext o; alu_op_type := alu_op_type o;
  alu_op1_sel := alu_op1_sel o; alu_op2_sel := alu_op2_sel o; alu_result := v;
  alu_result_as_rd_dst_value := alu_result_as_rd_dst_value o; rd_index := rd_index o;
  rd_write_value := rd_write_value o; bp_result := bp_result o; placeholder := placeholder o |}.
Definition with_alu_as_rd v o := {|
  raw_inst := raw_inst o; inst := inst o; pc := pc o; rs1 := rs1 o; rs2 := rs2 o;
  immediate_signext := immediate_signext o; alu_op_type := alu_op_type o;
  alu_op1_sel := alu_op1_sel o; alu_op2_sel := alu_op2_sel o; alu_result := alu_result o;
  alu_result_as_rd_dst_value := v; rd_index := rd_index o;
  rd_write_value := rd_write_value o; bp_result := bp_result o; placeholder := placeholder o |}.
Definition with_rd v o := {|
  raw_inst := raw_inst o; inst := inst o; pc := pc o; rs1 := rs1 o; rs2 := rs2 o;
  immediate_signext := immediate_signext o; alu_op_type := alu_op_type o;
  alu_op1_sel := alu_op1_sel o; alu_op2_sel := alu_op2_sel o; alu_result := alu_result o;
  alu_result_as_rd_dst_value := alu_result_as_rd_dst_value o; rd_index := v;
  rd_write_value := rd_write_value o; bp_result := bp_result o; placeholder := placeholder o |}.
Definition with_rd_write v o := {|
  raw_inst := raw_inst o; inst := inst o; pc := pc o; rs1 := rs1 o; rs2 := rs2 o;
  immediate_signext := immediate_signext o; alu_op_type := alu_op_type o;
  alu_op1_sel := alu_op1_sel o; alu_op2_sel := alu_op2_sel o; alu_result := alu_result o;
  alu_result_as_rd_dst_value := alu_result_as_rd_dst_value o; rd_index := rd_index o;
  rd_write_value := v; bp_result := bp_result o; placeholder := placeholder o |}.

Definition fetched (raw : Z) (i : Inst.t) (p : Z) : PreDecodeMicroOp := {|
  raw_inst := raw; inst := i; pc := p; rs1 := None; rs2 := None;
  immediate_signext := 0; alu_op_type := Alu.Add; alu_op1_sel := Alu.RegRs1;
  alu_op2_sel := Alu.RegRs2; alu_result := 0; alu_result_as_rd_dst_value := false;
  rd_index := None; rd_write_value := None; bp_result := None; placeholder := false |}.

Definition fetched_branch (raw : Z) (i : Inst.t) (p : Z) (bp : BranchPredictResult)
    : PreDecodeMicroOp := {|
  raw_inst := raw; inst := i; pc := p; rs1 := None; rs2 := None;
  immediate_signext := 0; alu_op_type := Alu.Add; alu_op1_sel := Alu.RegRs1;
  alu_op2_sel := Alu.RegRs2; alu_result := 0; alu_result_as_rd_dst_value := false;
  rd_index := None; rd_write_value := None; bp_result := Some bp; placeholder := false |}.

Definition generate_nop : PreDecodeMicroOp :=
  with_rs2 (Some (0, 0)) (with_rs1 (Some (0, 0)) (fetched 0 (Inst.Addi (IType 19)) 4294967295)).

Definition placeholder_nop : PreDecodeMicroOp :=
  let o := generate_nop in {|
  raw_inst := raw_inst o; inst := inst o; pc := pc o; rs1 := rs1 o; rs2 := rs2 o;
  immediate_signext := immediate_signext o; alu_op_type := alu_op_type o;
  alu_op1_sel := alu_op1_sel o; alu_op2_sel := alu_op2_sel o; alu_result := alu_result o;
  alu_result_as_rd_dst_value := alu_result_as_rd_dst_value o; rd_index := rd_index o;
  rd_write_value := rd_write_value o; bp_result := bp_result o; placeholder := true |}.

Definition load_access (o : PreDecodeMicroOp) (w : MemoryAccessWidth) (e : LoadExtension)
  : exec (option MemoryAccess) := mret (Some (LoadAccess (alu_result o) w e)).
Definition store_access (o : PreDecodeMicroOp) (w : MemoryAccessWidth)
    : exec (option MemoryAccess) :=
  r ← unwrap (rs2 o); mret (Some (StoreAccess (alu_result o) w (snd r))).

Definition memory_access (o : PreDecodeMicroOp) : exec (option MemoryAccess) :=
  match inst o with
  | Inst.Lb _ => load_access o Byte SignExt
  | Inst.Lh _ => load_access o HalfWord SignExt
  | Inst.Lw _ => load_access o Word ZeroExt
  | Inst.Lbu _ => load_access o Byte ZeroExt
  | Inst.Lhu _ => load_access o HalfWord ZeroExt
  | Inst.Sb _ => store_access o Byte
  | Inst.Sh _ => store_access o HalfWord
  | Inst.Sw _ => store_access o Word
  | _ => mret None
  end.

Definition is_load (o : PreDecodeMicroOp) : exec bool :=
  a ← memory_access o;
  mret (match a with Some a => Access.is_load a | None => false end).

Definition unwrap_or_zero (r : option (Z * Z)) : Z := match r with Some (_, v) => v | None => 0 end.

Definition branch_resolution_inputs (o : PreDecodeMicroOp) : exec (option BranchResolutionInputs) :=
  match inst o with
  | Inst.Beq _ | Inst.Bne _ | Inst.Blt _ | Inst.Bge _ | Inst.Bltu _ | Inst.Bgeu _
  | Inst.Jal _ | Inst.Jalr _ =>
      bp ← unwrap (bp_result o);
      mret (Some {| br_inst := inst o; br_pc := pc o; br_predicted := bp;
                    br_rs1 := unwrap_or_zero (rs1 o); br_rs2 := unwrap_or_zero (rs2 o);
                    br_target := alu_result o |})
  | _ => mret None
  end.

Definition set_writeback_value (v : Z) (o : PreDecodeMicroOp) : PreDecodeMicroOp :=
  with_rd_write (Some v) o.
Definition writeback (o : PreDecodeMicroOp) : option (Z * Z) :=
  match rd_index o, rd_write_value o with
  | Some r, Some v => Some (r, v)
  | _, _ => None
  end.
Definition destination_register (o : PreDecodeMicroOp) : option Z := rd_index o.
Definition is_placeholder (o : PreDecodeMicroOp) : bool := placeholder o.
End Op.
