(* ===== verification/Execute.v ===== *)
(** The EXE-stage datapath: [simulator/src/hardware/pipeline_processor/execute.rs],
    and its agreement with the RV32IM arithmetic. *)
From S2P Require Import Prelude Word Format Instruction BranchPredictor Uop.
From stdpp Require Import base list numbers.
From Stdlib Require Import Lia.
#[local] Open Scope Z_scope.

Module Execute.
Definition MUL_STALL : nat := 8.
Definition DIV_REM_STALL : nat := 32.

Definition m_extension_stall (i : Inst.t) : option nat :=
  match i with
  | Inst.Mul _ | Inst.Mulh _ | Inst.Mulhu _ | Inst.Mulhsu _ => Some MUL_STALL
  | Inst.Div _ | Inst.Divu _ | Inst.Rem _ | Inst.Remu _ => Some DIV_REM_STALL
  | _ => None
  end.

Definition alu_operands (op : PreDecodeMicroOp) : exec (Z * Z) :=
  op1 ← match alu_op1_sel op with
        | Alu.RegRs1 => r ← unwrap (rs1 op); mret (snd r)
        | Alu.CurrentPc => mret (pc op)
        | Alu.Zero => mret 0
        end;
  op2 ← match alu_op2_sel op with
        | Alu.RegRs2 => r ← unwrap (rs2 op); mret (snd r)
        | Alu.ImmSignExt => mret (immediate_signext op)
        end;
  mret (op1, op2).

Definition u32_from (b : bool) : Z := if b then 1 else 0.

(** The [i64] and [u64] products below are exact: [products_fit]. *)
Definition alu_result (op_type : Alu.AluOpTypes) (op1 op2 : Z) : Z :=
  match op_type with
  | Alu.Add => as_u32 (op1 + op2)
  | Alu.Sub => as_u32 (op1 - op2)
  | Alu.Sll => as_u32 (Z.shiftl op1 (Z.land op2 31))
  | Alu.Slt => u32_from (as_i32 op1 <? as_i32 op2)
  | Alu.Sltu => u32_from (op1 <? op2)
  | Alu.Xor => Z.lxor op1 op2
  | Alu.Srl => Z.shiftr op1 (Z.land op2 31)
  | Alu.Sra => as_u32 (Z.shiftr (as_i32 op1) (Z.land op2 31))
  | Alu.Or => Z.lor op1 op2
  | Alu.And => Z.land op1 op2
  | Alu.Mul => as_u32 (as_i32 op1 * as_i32 op2)
  | Alu.Mulh => as_u32 (Z.shiftr (as_i32 op1 * as_i32 op2) 32)
  | Alu.Mulhu => as_u32 (Z.shiftr (op1 * op2) 32)
  | Alu.Mulhsu => as_u32 (Z.shiftr (as_i32 op1 * op2) 32)
  | Alu.Div =>
      if negb (op2 =? 0) then as_u32 (Z.quot (as_i32 op1) (as_i32 op2)) else 4294967295
  | Alu.Divu => if negb (op2 =? 0) then as_u32 (op1 / op2) else 4294967295
  | Alu.Rem =>
      if negb (op2 =? 0) then as_u32 (Z.rem (as_i32 op1) (as_i32 op2)) else op1
  | Alu.Remu => if negb (op2 =? 0) then op1 mod op2 else op1
  end.

Definition branch_taken (i : Inst.t) (rs1 rs2 : Z) : option bool :=
  match i with
  | Inst.Jal _ | Inst.Jalr _ => Some true
  | Inst.Beq _ => Some (rs1 =? rs2)
  | Inst.Bne _ => Some (negb (rs1 =? rs2))
  | Inst.Blt _ => Some (as_i32 rs1 <? as_i32 rs2)
  | Inst.Bge _ => Some (as_i32 rs2 <=? as_i32 rs1)
  | Inst.Bltu _ => Some (rs1 <? rs2)
  | Inst.Bgeu _ => Some (rs2 <=? rs1)
  | _ => None
  end.
End Execute.

(** * Specification: the integer semantics of the RISC-V manual

    Registers hold 32-bit words; [s] is the two's complement value of a word. *)
Module Isa.
Abbreviation s := (signed 32).

Definition most_negative : Z := - 2 ^ 31.

(** truncating division with the manual's special cases *)
Definition div (a b : Z) : Z :=
  if b =? 0 then -1
  else if (a =? most_negative) && (b =? -1) then most_negative
  else Z.sgn a * Z.sgn b * (Z.abs a / Z.abs b).
Definition rem (a b : Z) : Z :=
  if b =? 0 then a
  else if (a =? most_negative) && (b =? -1) then 0
  else Z.sgn a * (Z.abs a mod Z.abs b).

Definition shamt (y : Z) : Z := y mod 32.

Definition arith (op : Asm.r_op) (x y : Z) : Z :=
  as_u32
    match op with
    | Asm.ADD => x + y
    | Asm.SUB => x - y
    | Asm.SLL => x * 2 ^ shamt y
    | Asm.SLT => if decide (s x < s y) then 1 else 0
    | Asm.SLTU => if decide (x < y) then 1 else 0
    | Asm.XOR => Z.lxor x y
    | Asm.SRL => x / 2 ^ shamt y
    | Asm.SRA => s x / 2 ^ shamt y
    | Asm.OR => Z.lor x y
    | Asm.AND => Z.land x y
    | Asm.MUL => x * y
    | Asm.MULH => s x * s y / 2 ^ 32
    | Asm.MULHSU => s x * y / 2 ^ 32
    | Asm.MULHU => x * y / 2 ^ 32
    | Asm.DIV => div (s x) (s y)
    | Asm.DIVU => if y =? 0 then 2 ^ 32 - 1 else x / y
    | Asm.REM => rem (s x) (s y)
    | Asm.REMU => if y =? 0 then x else x mod y
    end.

Definition taken (op : Asm.branch_op) (x y : Z) : bool :=
  match op with
  | Asm.BEQ => bool_decide (x = y)
  | Asm.BNE => bool_decide (x ≠ y)
  | Asm.BLT => bool_decide (s x < s y)
  | Asm.BGE => bool_decide (s y ≤ s x)
  | Asm.BLTU => bool_decide (x < y)
  | Asm.BGEU => bool_decide (y ≤ x)
  end.

(** the ALU operation of each register-register instruction *)
Definition alu_of (op : Asm.r_op) : Alu.AluOpTypes :=
  match op with
  | Asm.ADD => Alu.Add | Asm.SUB => Alu.Sub | Asm.SLL => Alu.Sll | Asm.SLT => Alu.Slt
  | Asm.SLTU => Alu.Sltu | Asm.XOR => Alu.Xor | Asm.SRL => Alu.Srl | Asm.SRA => Alu.Sra
  | Asm.OR => Alu.Or | Asm.AND => Alu.And | Asm.MUL => Alu.Mul | Asm.MULH => Alu.Mulh
  | Asm.MULHSU => Alu.Mulhsu | Asm.MULHU => Alu.Mulhu | Asm.DIV => Alu.Div
  | Asm.DIVU => Alu.Divu | Asm.REM => Alu.Rem | Asm.REMU => Alu.Remu
  end.
End Isa.

(** * Facts *)

Section execute_facts.
Import Execute.

Lemma shamt_spec y : Z.land y 31 = Isa.shamt y.
Proof. change 31 with (2 ^ 5 - 1). by rewrite land_ones_mod by lia. Qed.

Lemma shamt_range y : 0 ≤ Isa.shamt y < 32.
Proof. apply Z.mod_pos_bound. lia. Qed.

Lemma s_range x : is_u32 x → - 2 ^ 31 ≤ as_i32 x < 2 ^ 31.
Proof. intros. apply (signed_range 32); [lia | done]. Qed.

Lemma s_zero x : is_u32 x → as_i32 x = 0 → x = 0.
Proof. unfold in_range, signed. intros. destruct (Z.ltb_spec x (2 ^ (32 - 1))); lia. Qed.

(** the [i64] and [u64] intermediate products of the multiplier do not overflow *)
Lemma products_fit x y : is_u32 x → is_u32 y →
  - 2 ^ 63 ≤ as_i32 x * as_i32 y < 2 ^ 63 ∧ - 2 ^ 63 ≤ as_i32 x * y < 2 ^ 63 ∧
  in_range 64 (x * y).
Proof.
  intros Hx Hy. pose proof (s_range x Hx). pose proof (s_range y Hy).
  unfold in_range in *. repeat split; nia.
Qed.

Lemma as_u32_bitop f x y :
  (∀ i, Z.testbit (f x y) i = true → Z.testbit x i = true ∨ Z.testbit y i = true) →
  0 ≤ f x y → is_u32 x → is_u32 y → as_u32 (f x y) = f x y.
Proof.
  intros Hbits Hpos [Hx1 Hx2] [Hy1 Hy2]. apply wrap_id. split; [done|].
  destruct (decide (f x y = 0)) as [->|Hne]; [lia|].
  apply Z.log2_lt_pow2; [lia|].
  destruct (Hbits (Z.log2 (f x y))) as [Hb|Hb].
  - apply Z.bit_log2. lia.
  - apply Z.lt_nge. intros Hge. rewrite Z.bits_above_log2 in Hb; [done | lia |].
    destruct (decide (x = 0)) as [->|]; [cbn; lia|]. eapply Z.lt_le_trans; [|exact Hge].
    apply Z.log2_lt_pow2; lia.
  - apply Z.lt_nge. intros Hge. rewrite Z.bits_above_log2 in Hb; [done | lia |].
    destruct (decide (y = 0)) as [->|]; [cbn; lia|]. eapply Z.lt_le_trans; [|exact Hge].
    apply Z.log2_lt_pow2; lia.
Qed.

Lemma quot_as_abs a b : b ≠ 0 → Z.quot a b = Z.sgn a * Z.sgn b * (Z.abs a / Z.abs b).
Proof.
  intros. rewrite Z.quot_div by done. lia.
Qed.

Lemma mul_mod_signed x y : as_u32 (as_i32 x * as_i32 y) = as_u32 (x * y).
Proof.
  unfold wrap. rewrite Zmult_mod. fold (as_u32 (as_i32 x)) (as_u32 (as_i32 y)).
  rewrite !(signed_mod 32) by lia. unfold wrap. by rewrite <- Zmult_mod.
Qed.
End execute_facts.

Section execute_theorems.
Import Execute.

Lemma alu_result_spec (op : Asm.r_op) (x y : Z) :
  is_u32 x → is_u32 y → alu_result (Isa.alu_of op) x y = Isa.arith op x y.
Proof.
  intros Hx Hy.
  pose proof (s_range x Hx) as Hsx. pose proof (s_range y Hy) as Hsy.
  pose proof (shamt_range y) as Hsh. pose proof Hx as [Hx1 Hx2]. pose proof Hy as [Hy1 Hy2].
  destruct op; cbn [Isa.alu_of alu_result]; unfold Isa.arith; rewrite ?shamt_spec;
    rewrite ?Z.shiftl_mul_pow2, ?Z.shiftr_div_pow2 by lia; try reflexivity.
  - unfold u32_from. destruct (Z.ltb_spec (as_i32 x) (as_i32 y)); case_decide; try lia; reflexivity.
  - unfold u32_from. destruct (Z.ltb_spec x y); case_decide; try lia; reflexivity.
  - symmetry. apply (as_u32_bitop Z.lxor); try done; [|by apply Z.lxor_nonneg].
    intros i. rewrite Z.lxor_spec. destruct (Z.testbit x i), (Z.testbit y i); auto.
  - symmetry. apply wrap_id. split; [apply Z.div_pos; lia|].
    apply Z.div_lt_upper_bound; [lia|]. assert (1 ≤ 2 ^ Isa.shamt y) by lia. nia.
  - symmetry. apply (as_u32_bitop Z.lor); try done; [|by apply Z.lor_nonneg].
    intros i. rewrite Z.lor_spec. destruct (Z.testbit x i), (Z.testbit y i); auto.
  - symmetry. apply (as_u32_bitop Z.land); try done; [|apply Z.land_nonneg; by left].
    intros i. rewrite Z.land_spec. destruct (Z.testbit x i), (Z.testbit y i); auto.
  - apply mul_mod_signed.
  - destruct (Z.eqb_spec y 0) as [->|Hne]; cbn [negb]; [reflexivity|].
    assert (as_i32 y ≠ 0) by eauto using s_zero. unfold Isa.div.
    rewrite (proj2 (Z.eqb_neq (as_i32 y) 0)) by done.
    destruct (Z.eqb_spec (as_i32 x) Isa.most_negative) as [E1|]; cbn [andb];
      [destruct (Z.eqb_spec (as_i32 y) (-1)) as [E2|]|]; try by rewrite quot_as_abs.
    rewrite E1, E2. reflexivity.
  - destruct (Z.eqb_spec y 0) as [->|Hne]; cbn [negb]; reflexivity.
  - destruct (Z.eqb_spec y 0) as [->|Hne]; cbn [negb].
    { unfold Isa.rem. cbn. symmetry. by apply wrap_signed. }
    assert (as_i32 y ≠ 0) by eauto using s_zero. unfold Isa.rem.
    rewrite (proj2 (Z.eqb_neq (as_i32 y) 0)) by done.
    destruct (Z.eqb_spec (as_i32 x) Isa.most_negative) as [E1|]; cbn [andb];
      [destruct (Z.eqb_spec (as_i32 y) (-1)) as [E2|]|];
      try by rewrite Z.rem_mod by done.
    rewrite E1, E2. reflexivity.
  - destruct (Z.eqb_spec y 0) as [->|Hne]; cbn [negb]; symmetry; apply wrap_id; [done|].
    pose proof (Z.mod_pos_bound x y). split; lia.
Qed.

(** C26: The ALU computes the RV32IM arithmetic: for every register-register operation
  and all 32-bit operands the result is the manual's, division by zero and
  signed-division overflow included, and it is again a 32-bit word. *)
Theorem alu_result_isa (op : Asm.r_op) (x y : Z) :
  is_u32 x → is_u32 y →
  alu_result (Isa.alu_of op) x y = Isa.arith op x y ∧ is_u32 (alu_result (Isa.alu_of op) x y).
Proof.
  intros. rewrite alu_result_spec by done. split; [done|]. unfold Isa.arith. by apply wrap_range.
Qed.

Lemma alu_result_isa_witness :
  let x := 2 ^ 31 in let y := 2 ^ 32 - 1 in
  alu_result Alu.Div x y = Isa.arith Asm.DIV x y ∧ is_u32 (alu_result Alu.Div x y).
Proof. apply (alu_result_isa Asm.DIV); split; lia. Defined.
End execute_theorems.
