(* ===== verification/Decode.v ===== *)
(** The ID-stage decoder: [simulator/src/hardware/pipeline_processor/decode.rs]. *)
From S2P Require Import Prelude Word Format Instruction BranchPredictor Uop.
From stdpp Require Import base list numbers.
From Stdlib Require Import Lia.
#[local] Open Scope Z_scope.

Inductive DecodeError :=
  | IllegalInstruction (raw_inst pc : Z)
  | UnsupportedFence (pc : Z).

Module Decode.
Import Op.

Definition alu_op_type (i : Inst.t) : option Alu.AluOpTypes :=
  match i with
  | Inst.Add _ | Inst.Addi _ => Some Alu.Add
  | Inst.Sub _ => Some Alu.Sub
  | Inst.Sll _ | Inst.Slli _ => Some Alu.Sll
  | Inst.Slt _ | Inst.Slti _ => Some Alu.Slt
  | Inst.Sltu _ | Inst.Sltiu _ => Some Alu.Sltu
  | Inst.Xor _ | Inst.Xori _ => Some Alu.Xor
  | Inst.Srl _ | Inst.Srli _ => Some Alu.Srl
  | Inst.Sra _ | Inst.Srai _ => Some Alu.Sra
  | Inst.Or _ | Inst.Ori _ => Some Alu.Or
  | Inst.And _ | Inst.Andi _ => Some Alu.And
  | Inst.Mul _ => Some Alu.Mul
  | Inst.Mulh _ => Some Alu.Mulh
  | Inst.Mulhu _ => Some Alu.Mulhu
  | Inst.Mulhsu _ => Some Alu.Mulhsu
  | Inst.Div _ => Some Alu.Div
  | Inst.Divu _ => Some Alu.Divu
  | Inst.Rem _ => Some Alu.Rem
  | Inst.Remu _ => Some Alu.Remu
  | _ => None
  end.

Section decode.
Context `{Profile}.

(** [Some((r, regs[r as usize]))] *)
Definition read (regs : list Z) (r : Z) : exec (option (Z * Z)) :=
  v ← index regs (Z.to_nat r); mret (Some (r, v)).

Definition decode_r (x : RType_) (op : PreDecodeMicroOp) (regs : list Z)
    : exec PreDecodeMicroOp :=
  v1 ← read regs (R.rs1 x);
  v2 ← read regs (R.rs2 x);
  mret (with_alu (Uop.alu_op_type op) Alu.RegRs1 Alu.RegRs2
          (with_alu_as_rd true (with_rd (Some (R.rd x)) (with_rs2 v2 (with_rs1 v1 op))))).

Definition decode_imm (x : IType_) (op : PreDecodeMicroOp) (regs : list Z)
    : exec PreDecodeMicroOp :=
  v1 ← read regs (I.rs1 x);
  imm ← I.imm_sign_ext x;
  mret (with_alu_as_rd true (with_alu (Uop.alu_op_type op) Alu.RegRs1 Alu.ImmSignExt
          (with_rd (Some (I.rd x)) (with_imm imm (with_rs1 v1 op))))).

Definition decode_load (x : IType_) (op : PreDecodeMicroOp) (regs : list Z)
    : exec PreDecodeMicroOp :=
  v1 ← read regs (I.rs1 x);
  imm ← I.imm_sign_ext x;
  mret (with_alu Alu.Add Alu.RegRs1 Alu.ImmSignExt
          (with_rd (Some (I.rd x)) (with_imm imm (with_rs1 v1 op)))).

Definition decode_store (x : SType_) (op : PreDecodeMicroOp) (regs : list Z)
    : exec PreDecodeMicroOp :=
  v1 ← read regs (S.rs1 x);
  v2 ← read regs (S.rs2 x);
  imm ← S.sign_ext x;
  mret (with_alu Alu.Add Alu.RegRs1 Alu.ImmSignExt
          (with_imm imm (with_rs2 v2 (with_rs1 v1 op)))).

Definition decode_branch (x : BType_) (op : PreDecodeMicroOp) (regs : list Z)
    : exec PreDecodeMicroOp :=
  v1 ← read regs (B.rs1 x);
  v2 ← read regs (B.rs2 x);
  imm ← B.sign_ext x;
  mret (with_alu Alu.Add Alu.CurrentPc Alu.ImmSignExt
          (with_imm imm (with_rs2 v2 (with_rs1 v1 op)))).

Definition decode_jal (x : JType_) (op : PreDecodeMicroOp) : exec PreDecodeMicroOp :=
  imm ← J.sign_ext x;
  link ← word_add 32 (pc op) 4;
  mret (with_alu Alu.Add Alu.CurrentPc Alu.ImmSignExt
          (with_rd_write (Some link) (with_rd (Some (J.rd x)) (with_imm imm op)))).

Definition decode_jalr (x : IType_) (op : PreDecodeMicroOp) (regs : list Z)
    : exec PreDecodeMicroOp :=
  v1 ← read regs (I.rs1 x);
  link ← word_add 32 (pc op) 4;
  imm ← I.imm_sign_ext x;
  mret (with_alu Alu.Add Alu.RegRs1 Alu.ImmSignExt
          (with_imm imm (with_rd_write (Some link) (with_rd (Some (I.rd x)) (with_rs1 v1 op))))).

Definition decode_upper (x : UType_) (sel : Alu.AluOpOneSelect) (op : PreDecodeMicroOp)
    : exec PreDecodeMicroOp :=
  imm ← U.sign_ext x;
  mret (with_alu_as_rd true (with_alu Alu.Add sel Alu.ImmSignExt
          (with_imm imm (with_rd (Some (U.rd x)) op)))).

(** the [match op.inst] of [decode] *)
Definition decode_fields (op : PreDecodeMicroOp) (regs : list Z)
    : exec (Result PreDecodeMicroOp DecodeError) :=
  match inst op with
  | Inst.Add x | Inst.Sub x | Inst.Sll x | Inst.Slt x | Inst.Sltu x | Inst.Xor x
  | Inst.Srl x | Inst.Sra x | Inst.Or x | Inst.And x | Inst.Mul x | Inst.Mulh x
  | Inst.Mulhu x | Inst.Mulhsu x | Inst.Div x | Inst.Divu x | Inst.Rem x | Inst.Remu x =>
      Ok <$> decode_r x op regs
  | Inst.Addi x | Inst.Slti x | Inst.Sltiu x | Inst.Xori x | Inst.Ori x | Inst.Andi x
  | Inst.Slli x | Inst.Srli x | Inst.Srai x => Ok <$> decode_imm x op regs
  | Inst.Lb x | Inst.Lh x | Inst.Lw x | Inst.Lbu x | Inst.Lhu x => Ok <$> decode_load x op regs
  | Inst.Sb x | Inst.Sh x | Inst.Sw x => Ok <$> decode_store x op regs
  | Inst.Beq x | Inst.Bne x | Inst.Blt x | Inst.Bge x | Inst.Bltu x | Inst.Bgeu x =>
      Ok <$> decode_branch x op regs
  | Inst.Jal x => Ok <$> decode_jal x op
  | Inst.Jalr x => Ok <$> decode_jalr x op regs
  | Inst.Lui x => Ok <$> decode_upper x Alu.Zero op
  | Inst.Auipc x => Ok <$> decode_upper x Alu.CurrentPc op
  | Inst.Fence _ => mret (Err (UnsupportedFence (pc op)))
  | Inst.Ecall _ => mret (Ok op)
  | Inst.Illegal raw => mret (Err (IllegalInstruction raw (pc op)))
  end.

Definition decode (op : PreDecodeMicroOp) (regs : list Z)
    : exec (Result PreDecodeMicroOp DecodeError) :=
  r ← decode_fields op regs;
  mret (let? op' := r in
        Ok match alu_op_type (inst op') with
           | Some ty => with_alu ty (alu_op1_sel op') (alu_op2_sel op') op'
           | None => op'
           end).
End decode.
End Decode.
