(* ===== verification/Datapath.v ===== *)
(** One instruction through the datapath: decoding (ID), the ALU, write-back
    selection and branch resolution (EXE) composed as [pipe.rs] composes them, and
    their agreement with the RV32IM semantics of the instruction. *)
From S2P Require Import Prelude Word Format Instruction BranchPredictor Uop Execute Decode.
From stdpp Require Import base list numbers.
From Stdlib Require Import Lia.
#[local] Open Scope Z_scope.

Section datapath.
Context `{Profile}.

(** ALU evaluation and write-back selection of [pipe_stage_exe] *)
Definition execute_op (op : PreDecodeMicroOp) : exec PreDecodeMicroOp :=
  '(op1, op2) ← Execute.alu_operands op;
  let op := Op.with_alu_result (Execute.alu_result (alu_op_type op) op1 op2) op in
  mret (if alu_result_as_rd_dst_value op then Op.set_writeback_value (alu_result op) op else op).

(** branch resolution of [pipe_stage_exe]: whether the branch is taken and, when the
  prediction was wrong, the destination to recover to *)
Definition resolve_branch (op : PreDecodeMicroOp) : exec (option (bool * option Z)) :=
  b ← Op.branch_resolution_inputs op;
  match b with
  | None => mret None
  | Some b =>
      is_taken ← unwrap (Execute.branch_taken (br_inst b) (br_rs1 b) (br_rs2 b));
      if Branch.needs_recovery b is_taken then
        d ← Branch.recovery_destination b is_taken; mret (Some (is_taken, Some d))
      else mret (Some (is_taken, None))
  end.
End datapath.

(** * Specification *)
Module Effect.
(** What an instruction does, before its memory access is answered: the next pc,
  the destination register with its value (none yet for a load) and the access. *)
Record t := {
  next : Z;
  rd : option Z;
  value : option Z;
  access : option MemoryAccess;
}.

Definition reg (regs : list Z) (r : Z) : Z := regs !!! Z.to_nat r.

Definition i_arith (op : Asm.i_op) : Asm.r_op :=
  match op with
  | Asm.ADDI => Asm.ADD | Asm.SLTI => Asm.SLT | Asm.SLTIU => Asm.SLTU
  | Asm.XORI => Asm.XOR | Asm.ORI => Asm.OR | Asm.ANDI => Asm.AND
  end.
Definition shift_arith (op : Asm.shift_op) : Asm.r_op :=
  match op with Asm.SLLI => Asm.SLL | Asm.SRLI => Asm.SRL | Asm.SRAI => Asm.SRA end.
Definition load_kind (op : Asm.load_op) : MemoryAccessWidth * LoadExtension :=
  match op with
  | Asm.LB => (Byte, SignExt) | Asm.LH => (HalfWord, SignExt) | Asm.LW => (Word, ZeroExt)
  | Asm.LBU => (Byte, ZeroExt) | Asm.LHU => (HalfWord, ZeroExt)
  end.
Definition store_width (op : Asm.store_op) : MemoryAccessWidth :=
  match op with Asm.SB => Byte | Asm.SH => HalfWord | Asm.SW => Word end.

Definition semantics (regs : list Z) (pc : Z) (a : Asm.t) : t :=
  let x := reg regs in
  let seq := as_u32 (pc + 4) in
  match a with
  | Asm.Arith op d r1 r2 =>
      {| next := seq; rd := Some d; value := Some (Isa.arith op (x r1) (x r2)); access := None |}
  | Asm.ArithImm op d r1 imm =>
      {| next := seq; rd := Some d;
         value := Some (Isa.arith (i_arith op) (x r1) (as_u32 imm)); access := None |}
  | Asm.Shift op d r1 shamt =>
      {| next := seq; rd := Some d;
         value := Some (Isa.arith (shift_arith op) (x r1) shamt); access := None |}
  | Asm.Load op d r1 imm =>
      {| next := seq; rd := Some d; value := None;
         access := Some (LoadAccess (as_u32 (x r1 + imm)) (fst (load_kind op)) (snd (load_kind op))) |}
  | Asm.Store op r1 r2 imm =>
      {| next := seq; rd := None; value := None;
         access := Some (StoreAccess (as_u32 (x r1 + imm)) (store_width op) (x r2)) |}
  | Asm.Branch op r1 r2 imm =>
      {| next := if Isa.taken op (x r1) (x r2) then as_u32 (pc + imm) else seq;
         rd := None; value := None; access := None |}
  | Asm.Upper Asm.LUI d imm =>
      {| next := seq; rd := Some d; value := Some (imm * 2 ^ 12); access := None |}
  | Asm.Upper Asm.AUIPC d imm =>
      {| next := seq; rd := Some d; value := Some (as_u32 (pc + imm * 2 ^ 12)); access := None |}
  | Asm.Jal d imm =>
      {| next := as_u32 (pc + imm); rd := Some d; value := Some seq; access := None |}
  | Asm.Jalr d r1 imm =>
      {| next := as_u32 (x r1 + imm) - as_u32 (x r1 + imm) mod 2; rd := Some d;
         value := Some seq; access := None |}
  | Asm.Ecall => {| next := seq; rd := None; value := None; access := None |}
  end.

Definition is_control (a : Asm.t) : bool :=
  match a with Asm.Branch _ _ _ _ | Asm.Jal _ _ | Asm.Jalr _ _ _ => true | _ => false end.

(** the simulator does not clear bit 0 of a JALR target *)
Definition jalr_even (regs : list Z) (a : Asm.t) : Prop :=
  match a with Asm.Jalr _ r1 imm => as_u32 (reg regs r1 + imm) mod 2 = 0 | _ => True end.

(** the effect the program gives an instruction: that of the manual, but for an odd JALR
  target, which keeps its bit 0 *)
Definition simulated (regs : list Z) (pc : Z) (a : Asm.t) : t :=
  match a with
  | Asm.Jalr d r1 imm =>
      {| next := as_u32 (reg regs r1 + imm); rd := Some d; value := Some (as_u32 (pc + 4));
         access := None |}
  | _ => semantics regs pc a
  end.

(** where IF continues after the prediction [bp] *)
Definition predicted (pc : Z) (bp : BranchPredictResult) : Z :=
  if direction bp then addr bp else as_u32 (pc + 4).
End Effect.

Section facts.
Context `{Profile}.

Lemma simulated_even regs pc a :
  Effect.jalr_even regs a → Effect.simulated regs pc a = Effect.semantics regs pc a.
Proof. destruct a; cbn; try done. intros ->. by rewrite Z.sub_0_r. Qed.

Lemma sign_ext_helper_range d w r : sign_ext_helper d w = Ret r → is_u32 r.
Proof. unfold sign_ext_helper. intros Hr. exec_inv. by apply wrap_range. Qed.

Lemma imm_range_I x r : I.imm_sign_ext x = Ret r → is_u32 r.
Proof. apply sign_ext_helper_range. Qed.
Lemma imm_range_S x r : S.sign_ext x = Ret r → is_u32 r.
Proof. unfold S.sign_ext. intros Hr. exec_inv. by eapply sign_ext_helper_range. Qed.
Lemma imm_range_B x r : B.sign_ext x = Ret r → is_u32 r.
Proof. unfold B.sign_ext. intros Hr. exec_inv. by eapply sign_ext_helper_range. Qed.
Lemma imm_range_J x r : J.sign_ext x = Ret r → is_u32 r.
Proof. unfold J.sign_ext. intros Hr. exec_inv. by eapply sign_ext_helper_range. Qed.

(** adding the word of an immediate is adding the signed immediate *)
Lemma add_signed x r : as_u32 (x + as_i32 r) = as_u32 (x + r).
Proof.
  unfold wrap. rewrite Zplus_mod. fold (as_u32 (as_i32 r)). rewrite (signed_mod 32) by lia.
  unfold wrap. by rewrite <- Zplus_mod.
Qed.

Context (regs : list Z) (Hlen : length regs = 32%nat) (Hregs : Forall is_u32 regs).

Lemma read_reg r : 0 ≤ r < 32 → Decode.read regs r = Ret (Some (r, Effect.reg regs r)).
Proof using Hlen.
  intros. unfold Decode.read. rewrite (index_Ret _ _ (Effect.reg regs r)); [done|].
  apply list_lookup_lookup_total_lt. lia.
Qed.

Lemma reg_u32 r : 0 ≤ r < 32 → is_u32 (Effect.reg regs r).
Proof using All.
  intros. eapply Forall_lookup_1; [exact Hregs|].
  apply list_lookup_lookup_total_lt. lia.
Qed.
End facts.

#[export] Hint Unfold Asm.reg : sim.
#[export] Hint Resolve reg_u32 imm_range_I imm_range_S imm_range_B imm_range_J : sim.

Section datapath_theorem.
Context `{Profile}.
Import Effect.

(** the micro-op IF builds: control-flow instructions carry a prediction *)
Definition fetched_op (raw : Z) (i : Inst.t) (p : Z) (bp : option BranchPredictResult)
    : PreDecodeMicroOp :=
  match bp with Some b => Op.fetched_branch raw i p b | None => Op.fetched raw i p end.

(** the outcome of EXE agrees with the effect [e] of the instruction *)
Definition agrees (e : Effect.t) (control : bool) (p : Z) (bp : option BranchPredictResult)
    (op : PreDecodeMicroOp) : Prop :=
  rd_index op = rd e ∧ rd_write_value op = value e ∧
  Op.memory_access op = Ret (access e) ∧
  if control then
    ∃ b t d, bp = Some b ∧ resolve_branch op = Ret (Some (t, d)) ∧
      next e = match d with Some d => d | None => predicted p b end
  else resolve_branch op = Ret None ∧ next e = as_u32 (p + 4).

Definition branch_inst (op : Asm.branch_op) : BType_ → Inst.t :=
  match op with
  | Asm.BEQ => Inst.Beq | Asm.BNE => Inst.Bne | Asm.BLT => Inst.Blt | Asm.BGE => Inst.Bge
  | Asm.BLTU => Inst.Bltu | Asm.BGEU => Inst.Bgeu
  end.

Lemma branch_taken_inst op x y z : Execute.branch_taken (branch_inst op x) y z = Some (Isa.taken op y z).
Proof.
  destruct op; cbn [Execute.branch_taken branch_inst Isa.taken]; f_equal; apply eq_true_iff_eq;
    rewrite bool_decide_eq_true, ?negb_true_iff, ?Z.eqb_eq, ?Z.eqb_neq, ?Z.ltb_lt, ?Z.leb_le; done.
Qed.

Lemma word_imm imm : is_u32 imm → as_u32 (as_i32 imm) = imm.
Proof. intros. by apply wrap_signed. Qed.

Lemma shift_arith_mask op y z :
  Isa.arith (shift_arith op) y (Z.land z 31) = Isa.arith (shift_arith op) y z.
Proof.
  rewrite shamt_spec. unfold Isa.arith, Isa.shamt. destruct op; cbn [shift_arith];
    by rewrite Z.mod_mod by lia.
Qed.

Lemma U_imm x : 0 ≤ U.imm31_12 x < 2 ^ 20 → U.sign_ext x = Ret (U.imm31_12 x * 2 ^ 12).
Proof.
  intros. unfold U.sign_ext. rewrite word_shl_Ret by lia. rewrite Z.shiftl_mul_pow2 by lia.
  rewrite wrap_id by (split; lia). done.
Qed.

Context (regs : list Z) (Hlen : length regs = 32%nat) (Hregs : Forall is_u32 regs).
Context (p : Z) (Hp : word_add 32 p 4 = Ret (as_u32 (p + 4))).

Definition runs_to (op : PreDecodeMicroOp) (Q : PreDecodeMicroOp → Prop) : Prop :=
  ∃ op1 op2, Decode.decode op regs = Ret (Ok op1) ∧ execute_op op1 = Ret op2 ∧ Q op2.

(** the constructors of each class of instructions *)
Definition arith_inst (op : Asm.r_op) : RType_ → Inst.t :=
  match op with
  | Asm.ADD => Inst.Add | Asm.SUB => Inst.Sub | Asm.SLL => Inst.Sll | Asm.SLT => Inst.Slt
  | Asm.SLTU => Inst.Sltu | Asm.XOR => Inst.Xor | Asm.SRL => Inst.Srl | Asm.SRA => Inst.Sra
  | Asm.OR => Inst.Or | Asm.AND => Inst.And | Asm.MUL => Inst.Mul | Asm.MULH => Inst.Mulh
  | Asm.MULHSU => Inst.Mulhsu | Asm.MULHU => Inst.Mulhu | Asm.DIV => Inst.Div
  | Asm.DIVU => Inst.Divu | Asm.REM => Inst.Rem | Asm.REMU => Inst.Remu
  end.

Definition imm_inst (op : Asm.i_op) : IType_ → Inst.t :=
  match op with
  | Asm.ADDI => Inst.Addi | Asm.SLTI => Inst.Slti | Asm.SLTIU => Inst.Sltiu
  | Asm.XORI => Inst.Xori | Asm.ORI => Inst.Ori | Asm.ANDI => Inst.Andi
  end.

Definition shift_inst (op : Asm.shift_op) : IType_ → Inst.t :=
  match op with Asm.SLLI => Inst.Slli | Asm.SRLI => Inst.Srli | Asm.SRAI => Inst.Srai end.

Definition load_inst (op : Asm.load_op) : IType_ → Inst.t :=
  match op with
  | Asm.LB => Inst.Lb | Asm.LH => Inst.Lh | Asm.LW => Inst.Lw | Asm.LBU => Inst.Lbu
  | Asm.LHU => Inst.Lhu
  end.

Definition store_inst (op : Asm.store_op) : SType_ → Inst.t :=
  match op with Asm.SB => Inst.Sb | Asm.SH => Inst.Sh | Asm.SW => Inst.Sw end.

(** a micro-op as ID leaves it, and as EXE leaves it *)
Definition decoded raw i bp r1 r2 imm ty s1 s2 as_rd d wv : PreDecodeMicroOp := {|
  raw_inst := raw; inst := i; pc := p; rs1 := r1; rs2 := r2; immediate_signext := imm;
  alu_op_type := ty; alu_op1_sel := s1; alu_op2_sel := s2; alu_result := 0;
  alu_result_as_rd_dst_value := as_rd; rd_index := d; rd_write_value := wv;
  bp_result := bp; placeholder := false |}.
Definition executed v (op : PreDecodeMicroOp) : PreDecodeMicroOp :=
  let op := Op.with_alu_result v op in
  if alu_result_as_rd_dst_value op then Op.set_writeback_value v op else op.

Lemma execute_decoded op y z v :
  Execute.alu_operands op = Ret (y, z) → Execute.alu_result (alu_op_type op) y z = v →
  execute_op op = Ret (executed v op).
Proof using Type. intros E <-. unfold execute_op. by rewrite E. Qed.

Lemma runs_to_intro op op1 y z v Q :
  Decode.decode op regs = Ret (Ok op1) → Execute.alu_operands op1 = Ret (y, z) →
  Execute.alu_result (alu_op_type op1) y z = v → Q (executed v op1) → runs_to op Q.
Proof using Type. intros ? E ? ?. exists op1, (executed v op1). split_and!; try done. by eapply execute_decoded. Qed.

Abbreviation src r := (Some (r%Z, reg regs r%Z)).

Lemma decode_arith op x raw : 0 ≤ R.rs1 x < 32 → 0 ≤ R.rs2 x < 32 →
  Decode.decode (Op.fetched raw (arith_inst op x) p) regs =
    Ret (Ok (decoded raw (arith_inst op x) None (src (R.rs1 x)) (src (R.rs2 x)) 0 (Isa.alu_of op)
      Alu.RegRs1 Alu.RegRs2 true (Some (R.rd x)) None)).
Proof using Hlen.
  intros. unfold Decode.decode, Decode.decode_fields, Decode.decode_r.
  destruct op; cbn [arith_inst Op.fetched inst]; rewrite !read_reg by done; reflexivity.
Qed.

Lemma decode_imm_inst op x imm raw : 0 ≤ I.rs1 x < 32 → I.imm_sign_ext x = Ret imm →
  Decode.decode (Op.fetched raw (imm_inst op x) p) regs =
    Ret (Ok (decoded raw (imm_inst op x) None (src (I.rs1 x)) None imm (Isa.alu_of (i_arith op))
      Alu.RegRs1 Alu.ImmSignExt true (Some (I.rd x)) None)).
Proof using Hlen.
  intros ? E. unfold Decode.decode, Decode.decode_fields, Decode.decode_imm.
  destruct op; cbn [imm_inst Op.fetched inst]; rewrite read_reg, bind_Ret, E by done; reflexivity.
Qed.

Lemma decode_shift_inst op x imm raw : 0 ≤ I.rs1 x < 32 → I.imm_sign_ext x = Ret imm →
  Decode.decode (Op.fetched raw (shift_inst op x) p) regs =
    Ret (Ok (decoded raw (shift_inst op x) None (src (I.rs1 x)) None imm
      (Isa.alu_of (shift_arith op)) Alu.RegRs1 Alu.ImmSignExt true (Some (I.rd x)) None)).
Proof using Hlen.
  intros ? E. unfold Decode.decode, Decode.decode_fields, Decode.decode_imm.
  destruct op; cbn [shift_inst Op.fetched inst]; rewrite read_reg, bind_Ret, E by done; reflexivity.
Qed.

Lemma decode_load_inst op x imm raw : 0 ≤ I.rs1 x < 32 → I.imm_sign_ext x = Ret imm →
  Decode.decode (Op.fetched raw (load_inst op x) p) regs =
    Ret (Ok (decoded raw (load_inst op x) None (src (I.rs1 x)) None imm Alu.Add Alu.RegRs1
      Alu.ImmSignExt false (Some (I.rd x)) None)).
Proof using Hlen.
  intros ? E. unfold Decode.decode, Decode.decode_fields, Decode.decode_load.
  destruct op; cbn [load_inst Op.fetched inst]; rewrite read_reg, bind_Ret, E by done; reflexivity.
Qed.

Lemma decode_store_inst op x imm raw :
  0 ≤ S.rs1 x < 32 → 0 ≤ S.rs2 x < 32 → S.sign_ext x = Ret imm →
  Decode.decode (Op.fetched raw (store_inst op x) p) regs =
    Ret (Ok (decoded raw (store_inst op x) None (src (S.rs1 x)) (src (S.rs2 x)) imm Alu.Add
      Alu.RegRs1 Alu.ImmSignExt false None None)).
Proof using Hlen.
  intros ? ? E. unfold Decode.decode, Decode.decode_fields, Decode.decode_store.
  destruct op; cbn [store_inst Op.fetched inst]; rewrite !read_reg, !bind_Ret, E by done; reflexivity.
Qed.

Lemma decode_branch_inst op x imm raw b :
  0 ≤ B.rs1 x < 32 → 0 ≤ B.rs2 x < 32 → B.sign_ext x = Ret imm →
  Decode.decode (Op.fetched_branch raw (branch_inst op x) p b) regs =
    Ret (Ok (decoded raw (branch_inst op x) (Some b) (src (B.rs1 x)) (src (B.rs2 x)) imm Alu.Add
      Alu.CurrentPc Alu.ImmSignExt false None None)).
Proof using Hlen.
  intros ? ? E. unfold Decode.decode, Decode.decode_fields, Decode.decode_branch.
  destruct op; cbn [branch_inst Op.fetched_branch inst]; rewrite !read_reg, !bind_Ret, E by done;
    reflexivity.
Qed.

Lemma decode_jal_inst x imm raw b : J.sign_ext x = Ret imm →
  Decode.decode (Op.fetched_branch raw (Inst.Jal x) p b) regs =
    Ret (Ok (decoded raw (Inst.Jal x) (Some b) None None imm Alu.Add
      Alu.CurrentPc Alu.ImmSignExt false (Some (J.rd x)) (Some (as_u32 (p + 4))))).
Proof using Hp.
  intros E. unfold Decode.decode, Decode.decode_fields, Decode.decode_jal.
  cbn [Op.fetched_branch inst pc]. rewrite E, bind_Ret, Hp. reflexivity.
Qed.

Lemma decode_jalr_inst x imm raw b : 0 ≤ I.rs1 x < 32 → I.imm_sign_ext x = Ret imm →
  Decode.decode (Op.fetched_branch raw (Inst.Jalr x) p b) regs =
    Ret (Ok (decoded raw (Inst.Jalr x) (Some b) (src (I.rs1 x)) None imm Alu.Add
      Alu.RegRs1 Alu.ImmSignExt false (Some (I.rd x)) (Some (as_u32 (p + 4))))).
Proof using Hlen Hp.
  intros ? E. unfold Decode.decode, Decode.decode_fields, Decode.decode_jalr.
  cbn [Op.fetched_branch inst pc]. rewrite read_reg, bind_Ret, Hp, bind_Ret, E by done.
  reflexivity.
Qed.

Definition upper_inst (op : Asm.u_op) : UType_ → Inst.t :=
  match op with Asm.LUI => Inst.Lui | Asm.AUIPC => Inst.Auipc end.
Definition upper_sel (op : Asm.u_op) : Alu.AluOpOneSelect :=
  match op with Asm.LUI => Alu.Zero | Asm.AUIPC => Alu.CurrentPc end.

Lemma decode_upper_inst op x imm raw : U.sign_ext x = Ret imm →
  Decode.decode (Op.fetched raw (upper_inst op x) p) regs =
    Ret (Ok (decoded raw (upper_inst op x) None None None imm Alu.Add
      (upper_sel op) Alu.ImmSignExt true (Some (U.rd x)) None)).
Proof using Type.
  intros E. unfold Decode.decode, Decode.decode_fields, Decode.decode_upper.
  destruct op; cbn [upper_inst Op.fetched inst]; rewrite E; reflexivity.
Qed.

(** branch resolution of a control-flow micro-op with the prediction [b] *)
Lemma resolve_control op b t x y :
  Op.branch_resolution_inputs op = Ret (Some {| br_inst := inst op; br_pc := p;
    br_predicted := b; br_rs1 := x; br_rs2 := y; br_target := alu_result op |}) →
  Execute.branch_taken (inst op) x y = Some t →
  ∃ d, resolve_branch op = Ret (Some (t, d)) ∧
    (if t then alu_result op else as_u32 (p + 4)) =
      match d with Some d => d | None => predicted p b end.
Proof using Hp.
  intros E1 E2. unfold resolve_branch. rewrite E1, bind_Ret. cbn [br_inst br_rs1 br_rs2].
  rewrite E2. cbn [unwrap]. rewrite bind_Ret.
  unfold Branch.needs_recovery, Branch.recovery_destination, predicted. cbn [br_predicted br_target br_pc].
  rewrite Hp.
  destruct t, (direction b); cbn [Bool.eqb negb orb andb];
    try destruct (Z.eqb_spec (addr b) (alu_result op)); eexists; (split; [reflexivity|]); done.
Qed.

Ltac agree := unfold agrees; split; [reflexivity|]; split; [reflexivity|]; split;
  [reflexivity|]; split; reflexivity.

Lemma arith_case op x raw :
  let a := Asm.Arith op (R.rd x) (R.rs1 x) (R.rs2 x) in
  Asm.valid a →
  runs_to (Op.fetched raw (arith_inst op x) p) (agrees (semantics regs p a) false p None).
Proof using Hlen Hregs.
  intros a (? & ? & ?).
  eapply runs_to_intro; [by apply decode_arith | reflexivity | by apply alu_result_spec; eauto with sim |].
  subst a. cbn [semantics snd immediate_signext decoded]. generalize (Isa.arith op (reg regs (R.rs1 x)) (reg regs (R.rs2 x))).
  intros v. destruct op; agree.
Qed.

Lemma imm_case op x imm raw : I.imm_sign_ext x = Ret imm →
  let a := Asm.ArithImm op (I.rd x) (I.rs1 x) (as_i32 imm) in
  Asm.valid a →
  runs_to (Op.fetched raw (imm_inst op x) p) (agrees (semantics regs p a) false p None).
Proof using Hlen Hregs.
  intros Himm a (? & ? & ?). subst a. cbn [semantics]. rewrite word_imm by eauto with sim.
  eapply runs_to_intro;
    [by apply decode_imm_inst | reflexivity | by apply alu_result_spec; eauto with sim |].
  cbn [snd immediate_signext decoded pc alu_op_type Execute.alu_result]. generalize (Isa.arith (i_arith op) (reg regs (I.rs1 x)) imm). intros v. destruct op; agree.
Qed.

Lemma shift_case op x imm raw : I.imm_sign_ext x = Ret imm →
  let a := Asm.Shift op (I.rd x) (I.rs1 x) (Z.land imm 31) in
  Asm.valid a →
  runs_to (Op.fetched raw (shift_inst op x) p) (agrees (semantics regs p a) false p None).
Proof using Hlen Hregs.
  intros Himm a (? & ? & ?). subst a. cbn [semantics]. rewrite shift_arith_mask.
  eapply runs_to_intro;
    [by apply decode_shift_inst | reflexivity | by apply alu_result_spec; eauto with sim |].
  cbn [snd immediate_signext decoded pc alu_op_type Execute.alu_result]. generalize (Isa.arith (shift_arith op) (reg regs (I.rs1 x)) imm). intros v. destruct op; agree.
Qed.

Lemma load_case op x imm raw : I.imm_sign_ext x = Ret imm →
  let a := Asm.Load op (I.rd x) (I.rs1 x) (as_i32 imm) in
  Asm.valid a →
  runs_to (Op.fetched raw (load_inst op x) p) (agrees (semantics regs p a) false p None).
Proof using Hlen Hregs.
  intros Himm a (? & ? & ?). subst a. cbn [semantics]. rewrite add_signed.
  eapply runs_to_intro; [by apply decode_load_inst | reflexivity | reflexivity |].
  cbn [snd immediate_signext decoded pc alu_op_type Execute.alu_result]. generalize (as_u32 (reg regs (I.rs1 x) + imm)). intros v. destruct op; agree.
Qed.

Lemma store_case op x imm raw : S.sign_ext x = Ret imm →
  let a := Asm.Store op (S.rs1 x) (S.rs2 x) (as_i32 imm) in
  Asm.valid a →
  runs_to (Op.fetched raw (store_inst op x) p) (agrees (semantics regs p a) false p None).
Proof using Hlen Hregs.
  intros Himm a (? & ? & ?). subst a. cbn [semantics]. rewrite add_signed.
  eapply runs_to_intro; [by apply decode_store_inst | reflexivity | reflexivity |].
  cbn [snd immediate_signext decoded pc alu_op_type Execute.alu_result]. generalize (as_u32 (reg regs (S.rs1 x) + imm)). intros v. destruct op; agree.
Qed.

Lemma upper_case op x raw :
  let a := Asm.Upper op (U.rd x) (U.imm31_12 x) in
  Asm.valid a →
  runs_to (Op.fetched raw (upper_inst op x) p) (agrees (semantics regs p a) false p None).
Proof using Hlen.
  intros a [? ?]. subst a.
  eapply (runs_to_intro _ _ (match op with Asm.LUI => 0 | Asm.AUIPC => p end));
    [by eapply decode_upper_inst, U_imm | by destruct op | reflexivity |].
  destruct op; cbn [semantics Execute.alu_result alu_op_type decoded immediate_signext pc].
  - rewrite Z.add_0_l, (wrap_id _ (U.imm31_12 x * 2 ^ 12)) by (split; lia). agree.
  - agree.
Qed.

(** a control-flow micro-op after EXE: link value and resolution *)
Lemma control_agrees e op b t x y :
  rd_index op = rd e → rd_write_value op = value e → Op.memory_access op = Ret (access e) →
  Op.branch_resolution_inputs op = Ret (Some {| br_inst := inst op; br_pc := p;
    br_predicted := b; br_rs1 := x; br_rs2 := y; br_target := alu_result op |}) →
  Execute.branch_taken (inst op) x y = Some t →
  next e = (if t then alu_result op else as_u32 (p + 4)) →
  agrees e true p (Some b) op.
Proof using Hp.
  intros ? ? ? E1 E2 E3. destruct (resolve_control _ _ _ _ _ E1 E2) as (d & ? & E4).
  unfold agrees. split_and!; [done..|]. exists b, t, d. split_and!; [done..|]. by rewrite E3.
Qed.

Lemma branch_case op x imm raw b : B.sign_ext x = Ret imm →
  let a := Asm.Branch op (B.rs1 x) (B.rs2 x) (as_i32 imm) in
  Asm.valid a →
  runs_to (Op.fetched_branch raw (branch_inst op x) p b)
    (agrees (semantics regs p a) true p (Some b)).
Proof using Hlen Hp.
  intros Himm a (? & ? & ?). subst a. cbn [semantics]. rewrite add_signed.
  eapply runs_to_intro; [by apply decode_branch_inst | reflexivity | reflexivity |].
  cbn [snd alu_op_type decoded Execute.alu_result immediate_signext pc].
  generalize (as_u32 (p + imm)). intros v.
  eapply (control_agrees _ _ _ (Isa.taken op (reg regs (B.rs1 x)) (reg regs (B.rs2 x))));
    [| | | | apply branch_taken_inst |]; destruct op; reflexivity.
Qed.

Lemma jal_case x imm raw b : J.sign_ext x = Ret imm →
  runs_to (Op.fetched_branch raw (Inst.Jal x) p b)
    (agrees (semantics regs p (Asm.Jal (J.rd x) (as_i32 imm))) true p (Some b)).
Proof using Hp.
  intros Himm. cbn [semantics]. rewrite add_signed.
  eapply runs_to_intro; [by apply decode_jal_inst | reflexivity | reflexivity |].
  cbn [snd alu_op_type decoded Execute.alu_result immediate_signext pc].
  generalize (as_u32 (p + imm)). intros v. by eapply (control_agrees _ _ _ true).
Qed.

Lemma jalr_case x imm raw b : I.imm_sign_ext x = Ret imm →
  let a := Asm.Jalr (I.rd x) (I.rs1 x) (as_i32 imm) in
  Asm.valid a →
  runs_to (Op.fetched_branch raw (Inst.Jalr x) p b)
    (agrees (simulated regs p a) true p (Some b)).
Proof using Hlen Hp.
  intros Himm a (? & ? & ?). subst a. cbn [simulated]. rewrite add_signed.
  eapply runs_to_intro; [by apply decode_jalr_inst | reflexivity | reflexivity |].
  cbn [snd alu_op_type decoded Execute.alu_result immediate_signext pc].
  generalize (as_u32 (reg regs (I.rs1 x) + imm)). intros v. by eapply (control_agrees _ _ _ true).
Qed.

(** inversion of the disassembler, class by class *)
Lemma asm_inv1 {A} (m : exec A) (f : A → Asm.t) a :
  (v ← m; mret (Some (f v))) = Ret (Some a) → ∃ v, m = Ret v ∧ a = f v.
Proof using Type. destruct m as [v|]; [|done]. intros [= <-]. by exists v. Qed.

Lemma no_prediction (bp : option BranchPredictResult) a :
  (is_Some bp ↔ is_control a = true) → is_control a = false → bp = None.
Proof using Type. intros [H1 _] H2. destruct bp; [|done]. rewrite H1 in H2 by eauto. done. Qed.

Lemma has_prediction (bp : option BranchPredictResult) a :
  (is_Some bp ↔ is_control a = true) → is_control a = true → ∃ b, bp = Some b.
Proof using Type. intros [_ H1] H2. destruct (H1 H2) as [b ->]. by exists b. Qed.

Ltac sequential Hbp lem :=
  try rewrite (no_prediction _ _ Hbp eq_refl); by apply lem.
Ltac control Hbp lem :=
  destruct (has_prediction _ _ Hbp eq_refl) as [? ->]; by apply lem.
Ltac datapath_case Hd Hbp :=
  lazymatch type of Hd with
  | r_asm ?op _ = _ => injection Hd as <-; sequential Hbp (arith_case op)
  | i_asm ?op _ = _ => apply asm_inv1 in Hd as (? & ? & ->); sequential Hbp (imm_case op)
  | shift_asm ?op _ = _ => apply asm_inv1 in Hd as (? & ? & ->); sequential Hbp (shift_case op)
  | load_asm ?op _ = _ => apply asm_inv1 in Hd as (? & ? & ->); sequential Hbp (load_case op)
  | store_asm ?op _ = _ => apply asm_inv1 in Hd as (? & ? & ->); sequential Hbp (store_case op)
  | branch_asm ?op _ = _ => apply asm_inv1 in Hd as (? & ? & ->); control Hbp (branch_case op)
  | mret (Some (Asm.Upper ?op _ _)) = _ => injection Hd as <-; sequential Hbp (upper_case op)
  | _ => idtac
  end.

(** one instruction, with the effect the program gives it *)
Lemma datapath_simulated (raw : Z) (i : Inst.t) (a : Asm.t) (bp : option BranchPredictResult) :
  disassemble i = Ret (Some a) → Asm.valid a → a ≠ Asm.Ecall →
  (is_Some bp ↔ is_control a = true) →
  runs_to (fetched_op raw i p bp) (agrees (simulated regs p a) (is_control a) p bp).
Proof using All.
  intros Hd Hv He Hbp.
  destruct i; cbn [disassemble] in Hd; datapath_case Hd Hbp.
  - apply asm_inv1 in Hd as (? & ? & ->). control Hbp jal_case.
  - apply asm_inv1 in Hd as (? & ? & ->). control Hbp jalr_case.
  - discriminate Hd.
  - injection Hd as <-. by destruct He.
  - discriminate Hd.
Qed.

(** ** What a run that returns has computed, without the no-overflow hypothesis *)

(** a run through the datapath agrees with the effect [e], and [r], its branch resolution,
  leaves the front end at the next pc of [e] *)
Definition outcome (e : Effect.t) (bp : option BranchPredictResult)
    (op : PreDecodeMicroOp) (r : option (bool * option Z)) : Prop :=
  rd_index op = rd e ∧ rd_write_value op = value e ∧
  Op.memory_access op = Ret (access e) ∧
  match bp, r with
  | None, None => next e = as_u32 (p + 4)
  | Some b, Some (_, d) => next e = match d with Some d => d | None => predicted p b end
  | _, _ => False
  end.

Lemma datapath_sequential raw i a :
  disassemble i = Ret (Some a) → Asm.valid a → a ≠ Asm.Ecall → is_control a = false →
  runs_to (Op.fetched raw i p) (agrees (simulated regs p a) false p None).
Proof using Hlen Hregs.
  intros Hd Hv He Hc. assert (Hbp : is_Some (@None BranchPredictResult) ↔ is_control a = true).
  { rewrite Hc. split; [by intros [? ?] | done]. }
  change (Op.fetched raw i p) with (fetched_op raw i p None).
  destruct i; cbn [disassemble] in Hd;
    try (apply asm_inv1 in Hd as (? & ? & ->); discriminate Hc); datapath_case Hd Hbp.
  - discriminate Hd.
  - injection Hd as <-. by destruct He.
  - discriminate Hd.
Qed.

Lemma branch_sound op x imm raw b e op2 r :
  B.sign_ext x = Ret imm →
  let a := Asm.Branch op (B.rs1 x) (B.rs2 x) (as_i32 imm) in
  Asm.valid a →
  Decode.decode (Op.fetched_branch raw (branch_inst op x) p b) regs = Ret (Ok e) →
  execute_op e = Ret op2 → resolve_branch op2 = Ret r →
  outcome (simulated regs p a) (Some b) op2 r.
Proof using Hlen.
  intros Himm a (? & ? & ?) Hd He Hr. subst a. cbn [simulated semantics]. rewrite add_signed.
  rewrite (decode_branch_inst op x imm) in Hd by done. injection Hd as <-.
  erewrite execute_decoded in He by reflexivity. injection He as <-.
  cbn [snd alu_op_type decoded Execute.alu_result immediate_signext pc] in *.
  revert Hr. generalize (as_u32 (p + imm)). intros v Hr.
  set (t := Isa.taken op (reg regs (B.rs1 x)) (reg regs (B.rs2 x))) in *.
  unfold resolve_branch, Op.branch_resolution_inputs in Hr.
  assert (Ht := branch_taken_inst op x (reg regs (B.rs1 x)) (reg regs (B.rs2 x))).
  fold t in Ht. clearbody t.
  assert (Hr' : (if Branch.needs_recovery {| br_inst := branch_inst op x; br_pc := p;
        br_predicted := b; br_rs1 := reg regs (B.rs1 x); br_rs2 := reg regs (B.rs2 x);
        br_target := v |} t
      then d ← (if t then mret v else word_add 32 p 4); mret (Some (t, Some d))
      else mret (Some (t, None))) = Ret r).
  { rewrite <- Hr. destruct op; cbn -[word_add Branch.needs_recovery] in *;
      injection Ht as ->; reflexivity. }
  clear Hr. unfold Branch.needs_recovery in Hr'. cbn [br_predicted br_target] in Hr'.
  unfold outcome. cbn [rd value access next].
  split_and!; [by destruct op..|]. unfold predicted.
  destruct t, (direction b); cbn [Bool.eqb negb orb andb] in Hr';
    try destruct (Z.eqb_spec (addr b) v); cbn [negb] in Hr'; rewrite ?bind_Ret in Hr';
    try (injection Hr' as <-; done).
  all: apply bind_inv in Hr' as (d & E & Hr'); injection Hr' as <-;
    by apply narrow_inv in E as [-> _].
Qed.

(** JAL and JALR compute the link address, so a run that returns has not overflowed *)
Lemma link_computed raw i b e :
  Decode.decode (Op.fetched_branch raw i p b) regs = Ret (Ok e) →
  (∃ x, i = Inst.Jal x) ∨ (∃ x, i = Inst.Jalr x) → word_add 32 p 4 = Ret (as_u32 (p + 4)).
Proof using Type.
  clear Hp. intros Hd Hi. destruct (word_add 32 p 4) as [z|] eqn:E.
  - by apply narrow_inv in E as [-> _].
  - exfalso. revert Hd. unfold Decode.decode, Decode.decode_fields.
    destruct Hi as [[x ->]|[x ->]]; cbn [Op.fetched_branch inst];
      unfold Decode.decode_jal, Decode.decode_jalr; cbn [Op.fetched_branch pc]; rewrite E.
    + by destruct (J.sign_ext x).
    + by destruct (Decode.read regs (I.rs1 x)).
Qed.

Lemma outcome_agrees op c bp e op2 op3 op4 r :
  runs_to op (agrees e c p bp) → (is_Some bp ↔ c = true) →
  Decode.decode op regs = Ret (Ok op2) → execute_op op2 = Ret op3 → op4 = op3 →
  resolve_branch op4 = Ret r → outcome e bp op4 r.
Proof using Type.
  intros (o2 & o3 & E2 & E3 & H1 & H2 & H3 & H4) Hbp Hd He -> Hr.
  rewrite E2 in Hd. injection Hd as <-. rewrite E3 in He. injection He as <-.
  unfold outcome. split_and!; [done..|]. destruct c.
  - destruct H4 as (b & t & d & -> & E & ?). rewrite E in Hr. by injection Hr as <-.
  - destruct H4 as [E ?]. rewrite E in Hr. injection Hr as <-.
    destruct bp as [b|]; [|done]. destruct Hbp as [Hbp _]. discriminate Hbp. by exists b.
Qed.
End datapath_theorem.

Lemma link_Ret `{Profile} p : is_u32 (p + 4) → word_add 32 p 4 = Ret (as_u32 (p + 4)).
Proof. intros. unfold word_add. rewrite narrow_Ret by done. by rewrite wrap_id. Qed.

Section datapath_isa.
Context `{Profile} (regs : list Z) (Hlen : length regs = 32%nat) (Hregs : Forall is_u32 regs).
Context (p : Z) (Hp : is_u32 (p + 4)).
Import Effect.

(** C15: The datapath computes the instruction's RV32IM effect: for every valid
  instruction other than ECALL, whatever the branch prediction it was fetched with,
  decoding and executing its micro-op never fails and leaves the destination register,
  the written value and the memory access of the reference semantics, and branch
  resolution sends the front end to the architectural next pc: it either confirms the
  predicted pc or asks for recovery to the right one.  A JALR target is assumed even,
  as the program clears no bit of it. *)
Theorem datapath_isa (raw : Z) (i : Inst.t) (a : Asm.t) (bp : option BranchPredictResult) :
  disassemble i = Ret (Some a) → Asm.valid a → a ≠ Asm.Ecall →
  jalr_even regs a → (is_Some bp ↔ is_control a = true) →
  runs_to regs (fetched_op raw i p bp) (agrees (semantics regs p a) (is_control a) p bp).
Proof using All.
  intros Hd Hv He Hj Hbp. rewrite <- simulated_even by done.
  apply datapath_simulated; auto using link_Ret.
Qed.
End datapath_isa.

(** a mispredicted branch: BNE x1, x2, 8 at pc 100, with x1 = 1, x2 = 2, predicted not taken *)
Lemma datapath_isa_witness :
  let _ := dev_profile in
  let regs := <[1%nat := 1]> (<[2%nat := 2]> (replicate 32 0)) in
  let raw := Asm.assemble (Asm.Branch Asm.BNE 1 2 8) in
  let bp := Some {| direction := false; addr := 0 |} in
  runs_to regs (fetched_op raw (Inst.Bne (BType raw)) 100 bp)
    (agrees (Effect.semantics regs 100 (Asm.Branch Asm.BNE 1 2 8)) true 100 bp).
Proof.
  intros P regs raw bp.
  apply (datapath_isa regs) with (a := Asm.Branch Asm.BNE 1 2 8).
  - reflexivity.
  - apply (bool_decide_unpack _). vm_compute. exact I.
  - split; lia.
  - vm_compute. reflexivity.
  - unfold Asm.valid, Asm.reg. repeat split; lia || reflexivity.
  - discriminate.
  - exact I.
  - split; [reflexivity|]. intros _. by exists {| direction := false; addr := 0 |}.
Defined.
