(* ===== verification/IsaMachine.v ===== *)
(** The RV32IM machine the pipeline implements, and what its micro-ops need of the decoder:
    every word the decoder accepts is a valid instruction, its operands depend on the
    register file only, and executing it has the instruction's effect. *)
From S2P Require Import Prelude Word Format Instruction BranchPredictor Uop Execute Decode Datapath.
From stdpp Require Import base list numbers.
From Stdlib Require Import Lia.
#[local] Open Scope Z_scope.

(** * The machine *)

(** [outstanding] is the destination of a load whose answer has not arrived *)
Record IsaState := { regs : list Z; next_pc : Z; outstanding : option Z }.

(** writing a register; x0 is hard-wired *)
Definition set_reg (d v : Z) (rs : list Z) : list Z :=
  if d =? 0 then rs else <[Z.to_nat d := v]> rs.

Definition commit (e : Effect.t) (rs : list Z) : IsaState := {|
  regs := match Effect.rd e, Effect.value e with Some d, Some v => set_reg d v rs | _, _ => rs end;
  next_pc := Effect.next e;
  outstanding := match Effect.value e with Some _ => None | None => Effect.rd e end |}.

Inductive event :=
  | Executed (at_pc raw : Z) (access : option MemoryAccess)
  | Loaded (value : Z).

Inductive isa_step `{Profile} : IsaState → event → IsaState → Prop :=
  | step_executed rs p raw i a :
      raw_binary_to_inst raw = Ret i → disassemble i = Ret (Some a) → Asm.valid a →
      isa_step {| regs := rs; next_pc := p; outstanding := None |}
        (Executed p raw (Effect.access (Effect.simulated rs p a)))
        (commit (Effect.simulated rs p a) rs)
  | step_loaded rs p d v :
      Asm.reg d → is_u32 v →
      isa_step {| regs := rs; next_pc := p; outstanding := Some d |} (Loaded v)
        {| regs := set_reg d v rs; next_pc := p; outstanding := None |}.

Inductive isa_steps `{Profile} : IsaState → list event → IsaState → Prop :=
  | steps_nil s : isa_steps s [] s
  | steps_cons s e s' es s'' :
      isa_step s e s' → isa_steps s' es s'' → isa_steps s (e :: es) s''.

Section steps.
Context `{Profile}.
Lemma steps_app s es s' es' s'' :
  isa_steps s es s' → isa_steps s' es' s'' → isa_steps s (es ++ es') s''.
Proof. induction 1; [done|]. cbn. intros. econstructor; eauto. Qed.
Lemma steps_one s e s' : isa_step s e s' → isa_steps s [e] s'.
Proof. intros. eapply steps_cons; [done|]. constructor. Qed.
End steps.

(** * Words the decoder accepts *)

(** the opcode of an instruction *)
Definition opcode_of (i : Inst.t) : OpcodeMap.t :=
  match i with
  | Inst.Lui _ => OpcodeMap.Lui | Inst.Auipc _ => OpcodeMap.Auipc
  | Inst.Jal _ => OpcodeMap.Jal | Inst.Jalr _ => OpcodeMap.Jalr
  | Inst.Beq _ | Inst.Bne _ | Inst.Blt _ | Inst.Bge _ | Inst.Bltu _ | Inst.Bgeu _ =>
      OpcodeMap.Branch
  | Inst.Lb _ | Inst.Lh _ | Inst.Lw _ | Inst.Lbu _ | Inst.Lhu _ => OpcodeMap.Load
  | Inst.Sb _ | Inst.Sh _ | Inst.Sw _ => OpcodeMap.Store
  | Inst.Addi _ | Inst.Slti _ | Inst.Sltiu _ | Inst.Xori _ | Inst.Ori _ | Inst.Andi _
  | Inst.Slli _ | Inst.Srli _ | Inst.Srai _ => OpcodeMap.OpImm
  | Inst.Fence _ => OpcodeMap.MiscMem
  | Inst.Ecall _ => OpcodeMap.System
  | _ => OpcodeMap.Op
  end.

Definition is_control_opcode (o : OpcodeMap.t) : bool :=
  match o with OpcodeMap.Branch | OpcodeMap.Jal | OpcodeMap.Jalr => true | _ => false end.

Lemma raw_opcode raw i :
  raw_binary_to_inst raw = Ret i →
  i = Inst.Illegal raw ∨ OpcodeMap.try_from (as_u8 (Z.land raw 127)) = Ok (opcode_of i).
Proof.
  unfold raw_binary_to_inst. cbv zeta. destruct (OpcodeMap.try_from _) as [[]|].
  all: repeat match goal with
    | |- Ret _ = Ret _ → _ => intros [= <-]; first [by left | by right]
    | |- Panic _ = Ret _ → _ => intros [=]
    | |- match ?x with _ => _ end = _ → _ => destruct x
    end.
Qed.

Section valid.
Context `{Profile}.
Import Asm.

Lemma acc_reg z lo : 0 ≤ lo → reg (as_u8 (Z.land (Z.shiftr z lo) 31)).
Proof.
  intros. change 31 with (2 ^ 5 - 1). rewrite (field_spec z lo 5) by lia.
  by apply (bits_range z lo 5).
Qed.

Lemma i_imm_valid z : is_u32 z →
  ∃ imm, I.imm_sign_ext (IType z) = Ret imm ∧ -2048 ≤ as_i32 imm < 2048 ∧
    0 ≤ Z.land imm 31 < 32.
Proof.
  intros Hz. eexists. split; [by apply imm_I|].
  pose proof (signed_range 12 (bits z 20 12) ltac:(lia) (bits_range z 20 12 ltac:(lia))).
  rewrite decoded_imm by lia. split; [lia|].
  change 31 with (2 ^ 5 - 1). rewrite land_ones_mod by lia. apply Z.mod_pos_bound. lia.
Qed.

Lemma s_imm_valid z : is_u32 z →
  ∃ imm, S.sign_ext (SType z) = Ret imm ∧ -2048 ≤ as_i32 imm < 2048.
Proof.
  intros Hz. eexists. split; [by apply imm_S|].
  pose proof (bits_range z 25 7 ltac:(lia)). pose proof (bits_range z 7 5 ltac:(lia)).
  pose proof (signed_range 12 (bits z 25 7 * 2 ^ 5 + bits z 7 5) ltac:(lia)).
  unfold in_range in *. rewrite decoded_imm; lia.
Qed.

(** sign extension keeps an even number even *)
Lemma signed_even w z : 1 ≤ w → z mod 2 = 0 → signed w z mod 2 = 0.
Proof.
  intros Hw Hz. unfold signed. destruct (_ <? _); [done|].
  assert (E : 2 ^ w = 2 ^ (w - 1) * 2) by (replace w with (Z.succ (w - 1)) at 1 by lia;
    rewrite Z.pow_succ_r by lia; lia).
  rewrite E. rewrite <- Z.add_opp_r, <- Z.mul_opp_l, Z_mod_plus_full. done.
Qed.

Lemma b_imm_valid z : is_u32 z →
  ∃ imm, B.sign_ext (BType z) = Ret imm ∧ -4096 ≤ as_i32 imm < 4096 ∧ as_i32 imm mod 2 = 0.
Proof.
  intros Hz. eexists. split; [by apply imm_B|].
  pose proof (bits_range z 31 1 ltac:(lia)). pose proof (bits_range z 7 1 ltac:(lia)).
  pose proof (bits_range z 25 6 ltac:(lia)). pose proof (bits_range z 8 4 ltac:(lia)).
  set (o := _ + _ + _ + _). unfold in_range in *.
  pose proof (signed_range 13 o ltac:(lia) ltac:(unfold o, in_range; lia)).
  rewrite decoded_imm by lia. split; [lia|]. apply signed_even; [lia|].
  unfold o. Z.div_mod_to_equations. lia.
Qed.

Lemma j_imm_valid z : is_u32 z →
  ∃ imm, J.sign_ext (JType z) = Ret imm ∧ -1048576 ≤ as_i32 imm < 1048576 ∧
    as_i32 imm mod 2 = 0.
Proof.
  intros Hz. eexists. split; [by apply imm_J|].
  pose proof (bits_range z 31 1 ltac:(lia)). pose proof (bits_range z 12 8 ltac:(lia)).
  pose proof (bits_range z 20 1 ltac:(lia)). pose proof (bits_range z 21 10 ltac:(lia)).
  set (o := _ + _ + _ + _). unfold in_range in *.
  pose proof (signed_range 21 o ltac:(lia) ltac:(unfold o, in_range; lia)).
  rewrite decoded_imm by lia. split; [lia|]. apply signed_even; [lia|].
  unfold o. Z.div_mod_to_equations. lia.
Qed.

Ltac valid_case :=
  eexists; split; [reflexivity|]; cbn [Asm.valid Effect.is_control];
  repeat split; try done; try lia; try (apply acc_reg; lia).

Ltac open_word :=
  match goal with
  | x : RType_ |- _ => destruct x as [w]
  | x : IType_ |- _ => destruct x as [w]
  | x : SType_ |- _ => destruct x as [w]
  | x : BType_ |- _ => destruct x as [w]
  | x : UType_ |- _ => destruct x as [w]
  | x : JType_ |- _ => destruct x as [w]
  end.

(** every word that decodes, [FENCE] and illegal words apart, is a valid instruction *)
Lemma disassemble_valid raw i :
  is_u32 raw → raw_binary_to_inst raw = Ret i →
  (∃ z, i = Inst.Illegal z) ∨ (∃ z, i = Inst.Fence z) ∨
  ∃ a, disassemble i = Ret (Some a) ∧ valid a ∧
    Effect.is_control a = is_control_opcode (opcode_of i).
Proof.
  intros Hz Hi. pose proof (raw_binary_to_inst_raw _ _ Hi) as Hr. clear Hi.
  destruct (i_imm_valid raw Hz) as (vi & Ei & ? & ?).
  destruct (s_imm_valid raw Hz) as (vs & Es & ?).
  destruct (b_imm_valid raw Hz) as (vb & Eb & ? & ?).
  destruct (j_imm_valid raw Hz) as (vj & Ej & ? & ?).
  destruct (acc_top raw Hz) as (_ & _ & _ & Eu & _).
  pose proof (bits_range raw 12 20 ltac:(lia)) as Hu. unfold in_range in Hu.
  destruct i; try (open_word; cbn [Inst.raw i_0 s_0 b_0 u_0 j_0 r_0] in Hr; subst);
    try (by left; eauto); try (by right; left; eauto); right; right;
    cbn [disassemble opcode_of is_control_opcode];
    unfold r_asm, i_asm, shift_asm, load_asm, store_asm, branch_asm;
    rewrite ?Ei, ?Es, ?Eb, ?Ej, ?bind_Ret, ?Eu; valid_case.
Qed.
End valid.

(** * Operands *)

Definition reread (rs : list Z) (s : option (Z * Z)) : option (Z * Z) :=
  match s with Some (r, _) => Some (r, Effect.reg rs r) | None => None end.
(** the micro-op with its operands read from [rs] *)
Definition with_sources (rs : list Z) (op : PreDecodeMicroOp) : PreDecodeMicroOp :=
  Op.with_rs2 (reread rs (rs2 op)) (Op.with_rs1 (reread rs (rs1 op)) op).

(** [r] is an operand of [op] *)
Definition is_source (op : PreDecodeMicroOp) (r : Z) : Prop :=
  ∃ v, rs1 op = Some (r, v) ∨ rs2 op = Some (r, v).

Lemma with_sources_twice rs rs' op :
  with_sources rs (with_sources rs' op) = with_sources rs op.
Proof. destruct op as [??? [[]|] [[]|] ??????????]; reflexivity. Qed.

Section sources.
Context `{Profile} (R R' : list Z) (Hlen : length R = length R').

Lemma read_both r v : Decode.read R r = Ret v →
  (∃ x, v = Some (r, x)) ∧ Decode.read R' r = Ret (Some (r, Effect.reg R' r)).
Proof using Hlen.
  unfold Decode.read. intros Hr. exec_inv. split; [by eexists|].
  rewrite (index_Ret _ _ (Effect.reg R' r)); [done|].
  apply list_lookup_lookup_total_lt. rewrite <- Hlen. by eapply lookup_lt_Some.
Qed.

Ltac both :=
  repeat match goal with
  | H : (_ ≫= _) = Ret _ |- _ => let E := fresh "E" in apply bind_inv in H as (? & E & H)
  | H : mret _ = Ret _ |- _ => injection H as <-
  end;
  repeat match goal with
  | E : Decode.read R _ = Ret _ |- _ => apply read_both in E as [[? ->] E]
  end;
  repeat match goal with E : ?m = Ret _ |- context [?m ≫= _] => rewrite E, bind_Ret end.

Context (op e : PreDecodeMicroOp) (H1 : rs1 op = None) (H2 : rs2 op = None).

Lemma sources_r x : Decode.decode_r x op R = Ret e →
  Decode.decode_r x op R' = Ret (with_sources R' e).
Proof using Hlen. unfold Decode.decode_r. intros Hd. both. reflexivity. Qed.
Lemma sources_imm x : Decode.decode_imm x op R = Ret e →
  Decode.decode_imm x op R' = Ret (with_sources R' e).
Proof using Hlen H1 H2.
  unfold Decode.decode_imm. intros Hd. both. by destruct op; cbn in H2; subst.
Qed.
Lemma sources_load x : Decode.decode_load x op R = Ret e →
  Decode.decode_load x op R' = Ret (with_sources R' e).
Proof using Hlen H1 H2.
  unfold Decode.decode_load. intros Hd. both. by destruct op; cbn in H2; subst.
Qed.
Lemma sources_store x : Decode.decode_store x op R = Ret e →
  Decode.decode_store x op R' = Ret (with_sources R' e).
Proof using Hlen. unfold Decode.decode_store. intros Hd. both. reflexivity. Qed.
Lemma sources_branch x : Decode.decode_branch x op R = Ret e →
  Decode.decode_branch x op R' = Ret (with_sources R' e).
Proof using Hlen. unfold Decode.decode_branch. intros Hd. both. reflexivity. Qed.
Lemma sources_jal x : Decode.decode_jal x op = Ret e → e = with_sources R' e.
Proof using H1 H2.
  unfold Decode.decode_jal. intros Hd. both. by destruct op; cbn in H1, H2; subst.
Qed.
Lemma sources_jalr x : Decode.decode_jalr x op R = Ret e →
  Decode.decode_jalr x op R' = Ret (with_sources R' e).
Proof using Hlen H1 H2.
  unfold Decode.decode_jalr. intros Hd. both. by destruct op; cbn in H2; subst.
Qed.
Lemma sources_upper x s : Decode.decode_upper x s op = Ret e → e = with_sources R' e.
Proof using H1 H2.
  unfold Decode.decode_upper. intros Hd. both. by destruct op; cbn in H1, H2; subst.
Qed.
Lemma sources_none : with_sources R' op = op.
Proof using H1 H2. destruct op; cbn in H1, H2; by subst. Qed.

Lemma Ok_inv {A E} (m : exec A) (a : A) : (Ok (E := E) <$> m) = Ret (Ok a) → m = Ret a.
Proof using Type. destruct m; cbn; congruence. Qed.

Lemma sources_fields : Decode.decode_fields op R = Ret (Ok e) →
  Decode.decode_fields op R' = Ret (Ok (with_sources R' e)).
Proof using Hlen H1 H2.
  unfold Decode.decode_fields. intros Hd.
  destruct (inst op); try discriminate Hd; try apply Ok_inv in Hd;
    lazymatch type of Hd with
    | Decode.decode_r ?x _ _ = _ => by rewrite (sources_r x Hd)
    | Decode.decode_imm ?x _ _ = _ => by rewrite (sources_imm x Hd)
    | Decode.decode_load ?x _ _ = _ => by rewrite (sources_load x Hd)
    | Decode.decode_store ?x _ _ = _ => by rewrite (sources_store x Hd)
    | Decode.decode_branch ?x _ _ = _ => by rewrite (sources_branch x Hd)
    | Decode.decode_jalr ?x _ _ = _ => by rewrite (sources_jalr x Hd)
    | Decode.decode_upper ?x ?s _ = _ => by rewrite <- (sources_upper x s Hd), Hd
    | Decode.decode_jal ?x _ = _ => by rewrite <- (sources_jal x Hd), Hd
    | _ => idtac
    end.
  injection Hd as <-. by rewrite sources_none.
Qed.
End sources.

Section decode_again.
Context `{Profile}.

Lemma decode_inv op R e : Decode.decode op R = Ret (Ok e) →
  ∃ e0, Decode.decode_fields op R = Ret (Ok e0) ∧
    e = match Decode.alu_op_type (inst e0) with
        | Some ty => Op.with_alu ty (alu_op1_sel e0) (alu_op2_sel e0) e0
        | None => e0
        end.
Proof.
  unfold Decode.decode. intros Hd. apply bind_inv in Hd as ([e0|] & E & Hd); [|done].
  injection Hd as <-. by exists e0.
Qed.

(** decoding with another register file only rereads the operands *)
Lemma decode_sources R R' op e :
  length R = length R' → rs1 op = None → rs2 op = None →
  Decode.decode op R = Ret (Ok e) → Decode.decode op R' = Ret (Ok (with_sources R' e)).
Proof.
  intros Hlen H1 H2 (e0 & E & ->)%decode_inv.
  unfold Decode.decode. rewrite (sources_fields R R' Hlen op e0 H1 H2 E), bind_Ret.
  cbn [result_bind]. do 2 f_equal. change (inst (with_sources R' e0)) with (inst e0).
  by destruct (Decode.alu_op_type _).
Qed.
End decode_again.

(** * One instruction *)

Section one_instruction.
Context `{Profile} (rs : list Z) (Hlen : length rs = 32%nat) (Hregs : Forall is_u32 rs).
Import Effect.

(** a run of the datapath that returns has the instruction's effect *)
Lemma datapath_sound raw i a p bp e op r :
  disassemble i = Ret (Some a) → Asm.valid a → a ≠ Asm.Ecall →
  (is_Some bp ↔ is_control a = true) →
  Decode.decode (fetched_op raw i p bp) rs = Ret (Ok e) →
  execute_op e = Ret op → resolve_branch op = Ret r →
  outcome p (simulated rs p a) bp op r.
Proof using Hlen Hregs.
  intros Hd Hv He Hbp Hdec Hexe Hres. destruct (is_control a) eqn:Hc.
  - destruct (proj2 Hbp eq_refl) as [b ->]. cbn [fetched_op] in Hdec.
    assert (Hlink : word_add 32 p 4 = Ret (as_u32 (p + 4)) →
      outcome p (simulated rs p a) (Some b) op r).
    { intros Hp. eapply (outcome_agrees rs p (Op.fetched_branch raw i p b) true); try done.
      change (Op.fetched_branch raw i p b) with (fetched_op raw i p (Some b)). rewrite <- Hc.
      by apply datapath_simulated; rewrite ?Hc. }
    assert (Hlink' := link_computed rs p raw i b e Hdec).
    destruct i; cbn [disassemble] in Hd; try (solve [apply Hlink, Hlink'; eauto]);
      lazymatch type of Hd with
      | branch_asm ?o _ = _ =>
          apply asm_inv1 in Hd as (? & ? & ->); by eapply (branch_sound rs Hlen p o)
      | (_ ≫= _) = _ => apply asm_inv1 in Hd as (? & ? & ->); discriminate Hc
      | r_asm _ _ = _ => injection Hd as <-; discriminate Hc
      | mret _ = _ => first [discriminate Hd | injection Hd as <-; discriminate Hc]
      | _ => apply asm_inv1 in Hd as (? & ? & ->); discriminate Hc
      end.
  - assert (bp = None) as -> by (destruct bp; [|done]; by destruct Hbp as [Hbp _];
      discriminate Hbp; eexists).
    eapply (outcome_agrees rs p (Op.fetched raw i p) false); try done.
    by apply datapath_sequential.
Qed.
End one_instruction.

(** * Shape of a decoded micro-op *)

Section shape.
Context `{Profile}.

(** the fields ID does not touch *)
Definition same_origin (op op' : PreDecodeMicroOp) : Prop :=
  raw_inst op' = raw_inst op ∧ inst op' = inst op ∧ pc op' = pc op ∧
  bp_result op' = bp_result op ∧ placeholder op' = placeholder op.

(** the operand fields of a format *)
Definition operand_field (raw r : Z) : Prop :=
  r = as_u8 (Z.land (Z.shiftr raw 15) 31) ∨ r = as_u8 (Z.land (Z.shiftr raw 20) 31).

(** opcodes without register operands *)
Definition has_operands (o : OpcodeMap.t) : bool :=
  match o with
  | OpcodeMap.Jal | OpcodeMap.Lui | OpcodeMap.Auipc | OpcodeMap.MiscMem | OpcodeMap.System => false
  | _ => true
  end.

Definition shaped (op e : PreDecodeMicroOp) : Prop :=
  same_origin op e ∧
  ∀ r, is_source e r → has_operands (opcode_of (inst op)) = true ∧
    operand_field (Inst.raw (inst op)) r.

Ltac run_read :=
  repeat match goal with
  | H : (_ ≫= _) = Ret _ |- _ => let E := fresh "E" in apply bind_inv in H as (? & E & H)
  | H : mret _ = Ret _ |- _ => injection H as <-
  | H : Decode.read _ _ = Ret _ |- _ => unfold Decode.read in H
  | H : index _ _ = Ret _ |- _ => clear H
  end.
Ltac sources_of :=
  let v := fresh "v" in let E := fresh "E" in
  intros ? [v [E|E]]; cbn in E; try congruence; injection E as <- <-;
  (split; [reflexivity | first [by left | by right]]).

Lemma decode_shape op R e :
  rs1 op = None → rs2 op = None → Decode.decode op R = Ret (Ok e) → shaped op e.
Proof.
  intros H1 H2 (e0 & E & ->)%decode_inv.
  enough (shaped op e0) by (destruct (Decode.alu_op_type _); done). unfold shaped.
  unfold Decode.decode_fields in E.
  destruct (inst op) eqn:Ei; try discriminate E; try apply Ok_inv in E;
    unfold Decode.decode_r, Decode.decode_imm, Decode.decode_load, Decode.decode_store,
      Decode.decode_branch, Decode.decode_jal, Decode.decode_jalr, Decode.decode_upper in E;
    run_read; (split; [by unfold same_origin; cbn; rewrite ?Ei|]); sources_of.
Qed.
End shape.
