(* ===== verification/AbstractMem.v ===== *)
(** Memory requests and the interface of memory devices:
    [simulator/src/hardware/mem/abstract_mem.rs] and [clock.rs].

    A request is cloned freely between the processor, the caches and the memory, and
    all the clones share the cells [done : Rc<Cell<bool>>] and
    [buffer : Rc<RefCell<Box<[u8]>>>].  The sharing is modelled by a heap: a request
    carries the name of its cell, a clone carries the same name, and completing any
    clone is seen by the others.  The heap also carries what the random replacement policy
    shares: one thread-local generator serves every set of every cache. *)
From S2P Require Import Prelude Word.
From stdpp Require Import base gmap list numbers.
From Stdlib Require Import Lia.
#[local] Open Scope Z_scope.
#[local] Coercion Z.of_nat : nat >-> Z.

(** * The state the components share *)

Record cell := { done : bool; buffer : list Z }.

(** [draws]: the ranges asked of the thread-local generator so far, the last one first; what
    it answers next is a function of them. *)
Record heap := { cells : gmap nat cell; next_id : nat; draws : list nat }.

Module Heap.
Definition empty : heap := {| cells := ∅; next_id := 0; draws := [] |}.
Definition alloc (c : cell) (h : heap) : nat * heap :=
  (next_id h, {| cells := <[next_id h := c]> (cells h); next_id := S (next_id h);
                 draws := draws h |}).
(** A live clone keeps its cell alive, so reads of a request's own cell always succeed. *)
Definition get (h : heap) (id : nat) : cell :=
  match cells h !! id with Some c => c | None => {| done := false; buffer := [] |} end.
Definition set (id : nat) (c : cell) (h : heap) : heap :=
  {| cells := <[id := c]> (cells h); next_id := next_id h; draws := draws h |}.
Definition with_draws (g : list nat) (h : heap) : heap :=
  {| cells := cells h; next_id := next_id h; draws := g |}.
End Heap.

(** * Requests *)

Record MemoryLoadReq := { load_addr : Z; load_len : nat; load_id : nat }.
Record MemoryStoreReq := {
  store_addr : Z; store_len : nat; store_bytes : list Z; store_id : nat }.

Inductive MemoryReqType :=
  | Load (x : MemoryLoadReq)
  | Store (x : MemoryStoreReq).

Module LoadReq.
Definition new (addr : Z) (len : nat) (h : heap) : MemoryLoadReq * heap :=
  let '(id, h) := Heap.alloc {| done := false; buffer := replicate len 0 |} h in
  ({| load_addr := addr; load_len := len; load_id := id |}, h).

Definition complete_from_slice (r : MemoryLoadReq) (data : list Z) (h : heap) : exec heap :=
  _ ← assert_ (bool_decide (length data = load_len r));
  mret (Heap.set (load_id r) {| done := true; buffer := data |} h).

Definition data (r : MemoryLoadReq) (h : heap) : list Z := buffer (Heap.get h (load_id r)).
Definition is_done (r : MemoryLoadReq) (h : heap) : bool := done (Heap.get h (load_id r)).
End LoadReq.

Module StoreReq.
Definition new (addr : Z) (store_data : list Z) (h : heap) : MemoryStoreReq * heap :=
  let '(id, h) := Heap.alloc {| done := false; buffer := [] |} h in
  ({| store_addr := addr; store_len := length store_data; store_bytes := store_data;
      store_id := id |}, h).

Definition data (r : MemoryStoreReq) : list Z := store_bytes r.
Definition complete (r : MemoryStoreReq) (h : heap) : heap :=
  Heap.set (store_id r) {| done := true; buffer := [] |} h.
Definition is_done (r : MemoryStoreReq) (h : heap) : bool := done (Heap.get h (store_id r)).
End StoreReq.

Module Req.
Definition load (addr : Z) (len : nat) (h : heap) : MemoryReqType * heap :=
  let '(r, h) := LoadReq.new addr len h in (Load r, h).
Definition store (addr : Z) (store_data : list Z) (h : heap) : MemoryReqType * heap :=
  let '(r, h) := StoreReq.new addr store_data h in (Store r, h).

Definition get_addr (r : MemoryReqType) : Z :=
  match r with Load x => load_addr x | Store x => store_addr x end.
Definition get_len (r : MemoryReqType) : nat :=
  match r with Load x => load_len x | Store x => store_len x end.

Definition load_req_ref (r : MemoryReqType) : exec MemoryLoadReq :=
  match r with Load x => mret x | Store _ => Panic PExplicit end.
Definition store_req_ref (r : MemoryReqType) : exec MemoryStoreReq :=
  match r with Store x => mret x | Load _ => Panic PExplicit end.

Definition is_done (r : MemoryReqType) (h : heap) : bool :=
  match r with Load x => LoadReq.is_done x h | Store x => StoreReq.is_done x h end.

Definition load_data (r : MemoryReqType) (h : heap) : exec (list Z) :=
  x ← load_req_ref r; mret (LoadReq.data x h).
Definition store_data (r : MemoryReqType) : exec (list Z) :=
  x ← store_req_ref r; mret (StoreReq.data x).
Definition complete_load_from_slice (r : MemoryReqType) (data : list Z) (h : heap) : exec heap :=
  x ← load_req_ref r; LoadReq.complete_from_slice x data h.
Definition complete_store (r : MemoryReqType) (h : heap) : exec heap :=
  x ← store_req_ref r; mret (StoreReq.complete x h).

(** the name of the shared cell *)
Definition id (r : MemoryReqType) : nat :=
  match r with Load x => load_id x | Store x => store_id x end.
Definition is_store (r : MemoryReqType) : bool :=
  match r with Store _ => true | Load _ => false end.
End Req.

(** * Devices *)

(** [Clocked::tick] *)
Class Clocked (M : Type) := tick : M → heap → exec (M * heap).

(** [AbstractMemoryInterface::try_register_req] *)
Class AbstractMemoryInterface (M : Type) := {
  mem_clocked :: Clocked M;
  try_register_req : M → MemoryReqType → heap → exec (Result unit unit * M * heap);
}.

Section run.
Context {M : Type} `{Clocked M}.

Fixpoint ticks (n : nat) (m : M) (h : heap) : exec (M * heap) :=
  match n with
  | O => mret (m, h)
  | S n => '(m, h) ← tick m h; ticks n m h
  end.

Lemma ticks_add n k m h : ticks (n + k) m h = ('(m, h) ← ticks n m h; ticks k m h).
Proof.
  revert m h. induction n as [|n IH]; intros m h; [done|]. cbn [ticks Nat.add].
  destruct (tick m h) as [[m' h']|]; [apply IH | done].
Qed.
End run.

(** * Memory contents *)

(** The contents of a memory as a function of the address, the reference for what a
    load returns and a store changes. *)
Definition view := Z → Z.
Definition view_of (data : list Z) : view := λ a, if a <? 0 then 0 else data !!! Z.to_nat a.
Definition view_read (v : view) (a : Z) (n : nat) : list Z := v <$> seqZ a (Z.of_nat n).
Definition view_write (v : view) (a : Z) (d : list Z) : view :=
  λ x, if decide (a ≤ x < a + length d) then d !!! Z.to_nat (x - a) else v x.

(** a request applied to the contents *)
Definition view_apply (r : MemoryReqType) (v : view) : view :=
  match r with
  | Load _ => v
  | Store x => view_write v (store_addr x) (store_bytes x)
  end.

(** the cell of a request once it is done *)
Definition reply (r : MemoryReqType) (v : view) : cell :=
  {| done := true;
     buffer := match r with Load x => view_read v (load_addr x) (load_len x) | Store _ => [] end |}.

Definition req_wf (r : MemoryReqType) : Prop :=
  match r with Load _ => True | Store x => length (store_bytes x) = store_len x end.

(** * Facts *)

Section facts.
Lemma get_set_eq id c h : Heap.get (Heap.set id c h) id = c.
Proof. unfold Heap.get, Heap.set. cbn. by rewrite lookup_insert_eq. Qed.
Lemma get_set_ne id id' c h : id ≠ id' → Heap.get (Heap.set id c h) id' = Heap.get h id'.
Proof. intros. unfold Heap.get, Heap.set. cbn. by rewrite lookup_insert_ne. Qed.

Lemma length_view_read v a n : length (view_read v a n) = n.
Proof. unfold view_read. rewrite length_fmap, length_seqZ. lia. Qed.

Lemma lookup_view_read v a n i : (i < n)%nat → view_read v a n !! i = Some (v (a + i)).
Proof.
  intros. unfold view_read. rewrite list_lookup_fmap, lookup_seqZ_lt by lia. done.
Qed.

(** the bytes of a view are its reads *)
Lemma view_read_eq v a n l :
  length l = n → (∀ i, (i < n)%nat → l !!! i = v (a + i)) → view_read v a n = l.
Proof.
  intros Hl E. apply list_eq. intros i. destruct (decide (i < n)%nat).
  - rewrite lookup_view_read, <- E, list_lookup_lookup_total_lt by lia. done.
  - rewrite !lookup_ge_None_2; [done | lia | rewrite length_view_read; lia].
Qed.

Lemma view_read_of data a n :
  (a + n ≤ length data)%nat → view_read (view_of data) a n = take n (drop a data).
Proof.
  intros. apply view_read_eq; [rewrite length_take, length_drop; lia|].
  intros i ?. unfold view_of. rewrite (proj2 (Z.ltb_ge _ _)) by lia.
  rewrite !list_lookup_total_alt, lookup_slice by done. do 2 f_equal. lia.
Qed.

Lemma view_write_of data a d x :
  (a + length d ≤ length data)%nat →
  view_of (take a data ++ d ++ drop (a + length d) data) x = view_write (view_of data) a d x.
Proof.
  intros. unfold view_write, view_of. destruct (Z.ltb_spec x 0).
  - by rewrite decide_False by lia.
  - rewrite list_lookup_total_alt, lookup_write_slice by lia. case_decide.
    + rewrite decide_True by lia. rewrite list_lookup_total_alt. do 2 f_equal. lia.
    + rewrite decide_False by lia. by rewrite list_lookup_total_alt.
Qed.

(** reading back: the last write to an address wins, other addresses are untouched *)
Lemma view_read_write_same v a d : view_read (view_write v a d) a (length d) = d.
Proof.
  apply view_read_eq; [done|]. intros i ?. unfold view_write.
  rewrite decide_True by lia. f_equal. lia.
Qed.
Lemma view_read_write_disjoint v a d b (n : nat) :
  b + n ≤ a ∨ a + length d ≤ b → view_read (view_write v a d) b n = view_read v b n.
Proof.
  intros. apply view_read_eq; [by rewrite length_view_read|]. intros i ?.
  unfold view_write. rewrite decide_False by lia.
  by rewrite list_lookup_total_alt, lookup_view_read.
Qed.
Lemma view_write_twice v a d x : view_write (view_write v a d) a d x = view_write v a d x.
Proof. unfold view_write. by case_decide. Qed.
End facts.

