(* ===== verification/FlatMachine.v ===== *)
(** The RV32IM machine with a flat memory: the instruction words come from the memory and the
    loads read it.  It is a function, so a program has one execution; the pipeline with its
    caches is shown to have the same one in [PipeMemory.v]. *)
From S2P Require Import Prelude Word Format Instruction BranchPredictor Uop AbstractMem Execute Decode Datapath IsaMachine.
From stdpp Require Import base list numbers.
From Stdlib Require Import Lia.
#[local] Open Scope Z_scope.
#[local] Coercion Z.of_nat : nat >-> Z.

(** [reading] is the access of the load whose value [core] waits for *)
Record Machine := { core : IsaState; memory : view; reading : option MemoryAccess }.

(** the four bytes at an address, little endian *)
Definition word_at (v : view) (a : Z) : Z := from_le_bytes (view_read v a 4).

(** the bytes a store writes *)
Definition stored_bytes (w : MemoryAccessWidth) (x : Z) : list Z := take (width_len w) (to_le_bytes 4 x).

Definition mem_after (v : view) (acc : option MemoryAccess) : view :=
  match acc with
  | Some (StoreAccess a w x) => view_write v a (stored_bytes w x)
  | _ => v
  end.
Definition load_of (acc : option MemoryAccess) : option MemoryAccess :=
  match acc with
  | Some a => if Access.is_load a then Some a else None
  | None => None
  end.
Definition access_of (e : event) : option MemoryAccess :=
  match e with Executed _ _ acc => acc | Loaded _ => None end.

Section machine.
Context `{Profile}.

(** the value a load gets *)
Definition load_value (v : view) (a : MemoryAccess) : exec Z :=
  Access.loaded_value a (view_read v (Access.addr a) (Access.len a)).

(** one event: the value of the load in progress, or else the next instruction; it panics on
  words that are no RV32IM instruction *)
Definition flat_step (s : Machine) : exec (event * Machine) :=
  match outstanding (core s) with
  | Some d =>
      a ← unwrap (reading s);
      v ← load_value (memory s) a;
      mret (Loaded v,
        {| core := {| regs := set_reg d v (regs (core s)); next_pc := next_pc (core s);
                      outstanding := None |};
           memory := memory s; reading := None |})
  | None =>
      let pc := next_pc (core s) in
      let raw := word_at (memory s) pc in
      i ← raw_binary_to_inst raw;
      o ← disassemble i;
      a ← unwrap o;
      let e := Effect.simulated (regs (core s)) pc a in
      mret (Executed pc raw (Effect.access e),
        {| core := commit e (regs (core s)); memory := mem_after (memory s) (Effect.access e);
           reading := load_of (Effect.access e) |})
  end.

Fixpoint flat_run (n : nat) (s : Machine) : exec (list event * Machine) :=
  match n with
  | O => mret ([], s)
  | S n => '(e, s) ← flat_step s; '(es, s) ← flat_run n s; mret (e :: es, s)
  end.

(** the machine at the entry point of a program, over an initial memory *)
Definition boot (entry_pc : Z) (v : view) : Machine :=
  {| core := {| regs := replicate 32 0; next_pc := entry_pc; outstanding := None |};
     memory := v; reading := None |}.

(** ** Programs that behave

    The code is the region [lo, hi).  For the first [n] events, the program executes code, its
    accesses are below [top], and its stores leave the code alone. *)
Definition in_code (lo hi pc : Z) : bool := (lo <=? pc) && (pc + 4 <=? hi).
Definition access_ok (lo hi top : Z) (a : MemoryAccess) : bool :=
  (0 <=? Access.addr a) && (Access.addr a + Access.len a <=? top) &&
  (Access.is_load a || (Access.addr a + Access.len a <=? lo) || (hi <=? Access.addr a)).
Definition event_ok (lo hi top : Z) (e : event) : bool :=
  match e with
  | Executed pc _ acc =>
      in_code lo hi pc && match acc with Some a => access_ok lo hi top a | None => true end
  | Loaded _ => true
  end.

Fixpoint well_behaved (lo hi top : Z) (n : nat) (s : Machine) : bool :=
  match n with
  | O => true
  | S n =>
      (bool_decide (is_Some (outstanding (core s))) || in_code lo hi (next_pc (core s))) &&
      match flat_step s with
      | Ret (e, s) => event_ok lo hi top e && well_behaved lo hi top n s
      | Panic _ => true
      end
  end.

(** * Facts *)

(** two machines that differ in the representation of their memories only *)
Definition alike (s s' : Machine) : Prop :=
  core s = core s' ∧ (∀ a, memory s a = memory s' a) ∧ reading s = reading s'.

Lemma view_read_ext (v w : view) a n : (∀ x, v x = w x) → view_read v a n = view_read w a n.
Proof. intros E. unfold view_read. apply list_fmap_ext. intros ? x _. apply E. Qed.

Lemma mem_after_ext (v w : view) acc a : (∀ x, v x = w x) → mem_after v acc a = mem_after w acc a.
Proof.
  intros E. destruct acc as [[ad wd e|ad wd x]|]; cbn; [apply E| |apply E].
  unfold view_write. case_decide; [done | apply E].
Qed.

Lemma flat_step_alike s s' e s1 : alike s s' → flat_step s = Ret (e, s1) →
  ∃ s1', flat_step s' = Ret (e, s1') ∧ alike s1 s1'.
Proof.
  intros (Ec & Em & Er). unfold flat_step. rewrite Ec, Er. destruct (outstanding (core s')).
  - intros E. apply bind_inv in E as (a & -> & E). apply bind_inv in E as (v & Ev & [= <- <-]).
    rewrite bind_Ret. unfold load_value in *. rewrite (view_read_ext _ _ _ _ Em) in Ev.
    rewrite Ev. eexists. split; [reflexivity|]. done.
  - cbv zeta. unfold word_at. rewrite (view_read_ext _ _ _ _ Em). intros E.
    apply bind_inv in E as (i & -> & E). apply bind_inv in E as (o & Eo & E).
    apply bind_inv in E as (a & Ea & [= <- <-]). rewrite bind_Ret, Eo, bind_Ret, Ea, bind_Ret.
    eexists. split; [reflexivity|]. split; [done|]. split; [|done]. intros x. by apply mem_after_ext.
Qed.

Lemma flat_run_app n k s : flat_run (n + k) s =
  ('(es, s) ← flat_run n s; '(es', s) ← flat_run k s; mret (es ++ es', s)).
Proof.
  revert s. induction n as [|n IH]; intros s; cbn [flat_run Nat.add].
  - cbn. by destruct (flat_run k s) as [[]|].
  - destruct (flat_step s) as [[e s1]|]; [|done]. cbn. rewrite IH.
    destruct (flat_run n s1) as [[es s2]|]; [|done]. cbn.
    by destruct (flat_run k s2) as [[es' s3]|].
Qed.

Lemma flat_run_length n s es s' : flat_run n s = Ret (es, s') → length es = n.
Proof.
  revert s es. induction n as [|n IH]; intros s es E; cbn in E; [by injection E as <- _|].
  apply bind_inv in E as ([e s1] & _ & E). apply bind_inv in E as ([es1 s2] & E1 & E).
  injection E as <- <-. cbn. by rewrite (IH _ _ E1).
Qed.

Lemma well_behaved_app lo hi top n k s es s' : well_behaved lo hi top (n + k) s = true →
  flat_run n s = Ret (es, s') → well_behaved lo hi top k s' = true.
Proof.
  revert s es. induction n as [|n IH]; intros s es Hw E; cbn in *; [by injection E as _ <-|].
  apply bind_inv in E as ([e s1] & E1 & E). apply bind_inv in E as ([es1 s2] & E2 & [= <- <-]).
  rewrite E1 in Hw. apply andb_true_iff in Hw as [_ Hw]. apply andb_true_iff in Hw as [_ Hw].
  by eapply IH.
Qed.

Lemma well_behaved_prefix lo hi top n k s : well_behaved lo hi top (n + k) s = true →
  well_behaved lo hi top n s = true.
Proof.
  revert s. induction n as [|n IH]; intros s Hw; [done|]. cbn in *.
  apply andb_true_iff in Hw as [-> Hw]. destruct (flat_step s) as [[e s1]|]; [|done]. cbn in *.
  apply andb_true_iff in Hw as [-> Hw]. by apply IH.
Qed.

(** the machine does what the instruction set allows, when the instruction word and the loaded
  value are those of the memory *)
Lemma flat_step_complete s e c' : isa_step (core s) e c' →
  match e with
  | Executed pc raw _ => raw = word_at (memory s) pc
  | Loaded v => ∃ a, reading s = Some a ∧ load_value (memory s) a = Ret v
  end →
  flat_step s = Ret (e, {| core := c'; memory := mem_after (memory s) (access_of e);
                           reading := load_of (access_of e) |}).
Proof.
  destruct s as [c v rd]. cbn. intros Hst. unfold flat_step. cbn [core memory reading].
  destruct Hst as [rs p raw i a Hi Ha Hv|rs p d x Hd Hx]; cbn [outstanding regs next_pc].
  - intros <-. rewrite Hi, bind_Ret, Ha, bind_Ret. done.
  - intros (a & -> & E). cbn [unwrap]. rewrite bind_Ret, E. done.
Qed.

(** ... and an execution of the instruction set with its events ends where it ends *)
Lemma flat_step_agrees s e s' c' : isa_step (core s) e c' → flat_step s = Ret (e, s') → core s' = c'.
Proof.
  destruct s as [c v rd]. cbn. intros Hst. unfold flat_step. cbn [core memory reading].
  destruct Hst as [rs p raw i a Hi Ha Hv|rs p d x Hd Hx]; cbn [outstanding regs next_pc]; intros E.
  - apply bind_inv in E as (i' & Ei & E). apply bind_inv in E as (o & Eo & E).
    apply bind_inv in E as (a' & Ea & E). apply unwrap_inv in Ea. subst o.
    injection E as E1 E2 <-. rewrite E1, Hi in Ei. injection Ei as <-. rewrite Ha in Eo.
    by injection Eo as <-.
  - apply bind_inv in E as (a & _ & E). apply bind_inv in E as (x' & _ & [= <- <-]). done.
Qed.

Lemma isa_steps_none c c' : isa_steps c [] c' → c' = c.
Proof. by inversion 1. Qed.
Lemma isa_steps_single c e c' : isa_steps c [e] c' → isa_step c e c'.
Proof. intros Hst. inversion Hst as [|? ? c1 ? ? ? Hn]; subst. by apply isa_steps_none in Hn as <-. Qed.

(** a step that executes an instruction takes it from the memory *)
Lemma flat_step_word s q raw acc s' : flat_step s = Ret (Executed q raw acc, s') →
  outstanding (core s) = None ∧ next_pc (core s) = q ∧ raw = word_at (memory s) q.
Proof.
  unfold flat_step. destruct (outstanding (core s)); intros E.
  - by apply bind_inv in E as (a & _ & (v & _ & [=])%bind_inv).
  - apply bind_inv in E as (i & _ & E). apply bind_inv in E as (o & _ & E).
    apply bind_inv in E as (a & _ & E). by injection E as <- <- _ _.
Qed.

(** a run of the machine goes through the state before each of its events *)
Lemma flat_run_split pre e post s s' : flat_run (length (pre ++ e :: post)) s = Ret (pre ++ e :: post, s') →
  ∃ s1 s2, flat_run (length pre) s = Ret (pre, s1) ∧ flat_step s1 = Ret (e, s2).
Proof.
  rewrite length_app, flat_run_app. intros E. apply bind_inv in E as ([es1 s1] & E1 & E).
  apply bind_inv in E as ([es2 s2] & E2 & [= Ees _]).
  apply app_inj_1 in Ees as [-> ->]; [|by eapply flat_run_length].
  cbn in E2. apply bind_inv in E2 as ([e' s3] & E3 & E2).
  apply bind_inv in E2 as ([es3 s4] & _ & [= <- _ _]). by exists s1, s3.
Qed.

Lemma flat_run_agrees c tr c' s s' : isa_steps c tr c' → core s = c →
  flat_run (length tr) s = Ret (tr, s') → core s' = c'.
Proof.
  intros Hst. revert s. induction Hst as [c|c e c1 es c2 Hs _ IH]; intros s Ec E; cbn in E.
  { by injection E as <-. }
  apply bind_inv in E as ([e' s1] & E1 & E). apply bind_inv in E as ([es' s2] & E2 & [= <- <- <-]).
  apply (IH s1); [|done]. rewrite <- Ec in Hs. by eapply flat_step_agrees.
Qed.
End machine.
