(* ===== verification/SimpleMem.v ===== *)
(** The fixed-latency main memory: [simulator/src/hardware/mem/simple_mem.rs]. *)
From S2P Require Import Prelude Word AbstractMem.
From stdpp Require Import base gmap list numbers.
From Stdlib Require Import Lia.
#[local] Open Scope Z_scope.
#[local] Coercion Z.of_nat : nat >-> Z.

Definition MEM_SIZE : Z := 262144.
Definition MAIN_MEM_LATENCY : nat := 15.

Record SimpleMem := {
  data : list Z;
  pending_req : option MemoryReqType;
  stall_countdown : nat;
  load_access_count : nat;
  store_access_count : nat;
}.

Module SimpleMemory.
Definition new (init_data : list Z) : SimpleMem := {|
  data := init_data; pending_req := None; stall_countdown := MAIN_MEM_LATENCY;
  load_access_count := 0; store_access_count := 0 |}.

Definition try_register_req (m : SimpleMem) (req : MemoryReqType) (h : heap)
    : exec (Result unit unit * SimpleMem * heap) :=
  _ ← assert_ (Req.get_addr req <? MEM_SIZE);
  match pending_req m with
  | Some _ => mret (Err tt, m, h)
  | None =>
      mret (Ok tt,
        {| data := data m;
           pending_req := Some req;
           stall_countdown := MAIN_MEM_LATENCY;
           load_access_count :=
             match req with Load _ => S (load_access_count m) | Store _ => load_access_count m end;
           store_access_count :=
             match req with Load _ => store_access_count m | Store _ => S (store_access_count m) end |},
        h)
  end.

Definition with_stall (n : nat) (m : SimpleMem) : SimpleMem := {|
  data := data m; pending_req := pending_req m; stall_countdown := n;
  load_access_count := load_access_count m; store_access_count := store_access_count m |}.
Definition served (d : list Z) (m : SimpleMem) : SimpleMem := {|
  data := d; pending_req := None; stall_countdown := stall_countdown m;
  load_access_count := load_access_count m; store_access_count := store_access_count m |}.

Definition tick (m : SimpleMem) (h : heap) : exec (SimpleMem * heap) :=
  match pending_req m with
  | None => mret (m, h)
  | Some req =>
      if (0 <? stall_countdown m)%nat then mret (with_stall (stall_countdown m - 1) m, h)
      else
        let addr := Z.to_nat (Req.get_addr req) in
        let len := Req.get_len req in
        match req with
        | Load _ =>
            s ← slice (data m) addr len;
            h ← Req.complete_load_from_slice req s h;
            mret (served (data m) m, h)
        | Store store_req =>
            d ← write_slice (data m) addr len (StoreReq.data store_req);
            h ← Req.complete_store req h;
            mret (served d m, h)
        end
  end.
End SimpleMemory.

#[export] Instance SimpleMem_Clocked : Clocked SimpleMem := SimpleMemory.tick.
#[export] Instance SimpleMem_AbstractMemoryInterface : AbstractMemoryInterface SimpleMem := {
  try_register_req := SimpleMemory.try_register_req;
}.

(** * Facts *)

Definition in_bounds (m : SimpleMem) (r : MemoryReqType) : Prop :=
  0 ≤ Req.get_addr r < MEM_SIZE ∧ Req.get_addr r + Req.get_len r ≤ length (data m).

Section facts.
(** serving the pending request *)
Lemma tick_serve m r h :
  pending_req m = Some r → stall_countdown m = O → in_bounds m r → req_wf r →
  ∃ d, SimpleMemory.tick m h =
      Ret (SimpleMemory.served d m, Heap.set (Req.id r) (reply r (view_of (data m))) h) ∧
    length d = length (data m) ∧ ∀ a, view_of d a = view_apply r (view_of (data m)) a.
Proof.
  intros Hp Hs [Hb1 Hb2] Hwf. unfold SimpleMemory.tick. rewrite Hp, Hs. cbn [Nat.ltb Nat.leb].
  destruct r as [x|x]; cbn [Req.get_addr Req.get_len] in *; cbn in Hwf.
  - rewrite slice_Ret, bind_Ret by lia. cbn [Req.complete_load_from_slice Req.load_req_ref mret].
    unfold Req.complete_load_from_slice, LoadReq.complete_from_slice. cbn.
    rewrite bool_decide_true by (apply length_slice; lia). cbn.
    exists (data m). split_and!; [|done|done]. do 3 f_equal. unfold reply. f_equal.
    rewrite <- view_read_of by lia. f_equal. lia.
  - rewrite write_slice_Ret, bind_Ret by (unfold StoreReq.data; lia). cbn.
    eexists. split_and!; [reflexivity | by apply length_write_slice; [lia|]|].
    intros a. unfold StoreReq.data. rewrite <- Hwf, view_write_of by lia.
    by rewrite Z2Nat.id by lia.
Qed.

Lemma tick_stall m r n h :
  pending_req m = Some r → stall_countdown m = S n →
  SimpleMemory.tick m h = Ret (SimpleMemory.with_stall n m, h).
Proof. intros Hp Hs. unfold SimpleMemory.tick. rewrite Hp, Hs. cbn. by rewrite Nat.sub_0_r. Qed.

Lemma ticks_stall n m r k h :
  pending_req m = Some r → stall_countdown m = (n + k)%nat →
  ticks n m h = Ret (SimpleMemory.with_stall k m, h).
Proof.
  revert m. induction n as [|n IH]; intros m Hp Hs; cbn [ticks].
  - destruct m; cbn in *. by subst.
  - unfold tick, SimpleMem_Clocked. erewrite tick_stall by eauto. rewrite bind_Ret.
    by rewrite IH.
Qed.
End facts.

(** C28: The latency and the effect of a main-memory access: a request accepted by an idle
    memory is untouched for 15 ticks and served by the 16th: the requester's cell gets the
    addressed bytes (a load) or the acknowledgement (a store), the contents change exactly
    at the addresses of a store, and the memory accepts again; a request made meanwhile is
    refused and changes nothing. *)
Theorem simple_mem_access (m : SimpleMem) (r r' : MemoryReqType) (h : heap) :
  pending_req m = None → in_bounds m r → req_wf r → Req.get_addr r' < MEM_SIZE →
  ∃ m1, try_register_req m r h = Ret (Ok tt, m1, h) ∧
    (∀ n, (n ≤ 15)%nat → ∃ m2, ticks n m1 h = Ret (m2, h) ∧
       try_register_req m2 r' h = Ret (Err tt, m2, h)) ∧
    ∃ m3, ticks 16 m1 h = Ret (m3, Heap.set (Req.id r) (reply r (view_of (data m))) h) ∧
      pending_req m3 = None ∧ length (data m3) = length (data m) ∧
      ∀ a, view_of (data m3) a = view_apply r (view_of (data m)) a.
Proof.
  intros Hp Hb Hwf Hr'. eexists. split.
  { cbn. unfold SimpleMemory.try_register_req. destruct Hb as [[_ Hb] _].
    rewrite (proj2 (Z.ltb_lt _ _) Hb), Hp. reflexivity. }
  set (m1 := Build_SimpleMem _ _ _ _ _).
  assert (Hn : ∀ n, (n ≤ 15)%nat → ticks n m1 h = Ret (SimpleMemory.with_stall (15 - n) m1, h)).
  { intros n ?. eapply ticks_stall; [done|]. cbn. unfold MAIN_MEM_LATENCY. lia. }
  split.
  - intros n ?. eexists. split; [by apply Hn|]. cbn. unfold SimpleMemory.try_register_req.
    rewrite (proj2 (Z.ltb_lt _ _) Hr'). reflexivity.
  - change 16%nat with (15 + 1)%nat. rewrite ticks_add, Hn by lia. rewrite bind_Ret.
    change (15 - 15)%nat with 0%nat.
    destruct (tick_serve (SimpleMemory.with_stall 0 m1) r h) as (d & E & Hl & Hv); [done..|].
    cbn [ticks]. unfold tick, SimpleMem_Clocked. rewrite E, bind_Ret. eexists. split; [done|].
    split_and!; [done | exact Hl | exact Hv].
Qed.

Lemma simple_mem_access_witness :
  let m := SimpleMemory.new (replicate 64 7) in
  let '(r, h) := Req.store 8 [1; 2] Heap.empty in
  let '(r', h) := Req.load 8 4 h in
  ∃ m1, try_register_req m r h = Ret (Ok tt, m1, h) ∧
    (∀ n, (n ≤ 15)%nat → ∃ m2, ticks n m1 h = Ret (m2, h) ∧
       try_register_req m2 r' h = Ret (Err tt, m2, h)) ∧
    ∃ m3, ticks 16 m1 h = Ret (m3, Heap.set (Req.id r) (reply r (view_of (data m))) h) ∧
      pending_req m3 = None ∧ length (data m3) = length (data m) ∧
      ∀ a, view_of (data m3) a = view_apply r (view_of (data m)) a.
Proof.
  intros m. cbn -[ticks try_register_req MEM_SIZE m]. apply simple_mem_access.
  - reflexivity.
  - vm_compute. repeat split; discriminate.
  - reflexivity.
  - reflexivity.
Defined.
