(* ===== verification/Dram.v ===== *)
(** The DRAM model: [simulator/src/hardware/mem/simple_dram/] ([timing.rs], [bank.rs],
    [mod.rs]): timing parameters, one bank as a state machine, and its controller. *)
From S2P Require Import Prelude Word AbstractMem.
From stdpp Require Import base gmap list numbers.
From Stdlib Require Import Lia.
#[local] Open Scope Z_scope.
#[local] Coercion Z.of_nat : nat >-> Z.

(** * Timing *)

Record DramTiming := { t_rcd : Z; t_cl : Z; t_rp : Z }.

Module Timing.
Definition assert_valid (t : DramTiming) : exec unit :=
  _ ← assert_ (1 <=? t_rcd t);
  _ ← assert_ (1 <=? t_cl t);
  assert_ (1 <=? t_rp t).
Definition educational_default : DramTiming := {| t_rcd := 4; t_cl := 4; t_rp := 4 |}.
Definition ddr4_2400 : DramTiming := {| t_rcd := 17; t_cl := 17; t_rp := 17 |}.
End Timing.

(** * The bank *)

Inductive BankState :=
  | Idle
  | Activating (row remaining : Z)
  | Active (row : Z)
  | Precharging (remaining : Z)
  | Reading (row remaining : Z)
  | Writing (row remaining : Z).

Inductive BankEvent := ActivationFinished | PrechargeFinished | ReadFinished | WriteFinished.

Module Bank.
Definition new : BankState := Idle.

Definition issue_activate (row t_rcd : Z) (b : BankState) : exec BankState :=
  _ ← assert_ (match b with Idle => true | _ => false end);
  _ ← assert_ (1 <=? t_rcd);
  mret (Activating row t_rcd).

Definition issue_precharge (t_rp : Z) (b : BankState) : exec BankState :=
  _ ← assert_ (match b with Active _ => true | _ => false end);
  _ ← assert_ (1 <=? t_rp);
  mret (Precharging t_rp).

Definition check_open (row : Z) (b : BankState) : exec unit :=
  match b with
  | Active opened => assert_ (opened =? row)
  | _ => Panic PExplicit
  end.
Definition issue_read (row t_cl : Z) (b : BankState) : exec BankState :=
  _ ← check_open row b;
  _ ← assert_ (1 <=? t_cl);
  mret (Reading row t_cl).
Definition issue_write (row t_cl : Z) (b : BankState) : exec BankState :=
  _ ← check_open row b;
  _ ← assert_ (1 <=? t_cl);
  mret (Writing row t_cl).

Section advance.
Context `{Profile}.

(** one countdown: the trigger cycle is [remaining == 1] *)
Definition countdown (remaining : Z) (next : BankState) (e : BankEvent) (stay : Z → BankState)
    : exec (BankState * option BankEvent) :=
  if remaining =? 1 then mret (next, Some e)
  else r ← word_sub 64 remaining 1; mret (stay r, None).

Definition advance_one_cycle (b : BankState) : exec (BankState * option BankEvent) :=
  match b with
  | Idle | Active _ => mret (b, None)
  | Activating row n => countdown n (Active row) ActivationFinished (Activating row)
  | Precharging n => countdown n Idle PrechargeFinished Precharging
  | Reading row n => countdown n (Active row) ReadFinished (Reading row)
  | Writing row n => countdown n (Active row) WriteFinished (Writing row)
  end.
End advance.
End Bank.

(** * The controller *)

Definition DEFAULT_ROW_SIZE_BYTES : Z := 1024.

Record SimpleDram := {
  data : list Z;
  timing : DramTiming;
  row_size_bytes : Z;
  bank : BankState;
  pending_req : option MemoryReqType;
  pending_req_required_activate : bool;
  row_buffer_hit_cnt : nat;
  row_buffer_miss_cnt : nat;
}.

Module Dram.
Definition new (init_data : list Z) (t : DramTiming) : exec SimpleDram :=
  _ ← Timing.assert_valid t;
  mret {| data := init_data; timing := t; row_size_bytes := DEFAULT_ROW_SIZE_BYTES;
          bank := Bank.new; pending_req := None; pending_req_required_activate := false;
          row_buffer_hit_cnt := 0; row_buffer_miss_cnt := 0 |}.

Definition with_row_size (n : Z) (d : SimpleDram) : exec SimpleDram :=
  _ ← assert_ ((1 <=? n) && is_power_of_two n);
  mret {| data := data d; timing := timing d; row_size_bytes := n; bank := bank d;
          pending_req := pending_req d;
          pending_req_required_activate := pending_req_required_activate d;
          row_buffer_hit_cnt := row_buffer_hit_cnt d;
          row_buffer_miss_cnt := row_buffer_miss_cnt d |}.

(** [addr / (row_size_bytes as u32)] *)
Definition addr_to_row (d : SimpleDram) (addr : Z) : exec Z :=
  let n := as_u32 (row_size_bytes d) in
  if n =? 0 then Panic PDivZero else mret (addr / n).

Definition try_register_req (d : SimpleDram) (req : MemoryReqType) (h : heap)
    : exec (Result unit unit * SimpleDram * heap) :=
  _ ← assert_ (Req.get_addr req + Req.get_len req <=? length (data d));
  match pending_req d with
  | Some _ => mret (Err tt, d, h)
  | None =>
      mret (Ok tt,
        {| data := data d; timing := timing d; row_size_bytes := row_size_bytes d;
           bank := bank d; pending_req := Some req; pending_req_required_activate := false;
           row_buffer_hit_cnt := row_buffer_hit_cnt d;
           row_buffer_miss_cnt := row_buffer_miss_cnt d |}, h)
  end.

(** a command issued for the pending request, with the bookkeeping around it *)
Definition issued (b : BankState) (required_activate : bool) (hits misses : nat) (d : SimpleDram)
    : SimpleDram :=
  {| data := data d; timing := timing d; row_size_bytes := row_size_bytes d; bank := b;
     pending_req := pending_req d; pending_req_required_activate := required_activate;
     row_buffer_hit_cnt := hits; row_buffer_miss_cnt := misses |}.

(** phase 1 of [tick]: decide what command to issue *)
Definition decide_command (d : SimpleDram) : exec SimpleDram :=
  match pending_req d with
  | None => mret d
  | Some req =>
      req_row ← addr_to_row d (Req.get_addr req);
      match bank d with
      | Idle =>
          b ← Bank.issue_activate req_row (t_rcd (timing d)) (bank d);
          mret (issued b true (row_buffer_hit_cnt d) (S (row_buffer_miss_cnt d)) d)
      | Active open_row =>
          if open_row =? req_row then
            b ← (if Req.is_store req then Bank.issue_write else Bank.issue_read)
                  req_row (t_cl (timing d)) (bank d);
            mret (issued b (pending_req_required_activate d)
                    (if negb (pending_req_required_activate d)
                     then S (row_buffer_hit_cnt d) else row_buffer_hit_cnt d)
                    (row_buffer_miss_cnt d) d)
          else
            b ← Bank.issue_precharge (t_rp (timing d)) (bank d);
            mret (issued b (pending_req_required_activate d) (row_buffer_hit_cnt d)
                    (row_buffer_miss_cnt d) d)
      | Activating _ _ | Precharging _ | Reading _ _ | Writing _ _ => mret d
      end
  end.

Definition with_bank (b : BankState) (d : SimpleDram) : SimpleDram :=
  issued b (pending_req_required_activate d) (row_buffer_hit_cnt d) (row_buffer_miss_cnt d) d.

Definition completed (new_data : list Z) (d : SimpleDram) : SimpleDram :=
  {| data := new_data; timing := timing d; row_size_bytes := row_size_bytes d; bank := bank d;
     pending_req := None; pending_req_required_activate := false;
     row_buffer_hit_cnt := row_buffer_hit_cnt d; row_buffer_miss_cnt := row_buffer_miss_cnt d |}.

Definition complete_pending_read (d : SimpleDram) (h : heap) : exec (SimpleDram * heap) :=
  req ← unwrap (pending_req d);
  s ← slice (data d) (Z.to_nat (Req.get_addr req)) (Req.get_len req);
  h ← Req.complete_load_from_slice req s h;
  mret (completed (data d) d, h).

Definition complete_pending_write (d : SimpleDram) (h : heap) : exec (SimpleDram * heap) :=
  req ← unwrap (pending_req d);
  bytes ← Req.store_data req;
  new_data ← write_slice (data d) (Z.to_nat (Req.get_addr req)) (Req.get_len req) bytes;
  h ← Req.complete_store req h;
  mret (completed new_data d, h).

Definition tick `{Profile} (d : SimpleDram) (h : heap) : exec (SimpleDram * heap) :=
  d ← decide_command d;
  '(b, event) ← Bank.advance_one_cycle (bank d);
  let d := with_bank b d in
  match event with
  | Some ReadFinished => complete_pending_read d h
  | Some WriteFinished => complete_pending_write d h
  | Some ActivationFinished | Some PrechargeFinished | None => mret (d, h)
  end.
End Dram.

#[export] Instance SimpleDram_Clocked `{Profile} : Clocked SimpleDram := Dram.tick.
#[export] Instance SimpleDram_AbstractMemoryInterface `{Profile} :
    AbstractMemoryInterface SimpleDram := {
  try_register_req := Dram.try_register_req;
}.

(** * Invariant *)

Module DramInv.
Definition valid_timing (t : DramTiming) : Prop :=
  1 ≤ t_rcd t < 2 ^ 64 ∧ 1 ≤ t_cl t < 2 ^ 64 ∧ 1 ≤ t_rp t < 2 ^ 64.
Definition valid_row (n : Z) : Prop := 1 ≤ n < 2 ^ 32.

Definition in_bounds (d : SimpleDram) (r : MemoryReqType) : Prop :=
  0 ≤ Req.get_addr r ∧ Req.get_addr r + Req.get_len r ≤ length (data d).

Definition row (d : SimpleDram) (r : MemoryReqType) : Z := Req.get_addr r / row_size_bytes d.

Definition running (t n : Z) : Prop := 1 ≤ n ≤ t.

(** what the bank may be doing for the pending request *)
Definition serving (d : SimpleDram) (r : MemoryReqType) : Prop :=
  match bank d with
  | Idle | Active _ => True
  | Activating w n => w = row d r ∧ running (t_rcd (timing d)) n ∧ pending_req_required_activate d = true
  | Precharging n => running (t_rp (timing d)) n
  | Reading w n => w = row d r ∧ running (t_cl (timing d)) n ∧ Req.is_store r = false
  | Writing w n => w = row d r ∧ running (t_cl (timing d)) n ∧ Req.is_store r = true
  end.

Record ok (d : SimpleDram) : Prop := {
  ok_timing : valid_timing (timing d);
  ok_row : valid_row (row_size_bytes d);
  ok_bank :
    match pending_req d with
    | None => match bank d with Idle | Active _ => True | _ => False end
    | Some r => in_bounds d r ∧ req_wf r ∧ serving d r
    end;
}.

(** the number of ticks until the pending request is done *)
Definition remaining (d : SimpleDram) : Z :=
  match pending_req d with
  | None => 0
  | Some r =>
      match bank d with
      | Idle => t_rcd (timing d) + t_cl (timing d)
      | Active w =>
          if w =? row d r then t_cl (timing d)
          else t_rp (timing d) + t_rcd (timing d) + t_cl (timing d)
      | Activating _ n => n + t_cl (timing d)
      | Precharging n => n + t_rcd (timing d) + t_cl (timing d)
      | Reading _ n | Writing _ n => n
      end
  end.

(** the counters once the pending request is done *)
Definition hits_after (d : SimpleDram) : nat :=
  match pending_req d, bank d with
  | Some r, Active w =>
      if (w =? row d r) && negb (pending_req_required_activate d)
      then S (row_buffer_hit_cnt d) else row_buffer_hit_cnt d
  | _, _ => row_buffer_hit_cnt d
  end.
Definition misses_after (d : SimpleDram) : nat :=
  match pending_req d, bank d with
  | Some r, Active w =>
      if w =? row d r then row_buffer_miss_cnt d else S (row_buffer_miss_cnt d)
  | Some r, (Idle | Precharging _) => S (row_buffer_miss_cnt d)
  | _, _ => row_buffer_miss_cnt d
  end.

(** what no tick changes *)
Definition same_plan (d d' : SimpleDram) : Prop :=
  timing d' = timing d ∧ row_size_bytes d' = row_size_bytes d ∧
  hits_after d' = hits_after d ∧ misses_after d' = misses_after d.
End DramInv.

(** * Facts *)

Section facts.
Context `{Profile}.
Import DramInv.

Lemma addr_to_row_Ret d r : valid_row (row_size_bytes d) →
  Dram.addr_to_row d (Req.get_addr r) = Ret (row d r).
Proof.
  intros [? ?]. unfold Dram.addr_to_row. rewrite wrap_id by (split; lia).
  rewrite (proj2 (Z.eqb_neq _ _)) by lia. done.
Qed.

Lemma countdown_step t n next e stay :
  t < 2 ^ 64 → running t n → n ≠ 1 →
  Bank.countdown n next e stay = Ret (stay (n - 1), None) ∧ running t (n - 1).
Proof.
  intros ? [? ?] ?. unfold Bank.countdown, word_sub. rewrite (proj2 (Z.eqb_neq _ _)) by done.
  rewrite narrow_Ret by (split; lia). split; [done | split; lia].
Qed.
Lemma countdown_last next e stay : Bank.countdown 1 next e stay = Ret (next, Some e).
Proof. done. Qed.

(** an idle controller does nothing *)
Lemma tick_idle d h : ok d → pending_req d = None → Dram.tick d h = Ret (d, h).
Proof.
  intros [_ _ Hb] Hp. unfold Dram.tick, Dram.decide_command. rewrite Hp in *.
  rewrite bind_Ret. destruct d; cbn in *. by destruct bank0.
Qed.

(** the decision: afterwards the bank is counting down towards the request *)
Definition counting (b : BankState) : option Z :=
  match b with
  | Activating _ n | Precharging n | Reading _ n | Writing _ n => Some n
  | Idle | Active _ => None
  end.

Lemma ok_intro t rs b r d ra hc mc :
  valid_timing t → valid_row rs →
  in_bounds {| data := d; timing := t; row_size_bytes := rs; bank := b; pending_req := Some r;
    pending_req_required_activate := ra; row_buffer_hit_cnt := hc; row_buffer_miss_cnt := mc |} r →
  req_wf r →
  serving {| data := d; timing := t; row_size_bytes := rs; bank := b; pending_req := Some r;
    pending_req_required_activate := ra; row_buffer_hit_cnt := hc; row_buffer_miss_cnt := mc |} r →
  ok {| data := d; timing := t; row_size_bytes := rs; bank := b; pending_req := Some r;
    pending_req_required_activate := ra; row_buffer_hit_cnt := hc; row_buffer_miss_cnt := mc |}.
Proof. by constructor. Qed.

Ltac intro_ok := solve [apply ok_intro; try done; unfold serving, running; cbn;
  split_and?; first [done | lia]].

Ltac plan := unfold same_plan, hits_after, misses_after; cbn; unfold row; cbn;
  rewrite ?Z.eqb_refl; try done.

Lemma decide_spec d r : ok d → pending_req d = Some r →
  ∃ d' n, Dram.decide_command d = Ret d' ∧ ok d' ∧ pending_req d' = Some r ∧
    data d' = data d ∧ same_plan d d' ∧ remaining d' = remaining d ∧
    counting (bank d') = Some n.
Proof.
  intros [Ht Hr Hb] Hp. pose proof Ht as (Ht1 & Ht2 & Ht3).
  unfold Dram.decide_command. rewrite Hp in *. destruct Hb as (Hin & Hwf & Hs).
  rewrite addr_to_row_Ret, bind_Ret by done.
  destruct d as [dt t rs b pr ra hc mc]. cbn in *. subst pr.
  destruct b as [|w n|w|n|w n|w n]; cbn;
    try solve [do 2 eexists; split_and!; [reflexivity | intro_ok|..]; plan].
  - rewrite (proj2 (Z.leb_le _ _)) by lia. cbn. do 2 eexists.
    split_and!; [reflexivity | intro_ok|..]; plan.
  - unfold row in *. cbn in *. destruct (Z.eqb_spec w (Req.get_addr r / rs)) as [->|Hne].
    + destruct r as [x|x]; cbn; rewrite Z.eqb_refl; cbn;
        rewrite (proj2 (Z.leb_le _ _)) by lia; cbn; do 2 eexists;
        (split_and!; [reflexivity | intro_ok |..]); plan.
    + rewrite (proj2 (Z.leb_le _ _)) by lia. cbn. do 2 eexists.
      split_and!; [reflexivity | intro_ok |..]; plan;
        rewrite (proj2 (Z.eqb_neq _ _)) by done; done.
Qed.

(** phase 2: the countdown, and the completion on its last cycle *)
Definition advance (d : SimpleDram) (h : heap) : exec (SimpleDram * heap) :=
  '(b, event) ← Bank.advance_one_cycle (bank d);
  let d := Dram.with_bank b d in
  match event with
  | Some ReadFinished => Dram.complete_pending_read d h
  | Some WriteFinished => Dram.complete_pending_write d h
  | Some ActivationFinished | Some PrechargeFinished | None => mret (d, h)
  end.

(** the request served: its cell filled, the contents updated, the bank at rest on its row *)
Definition finished (d d' : SimpleDram) (r : MemoryReqType) (h h' : heap) : Prop :=
  h' = Heap.set (Req.id r) (reply r (view_of (data d))) h ∧ ok d' ∧ pending_req d' = None ∧
  length (data d') = length (data d) ∧ bank d' = Active (row d r) ∧
  ∀ a, view_of (data d') a = view_apply r (view_of (data d)) a.

Definition progressed (d d' : SimpleDram) (r : MemoryReqType) : Prop :=
  ok d' ∧ pending_req d' = Some r ∧ data d' = data d ∧ remaining d' = remaining d - 1 ∧
  1 < remaining d.

Definition stepped (d : SimpleDram) (r : MemoryReqType) (h : heap) (m : exec (SimpleDram * heap))
    : Prop :=
  ∃ d' h', m = Ret (d', h') ∧ same_plan d d' ∧
    ((h' = h ∧ progressed d d' r) ∨ (remaining d = 1 ∧ finished d d' r h h')).

Lemma finish_read d r w h : ok d → pending_req d = Some r → bank d = Reading w 1 →
  stepped d r h (advance d h).
Proof.
  intros [Ht Hr Hb] Hp Hn. rewrite Hp in *. destruct Hb as (Hin & Hwf & Hs).
  pose proof Hin as [Hin1 Hin2]. destruct d as [dt t rs b pr ra hc mc]. cbn in *. subst pr b.
  destruct Hs as (-> & ? & Hl). destruct r as [x|x]; [|done]. cbn in *.
  unfold stepped, advance, Dram.complete_pending_read. cbn.
  rewrite slice_Ret, bind_Ret by lia. unfold Req.complete_load_from_slice, LoadReq.complete_from_slice.
  cbn. rewrite bool_decide_true by (apply length_slice; lia). cbn.
  do 2 eexists. split; [reflexivity|]. split; [plan|]. right. split; [done|].
  split_and!; try done. cbn. unfold reply. do 3 f_equal.
  rewrite <- view_read_of by lia. f_equal. lia.
Qed.

Lemma finish_write d r w h : ok d → pending_req d = Some r → bank d = Writing w 1 →
  stepped d r h (advance d h).
Proof.
  intros [Ht Hr Hb] Hp Hn. rewrite Hp in *. destruct Hb as (Hin & Hwf & Hs).
  pose proof Hin as [Hin1 Hin2]. destruct d as [dt t rs b pr ra hc mc]. cbn in *. subst pr b.
  destruct Hs as (-> & ? & Hl). destruct r as [x|x]; [done|]. cbn in *.
  unfold stepped, advance, Dram.complete_pending_write, StoreReq.data. cbn.
  rewrite write_slice_Ret, bind_Ret by lia. cbn.
  do 2 eexists. split; [reflexivity|]. split; [plan|]. right. split; [done|].
  split_and!; try done. { cbn. rewrite length_write_slice by lia. done. }
  intros a. cbn. rewrite <- Hwf, view_write_of, Z2Nat.id by lia. done.
Qed.

(** a countdown that does not complete the request this cycle *)
Lemma advance_spec d r n h : ok d → pending_req d = Some r → counting (bank d) = Some n →
  stepped d r h (advance d h).
Proof.
  intros Hok Hp Hn. pose proof Hok as [Ht Hr Hb]. pose proof Ht as ([? ?] & [? ?] & [? ?]).
  destruct (decide (n = 1)) as [->|Hne];
    [destruct (bank d) as [|w m|w|m|w m|w m] eqn:E; try discriminate; injection Hn as ->;
     try solve [by eapply finish_read | by eapply finish_write]|].
  - rewrite Hp in Hb. destruct d as [dt t rs b pr ra hc mc]. cbn in *. subst pr b.
    destruct Hb as (? & ? & -> & ? & Hra). cbn in Hra. unfold stepped, advance. cbn. do 2 eexists.
    split; [reflexivity|]. split; [rewrite Hra; plan|].
    left. split; [done|]. unfold progressed, remaining, row. cbn.
    rewrite Z.eqb_refl. split_and!; try done; try lia.
  - rewrite Hp in Hb. destruct d as [dt t rs b pr ra hc mc]. cbn in *. subst pr b.
    destruct Hb as (? & ? & ?). unfold stepped, advance. cbn. do 2 eexists.
    split; [reflexivity|]. split; [plan|].
    left. split; [done|]. unfold progressed, remaining. cbn. split_and!; try done; try lia.
  - rewrite Hp in Hb. destruct d as [dt t rs b pr ra hc mc]. cbn in *. subst pr.
    destruct Hb as (Hin & Hwf & Hs). unfold stepped, advance.
    destruct b as [|w m|w|m|w m|w m]; try discriminate; injection Hn as ->; cbn in *;
      destruct_and?; (edestruct countdown_step as [-> ?]; [|eassumption|done|]; [lia|]); cbn; do 2 eexists;
      (split; [reflexivity|]; split; [plan|]; left; split; [done|]);
      unfold progressed, remaining, running in *; cbn;
      (split_and!; [intro_ok|..]; try done; lia).
Qed.

(** one tick of a controller serving a request: it never issues an illegal command *)
Lemma tick_spec d r h : ok d → pending_req d = Some r → stepped d r h (Dram.tick d h).
Proof.
  intros Hok Hp. destruct (decide_spec d r Hok Hp) as (d1 & n & E & Hok1 & Hp1 & Hd & Hs & Hrem & Hc).
  unfold Dram.tick. rewrite E, bind_Ret.
  destruct (advance_spec d1 r n h) as (d2 & h2 & E2 & Hs2 & Hst); [done..|].
  exists d2, h2. split; [exact E2|]. unfold progressed, finished, same_plan in *.
  destruct Hs as (Hs1 & Hs3 & Hs4 & Hs5), Hs2 as (? & ? & ? & ?). split; [split_and!; congruence|].
  assert (row d1 r = row d r) by (unfold row; congruence).
  rewrite <- Hrem, <- Hd. destruct Hst as [Hst|(? & Hst)]; [by left|right].
  split; [done|]. by replace (row d r) with (row d1 r).
Qed.

Lemma ticks_serve (n : nat) d r h :
  ok d → pending_req d = Some r → remaining d = n →
  (∀ k, (k < n)%nat → ∃ d2, ticks k d h = Ret (d2, h) ∧ ok d2 ∧ pending_req d2 = Some r ∧
     data d2 = data d) ∧
  ∃ d3 h3, ticks n d h = Ret (d3, h3) ∧ same_plan d d3 ∧ finished d d3 r h h3.
Proof.
  revert d. induction n as [|n IH]; intros d Hok Hp Hr.
  { exfalso. destruct Hok as [([? ?] & [? ?] & [? ?]) _ Hb]. unfold remaining in Hr.
    rewrite Hp in *. destruct Hb as (_ & _ & Hs). unfold serving, running in Hs.
    destruct (bank d); try case_match; lia. }
  destruct (tick_spec d r h Hok Hp) as (d1 & h1 & E & Hs & Hst).
  assert (E' : ∀ k, ticks (S k) d h = ticks k d1 h1).
  { intros k. cbn [ticks]. unfold tick, SimpleDram_Clocked. by rewrite E. }
  destruct Hst as [(-> & Hok1 & Hp1 & Hd1 & Hr1 & Hlt)|[Hone Hfin]].
  - destruct (IH d1) as [IH1 (d3 & h3 & IH2 & IH3 & IH4)]; [done | done | lia |]. split.
    + intros [|k] Hk; [by exists d|]. rewrite E'. destruct (IH1 k) as (d2 & ? & ? & ? & ?); [lia|].
      exists d2. split_and!; [done..|congruence].
    + exists d3, h3. rewrite E'. split; [done|].
      unfold same_plan, finished in *. destruct_and!.
      assert (row d1 r = row d r) by (unfold row; congruence).
      rewrite <- Hd1. split_and!; congruence || done.
  - assert (n = O) as -> by lia. split.
    + intros k Hk. assert (k = O) as -> by lia. by exists d.
    + exists d1, h1. by rewrite E'.
Qed.
End facts.

Section theorems.
Context `{Profile}.
Import DramInv.

(** the latency table of the controller's documentation *)
Definition latency (d : SimpleDram) (r : MemoryReqType) : Z :=
  match bank d with
  | Active w =>
      if w =? row d r then t_cl (timing d)
      else t_rp (timing d) + t_rcd (timing d) + t_cl (timing d)
  | _ => t_rcd (timing d) + t_cl (timing d)
  end.
Definition row_hit (d : SimpleDram) (r : MemoryReqType) : bool :=
  match bank d with Active w => w =? row d r | _ => false end.

(** C27: The DRAM latency paths: an idle controller with a valid configuration accepts an
  in-bounds request and serves it after exactly tRCD + tCL ticks from a closed bank, tCL
  on a row-buffer hit and tRP + tRCD + tCL on a row-buffer miss, never earlier and never
  issuing an illegal bank command; requests made meanwhile are refused; exactly one of
  the hit and miss counters advances by one, and the request's row stays open. *)
Theorem dram_access (d : SimpleDram) (r r' : MemoryReqType) (h : heap) :
  ok d → pending_req d = None → in_bounds d r → req_wf r → in_bounds d r' →
  ∃ d1, try_register_req d r h = Ret (Ok tt, d1, h) ∧
    (∀ k : nat, k < latency d r → ∃ d2, ticks k d1 h = Ret (d2, h) ∧
       try_register_req d2 r' h = Ret (Err tt, d2, h)) ∧
    ∃ d3, ticks (Z.to_nat (latency d r)) d1 h =
        Ret (d3, Heap.set (Req.id r) (reply r (view_of (data d))) h) ∧
      ok d3 ∧ pending_req d3 = None ∧ bank d3 = Active (row d r) ∧
      (∀ a, view_of (data d3) a = view_apply r (view_of (data d)) a) ∧
      row_buffer_hit_cnt d3 =
        (row_buffer_hit_cnt d + if row_hit d r then 1 else 0)%nat ∧
      row_buffer_miss_cnt d3 =
        (row_buffer_miss_cnt d + if row_hit d r then 0 else 1)%nat.
Proof.
  intros Hok Hp Hin Hwf Hin'. pose proof Hok as [Ht Hr Hb]. rewrite Hp in Hb.
  pose proof Ht as ([? ?] & [? ?] & [? ?]). eexists. split.
  { cbn. unfold Dram.try_register_req. destruct Hin as [_ Hi].
    rewrite (proj2 (Z.leb_le _ _) Hi), Hp. reflexivity. }
  set (d1 := Build_SimpleDram _ _ _ _ _ _ _ _).
  assert (Hok1 : ok d1).
  { apply ok_intro; try done. unfold serving. cbn. by destruct (bank d). }
  assert (Hrem : remaining d1 = Z.to_nat (latency d r)).
  { unfold remaining, latency, row. cbn. destruct (bank d); try done; [lia|].
    unfold row. case_match; lia. }
  destruct (ticks_serve _ d1 r h Hok1 eq_refl Hrem) as [Hwait (d3 & h3 & E & Hs & Hfin)].
  split.
  - intros k Hk. destruct (Hwait k) as (d2 & E2 & _ & Hp2 & Hd2); [lia|]. exists d2. split; [done|].
    cbn. unfold Dram.try_register_req. rewrite Hd2. destruct Hin' as [_ Hi].
    cbn. by rewrite (proj2 (Z.leb_le _ _) Hi), Hp2.
  - exists d3. destruct Hfin as (-> & Hok3 & Hp3 & _ & Hb3 & Hv3). split; [done|].
    destruct Hs as (_ & _ & Hh & Hm). unfold hits_after, misses_after in Hh, Hm.
    rewrite Hp3 in Hh, Hm. unfold row_hit, row in *. cbn in Hh, Hm.
    split_and!; try done; destruct (bank d); try done; cbn in *; try lia;
      destruct (_ =? _); cbn in *; lia.
Qed.
End theorems.

Lemma dram_access_witness :
  let _ := dev_profile in
  let d := {| data := replicate 64 7; timing := Timing.educational_default; row_size_bytes := 16;
              bank := Active 0; pending_req := None; pending_req_required_activate := false;
              row_buffer_hit_cnt := 3; row_buffer_miss_cnt := 1 |} in
  let '(r, h) := Req.load 32 4 Heap.empty in
  ∃ d1, try_register_req d r h = Ret (Ok tt, d1, h) ∧
    (∀ k : nat, k < 12 → ∃ d2, ticks k d1 h = Ret (d2, h) ∧
       try_register_req d2 r h = Ret (Err tt, d2, h)) ∧
    ∃ d3, ticks 12 d1 h = Ret (d3, Heap.set (Req.id r) (reply r (view_of (data d))) h) ∧
      DramInv.ok d3 ∧ pending_req d3 = None ∧ bank d3 = Active 2 ∧
      (∀ a, view_of (data d3) a = view_apply r (view_of (data d)) a) ∧
      row_buffer_hit_cnt d3 = 3%nat ∧ row_buffer_miss_cnt d3 = 2%nat.
Proof.
  intros P d. cbn -[ticks try_register_req d].
  apply (dram_access d).
  - constructor; unfold DramInv.valid_timing, DramInv.valid_row; cbn; [lia..|done].
  - reflexivity.
  - split; cbn; lia.
  - exact I.
  - split; cbn; lia.
Defined.
