(* ===== verification/ReplacementPolicy.v ===== *)
(** Replacement policies of a cache set:
    [simulator/src/hardware/mem/general_cache/replacement_policy.rs]. *)
From S2P Require Import Prelude Word.
From stdpp Require Import base numbers sets list.
From Stdlib Require Import Lia.

(** * The trait *)

(** An eviction may draw from the thread-local generator, which every set of every cache
    shares: [rp_evict] takes the history of the draws and returns it with its own added. *)
Class ReplacementPolicy (RP : Type) := {
  rp_new : nat → exec RP;
  rp_insert : RP → nat → exec RP;
  rp_invalidate : RP → nat → exec RP;
  rp_promote : RP → nat → exec RP;
  rp_evict : RP → list nat → exec (bool * nat * RP * list nat);
}.

(** [for i in 0..self.valid.len() { if !self.valid[i] { return (false, i) } }] *)
Definition first_invalid (valid : list bool) : option nat :=
  fst <$> list_find (λ b, b = false) valid.

(** * Random *)

Module Random.
Section random.
(** [rand::rng()] hands out the generator of the thread: the field [rng] of every set is a
  handle to the same one, so a set keeps no generator of its own.  The [rand] crate is not
  part of the sources: after the draws [g], [random_range g n] is what
  [rng.random_range(0..n)] answers. *)
Context (random_range : list nat → nat → nat).

Record RandomRP := { valid : list bool }.

Definition new (n : nat) : exec RandomRP := mret {| valid := replicate n false |}.
Definition insert (s : RandomRP) (i : nat) : exec RandomRP :=
  v ← set_index (valid s) i true; mret {| valid := v |}.
Definition invalidate (s : RandomRP) (i : nat) : exec RandomRP :=
  v ← set_index (valid s) i false; mret {| valid := v |}.
Definition promote (s : RandomRP) (i : nat) : exec RandomRP := mret s.
Definition evict (s : RandomRP) (g : list nat) : exec (bool * nat * RandomRP * list nat) :=
  match first_invalid (valid s) with
  | Some i => mret (false, i, s, g)
  | None =>
      let evict_way := random_range g (length (valid s)) in
      let g := length (valid s) :: g in
      v ← set_index (valid s) evict_way false;
      mret (true, evict_way, {| valid := v |}, g)
  end.
End random.
End Random.

(** * FIFO *)

Module Fifo.
(** the head of [queue] is the front of the deque *)
Record FifoRP := { valid : list bool; queue : list nat }.

Definition new (n : nat) : exec FifoRP := mret {| valid := replicate n false; queue := [] |}.
Definition insert (s : FifoRP) (i : nat) : exec FifoRP :=
  v ← set_index (valid s) i true; mret {| valid := v; queue := i :: queue s |}.
Definition invalidate (s : FifoRP) (i : nat) : exec FifoRP :=
  v ← set_index (valid s) i false;
  mret {| valid := v; queue := filter (λ x, x ≠ i) (queue s) |}.
Definition promote (s : FifoRP) (i : nat) : exec FifoRP := mret s.

Definition pop_back (q : list nat) : option (nat * list nat) :=
  match reverse q with x :: q => Some (x, reverse q) | [] => None end.

Definition evict (s : FifoRP) : exec (bool * nat * FifoRP) :=
  match first_invalid (valid s) with
  | Some i => mret (false, i, s)
  | None =>
      '(evict_way_index, q) ← unwrap (pop_back (queue s));
      v ← set_index (valid s) evict_way_index false;
      mret (true, evict_way_index, {| valid := v; queue := q |})
  end.
End Fifo.

(** * Tree pseudo-LRU *)

Module PseudoLru.
Record PseudoLruRP := { num_ways : nat; valid : list bool; tree : list bool }.

Definition leaf_index (s : PseudoLruRP) (way : nat) : nat := way + (num_ways s - 1).

Definition new (num_associativity : nat) : exec PseudoLruRP :=
  _ ← assert_ (is_power_of_two (Z.of_nat num_associativity));
  mret {| num_ways := num_associativity; valid := replicate num_associativity false;
          tree := replicate (num_associativity - 1) false |}.

(** [while node > 0]: leaf to root; [node] itself is fuel enough *)
Fixpoint promote_walk (fuel node : nat) (t : list bool) : exec (list bool) :=
  match fuel with
  | O => mret t
  | S fuel =>
      if (0 <? node)%nat then
        let parent := (node - 1) / 2 in
        let is_left_child := (node =? 2 * parent + 1)%nat in
        t ← set_index t parent (negb is_left_child);
        promote_walk fuel parent t
      else mret t
  end.

Definition promote (s : PseudoLruRP) (accessed : nat) : exec PseudoLruRP :=
  if (num_ways s =? 1)%nat then mret s
  else
    let node := leaf_index s accessed in
    t ← promote_walk node node (tree s);
    mret {| num_ways := num_ways s; valid := valid s; tree := t |}.

Definition insert (s : PseudoLruRP) (i : nat) : exec PseudoLruRP :=
  v ← set_index (valid s) i true;
  promote {| num_ways := num_ways s; valid := v; tree := tree s |} i.

Definition invalidate (s : PseudoLruRP) (i : nat) : exec PseudoLruRP :=
  v ← set_index (valid s) i false;
  mret {| num_ways := num_ways s; valid := v; tree := tree s |}.

(** [while node < num_ways - 1]: root to leaf; the node grows, so [num_ways] is fuel enough *)
Fixpoint evict_walk (fuel node n : nat) (t : list bool) : exec nat :=
  match fuel with
  | O => mret node
  | S fuel =>
      if (node <? n - 1)%nat then
        index t node ≫= λ b : bool,
        evict_walk fuel (if b then 2 * node + 1 else 2 * node + 2) n t
      else mret node
  end.

Definition evict (s : PseudoLruRP) : exec (bool * nat * PseudoLruRP) :=
  match first_invalid (take (num_ways s) (valid s)) with
  | Some i => mret (false, i, s)
  | None =>
      node ← evict_walk (num_ways s) 0 (num_ways s) (tree s);
      let way := node - (num_ways s - 1) in
      v ← set_index (valid s) way false;
      mret (true, way, {| num_ways := num_ways s; valid := v; tree := tree s |})
  end.
End PseudoLru.

(** an eviction that draws nothing *)
Definition drawless {RP} (evict : RP → exec (bool * nat * RP)) (s : RP) (g : list nat)
    : exec (bool * nat * RP * list nat) :=
  '(full, evict_way, s) ← evict s; mret (full, evict_way, s, g).

#[export] Instance FifoRP_ReplacementPolicy : ReplacementPolicy Fifo.FifoRP := {
  rp_new := Fifo.new; rp_insert := Fifo.insert; rp_invalidate := Fifo.invalidate;
  rp_promote := Fifo.promote; rp_evict := drawless Fifo.evict }.
#[export] Instance PseudoLruRP_ReplacementPolicy : ReplacementPolicy PseudoLru.PseudoLruRP := {
  rp_new := PseudoLru.new; rp_insert := PseudoLru.insert; rp_invalidate := PseudoLru.invalidate;
  rp_promote := PseudoLru.promote; rp_evict := drawless PseudoLru.evict }.
Definition RandomRP_ReplacementPolicy (random_range : list nat → nat → nat) :
    ReplacementPolicy Random.RandomRP := {|
  rp_new := Random.new; rp_insert := Random.insert; rp_invalidate := Random.invalidate;
  rp_promote := Random.promote; rp_evict := Random.evict random_range |}.

(** * What a cache set relies on

    [rp_valid] is the policy's own record of the ways in use: a way is inserted only when
    it is free, and an eviction frees the way it returns. *)
Class ReplacementLaws (RP : Type) `{ReplacementPolicy RP} := {
  rp_valid : RP → list bool;
  rp_ok : RP → Prop;
  rp_ways : nat → Prop;
  rp_new_law n : rp_ways n → ∃ s, rp_new n = Ret s ∧ rp_ok s ∧ rp_valid s = replicate n false;
  rp_insert_law s i : rp_ok s → rp_valid s !! i = Some false →
    ∃ s', rp_insert s i = Ret s' ∧ rp_ok s' ∧ rp_valid s' = <[i:=true]> (rp_valid s);
  rp_promote_law s i : rp_ok s → i < length (rp_valid s) →
    ∃ s', rp_promote s i = Ret s' ∧ rp_ok s' ∧ rp_valid s' = rp_valid s;
  rp_evict_law s g : rp_ok s →
    ∃ full w s' g', rp_evict s g = Ret (full, w, s', g') ∧ rp_ok s' ∧
      rp_valid s !! w = Some full ∧ rp_valid s' = <[w:=false]> (rp_valid s);
}.

(** * Facts *)

Section facts.
Lemma first_invalid_Some v i : first_invalid v = Some i → v !! i = Some false.
Proof.
  unfold first_invalid. intros E. apply fmap_Some in E as ([j b] & E & ->).
  apply list_find_Some in E as (E & -> & _). done.
Qed.
Lemma first_invalid_None v : first_invalid v = None → ∀ i b, v !! i = Some b → b = true.
Proof.
  unfold first_invalid. intros E i b Hi. apply fmap_None, list_find_None in E.
  rewrite Forall_lookup in E. destruct b; [done|]. by destruct (E i false Hi).
Qed.
Lemma insert_false_id (v : list bool) i : v !! i = Some false → <[i:=false]> v = v.
Proof. apply list_insert_id. Qed.
End facts.

Section random_laws.
Context (random_range : list nat → nat → nat).
(** [random_range(0..n)] returns a number of the range *)
Context (random_range_bound : ∀ g n, 0 < n → random_range g n < n).
#[local] Instance random_rp : ReplacementPolicy Random.RandomRP :=
  RandomRP_ReplacementPolicy random_range.

#[local] Program Instance Random_laws : ReplacementLaws Random.RandomRP := {|
  rp_valid := Random.valid;
  rp_ok (s : Random.RandomRP) := 0 < length (Random.valid s);
  rp_ways (n : nat) := 0 < n;
|}.
Next Obligation.
  intros n Hn. eexists. split; [reflexivity|]. cbn. by rewrite length_replicate.
Qed.
Next Obligation.
  intros s i Hok Hi. cbn. unfold Random.insert.
  rewrite set_index_Ret by (by eapply lookup_lt_Some). cbn. eexists. split; [reflexivity|].
  cbn. by rewrite length_insert.
Qed.
Next Obligation. intros s i Hok Hi. by exists s. Qed.
Next Obligation.
  intros s g Hok. cbn. unfold Random.evict. destruct (first_invalid _) as [i|] eqn:E.
  - apply first_invalid_Some in E. eexists _, _, _, _. split; [reflexivity|].
    by rewrite insert_false_id.
  - pose proof (random_range_bound g _ Hok) as Hb. set (w := random_range g _) in *.
    rewrite set_index_Ret by done. cbn. eexists _, _, _, _. split; [reflexivity|].
    cbn. rewrite length_insert. split_and!; [done| |done].
    destruct (lookup_lt_is_Some_2 _ _ Hb) as [b Hwb]. rewrite Hwb.
    by rewrite (first_invalid_None _ E w b Hwb).
Qed.
End random_laws.

(** ** FIFO *)

Section fifo_facts.
Import Fifo.

Definition fifo_ok (s : FifoRP) : Prop :=
  0 < length (valid s) ∧ NoDup (queue s) ∧ ∀ i, i ∈ queue s ↔ valid s !! i = Some true.

(** the ways in use, oldest insertion first *)
Definition insertion_order (s : FifoRP) : list nat := reverse (queue s).

Lemma pop_back_order q : pop_back q =
  match reverse q with x :: q => Some (x, reverse q) | [] => None end.
Proof. done. Qed.

Lemma all_valid s : first_invalid (valid s) = None →
  ∀ i, i < length (valid s) → valid s !! i = Some true.
Proof.
  intros E i Hi. destruct (lookup_lt_is_Some_2 _ _ Hi) as [b Hb]. rewrite Hb.
  by rewrite (first_invalid_None _ E i b Hb).
Qed.

Lemma fifo_evict_full s : fifo_ok s → first_invalid (valid s) = None →
  ∃ w q, insertion_order s = w :: q ∧ valid s !! w = Some true ∧
    evict s = Ret (true, w, {| valid := <[w:=false]> (valid s); queue := reverse q |}) ∧
    fifo_ok {| valid := <[w:=false]> (valid s); queue := reverse q |}.
Proof.
  intros (Hl & Hnd & Hq) E. unfold insertion_order, evict. rewrite E. unfold pop_back.
  destruct (reverse (queue s)) as [|w q] eqn:Er.
  { exfalso. assert (0 ∈ queue s) as H0 by (by apply Hq, all_valid).
    apply elem_of_reverse in H0. rewrite Er in H0. by apply elem_of_nil in H0. }
  assert (queue s = reverse q ++ [w]) as Es.
  { rewrite <- (reverse_involutive (queue s)), Er, reverse_cons. done. }
  assert (valid s !! w = Some true) as Hw by (apply Hq; rewrite Es; set_solver).
  exists w, q. split_and!; [done | done | |].
  - cbn. rewrite set_index_Ret by (by eapply lookup_lt_Some). done.
  - rewrite Es in Hnd. apply NoDup_app in Hnd as (Hnd & Hd & _). split_and!; cbn.
    + by rewrite length_insert.
    + done.
    + intros i. destruct (decide (i = w)) as [->|Hne].
      * rewrite list_lookup_insert_eq by (by eapply lookup_lt_Some). split; [|done].
        intros Hi. exfalso. apply (Hd w Hi). set_solver.
      * rewrite list_lookup_insert_ne by done. rewrite <- Hq, Es. set_solver.
Qed.

Lemma fifo_insert s i : fifo_ok s → valid s !! i = Some false →
  insert s i = Ret {| valid := <[i:=true]> (valid s); queue := i :: queue s |} ∧
  fifo_ok {| valid := <[i:=true]> (valid s); queue := i :: queue s |}.
Proof.
  intros (Hl & Hnd & Hq) Hi. unfold insert.
  rewrite set_index_Ret by (by eapply lookup_lt_Some). split; [done|]. split_and!; cbn.
  - by rewrite length_insert.
  - constructor; [|done]. rewrite Hq, Hi. done.
  - intros j. rewrite elem_of_cons, Hq. destruct (decide (j = i)) as [->|Hne].
    + rewrite list_lookup_insert_eq by (by eapply lookup_lt_Some). naive_solver.
    + rewrite list_lookup_insert_ne by done. naive_solver.
Qed.
End fifo_facts.

#[export] Program Instance Fifo_laws : ReplacementLaws Fifo.FifoRP := {|
  rp_valid := Fifo.valid;
  rp_ok := fifo_ok;
  rp_ways (n : nat) := 0 < n;
|}.
Next Obligation.
  intros n Hn. eexists. split; [reflexivity|]. split; [|done]. split_and!; cbn.
  - by rewrite length_replicate.
  - constructor.
  - intros i. split; [by intros ?%elem_of_nil|]. intros [[=] _]%lookup_replicate.
Qed.
Next Obligation. intros s i Hok Hi. destruct (fifo_insert s i Hok Hi). by eexists. Qed.
Next Obligation. intros s i Hok Hi. by exists s. Qed.
Next Obligation.
  intros s g Hok. cbn. unfold drawless. destruct (first_invalid (Fifo.valid s)) as [i|] eqn:E.
  - unfold Fifo.evict. rewrite E. apply first_invalid_Some in E. eexists _, _, _, _.
    split; [reflexivity|]. by rewrite insert_false_id.
  - destruct (fifo_evict_full s Hok E) as (w & q & _ & Hw & -> & Hok'). by eexists _, _, _, _.
Qed.

(** C31: FIFO order: once every way of a set is in use, an eviction returns the way whose
    insertion is the oldest, and refilling that way makes it the youngest, so the ways are
    evicted round-robin in insertion order, whatever accesses promote in between. *)
Theorem fifo_evicts_oldest (s : Fifo.FifoRP) (i : nat) :
  fifo_ok s → (∀ j, j < length (Fifo.valid s) → Fifo.valid s !! j = Some true) →
  ∃ w rest s1 s2, insertion_order s = w :: rest ∧ Fifo.promote s i = Ret s ∧
    Fifo.evict s = Ret (true, w, s1) ∧ Fifo.insert s1 w = Ret s2 ∧
    fifo_ok s2 ∧ insertion_order s2 = rest ++ [w] ∧ Fifo.valid s2 = Fifo.valid s.
Proof.
  intros Hok Hall. destruct (first_invalid (Fifo.valid s)) as [j|] eqn:E.
  { apply first_invalid_Some in E. pose proof (lookup_lt_Some _ _ _ E) as Hj.
    rewrite (Hall j Hj) in E. done. }
  destruct (fifo_evict_full s Hok E) as (w & q & Hord & Hw & Hev & Hok1).
  destruct (fifo_insert _ w Hok1) as [Hins Hok2].
  { cbn. apply list_lookup_insert_eq. by eapply lookup_lt_Some. }
  eexists w, q, _, _. split_and!; [done | done | exact Hev | exact Hins | exact Hok2 | |].
  - unfold insertion_order. cbn [Fifo.queue]. by rewrite reverse_cons, reverse_involutive.
  - cbn. rewrite list_insert_insert_eq. by apply list_insert_id.
Qed.

Lemma fifo_evicts_oldest_witness :
  let s := {| Fifo.valid := [true; true; true]; Fifo.queue := [1; 0; 2] |} in
  ∃ w rest s1 s2, insertion_order s = w :: rest ∧ Fifo.promote s 2 = Ret s ∧
    Fifo.evict s = Ret (true, w, s1) ∧ Fifo.insert s1 w = Ret s2 ∧
    fifo_ok s2 ∧ insertion_order s2 = rest ++ [w] ∧ Fifo.valid s2 = Fifo.valid s.
Proof.
  intros s. apply (fifo_evicts_oldest s 2).
  - split_and!; [cbn; lia | apply (bool_decide_unpack _); vm_compute; exact I |].
    intros [|[|[|i]]]; cbn; split; intros; set_solver || (repeat constructor) || done.
  - intros [|[|[|i]]] Hj; cbn in *; [done | done | done | lia].
Defined.

(** ** Pseudo-LRU *)

(** [under c node]: the heap node [node] lies in the subtree of [c]. *)
Inductive under (c : nat) : nat → Prop :=
  | under_refl : under c c
  | under_left n : under c n → under c (2 * n + 1)
  | under_right n : under c n → under c (2 * n + 2).

Section plru_facts.
Import PseudoLru.

Definition plru_ok (s : PseudoLruRP) : Prop :=
  0 < num_ways s ∧ length (valid s) = num_ways s ∧ length (tree s) = num_ways s - 1.

Lemma parent_lt node : 0 < node → (node - 1) / 2 < node.
Proof. intros. apply Nat.Div0.div_lt_upper_bound. lia. Qed.

Lemma parent_cases node : 0 < node →
  node = 2 * ((node - 1) / 2) + 1 ∨ node = 2 * ((node - 1) / 2) + 2.
Proof.
  intros. pose proof (Nat.div_mod_eq (node - 1) 2). pose proof (Nat.mod_upper_bound (node - 1) 2).
  lia.
Qed.

Lemma under_parent c node : under c node → c < node → under c ((node - 1) / 2).
Proof.
  intros Hu Hlt. inversion Hu as [|n Hn|n Hn]; subst; [lia| |].
  - replace (2 * n + 1 - 1) with (n * 2) by lia. by rewrite Nat.div_mul.
  - replace (2 * n + 2 - 1) with (1 + n * 2) by lia. by rewrite Nat.div_add.
Qed.

Lemma under_ge c node : under c node → c ≤ node.
Proof. induction 1; lia. Qed.

(** every node but the root is under exactly one child of the root *)
Lemma under_exists node : 0 < node → under 1 node ∨ under 2 node.
Proof.
  induction node as [node IH] using lt_wf_ind. intros Hpos.
  destruct (decide (node ≤ 2)).
  { assert (node = 1 ∨ node = 2) as [->| ->] by lia; [left|right]; constructor. }
  destruct (IH ((node - 1) / 2)) as [Hu|Hu]; [by apply parent_lt | | |].
  - apply Nat.div_str_pos. lia.
  - left. destruct (parent_cases node Hpos) as [->| ->]; [by apply under_left | by apply under_right].
  - right. destruct (parent_cases node Hpos) as [->| ->]; [by apply under_left | by apply under_right].
Qed.

Lemma under_unique node : under 1 node → under 2 node → False.
Proof.
  induction node as [node IH] using lt_wf_ind. intros H1 H2.
  apply under_ge in H2 as Hge. destruct (decide (node = 2)) as [->|].
  - apply under_parent in H1; [|lia]. apply under_ge in H1. cbn in H1. lia.
  - apply (IH ((node - 1) / 2)); [apply parent_lt; lia | apply under_parent; [done|lia]..].
Qed.

(** promotion updates the path to the root, the root's bit last *)
Lemma promote_walk_spec fuel node t :
  node ≤ fuel → node ≤ 2 * length t →
  ∃ t', promote_walk fuel node t = Ret t' ∧ length t' = length t ∧
    ∀ c, under c node → 0 < c ≤ 2 → t' !! 0 = Some (c =? 2).
Proof.
  revert node t. induction fuel as [|fuel IH]; intros node t Hf Ht.
  { assert (node = 0) as -> by lia. exists t. split_and!; [done..|].
    intros c Hc%under_ge. lia. }
  cbn [promote_walk]. destruct (Nat.ltb_spec 0 node) as [Hpos|Hz].
  2:{ exists t. split_and!; [done..|]. intros c Hc%under_ge. lia. }
  pose proof (parent_lt node Hpos) as Hlt. pose proof (parent_cases node Hpos) as Hpar.
  set (p := (node - 1) / 2) in *.
  rewrite set_index_Ret, bind_Ret by lia. destruct (decide (node ≤ 2)) as [Hsmall|Hbig].
  - assert (p = 0) as Hp by (destruct (decide (node = 1)); lia). rewrite Hp.
    exists (<[0:=negb (node =? 2 * 0 + 1)]> t). split_and!.
    + by destruct fuel.
    + by rewrite length_insert.
    + intros c Hc Hc2. apply under_ge in Hc as Hge.
      rewrite list_lookup_insert_eq by lia. f_equal.
      assert (node = c) as ->; [|by assert (c = 1 ∨ c = 2) as [->| ->] by lia].
      destruct (decide (node = c)); [done|]. apply under_parent in Hc; [|lia].
      apply under_ge in Hc. subst p. lia.
  - destruct (IH p (<[p:=negb (node =? 2 * p + 1)]> t)) as (t' & -> & Hl & Hroot);
      [lia | rewrite length_insert; lia |].
    exists t'. split_and!; [done | by rewrite Hl, length_insert |].
    intros c Hc Hc2. apply Hroot; [apply under_parent; [done|lia] | done].
Qed.

Lemma evict_walk_spec fuel node n t :
  n - 1 ≤ node + fuel → node < 2 * n - 1 → length t = n - 1 →
  ∃ leaf, evict_walk fuel node n t = Ret leaf ∧ n - 1 ≤ leaf < 2 * n - 1 ∧
    ∀ c, under c node → under c leaf.
Proof.
  revert node. induction fuel as [|fuel IH]; intros node Hf Hn Ht; cbn [evict_walk].
  { exists node. split_and!; [done | lia | lia | done]. }
  destruct (Nat.ltb_spec node (n - 1)); [|exists node; split_and!; [done | lia | lia | done]].
  destruct (lookup_lt_is_Some_2 t node) as [b Hb]; [lia|].
  rewrite (index_Ret _ _ _ Hb), bind_Ret.
  destruct (IH (if b then 2 * node + 1 else 2 * node + 2)) as (leaf & -> & Hl & Hu);
    [destruct b; lia..|].
  exists leaf. split_and!; [done | lia | lia |]. intros c Hc. apply Hu.
  destruct b; by constructor.
Qed.

Lemma promote_spec s w : plru_ok s → w < num_ways s →
  ∃ s', promote s w = Ret s' ∧ plru_ok s' ∧ valid s' = valid s ∧ num_ways s' = num_ways s ∧
    ∀ c, 0 < c ≤ 2 → 1 < num_ways s → under c (w + (num_ways s - 1)) →
      tree s' !! 0 = Some (c =? 2).
Proof.
  intros (Hpos & Hv & Ht) Hw. unfold promote, leaf_index. destruct (Nat.eqb_spec (num_ways s) 1).
  { exists s. split_and!; [done..|]. lia. }
  destruct (promote_walk_spec (w + (num_ways s - 1)) (w + (num_ways s - 1)) (tree s))
    as (t' & -> & Hl & Hroot); [lia..|].
  eexists. split; [reflexivity|]. split_and!; cbn; try done; [split_and!; cbn; lia|].
  intros c Hc _ Hu. by apply Hroot.
Qed.

Lemma insert_spec s w : plru_ok s → w < num_ways s →
  ∃ s', insert s w = Ret s' ∧ plru_ok s' ∧ valid s' = <[w:=true]> (valid s) ∧
    num_ways s' = num_ways s ∧
    ∀ c, 0 < c ≤ 2 → 1 < num_ways s → under c (w + (num_ways s - 1)) →
      tree s' !! 0 = Some (c =? 2).
Proof.
  intros (Hpos & Hv & Ht) Hw. unfold insert. rewrite set_index_Ret by lia. rewrite bind_Ret.
  destruct (promote_spec {| num_ways := num_ways s; valid := <[w:=true]> (valid s);
    tree := tree s |} w) as (s' & E & ?); [split_and!; cbn; rewrite ?length_insert; lia | done |].
  exists s'. by split.
Qed.

Lemma evict_full s : plru_ok s → first_invalid (valid s) = None →
  ∃ w s', evict s = Ret (true, w, s') ∧ plru_ok s' ∧ w < num_ways s ∧
    valid s' = <[w:=false]> (valid s) ∧
    ∀ b : bool, 1 < num_ways s → tree s !! 0 = Some b →
      under (if b then 1 else 2) (w + (num_ways s - 1)).
Proof.
  intros (Hpos & Hv & Ht) E. unfold evict. rewrite take_ge, E by lia.
  destruct (decide (num_ways s = 1)) as [H1|H1].
  - rewrite H1. cbn. destruct (index (tree s) 0); cbn; rewrite set_index_Ret by lia; cbn;
      eexists _, _; (split; [reflexivity|]); split_and!; try done; try lia;
      split_and!; cbn; rewrite ?length_insert; lia.
  - destruct (num_ways s) as [|n] eqn:En; [lia|]. cbn [evict_walk].
    destruct (Nat.ltb_spec 0 (S n - 1)); [|lia].
    destruct (lookup_lt_is_Some_2 (tree s) 0) as [b Hb]; [lia|].
    rewrite (index_Ret _ _ _ Hb), bind_Ret.
    destruct (evict_walk_spec n (if b then 2 * 0 + 1 else 2 * 0 + 2) (S n) (tree s))
      as (leaf & -> & Hl & Hu); [destruct b; lia..|].
    rewrite bind_Ret, set_index_Ret, bind_Ret by lia. eexists _, _. split; [reflexivity|].
    split_and!; [split_and!; cbn; rewrite ?length_insert; lia | lia | done |].
    intros b' _ Hb'. rewrite Hb in Hb'. injection Hb' as <-. replace (leaf - (S n - 1) + (S n - 1)) with leaf by lia.
    apply Hu. destruct b; constructor.
Qed.
End plru_facts.

#[export] Program Instance PseudoLru_laws : ReplacementLaws PseudoLru.PseudoLruRP := {|
  rp_valid := PseudoLru.valid;
  rp_ok := plru_ok;
  rp_ways (n : nat) := is_power_of_two (Z.of_nat n) = true;
|}.
Next Obligation.
  intros n Hn. cbn. unfold PseudoLru.new. rewrite Hn. eexists. split; [reflexivity|].
  apply is_power_of_two_spec in Hn as (k & Hk & Hn). pose proof (Z.pow_pos_nonneg 2 k).
  split; [split_and!; cbn; rewrite ?length_replicate; lia | done].
Qed.
Next Obligation.
  intros s i Hok Hi. destruct (insert_spec s i Hok) as (s' & ? & ? & ? & _); [|by exists s'].
  destruct Hok as (_ & <- & _). by eapply lookup_lt_Some.
Qed.
Next Obligation.
  intros s i Hok Hi. destruct (promote_spec s i Hok) as (s' & ? & ? & ? & _); [|by exists s'].
  destruct Hok as (_ & <- & _). done.
Qed.
Next Obligation.
  intros s g Hok. cbn. unfold drawless.
  destruct (first_invalid (PseudoLru.valid s)) as [i|] eqn:E.
  - unfold PseudoLru.evict. pose proof Hok as (Hpos & Hl & Ht).
    rewrite take_ge, E by lia. apply first_invalid_Some in E. eexists _, _, _, _.
    split; [reflexivity|]. by rewrite insert_false_id.
  - destruct (evict_full s Hok E) as (w & s' & -> & Hok' & Hw & Hv & _). eexists _, _, _, _.
    split_and!; [reflexivity | done | | done]. destruct Hok as (_ & Hl & _).
    destruct (lookup_lt_is_Some_2 (PseudoLru.valid s) w) as [b Hb]; [lia|].
    by rewrite Hb, (first_invalid_None _ E w b Hb).
Qed.

(** C30: Pseudo-LRU never evicts the most recently used way: in a full set of at least two
    ways the tree walk terminates on a way in range which is neither the one just promoted
    nor, when the last access filled a free way, the one just inserted. *)
Theorem plru_keeps_most_recent (s : PseudoLru.PseudoLruRP) (w : nat) (fill : bool) :
  plru_ok s → 1 < PseudoLru.num_ways s → w < PseudoLru.num_ways s →
  (∀ j, j < PseudoLru.num_ways s → PseudoLru.valid s !! j = Some (negb (fill && (j =? w)))) →
  ∃ touched w' s', (if fill then PseudoLru.insert s w else PseudoLru.promote s w) = Ret touched ∧
    PseudoLru.evict touched = Ret (true, w', s') ∧ plru_ok s' ∧
    w' < PseudoLru.num_ways s ∧ w' ≠ w.
Proof.
  intros Hok H1 Hw Hall. pose proof Hok as (_ & Hl & _).
  assert (∃ c, 0 < c ≤ 2 ∧ under c (w + (PseudoLru.num_ways s - 1))) as (c & Hc & Hu).
  { destruct (under_exists (w + (PseudoLru.num_ways s - 1))) as [Hu|Hu]; [lia| |];
      (eexists; split; [|exact Hu]; lia). }
  assert (∃ t, (if fill then PseudoLru.insert s w else PseudoLru.promote s w) = Ret t ∧ plru_ok t ∧
    PseudoLru.num_ways t = PseudoLru.num_ways s ∧ PseudoLru.tree t !! 0 = Some (c =? 2) ∧
    ∀ j, j < PseudoLru.num_ways s → PseudoLru.valid t !! j = Some true) as (t & Et & Hokt & Hn & Hroot & Hv).
  { destruct fill.
    - destruct (insert_spec s w Hok Hw) as (t & Et & Hokt & Hv & Hn & Hr). exists t.
      split_and!; auto. intros j Hj. rewrite Hv. destruct (decide (j = w)) as [->|Hne].
      + apply list_lookup_insert_eq. lia.
      + rewrite list_lookup_insert_ne, Hall by done. by rewrite (proj2 (Nat.eqb_neq _ _)).
    - destruct (promote_spec s w Hok Hw) as (t & Et & Hokt & Hv & Hn & Hr). exists t.
      split_and!; auto. intros j Hj. by rewrite Hv, Hall. }
  destruct (first_invalid (PseudoLru.valid t)) as [j|] eqn:E.
  { apply first_invalid_Some in E. apply lookup_lt_Some in E as Hj.
    destruct Hokt as (_ & Hlt & _). rewrite Hv in E by lia. done. }
  destruct (evict_full t Hokt E) as (w' & s' & Ev & Hok' & Hw' & _ & Hd).
  exists t, w', s'. split_and!; [done..| lia |]. intros ->.
  specialize (Hd _ ltac:(lia) Hroot). rewrite Hn in Hd.
  assert (c = 1 ∨ c = 2) as [->| ->] by lia; cbn in Hd; by eapply under_unique.
Qed.

Lemma plru_keeps_most_recent_witness :
  let s := {| PseudoLru.num_ways := 4; PseudoLru.valid := [true; true; true; true];
              PseudoLru.tree := [true; false; true] |} in
  ∃ touched w' s', PseudoLru.promote s 2 = Ret touched ∧
    PseudoLru.evict touched = Ret (true, w', s') ∧ plru_ok s' ∧ w' < 4 ∧ w' ≠ 2.
Proof.
  intros s. apply (plru_keeps_most_recent s 2 false).
  - split_and!; cbn; lia.
  - cbn. lia.
  - cbn. lia.
  - intros [|[|[|[|j]]]] Hj; cbn in *; (done || lia).
Defined.
