(* ===== verification/CacheConfig.v ===== *)
(** Configuration of a cache: geometry, write policy, prefetcher and statistics
    ([config.rs], [write_policy.rs], [prefetcher.rs] and [statistic.rs] of
    [simulator/src/hardware/mem/general_cache/]). *)
From S2P Require Import Prelude Word.
From stdpp Require Import base numbers list strings.
From Stdlib Require Import Lia SpecFloat.
#[local] Open Scope Z_scope.

(** * Write policy *)

Inductive WritePolicy :=
  | WriteBackWriteAllocate
  | WriteBackNoWriteAllocate
  | WriteThroughWriteAllocate
  | WriteThroughNoWriteAllocate.

#[export] Instance WritePolicy_eq_dec : EqDecision WritePolicy.
Proof. solve_decision. Defined.

Module Policy.
Definition default : WritePolicy := WriteBackWriteAllocate.
Definition is_write_back (p : WritePolicy) : bool :=
  match p with WriteBackWriteAllocate | WriteBackNoWriteAllocate => true | _ => false end.
Definition is_write_through (p : WritePolicy) : bool := negb (is_write_back p).
Definition is_write_allocate (p : WritePolicy) : bool :=
  match p with WriteBackWriteAllocate | WriteThroughWriteAllocate => true | _ => false end.
Definition is_no_write_allocate (p : WritePolicy) : bool := negb (is_write_allocate p).
End Policy.

(** * Prefetcher *)

Inductive PrefetcherKind := Null | NextLine.

(** a built prefetcher: [Box<dyn Prefetcher>] *)
Inductive Prefetcher := NullPrefetcher | NextLinePrefetcher (block_size : Z).

Module Prefetch.
Definition default : PrefetcherKind := Null.
Definition build (k : PrefetcherKind) (block_size : Z) : Prefetcher :=
  match k with Null => NullPrefetcher | NextLine => NextLinePrefetcher block_size end.

Definition saturating_add (w a b : Z) : Z := Z.min (a + b) (2 ^ w - 1).

Definition predict `{Profile} (p : Prefetcher) (addr : Z) (is_hit is_store : bool)
    : exec (list Z) :=
  match p with
  | NullPrefetcher => mret []
  | NextLinePrefetcher size =>
      let block_size := as_u32 size in
      mask ← word_sub 32 block_size 1;
      let block_aligned := Z.land addr (word_not 32 mask) in
      mret [saturating_add 32 block_aligned block_size]
  end.
End Prefetch.

(** * Geometry *)

Record CacheGeometry := {
  block_size : Z;
  num_of_way : Z;
  num_sets : Z;
  offset_bit_width : Z;
  index_bit_width : Z;
}.

Inductive GeneralCacheConfigError :=
  | ZeroTotalSize
  | ZeroBlockSize
  | BlockSizeNotPowerOfTwo (block_size : Z)
  | ZeroAssociativity
  | SetCapacityOverflow (block_size num_of_way : Z)
  | TotalSizeNotSetMultiple (total_size block_size num_of_way : Z)
  | NumSetsNotPowerOfTwo (num_sets : Z).

Module Geometry.
Definition checked_mul (w a b : Z) : option Z := if a * b <? 2 ^ w then Some (a * b) else None.

Definition new (total_size block_size num_of_way : Z)
    : Result CacheGeometry GeneralCacheConfigError :=
  if total_size =? 0 then Err ZeroTotalSize
  else if block_size =? 0 then Err ZeroBlockSize
  else if negb (is_power_of_two block_size) then Err (BlockSizeNotPowerOfTwo block_size)
  else if num_of_way =? 0 then Err ZeroAssociativity
  else match checked_mul 64 block_size num_of_way with
  | None => Err (SetCapacityOverflow block_size num_of_way)
  | Some set_capacity =>
      if negb (total_size mod set_capacity =? 0) then
        Err (TotalSizeNotSetMultiple total_size block_size num_of_way)
      else
        let num_sets := total_size / set_capacity in
        if negb (is_power_of_two num_sets) then Err (NumSetsNotPowerOfTwo num_sets)
        else Ok {| block_size := block_size; num_of_way := num_of_way; num_sets := num_sets;
                   offset_bit_width := ilog2 block_size; index_bit_width := ilog2 num_sets |}
  end.
End Geometry.

(** * The configuration *)

Definition DEFAULT_MISS_PENALTY_CYCLES : nat := 5.

Record GeneralCacheConfig := {
  name : string;
  geometry : CacheGeometry;
  miss_penalty : nat;
  write_policy : WritePolicy;
  prefetcher_kind : PrefetcherKind;
}.

Module Config.
Definition new (name : string) (total_size block_size num_of_way : Z)
    : Result GeneralCacheConfig GeneralCacheConfigError :=
  let? g := Geometry.new total_size block_size num_of_way in
  Ok {| name := name; geometry := g; miss_penalty := DEFAULT_MISS_PENALTY_CYCLES;
        write_policy := Policy.default; prefetcher_kind := Prefetch.default |}.

Definition with_miss_penalty (cycles : nat) (c : GeneralCacheConfig) : GeneralCacheConfig :=
  {| name := name c; geometry := geometry c; miss_penalty := cycles;
     write_policy := write_policy c; prefetcher_kind := prefetcher_kind c |}.
Definition with_write_policy (wp : WritePolicy) (c : GeneralCacheConfig) : GeneralCacheConfig :=
  {| name := name c; geometry := geometry c; miss_penalty := miss_penalty c;
     write_policy := wp; prefetcher_kind := prefetcher_kind c |}.
Definition with_prefetcher_kind (k : PrefetcherKind) (c : GeneralCacheConfig)
    : GeneralCacheConfig :=
  {| name := name c; geometry := geometry c; miss_penalty := miss_penalty c;
     write_policy := write_policy c; prefetcher_kind := k |}.
End Config.

(** * Statistics *)

(** [f64] arithmetic, in the specification of IEEE 754 binary64 *)
Module F64.
Definition of_usize (n : nat) : spec_float := binary_normalize 53 1024 (Z.of_nat n) 0 false.
Definition zero : spec_float := S754_zero false.
Definition div (a b : spec_float) : spec_float := SFdiv 53 1024 a b.
Definition mul (a b : spec_float) : spec_float := SFmul 53 1024 a b.
End F64.

Record CacheStatistic := {
  stat_name : string;
  load_cnt : nat;
  store_cnt : nat;
  load_miss_cnt : nat;
  store_miss_cnt : nat;
  prefetch_issued_cnt : nat;
  load_miss_rate : spec_float;
  store_miss_rate : spec_float;
  overall_miss_rate : spec_float;
}.

Module CacheStat.
Definition new (name : string) : CacheStatistic := {|
  stat_name := name; load_cnt := 0; store_cnt := 0; load_miss_cnt := 0; store_miss_cnt := 0;
  prefetch_issued_cnt := 0; load_miss_rate := F64.zero; store_miss_rate := F64.zero;
  overall_miss_rate := F64.zero |}.

Definition load (is_miss : bool) (s : CacheStatistic) : CacheStatistic := {|
  stat_name := stat_name s; load_cnt := S (load_cnt s); store_cnt := store_cnt s;
  load_miss_cnt := if is_miss then S (load_miss_cnt s) else load_miss_cnt s;
  store_miss_cnt := store_miss_cnt s; prefetch_issued_cnt := prefetch_issued_cnt s;
  load_miss_rate := load_miss_rate s; store_miss_rate := store_miss_rate s;
  overall_miss_rate := overall_miss_rate s |}.

Definition store (is_miss : bool) (s : CacheStatistic) : CacheStatistic := {|
  stat_name := stat_name s; load_cnt := load_cnt s; store_cnt := S (store_cnt s);
  load_miss_cnt := load_miss_cnt s;
  store_miss_cnt := if is_miss then S (store_miss_cnt s) else store_miss_cnt s;
  prefetch_issued_cnt := prefetch_issued_cnt s;
  load_miss_rate := load_miss_rate s; store_miss_rate := store_miss_rate s;
  overall_miss_rate := overall_miss_rate s |}.

Definition prefetch_issued (s : CacheStatistic) : CacheStatistic := {|
  stat_name := stat_name s; load_cnt := load_cnt s; store_cnt := store_cnt s;
  load_miss_cnt := load_miss_cnt s; store_miss_cnt := store_miss_cnt s;
  prefetch_issued_cnt := S (prefetch_issued_cnt s);
  load_miss_rate := load_miss_rate s; store_miss_rate := store_miss_rate s;
  overall_miss_rate := overall_miss_rate s |}.

Definition safe_ratio (num den : nat) : spec_float :=
  if (den =? 0)%nat then F64.zero else F64.div (F64.of_usize num) (F64.of_usize den).

Definition finalize_rates (s : CacheStatistic) : CacheStatistic := {|
  stat_name := stat_name s; load_cnt := load_cnt s; store_cnt := store_cnt s;
  load_miss_cnt := load_miss_cnt s; store_miss_cnt := store_miss_cnt s;
  prefetch_issued_cnt := prefetch_issued_cnt s;
  load_miss_rate := safe_ratio (load_miss_cnt s) (load_cnt s);
  store_miss_rate := safe_ratio (store_miss_cnt s) (store_cnt s);
  overall_miss_rate :=
    safe_ratio (load_miss_cnt s + store_miss_cnt s) (load_cnt s + store_cnt s) |}.
End CacheStat.

(** * Facts *)

(** the geometries the constructor accepts *)
Definition geometry_ok (total bs ways : Z) : Prop :=
  0 < total ∧ 0 < ways ∧ bs * ways < 2 ^ 64 ∧
  ∃ o i, 0 ≤ o ∧ 0 ≤ i ∧ bs = 2 ^ o ∧ total = bs * ways * 2 ^ i.

Section facts.
Lemma power_of_two_ilog2 n : is_power_of_two n = true → n = 2 ^ ilog2 n ∧ 0 ≤ ilog2 n.
Proof.
  intros Hn. apply is_power_of_two_spec in Hn as (k & Hk & ->). by rewrite ilog2_pow2.
Qed.
Lemma power_of_two_pow k : 0 ≤ k → is_power_of_two (2 ^ k) = true.
Proof. intros. apply is_power_of_two_spec. by exists k. Qed.

Lemma geometry_new_inv total bs ways g :
  0 ≤ total → 0 ≤ bs → 0 ≤ ways → Geometry.new total bs ways = Ok g →
  block_size g = bs ∧ num_of_way g = ways ∧ 0 < total ∧ 0 < ways ∧ bs * ways < 2 ^ 64 ∧
  0 ≤ offset_bit_width g ∧ 0 ≤ index_bit_width g ∧ bs = 2 ^ offset_bit_width g ∧
  num_sets g = 2 ^ index_bit_width g ∧ total = bs * ways * num_sets g.
Proof.
  intros Ht Hb Hw. unfold Geometry.new, Geometry.checked_mul.
  destruct (Z.eqb_spec total 0); [done|]. destruct (Z.eqb_spec bs 0); [done|].
  destruct (is_power_of_two bs) eqn:Hp; [|done]. cbn [negb].
  destruct (Z.eqb_spec ways 0); [done|]. destruct (Z.ltb_spec (bs * ways) (2 ^ 64)); [|done].
  destruct (Z.eqb_spec (total mod (bs * ways)) 0) as [Hm|]; [|done]. cbn [negb].
  destruct (is_power_of_two (total / (bs * ways))) eqn:Hs; [|done].
  intros [= <-]. cbn. apply power_of_two_ilog2 in Hp as [Hp ?], Hs as [Hs ?].
  split_and!; try done; try lia. pose proof (Z.div_mod total (bs * ways)). nia.
Qed.
Lemma geometry_new_ok total bs ways g :
  0 ≤ total → 0 ≤ bs → 0 ≤ ways → Geometry.new total bs ways = Ok g → geometry_ok total bs ways.
Proof.
  intros ? ? ? Hg. apply geometry_new_inv in Hg as (_ & _ & ? & ? & ? & ? & ? & ? & Hs & ?); [|done..].
  split_and!; [done..|]. exists (offset_bit_width g), (index_bit_width g).
  rewrite <- Hs. split_and!; done.
Qed.

Lemma geometry_ok_new total bs ways : geometry_ok total bs ways → ∃ g, Geometry.new total bs ways = Ok g.
Proof.
  intros (? & ? & ? & o & i & Ho & Hi & -> & ->).
  assert (0 < 2 ^ o) by (apply Z.pow_pos_nonneg; lia).
  assert (0 < 2 ^ i) by (apply Z.pow_pos_nonneg; lia).
  unfold Geometry.new, Geometry.checked_mul.
  rewrite (proj2 (Z.eqb_neq _ _)) by lia. rewrite (proj2 (Z.eqb_neq (2 ^ o) 0)) by lia.
  rewrite power_of_two_pow by done. cbn [negb].
  rewrite (proj2 (Z.eqb_neq ways 0)), (proj2 (Z.ltb_lt _ _)) by lia.
  rewrite (Z.mul_comm (2 ^ o * ways)), Z.mod_mul, Z.div_mul by lia. cbn [Z.eqb negb].
  rewrite power_of_two_pow by done. eexists. reflexivity.
Qed.
End facts.

(** C20: The geometry check is exact: on machine-word arguments a configuration is accepted
    if and only if the sizes are positive, the block size is a power of two, the set
    capacity fits a word and the number of sets is a power of two that exactly fills the
    total size; the accepted geometry's index and offset widths are then the exponents. *)
Theorem geometry_new_exact (total bs ways : Z) :
  is_usize total → is_usize bs → is_usize ways →
  ((∃ g, Geometry.new total bs ways = Ok g) ↔ geometry_ok total bs ways) ∧
  ∀ g, Geometry.new total bs ways = Ok g →
    block_size g = bs ∧ num_of_way g = ways ∧ bs = 2 ^ offset_bit_width g ∧
    num_sets g = 2 ^ index_bit_width g ∧ total = bs * ways * num_sets g.
Proof.
  intros [? _] [? _] [? _]. split.
  - split; [intros [g Hg]; by eapply geometry_new_ok | apply geometry_ok_new].
  - intros g Hg. apply geometry_new_inv in Hg as (? & ? & _ & _ & _ & _ & _ & ? & ? & ?); done.
Qed.

Lemma geometry_new_exact_witness :
  ((∃ g, Geometry.new 4096 32 2 = Ok g) ↔ geometry_ok 4096 32 2) ∧
  ∀ g, Geometry.new 4096 32 2 = Ok g →
    block_size g = 32 ∧ num_of_way g = 2 ∧ 32 = 2 ^ offset_bit_width g ∧
    num_sets g = 2 ^ index_bit_width g ∧ 4096 = 32 * 2 * num_sets g.
Proof. apply (geometry_new_exact 4096 32 2); split; lia. Defined.
