(* ===== verification/CacheSet.v ===== *)
(** One set of a set-associative cache:
    [simulator/src/hardware/mem/general_cache/cache_set.rs]. *)
From S2P Require Import Prelude Word ReplacementPolicy.
From stdpp Require Import base numbers sets list.
From Stdlib Require Import Lia.

Record GeneralCacheSetUnit (RP : Type) := {
  num_associativity : nat;
  bytes_per_block : nat;
  data_array : list Z;
  tag_array : list Z;
  valid_array : list bool;
  dirty_array : list bool;
  rp : RP;
}.
Arguments num_associativity {RP}.
Arguments bytes_per_block {RP}.
Arguments data_array {RP}.
Arguments tag_array {RP}.
Arguments valid_array {RP}.
Arguments dirty_array {RP}.
Arguments rp {RP}.

Module CacheSet.
Section set.
Context {RP : Type} `{ReplacementPolicy RP}.

Definition new (num_associativity bytes_per_block : nat) : exec (GeneralCacheSetUnit RP) :=
  r ← rp_new num_associativity;
  mret {| num_associativity := num_associativity; bytes_per_block := bytes_per_block;
          data_array := replicate (num_associativity * bytes_per_block) 0%Z;
          tag_array := replicate num_associativity 0%Z;
          valid_array := replicate num_associativity false;
          dirty_array := replicate num_associativity false; rp := r |}.

Definition with_rp (r : RP) (s : GeneralCacheSetUnit RP) : GeneralCacheSetUnit RP :=
  {| num_associativity := num_associativity s; bytes_per_block := bytes_per_block s;
     data_array := data_array s; tag_array := tag_array s; valid_array := valid_array s;
     dirty_array := dirty_array s; rp := r |}.
Definition with_data (d : list Z) (s : GeneralCacheSetUnit RP) : GeneralCacheSetUnit RP :=
  {| num_associativity := num_associativity s; bytes_per_block := bytes_per_block s;
     data_array := d; tag_array := tag_array s; valid_array := valid_array s;
     dirty_array := dirty_array s; rp := rp s |}.
Definition with_dirty (d : list bool) (s : GeneralCacheSetUnit RP) : GeneralCacheSetUnit RP :=
  {| num_associativity := num_associativity s; bytes_per_block := bytes_per_block s;
     data_array := data_array s; tag_array := tag_array s; valid_array := valid_array s;
     dirty_array := d; rp := rp s |}.

(** the loop [for i in 0..self.num_associativity] *)
Fixpoint find_way (s : GeneralCacheSetUnit RP) (tag : Z) (ways : list nat)
    : exec (option nat) :=
  match ways with
  | [] => mret None
  | i :: ways =>
      index (valid_array s) i ≫= λ v : bool,
      hit ← (if v then t ← index (tag_array s) i; mret (t =? tag)%Z else mret false);
      if (hit : bool) then mret (Some i) else find_way s tag ways
  end.

(** [g]: the draws so far, which an eviction may add to *)
Definition tag_compare (s : GeneralCacheSetUnit RP) (tag : Z) (g : list nat)
    : exec (Result nat (bool * nat) * GeneralCacheSetUnit RP * list nat) :=
  found ← find_way s tag (seq 0 (num_associativity s));
  match found with
  | Some i => mret (Ok i, s, g)
  | None =>
      '(full, evict_way, r, g) ← rp_evict (rp s) g;
      let s := with_rp r s in
      dirty ← (if (full : bool) then index (dirty_array s) evict_way else mret false);
      if (dirty : bool) then mret (Err (true, evict_way), s, g)
      else mret (Err (false, evict_way), s, g)
  end.

Definition get_tag (s : GeneralCacheSetUnit RP) (way_index : nat) : exec Z :=
  index (tag_array s) way_index.

Definition promote (s : GeneralCacheSetUnit RP) (way_index : nat)
    : exec (GeneralCacheSetUnit RP) :=
  r ← rp_promote (rp s) way_index; mret (with_rp r s).

Definition check_valid (s : GeneralCacheSetUnit RP) (way_index : nat) : exec unit :=
  v ← index (valid_array s) way_index; assert_ v.

Definition read_block (s : GeneralCacheSetUnit RP) (way_index : nat)
    : exec (list Z * GeneralCacheSetUnit RP) :=
  _ ← check_valid s way_index;
  read_data ← slice (data_array s) (bytes_per_block s * way_index) (bytes_per_block s);
  s ← promote s way_index;
  mret (read_data, s).

Definition store_data (s : GeneralCacheSetUnit RP) (way_index : nat) (write_data : list Z)
    : exec (GeneralCacheSetUnit RP) :=
  d ← write_slice (data_array s) (bytes_per_block s * way_index) (bytes_per_block s) write_data;
  mret (with_data d s).

Definition write_block (s : GeneralCacheSetUnit RP) (way_index : nat) (write_data : list Z)
    : exec (GeneralCacheSetUnit RP) :=
  _ ← check_valid s way_index;
  s ← store_data s way_index write_data;
  d ← set_index (dirty_array s) way_index true;
  promote (with_dirty d s) way_index.

Definition write_block_clean (s : GeneralCacheSetUnit RP) (way_index : nat)
    (write_data : list Z) : exec (GeneralCacheSetUnit RP) :=
  _ ← check_valid s way_index;
  s ← store_data s way_index write_data;
  promote s way_index.

Definition insert_block (s : GeneralCacheSetUnit RP) (way_index : nat) (new_tag : Z)
    (new_data : list Z) : exec (GeneralCacheSetUnit RP) :=
  s ← store_data s way_index new_data;
  v ← set_index (valid_array s) way_index true;
  t ← set_index (tag_array s) way_index new_tag;
  d ← set_index (dirty_array s) way_index false;
  r ← rp_insert (rp s) way_index;
  mret {| num_associativity := num_associativity s; bytes_per_block := bytes_per_block s;
          data_array := data_array s; tag_array := t; valid_array := v; dirty_array := d;
          rp := r |}.
End set.
End CacheSet.

(** * Invariant and specifications of the operations *)

Section observations.
Context {RP : Type}.
Implicit Type s : GeneralCacheSetUnit RP.

(** way [w] holds the block of tag [t] *)
Definition hits s (t : Z) (w : nat) : Prop :=
  valid_array s !! w = Some true ∧ tag_array s !! w = Some t.
(** the bytes of way [w] *)
Definition way_bytes s (w : nat) : list Z :=
  take (bytes_per_block s) (drop (bytes_per_block s * w) (data_array s)).
Definition is_dirty s (w : nat) : Prop := dirty_array s !! w = Some true.
End observations.

Section invariant.
Context {RP : Type} `{ReplacementLaws RP}.
Implicit Type s : GeneralCacheSetUnit RP.

Definition tracked_way s (w : nat) : Prop := rp_valid (rp s) !! w = Some true.

Record set_ok (ways bs : nat) (tags : Z) s : Prop := {
  so_ways : num_associativity s = ways;
  so_bytes : bytes_per_block s = bs;
  so_data : length (data_array s) = ways * bs;
  so_tags : length (tag_array s) = ways;
  so_valids : length (valid_array s) = ways;
  so_dirties : length (dirty_array s) = ways;
  so_rp : rp_ok (rp s);
  so_rp_len : length (rp_valid (rp s)) = ways;
  so_unique : ∀ t w w', hits s t w → hits s t w' → w = w';
  so_range : ∀ t w, hits s t w → (0 ≤ t < tags)%Z;
  so_dirty_valid : ∀ w, is_dirty s w → valid_array s !! w = Some true;
}.

(** every dirty way, but the one being replaced, is one the policy knows *)
Definition tracked s (hole : option nat) : Prop :=
  ∀ w, is_dirty s w → hole = Some w ∨ tracked_way s w.

Context (ways bs : nat) (tags : Z).
Abbreviation ok := (set_ok ways bs tags).

Lemma hits_lt s t w : ok s → hits s t w → w < ways.
Proof. intros Hs [Hv _]. rewrite <- (so_valids _ _ _ _ Hs). by eapply lookup_lt_Some. Qed.

Lemma length_way_bytes s w : ok s → w < ways → length (way_bytes s w) = bs.
Proof.
  intros Hs Hw. unfold way_bytes. rewrite (so_bytes _ _ _ _ Hs). apply length_slice.
  rewrite (so_data _ _ _ _ Hs). nia.
Qed.

(** ** The search *)
Lemma find_way_spec s t l : ok s → (∀ w, w ∈ l → w < ways) →
  (∃ w, w ∈ l ∧ hits s t w ∧ CacheSet.find_way s t l = Ret (Some w)) ∨
  ((∀ w, w ∈ l → ¬ hits s t w) ∧ CacheSet.find_way s t l = Ret None).
Proof.
  intros Hs. induction l as [|i l IH]; intros Hl.
  { right. split; [|done]. intros w Hw. by apply elem_of_nil in Hw. }
  assert (i < ways) as Hi by (apply Hl; left).
  destruct (lookup_lt_is_Some_2 (valid_array s) i) as [v Hv]; [by rewrite (so_valids _ _ _ _ Hs)|].
  destruct (lookup_lt_is_Some_2 (tag_array s) i) as [t' Ht]; [by rewrite (so_tags _ _ _ _ Hs)|].
  cbn [CacheSet.find_way]. rewrite (index_Ret _ _ _ Hv), bind_Ret.
  destruct v; [rewrite (index_Ret _ _ _ Ht), bind_Ret|]; cbn [mret exec_ret];
    rewrite bind_Ret; [destruct (Z.eqb_spec t' t) as [->|Hne]|].
  { left. exists i. split_and!; [left | by split | done]. }
  all: destruct IH as [(w & Hw & Hh & E)|[Hn E]]; [intros w ?; apply Hl; by right| |];
    [left; exists w; split_and!; [by right | done | exact E]|right; split; [|exact E]];
    intros w [->|Hw]%elem_of_cons; [|by apply Hn]; intros [? ?]; congruence.
Qed.

Lemma with_rp_ok s r : ok s → rp_ok r → length (rp_valid r) = ways → ok (CacheSet.with_rp r s).
Proof. intros [] ? ?. by constructor. Qed.

(** the outcome of a tag comparison: a hit leaves the set alone; a miss names a way that
  the policy then holds free, and asks for a write-back exactly when it is dirty *)
Lemma tag_compare_spec s t g : ok s → tracked s None →
  (∃ w, hits s t w ∧ CacheSet.tag_compare s t g = Ret (Ok w, s, g)) ∨
  (∃ w need r g', (∀ w', ¬ hits s t w') ∧ w < ways ∧
     CacheSet.tag_compare s t g = Ret (Err (need, w), CacheSet.with_rp r s, g') ∧
     ok (CacheSet.with_rp r s) ∧ rp_valid r = <[w:=false]> (rp_valid (rp s)) ∧
     (need = true ↔ is_dirty s w)).
Proof.
  intros Hs Htr. unfold CacheSet.tag_compare. rewrite (so_ways _ _ _ _ Hs).
  destruct (find_way_spec s t (seq 0 ways) Hs) as [(w & _ & Hh & ->)|[Hn ->]].
  { intros w Hw%elem_of_seq. lia. }
  { left. by exists w. }
  right. rewrite bind_Ret.
  destruct (rp_evict_law (rp s) g (so_rp _ _ _ _ Hs)) as (full & w & r & g' & -> & Hr & Hw & Hv).
  assert (w < ways) as Hlt by (rewrite <- (so_rp_len _ _ _ _ Hs); by eapply lookup_lt_Some).
  destruct (lookup_lt_is_Some_2 (dirty_array s) w) as [d Hd]; [by rewrite (so_dirties _ _ _ _ Hs)|].
  rewrite bind_Ret.
  assert (∀ w', ¬ hits s t w') as Hmiss.
  { intros w' Hh. apply (Hn w'); [|done]. apply elem_of_seq. pose proof (hits_lt _ _ _ Hs Hh). lia. }
  assert (ok (CacheSet.with_rp r s)) as Hok'.
  { apply with_rp_ok; [done..|]. by rewrite Hv, length_insert, (so_rp_len _ _ _ _ Hs). }
  exists w, (full && d), r, g'. split_and!; try done.
  - destruct full; [cbn; rewrite (index_Ret _ _ _ Hd), bind_Ret; by destruct d | done].
  - unfold is_dirty. rewrite Hd. destruct full, d; cbn; try by split.
    split; [done|]. intros _. destruct (Htr w Hd) as [?|Ht]; [done|].
    unfold tracked_way in Ht. congruence.
Qed.

(** ** Blocks *)
Lemma promote_ok s w : ok s → w < ways →
  ∃ r, CacheSet.promote s w = Ret (CacheSet.with_rp r s) ∧ ok (CacheSet.with_rp r s) ∧
    rp_valid r = rp_valid (rp s).
Proof.
  intros Hs Hw. unfold CacheSet.promote.
  destruct (rp_promote_law (rp s) w (so_rp _ _ _ _ Hs)) as (r & -> & Hr & Hv).
  { by rewrite (so_rp_len _ _ _ _ Hs). }
  exists r. split_and!; [done | | done]. apply with_rp_ok; [done..|].
  by rewrite Hv, (so_rp_len _ _ _ _ Hs).
Qed.

Lemma read_block_spec s w : ok s → valid_array s !! w = Some true →
  ∃ r, CacheSet.read_block s w = Ret (way_bytes s w, CacheSet.with_rp r s) ∧
    ok (CacheSet.with_rp r s) ∧ rp_valid r = rp_valid (rp s).
Proof.
  intros Hs Hv. assert (w < ways) by (rewrite <- (so_valids _ _ _ _ Hs); by eapply lookup_lt_Some).
  unfold CacheSet.read_block, CacheSet.check_valid. rewrite (index_Ret _ _ _ Hv). cbn.
  rewrite slice_Ret by (rewrite (so_bytes _ _ _ _ Hs), (so_data _ _ _ _ Hs); nia). rewrite bind_Ret.
  destruct (promote_ok s w) as (r & -> & ? & ?); [done..|]. by exists r.
Qed.

(** the set with the bytes of one way replaced *)
Definition put_block s (w : nat) (d : list Z) : GeneralCacheSetUnit RP :=
  CacheSet.with_data
    (take (bytes_per_block s * w) (data_array s) ++ d ++
     drop (bytes_per_block s * w + bytes_per_block s) (data_array s)) s.

Lemma put_block_ok s w d : ok s → w < ways → length d = bs →
  CacheSet.store_data s w d = Ret (put_block s w d) ∧ ok (put_block s w d) ∧
  way_bytes (put_block s w d) w = d ∧
  ∀ w', w' ≠ w → w' < ways → way_bytes (put_block s w d) w' = way_bytes s w'.
Proof.
  intros Hs Hw Hd. assert (bs * w + bs ≤ ways * bs) as Hle by nia.
  unfold CacheSet.store_data, put_block, way_bytes. cbn. rewrite (so_bytes _ _ _ _ Hs).
  rewrite write_slice_Ret by (rewrite ?(so_data _ _ _ _ Hs); done). split_and!.
  - done.
  - destruct Hs. constructor; try done. cbn. rewrite length_write_slice by lia. done.
  - apply list_eq. intros k. destruct (decide (k < bs)).
    + rewrite lookup_slice by done.
      rewrite lookup_write_slice by (rewrite ?(so_data _ _ _ _ Hs); done).
      rewrite decide_True by lia. f_equal. lia.
    + rewrite !lookup_ge_None_2; [done | lia | rewrite length_take; lia].
  - intros w' Hne Hw'. apply list_eq. intros k. destruct (decide (k < bs)).
    + rewrite !lookup_slice by done.
      rewrite lookup_write_slice by (rewrite ?(so_data _ _ _ _ Hs); done).
      rewrite decide_False; [done|]. nia.
    + rewrite !lookup_ge_None_2; [done | rewrite length_take; lia..].
Qed.

Lemma dirty_put_ok s w : ok s → w < ways → valid_array s !! w = Some true →
  set_index (dirty_array s) w true = Ret (<[w:=true]> (dirty_array s)) ∧
  ok (CacheSet.with_dirty (<[w:=true]> (dirty_array s)) s).
Proof.
  intros Hs Hw Hv. split; [apply set_index_Ret; by rewrite (so_dirties _ _ _ _ Hs)|].
  destruct Hs. constructor; try done; cbn; [by rewrite length_insert|].
  intros w'. unfold is_dirty. cbn. destruct (decide (w' = w)) as [->|]; [done|].
  rewrite list_lookup_insert_ne by done. apply so_dirty_valid0.
Qed.

Lemma write_block_spec (mark : bool) s w d :
  ok s → valid_array s !! w = Some true → length d = bs →
  ∃ s', (if mark then CacheSet.write_block s w d else CacheSet.write_block_clean s w d) = Ret s' ∧
    ok s' ∧ (∀ t w', hits s' t w' ↔ hits s t w') ∧ way_bytes s' w = d ∧
    (∀ w', w' ≠ w → w' < ways → way_bytes s' w' = way_bytes s w') ∧
    (∀ w', is_dirty s' w' ↔ is_dirty s w' ∨ (mark = true ∧ w' = w)) ∧
    rp_valid (rp s') = rp_valid (rp s).
Proof.
  intros Hs Hv Hd.
  assert (w < ways) as Hw by (rewrite <- (so_valids _ _ _ _ Hs); by eapply lookup_lt_Some).
  destruct (put_block_ok s w d Hs Hw Hd) as (E & Hok & Hb & Hbs).
  unfold CacheSet.write_block, CacheSet.write_block_clean, CacheSet.check_valid.
  rewrite (index_Ret _ _ _ Hv). destruct mark; rewrite bind_Ret; cbn [assert_];
    rewrite bind_Ret, E, bind_Ret.
  - destruct (dirty_put_ok (put_block s w d) w Hok Hw Hv) as [-> Hok2]. rewrite bind_Ret.
    destruct (promote_ok _ w Hok2 Hw) as (r & -> & Hok3 & Hr). eexists. split; [reflexivity|].
    split_and!; try done. intros w'. unfold is_dirty. cbn.
    destruct (decide (w' = w)) as [->|].
    + rewrite list_lookup_insert_eq by (by rewrite (so_dirties _ _ _ _ Hs)). naive_solver.
    + rewrite list_lookup_insert_ne by done. naive_solver.
  - destruct (promote_ok _ w Hok Hw) as (r & -> & Hok3 & Hr). eexists. split; [reflexivity|].
    split_and!; try done. intros w'. naive_solver.
Qed.

Lemma insert_block_spec s w t d :
  ok s → w < ways → rp_valid (rp s) !! w = Some false → (∀ w', ¬ hits s t w') →
  (0 ≤ t < tags)%Z → length d = bs →
  ∃ s', CacheSet.insert_block s w t d = Ret s' ∧ ok s' ∧
    (∀ t' w', hits s' t' w' ↔ (w' = w ∧ t' = t) ∨ (w' ≠ w ∧ hits s t' w')) ∧ way_bytes s' w = d ∧
    (∀ w', w' ≠ w → w' < ways → way_bytes s' w' = way_bytes s w') ∧
    (∀ w', is_dirty s' w' ↔ is_dirty s w' ∧ w' ≠ w) ∧
    rp_valid (rp s') = <[w:=true]> (rp_valid (rp s)).
Proof.
  intros Hs Hw Hr Hmiss Ht Hd. destruct (put_block_ok s w d Hs Hw Hd) as (E & Hok & Hb & Hbs).
  unfold CacheSet.insert_block. rewrite E, bind_Ret.
  rewrite (set_index_Ret (valid_array _)), bind_Ret by (by rewrite (so_valids _ _ _ _ Hok)).
  rewrite (set_index_Ret (tag_array _)), bind_Ret by (by rewrite (so_tags _ _ _ _ Hok)).
  rewrite (set_index_Ret (dirty_array _)), bind_Ret by (by rewrite (so_dirties _ _ _ _ Hok)).
  destruct (rp_insert_law (rp (put_block s w d)) w) as (r & -> & Hrok & Hrv);
    [apply (so_rp _ _ _ _ Hs) | done |]. rewrite bind_Ret. eexists. split; [reflexivity|].
  assert (Hhits : ∀ t' w', hits {| num_associativity := num_associativity s;
    bytes_per_block := bytes_per_block s; data_array := data_array (put_block s w d);
    tag_array := <[w:=t]> (tag_array s); valid_array := <[w:=true]> (valid_array s);
    dirty_array := <[w:=false]> (dirty_array s); rp := r |} t' w' ↔
    (w' = w ∧ t' = t) ∨ (w' ≠ w ∧ hits s t' w')).
  { intros t' w'. unfold hits. cbn. destruct (decide (w' = w)) as [->|].
    - rewrite !list_lookup_insert_eq by (rewrite ?(so_tags _ _ _ _ Hs), ?(so_valids _ _ _ _ Hs); done).
      naive_solver.
    - rewrite !list_lookup_insert_ne by done. naive_solver. }
  split_and!; try done.
  - destruct Hok as [? ? ? ? ? ? ? Hrl Hu Hra Hdv].
    constructor; try done; cbn in *; rewrite ?length_insert; try done.
    + by rewrite Hrv, length_insert.
    + intros t' w1 w2 [[-> ->]|[? Hh1]]%Hhits [[-> ?]|[? Hh2]]%Hhits; try done.
      * subst. by destruct (Hmiss w2).
      * subst. by destruct (Hmiss w1).
      * by eapply Hu.
    + intros t' w1 [[-> ->]|[? Hh1]]%Hhits; [done|]. by eapply Hra.
    + intros w'. unfold is_dirty. cbn. destruct (decide (w' = w)) as [->|].
      * rewrite list_lookup_insert_eq by (by rewrite (so_dirties _ _ _ _ Hs)). done.
      * rewrite !list_lookup_insert_ne by done. apply Hdv.
  - intros w'. unfold is_dirty. cbn. destruct (decide (w' = w)) as [->|].
    + rewrite list_lookup_insert_eq by (by rewrite (so_dirties _ _ _ _ Hs)). naive_solver.
    + rewrite list_lookup_insert_ne by done. naive_solver.
Qed.

Lemma new_ok : rp_ways ways → ∃ s, CacheSet.new ways bs = Ret s ∧ ok s ∧ tracked s None ∧
  (∀ t w, ¬ hits s t w) ∧ ∀ w, ¬ is_dirty s w.
Proof.
  intros Hw. destruct (rp_new_law ways Hw) as (r & E & Hr & Hv). unfold CacheSet.new. rewrite E, bind_Ret.
  eexists. split; [reflexivity|].
  assert (∀ w, replicate ways false !! w ≠ Some true) as Hf.
  { intros w [[=] _]%lookup_replicate. }
  split_and!; [|intros w Hd; by destruct (Hf w)|intros t w [? _]; by destruct (Hf w)|
    intros w Hd; by destruct (Hf w)].
  constructor; cbn; rewrite ?length_replicate; try done; try (by rewrite Hv, length_replicate).
  - intros t w w' [Hh _]. by destruct (Hf w).
  - intros t w [Hh _]. by destruct (Hf w).
Qed.
End invariant.
