(* ===== verification/LowerMemory.v ===== *)
(** A transaction with the next level of memory:
    [simulator/src/hardware/mem/general_cache/lower_memory.rs]. *)
From S2P Require Import Prelude Word AbstractMem.
From stdpp Require Import base numbers list.
From Stdlib Require Import Lia.

Inductive LowerMemoryTransaction :=
  | Sending (req : MemoryReqType)
  | Waiting (req : MemoryReqType).

Module LowerMemory.
Definition new (req : MemoryReqType) : LowerMemoryTransaction := Sending req.
Definition req (t : LowerMemoryTransaction) : MemoryReqType :=
  match t with Sending r | Waiting r => r end.
Definition load_data (t : LowerMemoryTransaction) (h : heap) : exec (list Z) :=
  Req.load_data (req t) h.

(** one poll; the boolean is the returned value of [progress] *)
Definition progress {M} `{AbstractMemoryInterface M} (t : LowerMemoryTransaction) (m : M)
    (h : heap) : exec (bool * LowerMemoryTransaction * M * heap) :=
  match t with
  | Sending r =>
      '(res, m, h) ← try_register_req m r h;
      mret (false, match res with Ok _ => Waiting r | Err _ => t end, m, h)
  | Waiting r => mret (Req.is_done r h, t, m, h)
  end.
End LowerMemory.
