(* ===== verification/GeneralCache.v ===== *)
(** The cache controller: [simulator/src/hardware/mem/general_cache/mod.rs].

    The next level is shared ([Rc<RefCell<M>>]): a cache operation takes the current state
    of the next level and returns the new one, together with the heap of request cells. *)
From S2P Require Import Prelude Word AbstractMem ReplacementPolicy CacheConfig CacheSet LowerMemory.
From stdpp Require Import base numbers strings list.
From Stdlib Require Import Lia.
#[local] Open Scope Z_scope.
#[local] Coercion Z.of_nat : nat >-> Z.

Inductive MainStates :=
  | Idle
  | Lookup (req : MemoryReqType)
  | WriteBack (transaction : LowerMemoryTransaction) (evict_way : nat)
  | Allocate (transaction : LowerMemoryTransaction) (evict_way : nat)
  | AdditionalMissPenalty (counter : nat)
  | WriteThroughCommit (transaction : LowerMemoryTransaction) (caller_req : MemoryReqType)
  | WriteAround (transaction : LowerMemoryTransaction) (caller_req : MemoryReqType).

Record GeneralCache (RP : Type) := {
  offset_bit_width : Z;
  index_bit_width : Z;
  set : list (GeneralCacheSetUnit RP);
  fsm : MainStates;
  pending_req : option MemoryReqType;
  backup_req : option MemoryReqType;
  miss_penalty : nat;
  write_policy : WritePolicy;
  prefetcher : Prefetcher;
  prefetch_queue : list Z;
  prefetch_in_flight : bool;
  block_size_bytes : Z;
  hpm : CacheStatistic;
}.
Arguments offset_bit_width {RP}. Arguments index_bit_width {RP}. Arguments set {RP}.
Arguments fsm {RP}. Arguments pending_req {RP}. Arguments backup_req {RP}.
Arguments miss_penalty {RP}. Arguments write_policy {RP}. Arguments prefetcher {RP}.
Arguments prefetch_queue {RP}. Arguments prefetch_in_flight {RP}.
Arguments block_size_bytes {RP}. Arguments hpm {RP}.

Module Cache.
(** ** Field updates *)
Section update.
Context {RP : Type}.
Implicit Type c : GeneralCache RP.

(** all the fields an operation may change *)
Definition upd c s f p b q inf st : GeneralCache RP := {|
  offset_bit_width := offset_bit_width c; index_bit_width := index_bit_width c; set := s;
  fsm := f; pending_req := p; backup_req := b; miss_penalty := miss_penalty c;
  write_policy := write_policy c; prefetcher := prefetcher c; prefetch_queue := q;
  prefetch_in_flight := inf; block_size_bytes := block_size_bytes c; hpm := st |}.

Definition with_set s c := upd c s (fsm c) (pending_req c) (backup_req c) (prefetch_queue c)
  (prefetch_in_flight c) (hpm c).
Definition with_fsm f c := upd c (set c) f (pending_req c) (backup_req c) (prefetch_queue c)
  (prefetch_in_flight c) (hpm c).
Definition with_pending p c := upd c (set c) (fsm c) p (backup_req c) (prefetch_queue c)
  (prefetch_in_flight c) (hpm c).
Definition with_backup b c := upd c (set c) (fsm c) (pending_req c) b (prefetch_queue c)
  (prefetch_in_flight c) (hpm c).
Definition with_prefetch q inf c := upd c (set c) (fsm c) (pending_req c) (backup_req c) q
  inf (hpm c).
Definition with_hpm st c := upd c (set c) (fsm c) (pending_req c) (backup_req c)
  (prefetch_queue c) (prefetch_in_flight c) st.
End update.

Section cache.
Context `{Profile} {RP : Type} `{ReplacementPolicy RP}.
Implicit Type c : GeneralCache RP.

(** ** Construction *)
Fixpoint new_sets (n : nat) (ways block_size : nat) : exec (list (GeneralCacheSetUnit RP)) :=
  match n with
  | O => mret []
  | S n => s ← CacheSet.new ways block_size; l ← new_sets n ways block_size; mret (s :: l)
  end.

Definition new (config : GeneralCacheConfig) : exec (GeneralCache RP) :=
  let g := geometry config in
  let block_size := CacheConfig.block_size g in
  sets ← new_sets (Z.to_nat (num_sets g)) (Z.to_nat (num_of_way g)) (Z.to_nat block_size);
  mret {| offset_bit_width := CacheConfig.offset_bit_width g;
          index_bit_width := CacheConfig.index_bit_width g; set := sets; fsm := Idle;
          pending_req := None; backup_req := None;
          miss_penalty := CacheConfig.miss_penalty config;
          write_policy := CacheConfig.write_policy config;
          prefetcher := Prefetch.build (prefetcher_kind config) block_size;
          prefetch_queue := []; prefetch_in_flight := false; block_size_bytes := block_size;
          hpm := CacheStat.new (name config) |}.

(** ** Addresses *)

(** [(1 << n) - 1] on [u32] *)
Definition low_mask (n : Z) : exec Z := m ← word_shl 32 1 n; word_sub 32 m 1.

Definition addr_transfer c (addr : Z) : exec (Z * nat * nat) :=
  offset_mask ← low_mask (offset_bit_width c);
  let offset := Z.land addr offset_mask in
  high ← word_shr 32 addr (offset_bit_width c);
  index_mask ← low_mask (index_bit_width c);
  let index := Z.land high index_mask in
  t ← word_sub 64 32 (offset_bit_width c);
  tag_bit_width ← word_sub 64 t (index_bit_width c);
  amount ← word_sub 64 32 tag_bit_width;
  top ← word_shr 32 addr amount;
  tag_mask ← low_mask tag_bit_width;
  let tag := Z.land top tag_mask in
  mret (tag, Z.to_nat index, Z.to_nat offset).

(** [addr & !((1 << self.offset_bit_width) - 1)] *)
Definition block_base c (addr : Z) : exec Z :=
  m ← low_mask (offset_bit_width c); mret (Z.land addr (word_not 32 m)).

(** the address of a block from its tag and index; the width of the index when it is
  shifted is 32 bits for a write-back and 64 bits, then cast, for an allocation *)
Definition block_addr c (index_width : Z) (tag : Z) (index : nat) : exec Z :=
  width ← word_add 64 (index_bit_width c) (offset_bit_width c);
  t ← word_shl 32 tag width;
  i ← word_shl index_width index (offset_bit_width c);
  a ← word_add 32 t (as_u32 i);
  block_base c a.

(** [2usize.pow(self.offset_bit_width as u32)] *)
Definition block_len c : exec nat := n ← narrow 64 (2 ^ offset_bit_width c); mret (Z.to_nat n).

Definition set_way c (i : nat) (s : GeneralCacheSetUnit RP) : exec (GeneralCache RP) :=
  l ← set_index (set c) i s; mret (with_set l c).

Definition count_load (miss : bool) c : GeneralCache RP :=
  if prefetch_in_flight c then c else with_hpm (CacheStat.load miss (hpm c)) c.
Definition count_store (miss : bool) c : GeneralCache RP :=
  if prefetch_in_flight c then c else with_hpm (CacheStat.store miss (hpm c)) c.

(** ** The [Lookup] state *)

(** [Ok(way_index)]: the block is read, and the request served or propagated *)
Definition lookup_hit c (req : MemoryReqType) (i way offset : nat) (h : heap)
    : exec (GeneralCache RP * heap) :=
  s ← index (set c) i;
  '(read_block, s) ← CacheSet.read_block s way;
  match req with
  | Load load_req =>
      d ← slice read_block offset (Req.get_len req);
      h ← LoadReq.complete_from_slice load_req d h;
      c ← set_way c i s;
      mret (with_fsm Idle (count_load false c), h)
  | Store store_req =>
      new_block ← write_slice read_block offset (Req.get_len req) (StoreReq.data store_req);
      let c := count_store false c in
      if Policy.is_write_through (write_policy c) then
        s ← CacheSet.write_block_clean s way new_block;
        c ← set_way c i s;
        let '(propagate, h) := Req.store (Req.get_addr req) (StoreReq.data store_req) h in
        mret (with_fsm (WriteThroughCommit (LowerMemory.new propagate) req) c, h)
      else
        s ← CacheSet.write_block s way new_block;
        c ← set_way c i s;
        mret (with_fsm Idle c, StoreReq.complete store_req h)
  end.

(** [Err((need_write_back, evict_way))] *)
Definition lookup_miss c (req : MemoryReqType) (tag : Z) (i : nat) (need_write_back : bool)
    (evict_way : nat) (h : heap) : exec (GeneralCache RP * heap) :=
  let c := if Req.is_store req then count_store true c else count_load true c in
  if Req.is_store req && Policy.is_no_write_allocate (write_policy c) then
    d ← Req.store_data req;
    let '(propagate, h) := Req.store (Req.get_addr req) d h in
    mret (with_fsm (WriteAround (LowerMemory.new propagate) req) c, h)
  else
    let c := with_backup (Some req) c in
    if need_write_back then
      s ← index (set c) i;
      old_tag ← CacheSet.get_tag s evict_way;
      write_back_addr ← block_addr c 32 old_tag i;
      '(old_dirty_data, s) ← CacheSet.read_block s evict_way;
      c ← set_way c i s;
      let '(write_back_store_req, h) := Req.store write_back_addr old_dirty_data h in
      mret (with_fsm (WriteBack (LowerMemory.new write_back_store_req) evict_way) c, h)
    else
      allocate_addr ← block_addr c 64 tag i;
      allocate_len ← block_len c;
      let '(allocate_read_req, h) := Req.load allocate_addr allocate_len h in
      mret (with_fsm (Allocate (LowerMemory.new allocate_read_req) evict_way) c, h).

(** [for addr in predictions { if !queue.contains(&addr) { queue.push_back(addr) } }] *)
Definition enqueue (q : list Z) (predictions : list Z) : list Z :=
  foldl (λ q a, if bool_decide (a ∈ q) then q else q ++ [a]) q predictions.

Definition lookup c (req : MemoryReqType) (h : heap) : exec (GeneralCache RP * heap) :=
  let is_prefetch := prefetch_in_flight c in
  '(tag, i, offset) ← addr_transfer c (Req.get_addr req);
  s ← index (set c) i;
  '(tag_compare_result, s, g) ← CacheSet.tag_compare s tag (draws h);
  let h := Heap.with_draws g h in
  c ← set_way c i s;
  let is_hit := match tag_compare_result with Ok _ => true | Err _ => false end in
  '(c, h) ← match tag_compare_result with
            | Ok way_index => lookup_hit c req i way_index offset h
            | Err (need_write_back, evict_way) =>
                lookup_miss c req tag i need_write_back evict_way h
            end;
  if is_prefetch then
    mret (if is_hit then with_prefetch (prefetch_queue c) false c else c, h)
  else
    predictions ← Prefetch.predict (prefetcher c) (Req.get_addr req) is_hit (Req.is_store req);
    mret (with_prefetch (enqueue (prefetch_queue c) predictions) (prefetch_in_flight c) c, h).

(** ** The other states *)
Section lower.
Context {M : Type} `{AbstractMemoryInterface M}.

Definition write_back c (t : LowerMemoryTransaction) (evict_way : nat) (m : M) (h : heap)
    : exec (GeneralCache RP * M * heap) :=
  '(fin, t, m, h) ← LowerMemory.progress t m h;
  if (fin : bool) then
    backup ← unwrap (backup_req c);
    allocate_addr ← block_base c (Req.get_addr backup);
    allocate_len ← block_len c;
    let '(allocate_req, h) := Req.load allocate_addr allocate_len h in
    mret (with_fsm (Allocate (LowerMemory.new allocate_req) evict_way) c, m, h)
  else mret (with_fsm (WriteBack t evict_way) c, m, h).

Definition allocate c (t : LowerMemoryTransaction) (evict_way : nat) (m : M) (h : heap)
    : exec (GeneralCache RP * M * heap) :=
  '(fin, t, m, h) ← LowerMemory.progress t m h;
  if (fin : bool) then
    load_data ← LowerMemory.load_data t h;
    backup ← unwrap (backup_req c);
    '(new_tag, i, _) ← addr_transfer c (Req.get_addr backup);
    s ← index (set c) i;
    s ← CacheSet.insert_block s evict_way new_tag load_data;
    c ← set_way c i s;
    mret (with_fsm (AdditionalMissPenalty (miss_penalty c)) c, m, h)
  else mret (with_fsm (Allocate t evict_way) c, m, h).

(** [WriteThroughCommit] and [WriteAround]: acknowledge the caller when the store is done *)
Definition commit c (state : LowerMemoryTransaction → MainStates)
    (t : LowerMemoryTransaction) (caller_req : MemoryReqType) (m : M) (h : heap)
    : exec (GeneralCache RP * M * heap) :=
  '(fin, t, m, h) ← LowerMemory.progress t m h;
  if (fin : bool) then
    h ← Req.complete_store caller_req h;
    mret (with_fsm Idle c, m, h)
  else mret (with_fsm (state t) c, m, h).

Definition idle c (h : heap) : GeneralCache RP * heap :=
  match pending_req c with
  | None =>
      if prefetch_in_flight c then (c, h)
      else match prefetch_queue c with
      | [] => (c, h)
      | addr :: queue =>
          let '(synthetic, h) := Req.load addr (Z.to_nat (block_size_bytes c)) h in
          (with_fsm (Lookup synthetic) (with_prefetch queue true
             (with_hpm (CacheStat.prefetch_issued (hpm c)) c)), h)
      end
  | Some req => (with_fsm (Lookup req) (with_pending None c), h)
  end.

Definition tick c (m : M) (h : heap) : exec (GeneralCache RP * M * heap) :=
  match fsm c with
  | Idle => let '(c, h) := idle c h in mret (c, m, h)
  | Lookup req => '(c, h) ← lookup c req h; mret (c, m, h)
  | WriteBack t way => write_back c t way m h
  | Allocate t way => allocate c t way m h
  | AdditionalMissPenalty (S counter) =>
      mret (with_fsm (AdditionalMissPenalty counter) c, m, h)
  | AdditionalMissPenalty O =>
      req ← unwrap (backup_req c);
      mret (with_fsm (Lookup req) (with_backup None c), m, h)
  | WriteThroughCommit t caller_req =>
      commit c (λ t, WriteThroughCommit t caller_req) t caller_req m h
  | WriteAround t caller_req => commit c (λ t, WriteAround t caller_req) t caller_req m h
  end.

(** ** Registration *)
Definition alignment_check c (req : MemoryReqType) : exec bool :=
  let req_len := Req.get_len req in
  let req_addr := Req.get_addr req in
  match req_len with
  | 1%nat => mret true
  | 2%nat | 4%nat => mret (req_addr mod req_len =? 0)
  | _ =>
      if block_size_bytes c =? 0 then Panic PDivZero
      else
        let offset := req_addr mod block_size_bytes c in
        mret ((0 <? req_len) && (req_len <=? block_size_bytes c) &&
              is_power_of_two req_len && (req_addr mod req_len =? 0) &&
              (offset + req_len <=? block_size_bytes c))
  end.

Definition try_register_req c (m : M) (req : MemoryReqType) (h : heap)
    : exec (Result unit unit * GeneralCache RP * M * heap) :=
  ok ← alignment_check c req;
  _ ← assert_ ok;
  match fsm c, pending_req c with
  | Idle, None =>
      '(c, m, h) ← tick (with_pending (Some req) c) m h;
      '(c, m, h) ← tick c m h;
      mret (Ok tt, c, m, h)
  | _, _ => mret (Err tt, c, m, h)
  end.

(** [get_statistic_info] *)
Definition get_statistic_info c : CacheStatistic := CacheStat.finalize_rates (hpm c).
End lower.
End cache.
End Cache.

(** A cache together with its next level is itself a memory device: the cache above it
    holds the pair as its own next level. *)
Section device.
Context `{Profile} {RP : Type} `{ReplacementPolicy RP} {M : Type} `{AbstractMemoryInterface M}.

#[export] Instance Cache_Clocked : Clocked (GeneralCache RP * M) := λ cm h,
  '(c, m, h) ← Cache.tick cm.1 cm.2 h; mret ((c, m), h).
#[export] Instance Cache_AbstractMemoryInterface : AbstractMemoryInterface (GeneralCache RP * M) := {
  try_register_req cm req h :=
    '(res, c, m, h) ← Cache.try_register_req cm.1 cm.2 req h; mret (res, (c, m), h);
}.
End device.
