(* ===== verification/CacheAddress.v ===== *)
(** Address slicing of a cache: tag, index and offset of an address, and the address of a
    block ([addr_transfer] and the address computations of [general_cache/mod.rs]). *)
From S2P Require Import Prelude Word AbstractMem ReplacementPolicy CacheConfig CacheSet LowerMemory GeneralCache.
From stdpp Require Import base numbers strings list.
From Stdlib Require Import Lia.
#[local] Open Scope Z_scope.
#[local] Coercion Z.of_nat : nat >-> Z.

(** * The specification of the slicing *)

Section slicing.
(** offset and index widths *)
Context (o i : Z).

Definition tag_of (a : Z) : Z := a / 2 ^ (o + i).
Definition index_of (a : Z) : nat := Z.to_nat ((a / 2 ^ o) mod 2 ^ i).
Definition offset_of (a : Z) : nat := Z.to_nat (a mod 2 ^ o).
Definition base_of (a : Z) : Z := a - a mod 2 ^ o.
(** the first address of the block of tag [t] in set [x] *)
Definition address (t : Z) (x : nat) : Z := t * 2 ^ (o + i) + x * 2 ^ o.

Definition widths : Prop := 0 ≤ o ∧ 0 ≤ i ∧ 1 ≤ o + i ≤ 31.
Context (Hw : widths).

Lemma pow_o : 0 < 2 ^ o.
Proof using Hw. destruct Hw. by apply Z.pow_pos_nonneg. Qed.
Lemma pow_i : 0 < 2 ^ i.
Proof using Hw. destruct Hw as (? & ? & ?). by apply Z.pow_pos_nonneg. Qed.
Lemma pow_oi : 2 ^ (o + i) = 2 ^ o * 2 ^ i.
Proof using Hw. destruct Hw as (? & ? & ?). by apply Z.pow_add_r. Qed.

Lemma index_range a : index_of a < 2 ^ i.
Proof using Hw. unfold index_of. pose proof (Z.mod_pos_bound (a / 2 ^ o) (2 ^ i) pow_i). lia. Qed.
Lemma offset_range a : offset_of a < 2 ^ o.
Proof using Hw. unfold offset_of. pose proof (Z.mod_pos_bound a (2 ^ o) pow_o). lia. Qed.

(** an address is its block and its offset *)
Lemma slicing a : a = address (tag_of a) (index_of a) + offset_of a.
Proof using Hw.
  unfold address, tag_of, index_of, offset_of. rewrite pow_oi.
  pose proof pow_o. pose proof pow_i.
  pose proof (Z.mod_pos_bound (a / 2 ^ o) (2 ^ i)). pose proof (Z.mod_pos_bound a (2 ^ o)).
  rewrite !Z2Nat.id by lia. rewrite <- Z.div_div by lia.
  pose proof (Z.div_mod a (2 ^ o)). pose proof (Z.div_mod (a / 2 ^ o) (2 ^ i)). nia.
Qed.
Lemma base_address a : base_of a = address (tag_of a) (index_of a).
Proof using Hw.
  pose proof (slicing a) as E. unfold base_of.
  assert (a mod 2 ^ o = offset_of a) as ->; [|lia].
  unfold offset_of. pose proof pow_o. pose proof (Z.mod_pos_bound a (2 ^ o)). lia.
Qed.

(** and the slices of a block's bytes are the block's *)
Lemma slices_of t (x : nat) k : x < 2 ^ i → 0 ≤ k < 2 ^ o →
  tag_of (address t x + k) = t ∧ index_of (address t x + k) = x ∧
  offset_of (address t x + k) = Z.to_nat k.
Proof using Hw.
  intros Hx Hk. unfold address, tag_of, index_of, offset_of. rewrite pow_oi.
  pose proof pow_o. pose proof pow_i.
  replace (t * (2 ^ o * 2 ^ i) + x * 2 ^ o + k) with (k + (t * 2 ^ i + x) * 2 ^ o) by lia.
  rewrite <- Z.div_div by lia. rewrite Z.div_add, Z_mod_plus_full by lia.
  rewrite (Z.div_small k), (Z.mod_small k), Z.add_0_l by lia.
  rewrite (Z.add_comm (t * 2 ^ i)), Z.div_add, Z_mod_plus_full by lia.
  rewrite (Z.div_small x), (Z.mod_small x), Z.add_0_l by lia.
  split_and!; [done | lia | done].
Qed.

(** addresses of one block *)
Lemma same_block a k : 0 ≤ k → offset_of a + k < 2 ^ o →
  tag_of (a + k) = tag_of a ∧ index_of (a + k) = index_of a ∧
  offset_of (a + k) = (offset_of a + Z.to_nat k)%nat.
Proof using Hw.
  intros Hk Ho. pose proof (index_range a).
  replace (a + k) with (address (tag_of a) (index_of a) + (offset_of a + k))
    by (pose proof (slicing a); lia). destruct (slices_of (tag_of a) (index_of a) (offset_of a + k)) as (-> & -> & ->);
    [done | lia |]. split_and!; [done | done | lia].
Qed.

Lemma tag_range a : is_u32 a → 0 ≤ tag_of a < 2 ^ (32 - o - i).
Proof using Hw.
  intros [? ?]. destruct Hw as (? & ? & ?). unfold tag_of.
  assert (0 < 2 ^ (o + i)) by (apply Z.pow_pos_nonneg; lia).
  split; [by apply Z.div_pos; lia|]. apply Z.div_lt_upper_bound; [lia|].
  rewrite <- Z.pow_add_r by lia. replace (o + i + (32 - o - i)) with 32 by lia. lia.
Qed.

Lemma address_range t (x : nat) : 0 ≤ t < 2 ^ (32 - o - i) → x < 2 ^ i →
  0 ≤ address t x ∧ address t x + 2 ^ o ≤ 2 ^ 32.
Proof using Hw.
  intros Ht Hx. destruct Hw as (? & ? & ?). unfold address. pose proof pow_o.
  assert (2 ^ 32 = 2 ^ (32 - o - i) * (2 ^ o * 2 ^ i)) as E
    by (rewrite <- !Z.pow_add_r by lia; f_equal; lia).
  rewrite pow_oi. pose proof pow_i. rewrite E. split; [nia|].
  assert ((t + 1) * (2 ^ o * 2 ^ i) ≤ 2 ^ (32 - o - i) * (2 ^ o * 2 ^ i)) by nia. nia.
Qed.

Lemma base_of_aligned a : base_of a mod 2 ^ o = 0.
Proof using Hw.
  pose proof pow_o. unfold base_of. pose proof (Z.div_mod a (2 ^ o)).
  replace (a - a mod 2 ^ o) with (a / 2 ^ o * 2 ^ o) by lia. apply Z.mod_mul. lia.
Qed.
Lemma address_aligned t x : address t x mod 2 ^ o = 0.
Proof using Hw.
  pose proof pow_o. unfold address. rewrite pow_oi.
  replace (t * (2 ^ o * 2 ^ i) + x * 2 ^ o) with ((t * 2 ^ i + x) * 2 ^ o) by lia.
  apply Z.mod_mul. lia.
Qed.
End slicing.

(** * The code computes it *)

Section code.
Context `{Profile} {RP : Type}.
Context (c : GeneralCache RP).
Abbreviation o := (offset_bit_width c).
Abbreviation i := (index_bit_width c).
Context (Hw : widths o i).

Lemma low_mask_spec n : 0 ≤ n < 32 → Cache.low_mask n = Ret (2 ^ n - 1).
Proof using Type.
  intros. unfold Cache.low_mask. rewrite word_shl_Ret, bind_Ret by lia.
  rewrite Z.shiftl_mul_pow2, Z.mul_1_l by lia.
  assert (0 < 2 ^ n < 2 ^ 32) by (split; [apply Z.pow_pos_nonneg; lia | apply Z.pow_lt_mono_r; lia]).
  rewrite wrap_id by (split; lia). unfold word_sub. by rewrite narrow_Ret by (split; lia).
Qed.

Lemma land_mask a n : 0 ≤ n → Z.land a (2 ^ n - 1) = a mod 2 ^ n.
Proof using Type. intros. rewrite <- Z.land_ones by done. f_equal. rewrite Z.ones_equiv. lia. Qed.

Lemma addr_transfer_spec a : is_u32 a →
  Cache.addr_transfer c a = Ret (tag_of o i a, index_of o i a, offset_of o a).
Proof using Hw.
  intros Ha. pose proof Hw as (? & ? & ?). unfold Cache.addr_transfer, word_sub.
  rewrite (low_mask_spec o), bind_Ret, (word_shr_Ret 32 a o), bind_Ret by lia.
  rewrite (low_mask_spec i), bind_Ret by lia.
  rewrite (narrow_Ret 64 (32 - o)), bind_Ret by (split; lia).
  rewrite (narrow_Ret 64 (32 - o - i)), bind_Ret by (split; lia).
  rewrite (narrow_Ret 64 (32 - (32 - o - i))), bind_Ret by (split; lia).
  rewrite word_shr_Ret, bind_Ret, low_mask_spec, bind_Ret by lia.
  rewrite !land_mask, !Z.shiftr_div_pow2 by lia.
  unfold tag_of, index_of, offset_of. do 4 f_equal.
  replace (32 - (32 - o - i)) with (o + i) by lia.
  pose proof (tag_range o i Hw a Ha). unfold tag_of in *. by apply Z.mod_small.
Qed.

Lemma block_base_spec a : is_u32 a → Cache.block_base c a = Ret (base_of o a).
Proof using Hw.
  intros [Ha1 Ha2]. pose proof Hw as (? & ? & ?). unfold Cache.block_base, base_of.
  rewrite low_mask_spec by lia. cbn [mbind exec_bind mret exec_ret]. f_equal. unfold word_not.
  replace (2 ^ 32 - 1 - (2 ^ o - 1)) with (Z.shiftl (Z.ones (32 - o)) o).
  2:{ rewrite Z.shiftl_mul_pow2, Z.ones_equiv by lia.
      assert (2 ^ 32 = 2 ^ (32 - o) * 2 ^ o) by (rewrite <- Z.pow_add_r by lia; f_equal; lia). lia. }
  assert (a - a mod 2 ^ o = Z.shiftl (Z.shiftr a o) o) as ->.
  { rewrite Z.shiftl_mul_pow2, Z.shiftr_div_pow2 by lia.
    assert (0 < 2 ^ o) by (apply Z.pow_pos_nonneg; lia).
    pose proof (Z.div_mod a (2 ^ o)). lia. }
  apply Z.bits_inj'. intros n Hn. rewrite Z.land_spec, !Z.shiftl_spec by lia.
  destruct (Z.ltb_spec n o).
  { rewrite !(Z.testbit_neg_r _ (n - o)) by lia. by rewrite andb_false_r. }
  rewrite Z.shiftr_spec, Z.testbit_ones_nonneg by lia. replace (n - o + o) with n by lia.
  destruct (Z.ltb_spec (n - o) (32 - o)); [by rewrite andb_true_r|].
  rewrite andb_false_r. symmetry. destruct (decide (a = 0)) as [->|]; [apply Z.bits_0|].
  apply Z.bits_above_log2; [lia|]. apply Z.log2_lt_pow2; [lia|].
  eapply Z.lt_le_trans; [exact Ha2|]. apply Z.pow_le_mono_r; lia.
Qed.

(** a block address, computed at 32 bits for a write-back and at 64 for an allocation,
  never overflows and is exact *)
Lemma block_addr_spec w t (x : nat) : 32 ≤ w → 0 ≤ t < 2 ^ (32 - o - i) → x < 2 ^ i →
  Cache.block_addr c w t x = Ret (address o i t x).
Proof using Hw.
  intros Hw32 Ht Hx. pose proof Hw as (? & ? & ?).
  destruct (address_range o i Hw t x Ht Hx) as [Ha1 Ha2]. unfold address in Ha1, Ha2.
  assert (0 < 2 ^ (o + i)) by (apply Z.pow_pos_nonneg; lia).
  assert (0 < 2 ^ o) by (apply Z.pow_pos_nonneg; lia).
  assert (2 ^ 32 ≤ 2 ^ w) by (apply Z.pow_le_mono_r; lia).
  unfold Cache.block_addr, word_add.
  rewrite (narrow_Ret 64 (i + o)), bind_Ret by (split; lia).
  rewrite (word_shl_Ret 32 t), bind_Ret by lia. rewrite word_shl_Ret, bind_Ret by lia.
  rewrite !Z.shiftl_mul_pow2 by lia. rewrite (Z.add_comm i).
  rewrite (wrap_id 32 (t * _)), (wrap_id w), (wrap_id 32) by (split; nia).
  rewrite narrow_Ret, bind_Ret by (split; nia). rewrite block_base_spec by (split; nia).
  unfold base_of. pose proof (address_aligned o i Hw t x) as E. unfold address in *. rewrite E. f_equal. lia.
Qed.

Lemma block_len_spec : Cache.block_len c = Ret (Z.to_nat (2 ^ o)).
Proof using Hw.
  pose proof Hw as (? & ? & ?). unfold Cache.block_len. rewrite narrow_Ret; [done|].
  split; [by apply Z.pow_nonneg | apply Z.pow_lt_mono_r; lia].
Qed.
End code.

(** C32: Address slicing is exact and invertible: for every accepted geometry whose offset
    and index fields use between 1 and 31 bits, splitting a 32-bit address never overflows,
    the index and the offset are in range, and the block address rebuilt from tag and index
    for a refill, and at 32 bits for a write-back, is the address with its offset cleared. *)
Theorem address_roundtrip `{Profile} {RP} (c : GeneralCache RP) (a w : Z) :
  widths (offset_bit_width c) (index_bit_width c) → is_u32 a → w = 32 ∨ w = 64 →
  ∃ t (x k : nat), Cache.addr_transfer c a = Ret (t, x, k) ∧
    x < 2 ^ index_bit_width c ∧ k < 2 ^ offset_bit_width c ∧
    Cache.block_addr c w t x = Ret (a - k) ∧ Cache.block_base c a = Ret (a - k).
Proof.
  intros Hw Ha Hor. rewrite addr_transfer_spec by done. eexists _, _, _. split; [reflexivity|].
  split; [by apply index_range|]. split; [by apply offset_range with (i := index_bit_width c)|].
  rewrite block_addr_spec; [| done | lia | by apply tag_range | by apply index_range].
  rewrite block_base_spec, (base_address _ (index_bit_width c)) by done.
  pose proof (slicing _ _ Hw a). split; f_equal; lia.
Qed.

Lemma address_roundtrip_witness :
  let _ := dev_profile in
  let c : GeneralCache Fifo.FifoRP :=
    {| offset_bit_width := 5; index_bit_width := 6; set := []; fsm := Idle; pending_req := None;
       backup_req := None; miss_penalty := 5; write_policy := Policy.default;
       prefetcher := NullPrefetcher; prefetch_queue := []; prefetch_in_flight := false;
       block_size_bytes := 32; hpm := CacheStat.new EmptyString |} in
  ∃ t (x k : nat), Cache.addr_transfer c 74565 = Ret (t, x, k) ∧
    x < 2 ^ index_bit_width c ∧ k < 2 ^ offset_bit_width c ∧
    Cache.block_addr c 32 t x = Ret (74565 - k) ∧ Cache.block_base c 74565 = Ret (74565 - k).
Proof.
  intros P c. apply (address_roundtrip c).
  - unfold widths. cbn. lia.
  - split; lia.
  - by left.
Defined.
