(* ===== verification/Device.v ===== *)
(** The contract of a memory device, and what it gives to a client.

    [Device] adds to the simulator's interface the advance of a whole memory system by
    one cycle: a cache ticks, then the levels below it, in the order of the simulation
    loop.  [DeviceLaws] is the contract: the device is a flat memory, [d_view], which
    answers an accepted request in a bounded number of cycles and never panics.  The laws are
    relative to the addresses a client observes.  The
    theorem [client_correct] is proved from the contract alone; main memory, DRAM and every
    cache over a lawful device discharge it. *)
From S2P Require Import Prelude Word AbstractMem.
From stdpp Require Import base gmap numbers list.
From Stdlib Require Import Lia.
#[local] Open Scope Z_scope.
#[local] Coercion Z.of_nat : nat >-> Z.

(** * Views up to equality on a region

    A client that only looks at some addresses, as an instruction cache only looks at code,
    needs its next level to be flat memory there only.  The equivalence of views is relative
    to the region observed; [everywhere] gives pointwise equality. *)

Class Region := observed : Z → Prop.
Definition everywhere : Region := λ _, True.

Section views.
Context `{RG : Region}.

Definition view_eq (v w : view) : Prop := ∀ a, observed a → v a = w a.
#[export] Instance view_equiv : Equiv view := view_eq.
#[export] Instance view_equivalence : Equivalence (≡@{view}).
Proof.
  split.
  - intros v a _. done.
  - intros v w E a Ha. by rewrite E.
  - intros u v w E1 E2 a Ha. by rewrite E1, E2.
Qed.
#[export] Instance view_write_proper : Proper ((≡) ==> eq ==> eq ==> (≡)) view_write.
Proof.
  intros v w E a ? <- d ? <- x Hx. unfold view_write. case_decide; [done | by apply E].
Qed.
#[export] Instance view_apply_proper r : Proper ((≡) ==> (≡)) (view_apply r).
Proof. intros v w E. destruct r; cbn; [done | by rewrite E]. Qed.

Lemma view_apply_twice r v : view_apply r (view_apply r v) ≡ view_apply r v.
Proof. destruct r; [done|]. intros a _. apply view_write_twice. Qed.

(** the cell of a request once it is done, as far as the region tells *)
Definition answers (r : MemoryReqType) (v : view) (x : cell) : Prop :=
  done x = true ∧
  match r with
  | Load y =>
      length (buffer x) = load_len y ∧
      ∀ i, (i < load_len y)%nat → observed (load_addr y + i) →
        buffer x !! i = Some (v (load_addr y + i))
  | Store _ => buffer x = []
  end.

#[export] Instance answers_proper r : Proper ((≡) ==> eq ==> iff) (answers r).
Proof.
  assert (∀ v w x, v ≡ w → answers r v x → answers r w x) as Himp.
  { intros v w x E [Hd Hx]. split; [done|]. destruct r as [y|y]; [|done].
    destruct Hx as [Hl Hx]. split; [done|]. intros i Hi Ho. rewrite <- (E _ Ho). by apply Hx. }
  intros v w E x ? <-. split; by apply Himp.
Qed.

Lemma answers_reply r v : answers r v (reply r v).
Proof.
  split; [done|]. destruct r as [y|y]; [|done]. cbn. split; [apply length_view_read|].
  intros i Hi _. by apply lookup_view_read.
Qed.
Lemma answers_done r v x : answers r v x → done x = true.
Proof. by intros []. Qed.
Lemma answers_apply r v x : answers r (view_apply r v) x ↔ answers r v x.
Proof. by destruct r. Qed.
End views.

(** what a client that observes every address gets *)
Lemma answers_exact r v x : answers (RG := everywhere) r v x → x = reply r v.
Proof.
  destruct x as [d b]. intros [Hd Hx]. cbn in *. subst d. unfold reply. f_equal.
  destruct r as [y|y]; [|done]. destruct Hx as [Hl Hx]. symmetry. apply view_read_eq; [done|].
  intros i Hi. rewrite list_lookup_total_alt, (Hx i Hi I). done.
Qed.
Lemma view_eq_everywhere (v w : view) : (∀ a, v a = w a) → view_eq (RG := everywhere) v w.
Proof. intros E a _. apply E. Qed.

(** * Devices *)

Class Device (D : Type) := {
  device_mem :: AbstractMemoryInterface D;
  cycle : D → heap → exec (D * heap);
}.

(** what an operation does to the heap: it may only touch cells it owns, and it owns
    afterwards only what it owned before or allocated itself *)
Definition heap_step (owns owns' : nat → Prop) (h h' : heap) : Prop :=
  (next_id h ≤ next_id h')%nat ∧
  (∀ id, (id < next_id h)%nat → owns id ∨ Heap.get h' id = Heap.get h id) ∧
  (∀ id, owns' id → owns id ∨ (next_id h ≤ id)%nat).

Class DeviceLaws `{RG : Region} (D : Type) `{Device D} := {
  d_inv : D → heap → Prop;
(** the contents, with the request in flight already applied *)
d_view : D → view;
(** the request in flight *)
d_cur : D → option MemoryReqType;
(** the cells the device may still write *)
d_owns : D → nat → Prop;
(** cycles until the device is free, and their bound *)
d_busy : D → nat;
d_bound : D → nat;
(** the addresses served are below [d_span], the longest request is [d_grain] *)
d_span : D → Z;
d_grain : D → nat;

law_owned d h id : d_inv d h → d_owns d id → (id < next_id h)%nat;
law_bound d h : d_inv d h → (d_busy d ≤ d_bound d)%nat;
law_frame d h h' : d_inv d h → (next_id h ≤ next_id h')%nat →
  (∀ id, d_owns d id → Heap.get h' id = Heap.get h id) → d_inv d h';
law_cur d h r : d_inv d h → d_cur d = Some r →
  d_owns d (Req.id r) ∧ done (Heap.get h (Req.id r)) = false;
law_try d h r : d_inv d h →
  (is_power_of_two (Req.get_len r) = true ∧ (Req.get_len r ≤ d_grain d)%nat ∧
   Req.get_addr r mod Req.get_len r = 0 ∧ 0 ≤ Req.get_addr r ∧
   Req.get_addr r + Req.get_len r ≤ d_span d ∧ req_wf r) →
  (Req.id r < next_id h)%nat → done (Heap.get h (Req.id r)) = false → ¬ d_owns d (Req.id r) →
  ∃ res d' h', try_register_req d r h = Ret (res, d', h') ∧
    match res with
    | Err _ => d' = d ∧ h' = h ∧ (0 < d_busy d)%nat
    | Ok _ =>
        d_cur d = None ∧ d_inv d' h' ∧
        (d_bound d' = d_bound d ∧ d_span d' = d_span d ∧ d_grain d' = d_grain d) ∧
        d_view d' ≡ view_apply r (d_view d) ∧
        heap_step (λ id, d_owns d id ∨ id = Req.id r) (d_owns d') h h' ∧
        (d_cur d' = Some r ∨
         d_cur d' = None ∧ ¬ d_owns d' (Req.id r) ∧
         answers r (d_view d) (Heap.get h' (Req.id r)))
    end;
law_cycle d h : d_inv d h →
  ∃ d' h', cycle d h = Ret (d', h') ∧ d_inv d' h' ∧
    (d_bound d' = d_bound d ∧ d_span d' = d_span d ∧ d_grain d' = d_grain d) ∧
    d_view d' ≡ d_view d ∧ heap_step (d_owns d) (d_owns d') h h' ∧
    match d_cur d with
    | None => d_cur d' = None ∧ (d_busy d = 0 ∨ d_busy d' < d_busy d)%nat
    | Some r =>
        (d_cur d' = Some r ∧ (d_busy d' < d_busy d)%nat) ∨
        (d_cur d' = None ∧ ¬ d_owns d' (Req.id r) ∧
         answers r (d_view d) (Heap.get h' (Req.id r)))
    end;
}.

(** a request the device serves *)
Definition accepts {D} `{DeviceLaws D} (d : D) (r : MemoryReqType) : Prop :=
  is_power_of_two (Req.get_len r) = true ∧ (Req.get_len r ≤ d_grain d)%nat ∧
  Req.get_addr r mod Req.get_len r = 0 ∧ 0 ≤ Req.get_addr r ∧
  Req.get_addr r + Req.get_len r ≤ d_span d ∧ req_wf r.
Definition same_shape {D} `{DeviceLaws D} (d d' : D) : Prop :=
  d_bound d' = d_bound d ∧ d_span d' = d_span d ∧ d_grain d' = d_grain d.

(** a request in flight has its own live cell *)
Definition live (r : MemoryReqType) (h : heap) : Prop :=
  (Req.id r < next_id h)%nat ∧ done (Heap.get h (Req.id r)) = false.

Lemma live_frame r h h' : live r h → (next_id h ≤ next_id h')%nat →
  Heap.get h' (Req.id r) = Heap.get h (Req.id r) → live r h'.
Proof. intros [? ?] ? E. split; [lia|]. by rewrite E. Qed.

Section shape_facts.
Context {D : Type} `{DeviceLaws D}.

Lemma is_done_get r h : Req.is_done r h = done (Heap.get h (Req.id r)).
Proof. by destruct r. Qed.

Lemma accepts_shape d d' r : same_shape d d' → accepts d r → accepts d' r.
Proof. unfold same_shape, accepts. intros (_ & -> & ->). done. Qed.

Lemma same_shape_trans d1 d2 d3 : same_shape d1 d2 → same_shape d2 d3 → same_shape d1 d3.
Proof. unfold same_shape. intros (-> & -> & ->) (-> & -> & ->). done. Qed.
End shape_facts.

(** ** A lawful device, observed on a region only *)
Lemma answers_restrict `{RG : Region} r v x : answers (RG := everywhere) r v x → answers r v x.
Proof.
  intros [Hd Hx]. split; [done|]. destruct r as [y|y]; [|done]. destruct Hx as [Hl Hx].
  split; [done|]. intros i Hi _. by apply Hx.
Qed.
Lemma view_eq_restrict `{RG : Region} (v w : view) : view_eq (RG := everywhere) v w → v ≡ w.
Proof. intros E a _. by apply E. Qed.

Section restrict.
Context (RG : Region) {D : Type} `{Device D} {L : DeviceLaws (RG := everywhere) D}.

Program Definition restrict : DeviceLaws (RG := RG) D := {|
  d_inv := d_inv (DeviceLaws := L); d_view := d_view (DeviceLaws := L);
  d_cur := d_cur (DeviceLaws := L); d_owns := d_owns (DeviceLaws := L);
  d_busy := d_busy (DeviceLaws := L); d_bound := d_bound (DeviceLaws := L);
  d_span := d_span (DeviceLaws := L); d_grain := d_grain (DeviceLaws := L);
|}.
Next Obligation. intros d h id. apply law_owned. Qed.
Next Obligation. intros d h. apply law_bound. Qed.
Next Obligation. intros d h h'. apply law_frame. Qed.
Next Obligation. intros d h r. apply law_cur. Qed.
Next Obligation.
  intros d h r Hi Ha Hid Hd Ho. destruct (law_try d h r Hi Ha Hid Hd Ho) as (res & d' & h' & E & Hres).
  exists res, d', h'. split; [done|]. destruct res; [|done].
  destruct Hres as (? & ? & (? & ? & ?) & Hv & ? & Hcur).
  split_and!; try done; [by apply view_eq_restrict|].
  destruct Hcur as [?|(? & ? & ?)]; [by left|right]. split_and!; [done..|]. by apply answers_restrict.
Qed.
Next Obligation.
  intros d h Hi. destruct (law_cycle d h Hi) as (d' & h' & E & Hi' & (? & ? & ?) & Hv & Hst & Hcur).
  exists d', h'. split_and!; try done; [by apply view_eq_restrict|].
  destruct (d_cur d); [|done]. destruct Hcur as [?|(? & ? & ?)]; [by left|right].
  split_and!; [done..|]. by apply answers_restrict.
Qed.
End restrict.

(** * A client: one access at a time, retried while the device is busy *)

Inductive access := ReadAt (addr : Z) (len : nat) | WriteAt (addr : Z) (bytes : list Z).

Section client.
Context {D : Type} `{Device D}.

Definition request_of (a : access) (h : heap) : MemoryReqType * heap :=
  match a with
  | ReadAt addr len => Req.load addr len h
  | WriteAt addr bytes => Req.store addr bytes h
  end.

(** [for _ in 0..fuel { if req.is_done() { return } cache.tick(); mem.tick() } panic!()] *)
Fixpoint run_until_done (fuel : nat) (d : D) (r : MemoryReqType) (h : heap)
    : exec (D * heap) :=
  if Req.is_done r h then mret (d, h)
  else match fuel with
  | O => Panic PExplicit
  | S fuel => '(d, h) ← cycle d h; run_until_done fuel d r h
  end.

(** [while cache.try_register_req(&req).is_err() { cache.tick(); mem.tick() }] *)
Fixpoint register (fuel : nat) (d : D) (r : MemoryReqType) (h : heap) : exec (D * heap) :=
  '(res, d, h) ← try_register_req d r h;
  match res with
  | Ok _ => mret (d, h)
  | Err _ =>
      match fuel with
      | O => Panic PExplicit
      | S fuel => '(d, h) ← cycle d h; register fuel d r h
      end
  end.

(** an access to completion: the bytes read *)
Definition perform (fuel : nat) (d : D) (a : access) (h : heap) : exec (list Z * D * heap) :=
  let '(r, h) := request_of a h in
  '(d, h) ← register fuel d r h;
  '(d, h) ← run_until_done fuel d r h;
  mret (buffer (Heap.get h (Req.id r)), d, h).

Fixpoint client (fuel : nat) (d : D) (accesses : list access) (h : heap)
    : exec (list (list Z) * D * heap) :=
  match accesses with
  | [] => mret ([], d, h)
  | a :: accesses =>
      '(x, d, h) ← perform fuel d a h;
      '(l, d, h) ← client fuel d accesses h;
      mret (x :: l, d, h)
  end.
End client.

(** the same accesses on a flat memory *)
Definition answer (v : view) (a : access) : list Z :=
  match a with ReadAt x n => view_read v x n | WriteAt _ _ => [] end.
Definition after (v : view) (a : access) : view :=
  match a with ReadAt _ _ => v | WriteAt x b => view_write v x b end.
Fixpoint flat_client (v : view) (accesses : list access) : list (list Z) * view :=
  match accesses with
  | [] => ([], v)
  | a :: accesses =>
      ((answer v a) :: (flat_client (after v a) accesses).1, (flat_client (after v a) accesses).2)
  end.

Definition access_ok {D} `{DeviceLaws D} (d : D) (a : access) : Prop :=
  accepts d (fst (request_of a Heap.empty)).

(** * The client theorem *)

Section client_facts.
Context {D : Type} `{Device D} `{!DeviceLaws (RG := everywhere) D}.
#[local] Existing Instance everywhere.

(** a request in flight is answered within the bound *)
Lemma run_until_done_spec fuel d r h :
  d_inv d h → d_cur d = Some r → (d_busy d < fuel)%nat →
  ∃ d' h', run_until_done fuel d r h = Ret (d', h') ∧ d_inv d' h' ∧ d_cur d' = None ∧
    same_shape d d' ∧ d_view d' ≡ d_view d ∧ answers r (d_view d) (Heap.get h' (Req.id r)).
Proof.
  revert d h. induction fuel as [|fuel IH]; intros d h Hi Hc Hb; [lia|].
  destruct (law_cur d h r Hi Hc) as [_ Hd]. cbn [run_until_done].
  rewrite is_done_get, Hd.
  destruct (law_cycle d h Hi) as (d1 & h1 & E & Hi1 & Hsh & Hv & _ & Hcur). rewrite E, bind_Ret.
  rewrite Hc in Hcur. destruct Hcur as [[Hc1 Hb1]|(Hc1 & _ & Hr)].
  - destruct (IH d1 h1) as (d2 & h2 & -> & Hi2 & Hc2 & Hsh2 & Hv2 & Hr2); [done | done | lia |].
    exists d2, h2. split_and!; [done..| by eapply same_shape_trans | by rewrite Hv2 | ].
    by rewrite <- Hv.
  - exists d1, h1. split; [|by split_and!].
    destruct fuel; cbn [run_until_done]; by rewrite is_done_get, (answers_done _ _ _ Hr).
Qed.

(** a free device accepts; a busy one becomes free and then accepts *)
Lemma register_spec fuel d r h :
  d_inv d h → d_cur d = None → accepts d r → (Req.id r < next_id h)%nat →
  done (Heap.get h (Req.id r)) = false → ¬ d_owns d (Req.id r) → (d_busy d ≤ fuel)%nat →
  ∃ d' h', register fuel d r h = Ret (d', h') ∧ d_inv d' h' ∧ same_shape d d' ∧
    d_view d' ≡ view_apply r (d_view d) ∧
    (d_cur d' = Some r ∨
     d_cur d' = None ∧ answers r (d_view d) (Heap.get h' (Req.id r))).
Proof.
  revert d h. induction fuel as [|fuel IH]; intros d h Hi Hc Ha Hid Hd Ho Hb;
    destruct (law_try d h r Hi Ha Hid Hd Ho) as ([[]|[]] & d1 & h1 & E & Ht);
    cbn [register]; rewrite E, bind_Ret.
  1,3: destruct Ht as (_ & Hi1 & Hsh & Hv & _ & Hcur); exists d1, h1;
    split_and!; [done..|]; destruct Hcur as [?|(? & _ & ?)]; [by left | by right].
  - destruct Ht as (_ & _ & ?). lia.
  - destruct Ht as (-> & -> & Hpos).
    destruct (law_cycle d h Hi) as (d2 & h2 & E2 & Hi2 & Hsh & Hv & Hst & Hcur).
    rewrite E2, bind_Ret. rewrite Hc in Hcur. destruct Hcur as [Hc2 Hb2].
    destruct Hst as (Hn & Hkeep & Hnew).
    destruct (IH d2 h2) as (d3 & h3 & -> & Hi3 & Hsh3 & Hv3 & Hr3).
    + done.
    + done.
    + by eapply accepts_shape.
    + lia.
    + destruct (Hkeep _ Hid) as [?|Hg]; [done | by rewrite Hg].
    + intros Hown. destruct (Hnew _ Hown); [done | lia].
    + lia.
    + exists d3, h3. split_and!; [done | done | by eapply same_shape_trans | by rewrite Hv3, Hv |].
      by rewrite <- Hv.
Qed.

Lemma fresh_request a h : let '(r, h') := request_of a h in
  Req.id r = next_id h ∧ next_id h' = S (next_id h) ∧ done (Heap.get h' (Req.id r)) = false ∧
  (∀ id, (id < next_id h)%nat → Heap.get h' id = Heap.get h id) ∧
  Req.get_addr r = Req.get_addr (fst (request_of a Heap.empty)) ∧
  Req.get_len r = Req.get_len (fst (request_of a Heap.empty)) ∧
  (req_wf (fst (request_of a Heap.empty)) → req_wf r) ∧
  ∀ v, view_apply r v = after v a ∧ buffer (reply r v) = answer v a.
Proof.
  destruct a as [x n|x b]; cbn; unfold Heap.get; cbn; rewrite lookup_insert_eq;
    (split_and!; try done; intros id Hid; by rewrite lookup_insert_ne by lia).
Qed.

Lemma perform_spec fuel d a h :
  d_inv d h → d_cur d = None → access_ok d a → (d_bound d < fuel)%nat →
  ∃ d' h', perform fuel d a h = Ret (answer (d_view d) a, d', h') ∧
    d_inv d' h' ∧ d_cur d' = None ∧ same_shape d d' ∧ d_view d' ≡ after (d_view d) a.
Proof.
  intros Hi Hc Ha Hf. unfold perform. pose proof (fresh_request a h) as Hfr.
  destruct (request_of a h) as [r h0]. destruct Hfr as (Hid & Hn & Hd & Hk & E1 & E2 & E3 & E4).
  pose proof (law_bound d h Hi) as Hb.
  assert (d_inv d h0) as Hi0.
  { eapply law_frame; [exact Hi | lia |]. intros id Hown. apply Hk. by eapply law_owned. }
  destruct (register_spec fuel d r h0) as (d1 & h1 & -> & Hi1 & Hsh1 & Hv1 & Hr1).
  - done.
  - done.
  - unfold access_ok, accepts in *. rewrite E1, E2. destruct_and!. split_and!; auto.
  - lia.
  - done.
  - intros Hown. apply (law_owned d h) in Hown; [lia | done].
  - lia.
  - rewrite bind_Ret. specialize (E4 (d_view d)) as [E4 E5]. rewrite E4 in Hv1.
    assert (Hrun : ∃ d2 h2, run_until_done fuel d1 r h1 = Ret (d2, h2) ∧ d_inv d2 h2 ∧
      d_cur d2 = None ∧ same_shape d1 d2 ∧ d_view d2 ≡ d_view d1 ∧
      answers r (d_view d) (Heap.get h2 (Req.id r))).
    { destruct Hr1 as [Hcur|[Hcur Hrep]].
      - destruct (run_until_done_spec fuel d1 r h1) as (d2 & h2 & ? & ? & ? & ? & ? & Hg);
          [done | done | |].
        + pose proof (law_bound _ _ Hi1). destruct Hsh1 as (Hb1 & _). lia.
        + exists d2, h2. split_and!; [done..|]. rewrite Hv1, <- E4, answers_apply in Hg. done.
      - exists d1, h1. split_and!; try done.
        destruct fuel; cbn [run_until_done]; by rewrite is_done_get, (answers_done _ _ _ Hrep). }
    destruct Hrun as (d2 & h2 & -> & Hi2 & Hc2 & Hsh2 & Hv2 & Hg). rewrite bind_Ret.
    exists d2, h2. apply answers_exact in Hg. rewrite Hg, E5. split_and!; [done..| by eapply same_shape_trans |].
    by rewrite Hv2, Hv1.
Qed.

Lemma answer_proper v w a : v ≡ w → answer v a = answer w a.
Proof.
  intros E. destruct a; cbn [answer]; [|done]. apply list_fmap_ext. intros i x _. by apply E.
Qed.
Lemma after_proper v w a : v ≡ w → after v a ≡ after w a.
Proof. intros E. destruct a; cbn [after]; [done | by rewrite E]. Qed.

Lemma flat_client_proper accesses v w : v ≡ w →
  (flat_client v accesses).1 = (flat_client w accesses).1 ∧
  (flat_client v accesses).2 ≡ (flat_client w accesses).2.
Proof.
  revert v w. induction accesses as [|a l IH]; intros v w E; cbn [flat_client fst snd]; [done|].
  destruct (IH _ _ (after_proper v w a E)) as [E1 E2]. by rewrite E1, (answer_proper v w a E).
Qed.

Lemma client_spec fuel d accesses h :
  d_inv d h → d_cur d = None → Forall (access_ok d) accesses → (d_bound d < fuel)%nat →
  ∃ d' h', client fuel d accesses h = Ret ((flat_client (d_view d) accesses).1, d', h') ∧
    d_inv d' h' ∧ d_cur d' = None ∧ d_view d' ≡ (flat_client (d_view d) accesses).2.
Proof.
  revert d h. induction accesses as [|a l IH]; intros d h Hi Hc Ha Hf; cbn [client].
  { by exists d, h. }
  inversion Ha as [|? ? Ha1 Hal]; subst.
  destruct (perform_spec fuel d a h) as (d1 & h1 & -> & Hi1 & Hc1 & Hsh & Hv1); [done..|].
  rewrite bind_Ret. destruct (IH d1 h1) as (d2 & h2 & -> & Hi2 & Hc2 & Hv2).
  - done.
  - done.
  - eapply Forall_impl; [exact Hal|]. intros a' Ha'. by eapply accepts_shape.
  - destruct Hsh as (-> & _). done.
  - rewrite bind_Ret. destruct (flat_client_proper l _ _ Hv1) as [E1 E2].
    exists d2, h2. cbn [flat_client fst snd]. rewrite <- E1. split_and!; try done.
    by rewrite Hv2.
Qed.
End client_facts.

(** * Heap steps *)

Section heap_step_facts.
Lemma heap_step_refl (P Q : nat → Prop) h : (∀ id, Q id → P id) → heap_step P Q h h.
Proof. intros HQ. split_and!; [done | by right | by left; apply HQ]. Qed.

Lemma heap_step_trans (P Q R : nat → Prop) h1 h2 h3 :
  (∀ id, Q id → P id ∨ (next_id h1 ≤ id)%nat) →
  heap_step P Q h1 h2 → heap_step Q R h2 h3 → heap_step P R h1 h3.
Proof.
  intros HQ (Hn1 & Hk1 & _) (Hn2 & Hk2 & Ho2). split_and!; [lia| |].
  - intros id Hid. destruct (Hk1 id Hid) as [?|E1]; [by left|].
    destruct (Hk2 id) as [Hq|E2]; [lia| |right; congruence].
    destruct (HQ id Hq) as [?|?]; [by left | lia].
  - intros id HR. destruct (Ho2 id HR) as [Hq|?]; [|right; lia].
    destruct (HQ id Hq) as [?|?]; [by left | by right].
Qed.

Lemma heap_step_weaken (P P' Q Q' : nat → Prop) h h' :
  (∀ id, P id → P' id) → (∀ id, Q' id → Q id ∨ P' id ∨ (next_id h ≤ id)%nat) →
  heap_step P Q h h' → heap_step P' Q' h h'.
Proof.
  intros HP HQ (Hn & Hk & Ho). split_and!; [done| |].
  - intros id Hid. destruct (Hk id Hid); [left; by apply HP | by right].
  - intros id H'. destruct (HQ id H') as [Hq|[?|?]]; [|by left | by right].
    destruct (Ho id Hq); [left; by apply HP | by right].
Qed.

(** a cell outside the footprint keeps its content *)
Lemma heap_step_get P Q h h' id : heap_step P Q h h' → (id < next_id h)%nat → ¬ P id →
  Heap.get h' id = Heap.get h id.
Proof. intros (_ & Hk & _) Hid HP. by destruct (Hk id Hid). Qed.
Lemma heap_step_owns (P Q : nat → Prop) h h' id : heap_step P Q h h' → (id < next_id h)%nat →
  ¬ P id → ¬ Q id.
Proof. intros (_ & _ & Ho) Hid HP HQ. destruct (Ho id HQ); [done | lia]. Qed.
Lemma heap_step_live P Q h h' r : heap_step P Q h h' → live r h → ¬ P (Req.id r) → live r h'.
Proof.
  intros Hst [Hid Hd] HP. eapply live_frame; [done | by destruct Hst | by eapply heap_step_get].
Qed.
End heap_step_facts.
