(* ===== verification/MemoryDevices.v ===== *)
(** The two main memories, [SimpleMem] and [SimpleDram], meet the device contract. *)
From S2P Require Import Prelude Word AbstractMem SimpleMem Dram Device.
From stdpp Require Import base gmap numbers list.
From Stdlib Require Import Lia.
#[local] Open Scope Z_scope.
#[local] Coercion Z.of_nat : nat >-> Z.

(** a memory ticks itself *)
#[export] Instance SimpleMem_Device : Device SimpleMem := { cycle := tick }.
#[export] Instance SimpleDram_Device `{Profile} : Device SimpleDram := { cycle := tick }.

(** the heap effect of serving the request in flight *)
Lemma heap_step_serve (r : MemoryReqType) c h :
  heap_step (λ id, id = Req.id r) (λ _, False) h (Heap.set (Req.id r) c h).
Proof.
  split_and!; [done | | done]. intros id _. destruct (decide (id = Req.id r)) as [->|]; [by left|].
  right. by apply get_set_ne.
Qed.

Module SimpleMemLaws.
Definition inv (m : SimpleMem) (h : heap) : Prop :=
  (stall_countdown m ≤ MAIN_MEM_LATENCY)%nat ∧
  match SimpleMem.pending_req m with
  | None => True
  | Some r => in_bounds m r ∧ req_wf r ∧ live r h
  end.
Definition contents (m : SimpleMem) : view :=
  match SimpleMem.pending_req m with
  | None => view_of (SimpleMem.data m)
  | Some r => view_apply r (view_of (SimpleMem.data m))
  end.
Definition busy (m : SimpleMem) : nat :=
  match SimpleMem.pending_req m with None => 0 | Some _ => S (stall_countdown m) end.
Definition span (m : SimpleMem) : Z := Z.min MEM_SIZE (length (SimpleMem.data m)).
Definition owns (cur : option MemoryReqType) (id : nat) : Prop :=
  match cur with None => False | Some r => id = Req.id r end.

#[export] Program Instance laws : DeviceLaws (RG := everywhere) SimpleMem := {|
  d_inv := inv;
  d_view := contents;
  d_cur := SimpleMem.pending_req;
  d_owns m := owns (SimpleMem.pending_req m);
  d_busy := busy;
  d_bound _ := 16%nat;
  d_span := span;
  d_grain m := Z.to_nat (span m);
|}.
Next Obligation.
  intros m h id [_ Hi] Ho. destruct (SimpleMem.pending_req m) as [r|]; [|done].
  destruct Hi as (_ & _ & ? & _). by rewrite Ho.
Qed.
Next Obligation.
  intros m h [Hs _]. unfold busy. destruct (SimpleMem.pending_req m); [|lia].
  unfold MAIN_MEM_LATENCY in Hs. lia.
Qed.
Next Obligation.
  intros m h h' [Hs Hi] Hn Hk. split; [done|]. destruct (SimpleMem.pending_req m) as [r|]; [|done].
  destruct Hi as (? & ? & ?). split_and!; [done..|]. eapply live_frame; [done..|]. by apply Hk.
Qed.
Next Obligation.
  intros m h r [Hs Hi] Hc. rewrite Hc in *. by destruct Hi as (_ & _ & _ & ?).
Qed.
Next Obligation.
  intros m h r [Hs Hi] (Hp & Hg & _ & Ha & Hsp & Hwf) Hid Hd Ho. cbn.
  assert (0 < Req.get_len r) as Hpos.
  { unfold is_power_of_two in Hp. apply andb_true_iff in Hp as [Hp _]. by apply Z.ltb_lt. }
  unfold SimpleMemory.try_register_req, span in *. rewrite (proj2 (Z.ltb_lt _ _)) by lia. cbn.
  unfold contents, busy, inv. destruct (SimpleMem.pending_req m) as [r'|] eqn:Ep.
  - eexists _, _, _. split; [reflexivity|]. cbn. split_and!; [done..|lia].
  - eexists _, _, _. split; [reflexivity|]. cbn. split_and!; try done.
    + unfold in_bounds. cbn. lia.
    + split_and!; [done | by right | intros id ->; left; by right].
    + by left.
Qed.
Next Obligation.
  intros m h [Hs Hi]. change (cycle m h) with (SimpleMemory.tick m h). unfold contents, busy.
  destruct (SimpleMem.pending_req m) as [r|] eqn:Ep.
  - destruct Hi as (Hb & Hwf & Hl & Hd). destruct (stall_countdown m) as [|n] eqn:En.
    + destruct (tick_serve m r h) as (d & -> & Hlen & Hv); [done..|].
      eexists _, _. split; [reflexivity|]. unfold SimpleMemory.served, inv, span. cbn -[Heap.get Heap.set].
      rewrite Hlen. split_and!; try done; [lia | by apply view_eq_everywhere | apply heap_step_serve |].
      right. split_and!; [done | tauto |]. rewrite get_set_eq. apply answers_apply, answers_reply.
    + rewrite (tick_stall m r n) by done. eexists _, _. split; [reflexivity|].
      unfold SimpleMemory.with_stall, inv, span. cbn -[Heap.get Heap.set]. rewrite Ep. split_and!; try done; [lia | |left; split; [done|lia]].
      split_and!; [done | by right | by left].
  - unfold SimpleMemory.tick. rewrite Ep. eexists _, _. split; [reflexivity|]. cbn. rewrite Ep.
    split_and!; try done; [by split; rewrite ?Ep| | by left].
    split_and!; [done | by right | done].
Qed.
End SimpleMemLaws.

Module SimpleDramLaws.
Import SimpleMemLaws DramInv.

Section laws.
Context `{Profile}.

Definition inv (d : SimpleDram) (h : heap) : Prop :=
  DramInv.ok d ∧ match pending_req d with None => True | Some r => live r h end.
Definition contents (d : SimpleDram) : view :=
  match pending_req d with
  | None => view_of (data d)
  | Some r => view_apply r (view_of (data d))
  end.
Definition busy (d : SimpleDram) : nat := Z.to_nat (remaining d).
Definition bound (d : SimpleDram) : nat :=
  Z.to_nat (t_rp (timing d) + t_rcd (timing d) + t_cl (timing d)).
Definition span (d : SimpleDram) : Z := length (data d).

Lemma remaining_bound d : DramInv.ok d →
  0 ≤ remaining d ≤ t_rp (timing d) + t_rcd (timing d) + t_cl (timing d) ∧
  (pending_req d = None → remaining d = 0).
Proof.
  intros [([? ?] & [? ?] & [? ?]) _ Hb]. unfold remaining. destruct (pending_req d) as [r|]; [|lia].
  destruct Hb as (_ & _ & Hs). unfold serving, running in Hs. split; [|done].
  destruct (bank d); try case_match; lia.
Qed.
End laws.

#[export] Program Instance laws `{Profile} : DeviceLaws (RG := everywhere) SimpleDram := {|
  d_inv := inv;
  d_view := contents;
  d_cur := pending_req;
  d_owns d := owns (pending_req d);
  d_busy := busy;
  d_bound := bound;
  d_span := span;
  d_grain d := length (data d);
|}.
Next Obligation.
  intros P d h id [_ Hi] Ho. destruct (pending_req d) as [r|]; [|done].
  destruct Hi as (? & _). by rewrite Ho.
Qed.
Next Obligation.
  intros P d h [Hok _]. destruct (remaining_bound d Hok). unfold busy, bound. lia.
Qed.
Next Obligation.
  intros P d h h' [Hs Hi] Hn Hk. split; [done|]. destruct (pending_req d) as [r|]; [|done].
  eapply live_frame; [done..|]. by apply Hk.
Qed.
Next Obligation. intros P d h r [Hs Hi] Hc. rewrite Hc in *. by destruct Hi as (_ & ?). Qed.
Next Obligation.
  intros P d h r [Hok Hi] (Hp & Hg & _ & Ha & Hsp & Hwf) Hid Hd Ho. cbn.
  unfold Dram.try_register_req, span in *. rewrite (proj2 (Z.leb_le _ _)) by lia. cbn.
  destruct (remaining_bound d Hok) as [Hrb _].
  unfold contents, inv in *. destruct (pending_req d) as [r'|] eqn:Ep.
  - eexists _, _, _. split; [reflexivity|]. cbn. split_and!; try done. unfold busy.
    destruct (tick_spec d r' h Hok Ep) as (? & ? & _ & _ & [(_ & _ & _ & _ & _ & ?)|[? _]]); lia.
  - eexists _, _, _. split; [reflexivity|]. cbn. split_and!; try done.
    + destruct Hok as [Ht Hr Hb]. rewrite Ep in Hb. apply ok_intro; try done.
      unfold serving. cbn. by destruct (bank d).
    + split_and!; [done | by right | intros id ->; left; by right].
    + by left.
Qed.
Next Obligation.
  intros P d h [Hok Hi]. change (cycle d h) with (Dram.tick d h). unfold contents, busy, bound, span.
  destruct (pending_req d) as [r|] eqn:Ep.
  - destruct (tick_spec d r h Hok Ep) as (d' & h' & -> & (Ht & _ & _ & _) & Hst).
    exists d', h'. split; [done|]. unfold inv.
    destruct Hst as [(-> & Hok' & Hp' & Hd' & Hr' & ?)|[Hone (-> & Hok' & Hp' & Hl' & _ & Hv')]].
    + rewrite Hp', Hd', Ht. split_and!; try done; [by split_and!; [|right|left]..|].
      left. split; [done|]. lia.
    + rewrite Hp', Hl', Ht. split_and!; try done; [by apply view_eq_everywhere | apply heap_step_serve|]. right.
      split_and!; [done | tauto |]. rewrite get_set_eq. apply answers_apply, answers_reply.
  - rewrite tick_idle by done. exists d, h. unfold inv. rewrite Ep.
    destruct (remaining_bound d Hok) as [_ ->]; [|done].
    split_and!; try done; [by split_and!; [|right|] | by left].
Qed.
End SimpleDramLaws.

#[export] Existing Instance SimpleMemLaws.laws.
#[export] Existing Instance SimpleDramLaws.laws.
