(* ===== verification/CacheView.v ===== *)
(** What a cache holds, as an overlay on the contents of the next level, and how the
    operations of [GeneralCache.v] on its sets change it. *)
From S2P Require Import Prelude Word AbstractMem ReplacementPolicy CacheConfig CacheSet LowerMemory GeneralCache CacheAddress Device.
From stdpp Require Import base numbers sets list.
From Stdlib Require Import Lia.
#[local] Open Scope Z_scope.
#[local] Coercion Z.of_nat : nat >-> Z.

(** * One set *)

Section set_view.
Context {RP : Type} `{ReplacementLaws RP}.
Implicit Type s : GeneralCacheSetUnit RP.

Definition way_of s (t : Z) : option nat :=
  match CacheSet.find_way s t (seq 0 (num_associativity s)) with
  | Ret w => w
  | Panic _ => None
  end.
(** byte [k] of the block of tag [t], when the set holds it *)
Definition set_cached s (t : Z) (k : nat) : option Z := w ← way_of s t; way_bytes s w !! k.

Context {ways bs : nat} {tags : Z}.
Abbreviation ok := (set_ok ways bs tags).

Lemma way_of_spec s t : ok s →
  (∃ w, hits s t w ∧ way_of s t = Some w) ∨ ((∀ w, ¬ hits s t w) ∧ way_of s t = None).
Proof.
  intros Hs. unfold way_of. rewrite (so_ways _ _ _ _ Hs).
  destruct (find_way_spec ways bs tags s t (seq 0 ways) Hs) as [(w & _ & Hh & ->)|[Hn ->]].
  { intros w Hw%elem_of_seq. lia. }
  - left. by exists w.
  - right. split; [|done]. intros w Hh. apply (Hn w); [|done]. apply elem_of_seq.
    pose proof (hits_lt _ _ _ _ _ _ Hs Hh). lia.
Qed.

Lemma set_cached_hit s t w k : ok s → hits s t w → set_cached s t k = way_bytes s w !! k.
Proof.
  intros Hs Hh. unfold set_cached. destruct (way_of_spec s t Hs) as [(w' & Hh' & ->)|[Hn _]].
  - cbn. by rewrite (so_unique _ _ _ _ Hs _ _ _ Hh' Hh).
  - by destruct (Hn w).
Qed.
Lemma set_cached_miss s t k : ok s → (∀ w, ¬ hits s t w) → set_cached s t k = None.
Proof.
  intros Hs Hn. unfold set_cached. destruct (way_of_spec s t Hs) as [(w & Hh & _)|[_ ->]]; [|done].
  by destruct (Hn w).
Qed.
End set_view.

(** sets with the same blocks *)
Definition same_blocks {RP} (s s' : GeneralCacheSetUnit RP) : Prop :=
  num_associativity s' = num_associativity s ∧
  (∀ t w, hits s' t w ↔ hits s t w) ∧
  (∀ w, (w < num_associativity s)%nat → way_bytes s' w = way_bytes s w).

Section set_facts.
Context {RP : Type} `{ReplacementLaws RP} {bs : nat} {tags : Z}.
Implicit Type s : GeneralCacheSetUnit RP.
Abbreviation ok s := (set_ok (num_associativity s) bs tags s).

Lemma same_blocks_cached s s' t k : ok s → ok s' → same_blocks s s' →
  set_cached s' t k = set_cached s t k.
Proof.
  intros Hs Hs' (Hn & Hh & Hb). destruct (way_of_spec s t Hs) as [(w & Hw & _)|[Hm _]].
  - rewrite (set_cached_hit s t w k Hs Hw), (set_cached_hit s' t w k Hs') by (by apply Hh).
    rewrite Hb; [done|]. by eapply hits_lt.
  - rewrite (set_cached_miss s t k Hs Hm), (set_cached_miss s' t k Hs'); [done|].
    intros w Hw%Hh. by apply (Hm w).
Qed.

Lemma same_blocks_rp s r : same_blocks s (CacheSet.with_rp r s).
Proof. done. Qed.
End set_facts.

(** * The whole cache *)

Section cache_view.
Context `{RG : Region} {RP : Type} `{ReplacementLaws RP}.
Implicit Type c : GeneralCache RP.

Definition tag c := tag_of (offset_bit_width c) (index_bit_width c).
Definition idx c := index_of (offset_bit_width c) (index_bit_width c).
Definition off c := offset_of (offset_bit_width c).
Definition base c := base_of (offset_bit_width c).
Definition addr_of c := address (offset_bit_width c) (index_bit_width c).
Definition bs c : nat := Z.to_nat (2 ^ offset_bit_width c).
Definition tags c : Z := 2 ^ (32 - offset_bit_width c - index_bit_width c).

(** the cached byte at an address *)
Definition cached c (a : Z) : option Z := s ← set c !! idx c a; set_cached s (tag c a) (off c a).
(** the cache over the contents [v] of the next level *)
Definition overlay c (v : view) : view :=
  λ a, match cached c a with Some b => b | None => v a end.

Definition config c : Prop :=
  widths (offset_bit_width c) (index_bit_width c) ∧
  block_size_bytes c = 2 ^ offset_bit_width c ∧
  length (set c) = Z.to_nat (2 ^ index_bit_width c).

(** the configuration fields, which no operation changes *)
Definition same_config c c' : Prop :=
  offset_bit_width c' = offset_bit_width c ∧ index_bit_width c' = index_bit_width c ∧
  block_size_bytes c' = block_size_bytes c ∧ miss_penalty c' = miss_penalty c ∧
  write_policy c' = write_policy c ∧ prefetcher c' = prefetcher c ∧
  length (set c') = length (set c).

Definition sets_ok c : Prop :=
  ∀ x s, set c !! x = Some s → set_ok (num_associativity s) (bs c) (tags c) s.

(** the invariant of the blocks over contents [v], while the way [hole] of a set is being
  replaced: the sets are well formed; in a write-back cache the replacement policy knows
  every block but the replaced one; every clean block, and the replaced one, agrees with
  the next level on the observed addresses; a write-through cache has no dirty block *)
Record store_ok c (hole : option (nat * nat)) (v : view) : Prop := {
  st_sets : sets_ok c;
  st_tracked : Policy.is_write_through (write_policy c) = false →
    ∀ x s t w, set c !! x = Some s → hits s t w → hole = Some (x, w) ∨ tracked_way s w;
  st_agree : ∀ (x : nat) s t w (k : nat), set c !! x = Some s → hits s t w →
    (¬ is_dirty s w ∨ hole = Some (x, w)) → (k < bs c)%nat → observed (addr_of c t x + k) →
    way_bytes s w !! k = Some (v (addr_of c t x + k));
  st_through : Policy.is_write_through (write_policy c) = true →
    ∀ x s w, set c !! x = Some s → ¬ is_dirty s w;
}.
End cache_view.

Section cache_view_facts.
Context `{RG : Region} {RP : Type} `{ReplacementLaws RP}.
Implicit Type c : GeneralCache RP.

Lemma bs_pow c : config c → Z.of_nat (bs c) = 2 ^ offset_bit_width c.
Proof. intros [Hw _]. unfold bs. pose proof (pow_o _ _ Hw). lia. Qed.
Lemma bs_pos c : config c → (0 < bs c)%nat.
Proof. intros [Hw _]. unfold bs. pose proof (pow_o _ _ Hw). lia. Qed.

Lemma set_lookup c a : config c → ∃ s, set c !! idx c a = Some s.
Proof.
  intros (Hw & _ & Hl). apply lookup_lt_is_Some_2. rewrite Hl.
  pose proof (index_range _ _ Hw a). unfold idx. lia.
Qed.

Lemma set_index_lt c (x : nat) s : config c → set c !! x = Some s → x < 2 ^ index_bit_width c.
Proof.
  intros (Hw & _ & Hl) Hx. apply lookup_lt_Some in Hx. pose proof (pow_i _ _ Hw). lia.
Qed.

Lemma off_lt c a : config c → (off c a < bs c)%nat.
Proof.
  intros Hc. pose proof Hc as [Hw _]. pose proof (offset_range _ _ Hw a).
  rewrite <- (bs_pow c Hc) in *. unfold off. lia.
Qed.

Lemma addr_split c a : config c → a = addr_of c (tag c a) (idx c a) + off c a.
Proof. intros [Hw _]. by apply slicing. Qed.

Lemma addr_slices c t (x k : nat) : config c → x < 2 ^ index_bit_width c → (k < bs c)%nat →
  tag c (addr_of c t x + k) = t ∧ idx c (addr_of c t x + k) = x ∧ off c (addr_of c t x + k) = k.
Proof.
  intros Hc Hx Hk. pose proof Hc as [Hw _]. pose proof (bs_pow c Hc).
  destruct (slices_of _ _ Hw t x k) as (? & ? & E); [done | lia |].
  unfold tag, idx, off, addr_of. rewrite E, Nat2Z.id. done.
Qed.

(** ** Lookup of the overlay *)
Lemma overlay_hit c v (x : nat) s t w (k : nat) : config c → sets_ok c → set c !! x = Some s → hits s t w →
  (k < bs c)%nat → Some (overlay c v (addr_of c t x + k)) = way_bytes s w !! k.
Proof.
  intros Hc Hs Hx Hh Hk. pose proof (set_index_lt c x s Hc Hx) as Hlt.
  destruct (addr_slices c t x k Hc Hlt Hk) as (Et & Ex & Eo).
  unfold overlay, cached. rewrite Ex, Hx, Et, Eo. cbn [mbind option_bind].
  rewrite (set_cached_hit s t w k (Hs _ _ Hx) Hh).
  destruct (lookup_lt_is_Some_2 (way_bytes s w) k) as [b Hb]; [|by rewrite Hb].
  rewrite (length_way_bytes (num_associativity s) (bs c) (tags c)); [done | by apply (Hs x) |].
  by eapply hits_lt; [apply (Hs x)|].
Qed.

Lemma overlay_miss c v a s : sets_ok c → set c !! idx c a = Some s →
  (∀ w, ¬ hits s (tag c a) w) → overlay c v a = v a.
Proof.
  intros Hs Hx Hn. unfold overlay, cached. rewrite Hx. cbn [mbind option_bind].
  by rewrite (set_cached_miss s _ _ (Hs _ _ Hx) Hn).
Qed.

(** where an address is cached, or not at all *)
Lemma overlay_cases c a : config c → sets_ok c →
  ∃ s, set c !! idx c a = Some s ∧
    ((∃ w, hits s (tag c a) w) ∨ (∀ w, ¬ hits s (tag c a) w)).
Proof.
  intros Hc Hs. destruct (set_lookup c a Hc) as [s Hx]. exists s. split; [done|].
  destruct (way_of_spec s (tag c a) (Hs _ _ Hx)) as [(w & ? & _)|[? _]]; [left; by exists w | by right].
Qed.

Lemma overlay_proper c v v' : v ≡ v' → overlay c v ≡ overlay c v'.
Proof. intros E a Ha. unfold overlay. destruct (cached c a); [done | by apply E]. Qed.

Lemma store_ok_proper c hole v v' : v ≡ v' → store_ok c hole v → store_ok c hole v'.
Proof.
  intros E [H1 H2 H3 H4]. constructor; [done | done | | done].
  intros x s t w k Hx Hh Hd Hk Ho. rewrite <- (E _ Ho). by eapply H3.
Qed.

(** ** Reading blocks of the overlay *)

(** a range inside one block *)
Definition within c (a : Z) (n : nat) : Prop := (off c a + n ≤ bs c)%nat.

Lemma within_slices c a n (k : nat) : config c → within c a n → (k < n)%nat →
  tag c (a + k) = tag c a ∧ idx c (a + k) = idx c a ∧ off c (a + k) = (off c a + k)%nat.
Proof.
  unfold within. intros Hc Hn Hk. pose proof Hc as [Hw _]. pose proof (bs_pow c Hc).
  destruct (same_block _ _ Hw a k) as (? & ? & E); [lia | unfold off in *; lia |].
  rewrite Nat2Z.id in E. done.
Qed.

Lemma overlay_read_hit c v a n s w : config c → sets_ok c → within c a n →
  set c !! idx c a = Some s → hits s (tag c a) w →
  view_read (overlay c v) a n = take n (drop (off c a) (way_bytes s w)).
Proof.
  intros Hc Hs Hn Hx Hh. unfold within in Hn.
  assert (length (way_bytes s w) = bs c) as Hl.
  { apply (length_way_bytes (num_associativity s) (bs c) (tags c)); [by apply (Hs (idx c a))|].
    by eapply hits_lt; [apply (Hs (idx c a))|]. }
  apply view_read_eq; [rewrite length_take, length_drop; lia|]. intros k Hk.
  rewrite list_lookup_total_alt, lookup_slice by done.
  rewrite <- (overlay_hit c v (idx c a) s (tag c a) w (off c a + k)) by (done || lia). cbn.
  f_equal. pose proof (addr_split c a Hc). lia.
Qed.

Lemma store_tracked c v x s : store_ok c None v → set c !! x = Some s → tracked s None.
Proof.
  intros Hst Hx w Hd. right. pose proof (st_sets _ _ _ Hst x s Hx) as Hs.
  destruct (Policy.is_write_through (write_policy c)) eqn:Hp.
  - by destruct (st_through _ _ _ Hst Hp x s w Hx).
  - pose proof (so_dirty_valid _ _ _ _ Hs w Hd) as Hv.
    destruct (lookup_lt_is_Some_2 (tag_array s) w) as [t Ht].
    { rewrite (so_tags _ _ _ _ Hs), <- (so_valids _ _ _ _ Hs). by eapply lookup_lt_Some. }
    by destruct (st_tracked _ _ _ Hst Hp x s t w Hx); [split| |].
Qed.
End cache_view_facts.

(** * One set replaced *)

Record set_update {RP} (c c' : GeneralCache RP) (x : nat) (s s' : GeneralCacheSetUnit RP) : Prop := {
  su_old : set c !! x = Some s;
  su_new : set c' = <[x:=s']> (set c);
  su_offset : offset_bit_width c' = offset_bit_width c;
  su_index : index_bit_width c' = index_bit_width c;
  su_policy : write_policy c' = write_policy c;
  su_block : block_size_bytes c' = block_size_bytes c;
}.

Section update.
Context `{RG : Region} {RP : Type} `{ReplacementLaws RP}.
Context (c c' : GeneralCache RP) (x : nat) (s s' : GeneralCacheSetUnit RP).
Context (Hu : set_update c c' x s s') (Hc : config c) (Hsets : sets_ok c).
Context (Hways : num_associativity s' = num_associativity s).
Context (Hs' : set_ok (num_associativity s) (bs c) (tags c) s').

Lemma su_lookup y : set c' !! y = if decide (y = x) then Some s' else set c !! y.
Proof using Hu.
  rewrite (su_new _ _ _ _ _ Hu). pose proof (su_old _ _ _ _ _ Hu) as Hx. case_decide.
  - subst. apply list_lookup_insert_eq. by eapply lookup_lt_Some.
  - by apply list_lookup_insert_ne.
Qed.

Lemma su_config : config c'.
Proof using Hu Hc.
  destruct Hu, Hc as (? & ? & ?). unfold config. rewrite su_offset0, su_index0, su_block0, su_new0.
  by rewrite length_insert.
Qed.
Lemma su_slices : tag c' = tag c ∧ idx c' = idx c ∧ off c' = off c ∧ bs c' = bs c ∧
  tags c' = tags c ∧ addr_of c' = addr_of c.
Proof using Hu.
  destruct Hu. unfold tag, idx, off, bs, tags, addr_of. rewrite su_offset0, su_index0. done.
Qed.

Lemma su_sets : sets_ok c'.
Proof using Hu Hsets Hways Hs'.
  destruct su_slices as (_ & _ & _ & E1 & E2 & _). intros y s1 Hy. rewrite E1, E2. rewrite su_lookup in Hy.
  case_decide; [|by eapply Hsets]. injection Hy as <-. by rewrite Hways.
Qed.

Lemma su_old_ok : set_ok (num_associativity s) (bs c) (tags c) s.
Proof using Hu Hsets. eapply Hsets, (su_old _ _ _ _ _ Hu). Qed.

(** addresses of other sets, or blocks the update does not touch *)
Lemma su_overlay_other v a :
  (idx c a = x → set_cached s' (tag c a) (off c a) = set_cached s (tag c a) (off c a)) →
  overlay c' v a = overlay c v a.
Proof using Hu.
  intros E. destruct su_slices as (Et & Ei & Eo & _). unfold overlay, cached.
  rewrite Et, Ei, Eo, su_lookup. case_decide as Hd; [|done].
  pose proof (su_old _ _ _ _ _ Hu) as Hx. rewrite <- Hd in Hx. rewrite Hx. cbn. by rewrite E.
Qed.

(** only the policy's state changed *)
Lemma su_overlay_same v : same_blocks s s' → overlay c' v ≡ overlay c v.
Proof using All.
  intros Hb a _. apply su_overlay_other. intros _.
  apply (same_blocks_cached (bs := bs c) (tags := tags c)); [apply su_old_ok | by rewrite Hways | done].
Qed.

Lemma su_store_same hole hole' v :
  same_blocks s s' → (∀ w, is_dirty s' w ↔ is_dirty s w) →
  (∀ y w, hole = Some (y, w) → hole' = Some (y, w)) →
  (∀ y w, hole' = Some (y, w) → hole = Some (y, w) ∨ y = x ∧ ∀ t, hits s t w → ¬ is_dirty s w) →
  (Policy.is_write_through (write_policy c) = false →
   ∀ t w, hits s t w → tracked_way s w → hole' = Some (x, w) ∨ tracked_way s' w) →
  store_ok c hole v → store_ok c' hole' v.
Proof using Hu Hsets Hways Hs'.
  intros (_ & Hh & Hb) Hd Hle Hhole Htr [H1 H2 H3 H4].
  destruct su_slices as (_ & _ & _ & Ebs & _ & Ea).
  pose proof (su_old _ _ _ _ _ Hu) as Hx. constructor.
  - apply su_sets.
  - rewrite (su_policy _ _ _ _ _ Hu). intros Hp y s1 t w Hy Hw. rewrite su_lookup in Hy.
    case_decide as Hyx.
    + injection Hy as <-. subst y. apply Hh in Hw.
      destruct (H2 Hp x s t w Hx Hw) as [?|?]; [left; by apply Hle | by eapply (Htr Hp)].
    + destruct (H2 Hp y s1 t w Hy Hw) as [?|?]; [left; by apply Hle | by right].
  - rewrite Ebs, Ea. intros y s1 t w k Hy Hw Hcl Hk Ho. rewrite su_lookup in Hy. case_decide as Hyx.
    + injection Hy as <-. subst y. apply Hh in Hw.
      rewrite Hb by (eapply hits_lt; [apply su_old_ok | done]).
      eapply H3; try done. destruct Hcl as [Hcl|Hcl]; [left; by rewrite <- Hd|].
      destruct (Hhole _ _ Hcl) as [?|[_ Hn]]; [by right|]. left. by eapply Hn.
    + eapply H3; try done. destruct Hcl as [?|Hcl]; [by left|].
      destruct (Hhole _ _ Hcl) as [?|[? _]]; [by right | done].
  - rewrite (su_policy _ _ _ _ _ Hu). intros Hp y s1 w Hy. rewrite su_lookup in Hy.
    case_decide; [|by eapply H4]. injection Hy as <-. rewrite Hd. by eapply H4.
Qed.
End update.

(** * A store into a cached block *)

Section write.
Context `{RG : Region} {RP : Type} `{ReplacementLaws RP}.
Context (c : GeneralCache RP) (Hc : config c) (a : Z) (n : nat) (Hn : within c a n).

(** an address of the stored range is in the block, at the right offset *)
Lemma in_range_slices b : a ≤ b < a + n →
  tag c b = tag c a ∧ idx c b = idx c a ∧ Z.of_nat (off c b) = off c a + (b - a).
Proof using All.
  intros Hb. destruct (within_slices c a n (Z.to_nat (b - a)) Hc Hn) as (Et & Ei & Eo); [lia|].
  replace (a + Z.to_nat (b - a)) with b in * by lia. rewrite Et, Ei, Eo. split_and!; lia.
Qed.

Lemma range_by_offset b : tag c b = tag c a → idx c b = idx c a →
  a ≤ b < a + n ↔ (off c a ≤ off c b < off c a + n)%nat.
Proof using Hc.
  intros Et Ei. pose proof (addr_split c a Hc). pose proof (addr_split c b Hc) as Eb.
  rewrite Et, Ei in Eb. lia.
Qed.

(** a store outside a block does not change it *)
Lemma view_write_other v d b : length d = n → tag c b ≠ tag c a ∨ idx c b ≠ idx c a →
  view_write v a d b = v b.
Proof using All.
  intros Hd Hne. unfold view_write. rewrite decide_False; [done|]. rewrite Hd. intros Hb.
  destruct (in_range_slices b Hb) as (? & ? & _). by destruct Hne.
Qed.

Context (c' : GeneralCache RP) (s s' : GeneralCacheSetUnit RP) (w : nat) (d : list Z).
Context (Hu : set_update c c' (idx c a) s s') (Hsets : sets_ok c).
Context (Hways : num_associativity s' = num_associativity s).
Context (Hs' : set_ok (num_associativity s) (bs c) (tags c) s').
Context (Hd : length d = n) (Hw : hits s (tag c a) w).
Context (Hhits : ∀ t w', hits s' t w' ↔ hits s t w').
Context (Hblk : way_bytes s' w =
  take (off c a) (way_bytes s w) ++ d ++ drop (off c a + n) (way_bytes s w)).
Context (Hother : ∀ w', w' ≠ w → (w' < num_associativity s)%nat → way_bytes s' w' = way_bytes s w').

Lemma write_way_lookup k : (k < bs c)%nat → way_bytes s' w !! k =
  if decide (off c a ≤ k < off c a + n)%nat then d !! (k - off c a)%nat else way_bytes s w !! k.
Proof using All.
  intros Hk. rewrite Hblk. apply lookup_write_slice; [|done].
  rewrite (length_way_bytes (num_associativity s) (bs c) (tags c)); [exact Hn | |].
  - by eapply su_old_ok.
  - eapply hits_lt; [by eapply su_old_ok | done].
Qed.

Lemma write_overlay v : overlay c' v ≡ view_write (overlay c v) a d.
Proof using All.
  intros b _. destruct (su_slices _ _ _ _ _ Hu) as (Et & Ei & Eo & Ebs & _ & Ea).
  pose proof (su_old _ _ _ _ _ Hu) as Hx.
  assert (set c' !! idx c a = Some s') as Hx'.
  { rewrite (su_lookup _ _ _ _ _ Hu). by rewrite decide_True. }
  destruct (decide (idx c b = idx c a ∧ tag c b = tag c a)) as [[Hi Ht]|Hne].
  - pose proof (off_lt c b Hc) as Hk.
    pose proof (addr_split c b Hc) as Eb. rewrite Hi, Ht in Eb.
    assert (Hb' : Some (overlay c' v b) = way_bytes s' w !! off c b).
    { rewrite Eb at 1. rewrite <- Ea.
      apply (overlay_hit c' v (idx c a) s' (tag c a)); [by eapply su_config | by eapply su_sets | done | by apply Hhits | by rewrite Ebs]. }
    assert (Hb : Some (overlay c v b) = way_bytes s w !! off c b).
    { rewrite Eb at 1. by apply (overlay_hit c v (idx c a) s (tag c a)). }
    apply (inj Some). rewrite Hb', write_way_lookup by done. unfold view_write. rewrite Hd.
    pose proof (range_by_offset b Ht Hi) as Hr. case_decide as H1.
    + rewrite decide_True by (by apply Hr). rewrite list_lookup_lookup_total_lt by lia.
      do 2 f_equal. pose proof (in_range_slices b (proj2 Hr H1)) as (_ & _ & ?). lia.
    + rewrite decide_False by (by rewrite Hr). by rewrite Hb.
  - assert (tag c b ≠ tag c a ∨ idx c b ≠ idx c a) as Hne'.
    { destruct (decide (tag c b = tag c a)); [right; intros ?; by apply Hne | by left]. }
    rewrite view_write_other by done. apply (su_overlay_other c c' (idx c a) s s' Hu).
    intros Hi. destruct (way_of_spec s (tag c b) (su_old_ok _ _ _ _ _ Hu Hsets)) as [(w' & Hw' & _)|[Hm _]].
    + rewrite (set_cached_hit s _ w' _ (su_old_ok _ _ _ _ _ Hu Hsets) Hw').
      rewrite (set_cached_hit s' _ w' _ Hs') by (by apply Hhits). rewrite Hother; [done| |].
      * intros ->. apply Hne. split; [done|]. destruct Hw' as [_ E1], Hw as [_ E2]. congruence.
      * eapply hits_lt; [by eapply su_old_ok | done].
    + rewrite (set_cached_miss s _ _ (su_old_ok _ _ _ _ _ Hu Hsets) Hm).
      rewrite (set_cached_miss s' _ _ Hs'); [done|]. intros w' Hw'%Hhits. by apply (Hm w').
Qed.

(** the invariant after a write-back store, which marks the block dirty *)
Lemma write_store_back v :
  Policy.is_write_through (write_policy c) = false →
  (∀ w', is_dirty s' w' ↔ is_dirty s w' ∨ w' = w) → rp_valid (rp s') = rp_valid (rp s) →
  store_ok c None v → store_ok c' None v.
Proof using All.
  intros Hp Hdirty Hrp [H1 H2 H3 H4]. destruct (su_slices _ _ _ _ _ Hu) as (_ & _ & _ & Ebs & _ & Ea).
  pose proof (su_old _ _ _ _ _ Hu) as Hx. constructor.
  - by eapply su_sets.
  - intros _ y s1 t w' Hy Hw'. rewrite (su_lookup _ _ _ _ _ Hu) in Hy. case_decide.
    + injection Hy as <-. apply Hhits in Hw'. unfold tracked_way. rewrite Hrp.
      by destruct (H2 Hp (idx c a) s t w' Hx Hw'); [|right].
    + by eapply H2.
  - rewrite Ebs, Ea. intros y s1 t w' k Hy Hw' [Hcl|[=]] Hk Ho. rewrite (su_lookup _ _ _ _ _ Hu) in Hy.
    case_decide; [|by eapply H3; eauto]. injection Hy as <-. subst y. apply Hhits in Hw'.
    rewrite Hdirty in Hcl. rewrite Hother; [|intros ->; apply Hcl; by right | eapply hits_lt; [by eapply su_old_ok|done]].
    eapply H3; eauto.
  - rewrite (su_policy _ _ _ _ _ Hu). congruence.
Qed.

(** and after a write-through store, over the contents that the propagated store will leave *)
Lemma write_store_through v :
  Policy.is_write_through (write_policy c) = true →
  (∀ w', is_dirty s' w' ↔ is_dirty s w') →
  store_ok c None v → store_ok c' None (view_write v a d).
Proof using All.
  intros Hp Hdirty [H1 H2 H3 H4]. destruct (su_slices _ _ _ _ _ Hu) as (_ & _ & _ & Ebs & _ & Ea).
  pose proof (su_old _ _ _ _ _ Hu) as Hx. constructor.
  - by eapply su_sets.
  - rewrite (su_policy _ _ _ _ _ Hu). congruence.
  - rewrite Ebs, Ea. intros y s1 t w' k Hy Hw' [_|[=]] Hk Ho. rewrite (su_lookup _ _ _ _ _ Hu) in Hy.
    assert (Hy0 : ∃ s0, set c !! y = Some s0) by (case_decide; [subst; by exists s | by exists s1]).
    destruct Hy0 as [s0 Hy0]. pose proof (set_index_lt c y s0 Hc Hy0) as Hlt.
    destruct (addr_slices c t y k Hc Hlt Hk) as (Et & Ei & Eo).
    case_decide as Hyx.
    + injection Hy as <-. subst y. apply Hhits in Hw'. destruct (decide (w' = w)) as [->|Hne].
      * rewrite write_way_lookup by done. assert (t = tag c a) as -> by (destruct Hw' as [_ ?], Hw as [_ ?]; congruence).
        unfold view_write. rewrite Hd.
        pose proof (range_by_offset (addr_of c (tag c a) (idx c a) + k)) as Hr. rewrite Et, Ei, Eo in Hr.
        specialize (Hr eq_refl eq_refl). case_decide as H5.
        -- rewrite decide_True by (by apply Hr). rewrite list_lookup_lookup_total_lt by lia.
           do 2 f_equal. pose proof (in_range_slices _ (proj2 Hr H5)) as (_ & _ & E). rewrite Eo in E. lia.
        -- rewrite decide_False by (by rewrite Hr). eapply H3; eauto.
      * rewrite Hother; [|done | eapply hits_lt; [by eapply su_old_ok|done]].
        rewrite view_write_other by (first [done | left; rewrite Et; intros ->;
          by apply Hne, (so_unique _ _ _ _ (su_old_ok _ _ _ _ _ Hu Hsets) _ _ _ Hw' Hw)]).
        eapply H3; eauto.
    + rewrite view_write_other by (first [done | right; by rewrite Ei]). eapply H3; eauto.
  - intros _ y s1 w' Hy. rewrite (su_lookup _ _ _ _ _ Hu) in Hy. case_decide; [|by eapply H4].
    injection Hy as <-. rewrite Hdirty. by eapply H4.
Qed.
End write.

Section blocks.
Context {RP : Type}.
Implicit Type c : GeneralCache RP.

Lemma block_slices c t (y : nat) : config c → y < 2 ^ index_bit_width c →
  tag c (addr_of c t y) = t ∧ idx c (addr_of c t y) = y ∧ off c (addr_of c t y) = 0%nat.
Proof.
  intros Hc Hy. destruct (addr_slices c t y 0 Hc Hy (bs_pos c Hc)) as (E1 & E2 & E3).
  by rewrite Z.add_0_r in E1, E2, E3.
Qed.
Lemma within_block c t (y : nat) : config c → y < 2 ^ index_bit_width c →
  within c (addr_of c t y) (bs c).
Proof.
  intros Hc Hy. unfold within. destruct (block_slices c t y Hc Hy) as (_ & _ & E). rewrite E. lia.
Qed.
End blocks.

(** * Misses: victims, refills and bypassing stores *)

Section miss.
Context `{RG : Region} {RP : Type} `{ReplacementLaws RP}.
Context (c c' : GeneralCache RP) (x : nat) (s s' : GeneralCacheSetUnit RP).
Context (Hu : set_update c c' x s s') (Hc : config c) (Hsets : sets_ok c).
Context (Hways : num_associativity s' = num_associativity s).
Context (Hs' : set_ok (num_associativity s) (bs c) (tags c) s').

(** the dirty victim [w] written back: the contents then hold its bytes *)
Section victim.
Context (w : nat) (t0 : Z) (Hw : hits s t0 w) (Hb : same_blocks s s').
Context (Hd : ∀ w', is_dirty s' w' ↔ is_dirty s w').
Context (Hrp : rp_valid (rp s') = <[w:=false]> (rp_valid (rp s))).

Definition written (v : view) : view := view_write v (addr_of c t0 x) (way_bytes s w).

Lemma length_victim : length (way_bytes s w) = bs c.
Proof using All.
  apply (length_way_bytes (num_associativity s) (bs c) (tags c)); [by eapply su_old_ok|].
  eapply hits_lt; [by eapply su_old_ok | done].
Qed.

Lemma tracked_other w' t : hits s t w' → tracked_way s w' → Some (x, w) = Some (x, w') ∨ tracked_way s' w'.
Proof using Hrp.
  intros _ Ht. destruct (decide (w' = w)) as [->|]; [by left|right].
  unfold tracked_way. rewrite Hrp. by rewrite list_lookup_insert_ne.
Qed.

Lemma clean_victim_store v : (∀ t, hits s t w → ¬ is_dirty s w) → store_ok c None v →
  store_ok c' (Some (x, w)) v.
Proof using Hu Hsets Hways Hs' Hb Hd Hrp.
  intros Hcl Hst. apply (su_store_same c c' x s s' Hu Hsets Hways Hs' None); try done.
  - intros y w' [= <- <-]. right. by split.
  - intros _ t w' Hh Ht. by eapply tracked_other.
Qed.

Lemma dirty_victim_store v : store_ok c None v → store_ok c' (Some (x, w)) (written v).
Proof using All.
  intros [H1 H2 H3 H4]. destruct (su_slices _ _ _ _ _ Hu) as (_ & _ & _ & Ebs & _ & Ea).
  destruct Hb as (_ & Hh & Hby). pose proof (su_old _ _ _ _ _ Hu) as Hx.
  pose proof (set_index_lt c x s Hc Hx) as Hxlt. destruct (block_slices c t0 x Hc Hxlt) as (E1 & E2 & E3).
  constructor.
  - by eapply su_sets.
  - rewrite (su_policy _ _ _ _ _ Hu). intros Hp y s1 t w' Hy Hw'.
    rewrite (su_lookup _ _ _ _ _ Hu) in Hy. case_decide.
    + injection Hy as <-. subst y. apply Hh in Hw'.
      destruct (H2 Hp x s t w' Hx Hw'); [done|]. by eapply tracked_other.
    + right. by destruct (H2 Hp y s1 t w' Hy Hw').
  - rewrite Ebs, Ea. intros y s1 t w' k Hy Hw' Hcl Hk Ho. rewrite (su_lookup _ _ _ _ _ Hu) in Hy.
    assert (Hy0 : ∃ s0, set c !! y = Some s0) by (case_decide; [subst; by exists s | by exists s1]).
    destruct Hy0 as [s0 Hy0]. pose proof (set_index_lt c y s0 Hc Hy0) as Hlt.
    destruct (addr_slices c t y k Hc Hlt Hk) as (Et & Ei & Eo).
    destruct (decide (y = x ∧ t = t0)) as [[-> ->]|Hne].
    + rewrite decide_True in Hy by done. injection Hy as <-. apply Hh in Hw'.
      assert (w' = w) as -> by (eapply so_unique; [by eapply su_old_ok | done..]).
      rewrite Hby by (eapply hits_lt; [by eapply su_old_ok | done]).
      unfold written, view_write. rewrite length_victim, decide_True by lia.
      rewrite list_lookup_lookup_total_lt by (rewrite length_victim; lia). do 2 f_equal. lia.
    + unfold written. rewrite (view_write_other c Hc _ (bs c) (within_block c t0 x Hc Hxlt));
        [|apply length_victim | rewrite Et, Ei, E1, E2; destruct (decide (t = t0)); [right; intros ->; by apply Hne | by left]].
      case_decide as Hyx.
      * injection Hy as <-. subst y. apply Hh in Hw'.
        rewrite Hby by (eapply hits_lt; [by eapply su_old_ok | done]).
        eapply H3; try done. left. destruct Hcl as [Hcl|[= <-]]; [by rewrite <- Hd|].
        exfalso. apply Hne. split; [done|]. destruct Hw' as [_ ?], Hw as [_ ?]. congruence.
      * eapply H3; try done. destruct Hcl as [Hcl|[= -> _]]; [by left | done].
  - rewrite (su_policy _ _ _ _ _ Hu). intros Hp y s1 w' Hy. rewrite (su_lookup _ _ _ _ _ Hu) in Hy.
    case_decide; [|by eapply H4]. injection Hy as <-. rewrite Hd. by eapply H4.
Qed.

(** the written-back bytes are still cached *)
Lemma written_overlay v : overlay c (written v) ≡ overlay c v.
Proof using All.
  intros b Hob. pose proof (su_old _ _ _ _ _ Hu) as Hx. pose proof (set_index_lt c x s Hc Hx) as Hxlt.
  destruct (block_slices c t0 x Hc Hxlt) as (E1 & E2 & E3).
  unfold overlay. destruct (cached c b) eqn:E; [done|]. unfold written.
  apply (view_write_other c Hc _ (bs c) (within_block c t0 x Hc Hxlt)); [apply length_victim|].
  rewrite E1, E2. destruct (decide (idx c b = x)) as [Hi|]; [left; intros Ht|by right].
  unfold cached in E. rewrite Hi, Hx, Ht in E. cbn in E.
  rewrite (set_cached_hit s t0 w _ (su_old_ok _ _ _ _ _ Hu Hsets) Hw) in E.
  apply lookup_ge_None_1 in E. rewrite length_victim in E. pose proof (off_lt c b Hc). lia.
Qed.
End victim.

(** the refill of way [w] with the block of tag [t] *)
Section refill.
Context (w : nat) (t : Z) (v : view) (Hst : store_ok c (Some (x, w)) v).
Context (Hwlt : (w < num_associativity s)%nat) (Hmiss : ∀ w', ¬ hits s t w').
Context (Hhits : ∀ t' w', hits s' t' w' ↔ (w' = w ∧ t' = t) ∨ (w' ≠ w ∧ hits s t' w')).
Context (Hblk : ∀ k : nat, (k < bs c)%nat → observed (addr_of c t x + k) →
  way_bytes s' w !! k = Some (v (addr_of c t x + k))).
Context (Hother : ∀ w', w' ≠ w → (w' < num_associativity s)%nat → way_bytes s' w' = way_bytes s w').
Context (Hdirty : ∀ w', is_dirty s' w' ↔ is_dirty s w' ∧ w' ≠ w).
Context (Hrp : rp_valid (rp s') = <[w:=true]> (rp_valid (rp s))).

Lemma refill_overlay : overlay c' v ≡ overlay c v.
Proof using All.
  intros b Hob. pose proof (su_old _ _ _ _ _ Hu) as Hx. pose proof (su_old_ok _ _ _ _ _ Hu Hsets) as Hs.
  destruct (decide (idx c b = x)) as [Hi|Hi]; [|by apply (su_overlay_other _ _ _ _ _ Hu)].
  pose proof (off_lt c b Hc) as Hk. pose proof (addr_split c b Hc) as Eb. rewrite Hi in Eb.
  destruct (decide (tag c b = t)) as [Ht|Ht].
  - destruct (su_slices _ _ _ _ _ Hu) as (_ & _ & _ & Ebs & _ & Ea). rewrite Ht in Eb.
    rewrite (overlay_miss c v b s Hsets) by (rewrite ?Hi, ?Ht; done).
    apply (inj Some). rewrite Eb at 1. rewrite <- Ea.
    rewrite (overlay_hit c' v x s' t w (off c b)).
    + rewrite Hblk by (done || by rewrite <- Eb). by rewrite <- Eb.
    + by eapply su_config.
    + by eapply su_sets.
    + rewrite (su_lookup _ _ _ _ _ Hu). by rewrite decide_True.
    + apply Hhits. by left.
    + by rewrite Ebs.
  - destruct (way_of_spec s (tag c b) Hs) as [(w' & Hw' & _)|[Hm _]].
    + destruct (decide (w' = w)) as [->|Hne].
      * (* the replaced block: its bytes are the next level's *)
        destruct (su_slices _ _ _ _ _ Hu) as (Et & Ei & _).
        rewrite (overlay_miss c' v b s' (su_sets _ _ _ _ _ Hu Hsets Hways Hs')).
        -- apply (inj Some). rewrite Eb at 2. rewrite (overlay_hit c v x s (tag c b) w (off c b)) by done.
           rewrite (st_agree _ _ _ Hst x s (tag c b) w); [by rewrite <- Eb | done | done | by right | done | by rewrite <- Eb].
        -- rewrite Ei, Hi, (su_lookup _ _ _ _ _ Hu). by rewrite decide_True.
        -- intros w1. rewrite Et. intros [[-> ?]|[Hne1 Hw1]]%Hhits; [done|].
           by apply Hne1, (so_unique _ _ _ _ Hs _ _ _ Hw1 Hw').
      * apply (su_overlay_other _ _ _ _ _ Hu). intros _.
        rewrite (set_cached_hit s _ w' _ Hs Hw').
        rewrite (set_cached_hit s' _ w' _ Hs') by (apply Hhits; by right).
        rewrite Hother; [done..|]. by eapply hits_lt.
    + apply (su_overlay_other _ _ _ _ _ Hu). intros _.
      rewrite (set_cached_miss s _ _ Hs Hm), (set_cached_miss s' _ _ Hs'); [done|].
      intros w1 [[_ ?]|[_ Hw1]]%Hhits; [done | by apply (Hm w1)].
Qed.

Lemma refill_store : store_ok c' None v.
Proof using All.
  destruct (su_slices _ _ _ _ _ Hu) as (_ & _ & _ & Ebs & _ & Ea).
  pose proof (su_old _ _ _ _ _ Hu) as Hx. pose proof (su_old_ok _ _ _ _ _ Hu Hsets) as Hs.
  destruct Hst as [H1 H2 H3 H4]. constructor.
  - by eapply su_sets.
  - rewrite (su_policy _ _ _ _ _ Hu). intros Hp y s1 t' w' Hy Hw'.
    rewrite (su_lookup _ _ _ _ _ Hu) in Hy. right. case_decide.
    + injection Hy as <-. subst y. unfold tracked_way. rewrite Hrp.
      apply Hhits in Hw' as [[-> _]|[Hne Hw']].
      * apply list_lookup_insert_eq. by rewrite (so_rp_len _ _ _ _ Hs).
      * rewrite list_lookup_insert_ne by done.
        destruct (H2 Hp x s t' w' Hx Hw') as [[= <-]|?]; [done | done].
    + destruct (H2 Hp y s1 t' w' Hy Hw') as [[= ? _]|?]; [by subst | done].
  - rewrite Ebs, Ea. intros y s1 t' w' k Hy Hw' [Hcl|[=]] Hk Ho.
    rewrite (su_lookup _ _ _ _ _ Hu) in Hy. case_decide.
    + injection Hy as <-. subst y. apply Hhits in Hw' as [[-> ->]|[Hne Hw']].
      * by apply Hblk.
      * rewrite Hother; [|done | by eapply hits_lt]. eapply H3; try done. left.
        intros Hdw. apply Hcl. by apply Hdirty.
    + eapply H3; try done. by left.
  - rewrite (su_policy _ _ _ _ _ Hu). intros Hp y s1 w' Hy. rewrite (su_lookup _ _ _ _ _ Hu) in Hy.
    case_decide; [|by eapply H4]. injection Hy as <-. rewrite Hdirty.
    intros [? _]. by eapply (H4 Hp x s w').
Qed.
End refill.
End miss.

(** a store that bypasses the cache: its block is not cached *)
Section bypass.
Context `{RG : Region} {RP : Type} `{ReplacementLaws RP}.
Context (c : GeneralCache RP) (Hc : config c) (Hsets : sets_ok c).
Context (a : Z) (d : list Z) (Hn : within c a (length d)).

Lemma overlay_write_write v : view_write (overlay c (view_write v a d)) a d ≡ view_write (overlay c v) a d.
Proof using Type.
  intros b _. unfold view_write at 1 3. case_decide as Hb; [done|]. unfold overlay.
  destruct (cached c b); [done|]. unfold view_write. by rewrite decide_False.
Qed.

Context (s : GeneralCacheSetUnit RP) (Hx : set c !! idx c a = Some s) (Hmiss : ∀ w, ¬ hits s (tag c a) w).

Lemma bypass_overlay v : overlay c (view_write v a d) ≡ view_write (overlay c v) a d.
Proof using All.
  intros b _. unfold view_write at 2. case_decide as Hb.
  - destruct (in_range_slices c Hc a _ Hn b Hb) as (Et & Ei & _).
    rewrite (overlay_miss c _ b s Hsets) by (rewrite ?Et, ?Ei; done).
    unfold view_write. by rewrite decide_True.
  - unfold overlay. destruct (cached c b); [done|]. unfold view_write. by rewrite decide_False.
Qed.

Lemma bypass_store v : store_ok c None v → store_ok c None (view_write v a d).
Proof using All.
  intros [H1 H2 H3 H4]. constructor; try done.
  intros y s1 t w k Hy Hw [Hcl|[=]] Hk Ho. pose proof (set_index_lt c y s1 Hc Hy) as Hlt.
  destruct (addr_slices c t y k Hc Hlt Hk) as (Et & Ei & Eo).
  rewrite (view_write_other c Hc a _ Hn); [eapply H3; try done; by left | done |].
  rewrite Et, Ei. destruct (decide (t = tag c a)) as [->|]; [right; intros ->|by left].
  rewrite Hx in Hy. injection Hy as <-. by apply (Hmiss w).
Qed.
End bypass.
