(* ===== verification/CacheRefinement.v ===== *)
(** A cache over a lawful next level is lawful: the refinement of flat memory by
    [GeneralCache.v], for every write policy except write-back without write-allocate. *)
From S2P Require Import Prelude Word AbstractMem ReplacementPolicy CacheConfig CacheSet LowerMemory GeneralCache CacheAddress Device CacheView.
From stdpp Require Import base gmap numbers sets list.
From Stdlib Require Import Lia.
#[local] Open Scope Z_scope.
#[local] Coercion Z.of_nat : nat >-> Z.

(** * The transaction with the next level *)

Section transaction.
Context {M : Type} `{DeviceLaws M}.
Implicit Types (t : LowerMemoryTransaction) (m : M) (h : heap).

(** not yet accepted; or accepted and in flight; or answered.  The request in flight in the
  next level may be that of another client. *)
Definition tx_ok t m h : Prop :=
  match t with
  | Sending r => live r h ∧ ¬ d_owns m (Req.id r) ∧ accepts m r
  | Waiting r =>
      d_cur m = Some r ∨
      (¬ d_owns m (Req.id r) ∧ (Req.id r < next_id h)%nat ∧
       answers r (d_view m) (Heap.get h (Req.id r)))
  end.
(** the contents of the next level once it has accepted the request *)
Definition tx_low t m : view :=
  match t with Sending r => view_apply r (d_view m) | Waiting _ => d_view m end.
(** cycles the transaction may take, before and after the next level's own cycle *)
Definition tx_cost t m : nat :=
  match t with
  | Sending _ => d_busy m + d_bound m + 3
  | Waiting _ => match d_cur m with Some _ => d_busy m + 2 | None => 1 end
  end.
Definition tx_after t m : nat :=
  match t with
  | Sending _ => if decide (d_busy m = 0)%nat then 2 * d_bound m + 3 else d_busy m + d_bound m + 2
  | Waiting _ => match d_cur m with Some _ => d_busy m + 1 | None => 1 end
  end.
Definition tx_bound m : nat := 2 * d_bound m + 3.

Lemma tx_cost_bound t m h : d_inv m h → (tx_cost t m ≤ tx_bound m)%nat ∧ (tx_after t m ≤ tx_bound m)%nat.
Proof.
  intros Hi. pose proof (law_bound m h Hi). unfold tx_cost, tx_after, tx_bound.
  destruct t; repeat case_match; lia.
Qed.

Lemma tx_low_proper t m m' : d_view m' ≡ d_view m → tx_low t m' ≡ tx_low t m.
Proof. intros E. destruct t; cbn; [by rewrite E | done]. Qed.

Lemma progress_spec t m h : d_inv m h → tx_ok t m h →
  ∃ (fin : bool) t' m' h', LowerMemory.progress t m h = Ret (fin, t', m', h') ∧
    d_inv m' h' ∧ same_shape m m' ∧ LowerMemory.req t' = LowerMemory.req t ∧ tx_ok t' m' h' ∧
    tx_low t' m' ≡ tx_low t m ∧
    heap_step (λ id, d_owns m id ∨ id = Req.id (LowerMemory.req t)) (d_owns m') h h' ∧
    (∀ r, d_cur m' = Some r → t' = Waiting r ∨ d_cur m = Some r ∧ t' = t) ∧
    if fin then
      t' = t ∧ m' = m ∧ h' = h ∧ ¬ d_owns m (Req.id (LowerMemory.req t)) ∧ tx_low t m = d_view m ∧
      answers (LowerMemory.req t) (d_view m) (Heap.get h (Req.id (LowerMemory.req t)))
    else (tx_after t' m' < tx_cost t m)%nat.
Proof.
  intros Hi Ht. destruct t as [r|r]; cbn [LowerMemory.progress LowerMemory.req].
  - destruct Ht as ([Hid Hd] & Ho & Ha).
    destruct (law_try m h r Hi Ha Hid Hd Ho) as (res & m' & h' & -> & Hres). rewrite bind_Ret.
    exists false. destruct res as [[]|[]].
    + destruct Hres as (_ & Hi' & Hsh & Hv & Hst & Hcur).
      exists (Waiting r), m', h'. split_and!; try done.
      * destruct Hcur as [?|(? & ? & Hg)]; [by left | right]. split_and!; [done..| |].
        -- destruct Hst as (? & _). lia.
        -- by rewrite Hv, answers_apply.
      * intros r' Hr'. left. destruct Hcur as [E|[E _]]; congruence.
      * pose proof (law_bound m' h' Hi'). destruct Hsh as (Hb & _). cbn.
        destruct Hcur as [->|(-> & _)]; lia.
    + destruct Hres as (-> & -> & Hpos). exists (Sending r), m, h. split_and!; try done.
      * apply heap_step_refl. by left.
      * by right.
      * cbn. rewrite decide_False by lia. lia.
  - destruct Ht as [Hc|(Ho & Hid & Hg)].
    + destruct (law_cur m h r Hi Hc) as [_ Hd]. rewrite is_done_get, Hd.
      exists false, (Waiting r), m, h. split_and!; try done.
      * by left.
      * apply heap_step_refl. by left.
      * by right.
      * cbn. rewrite Hc. lia.
    + rewrite is_done_get, (answers_done _ _ _ Hg). exists true, (Waiting r), m, h. split_and!; try done.
      * by right.
      * apply heap_step_refl. by left.
      * by right.
Qed.

(** the next level's own cycle; the cost goes down when the next level serves nobody else *)
Lemma tx_cycle t m h m' h' : d_inv m h → tx_ok t m h → same_shape m m' → d_inv m' h' →
  d_view m' ≡ d_view m → heap_step (d_owns m) (d_owns m') h h' →
  match d_cur m with
  | None => d_cur m' = None ∧ (d_busy m = 0 ∨ d_busy m' < d_busy m)%nat
  | Some r =>
      (d_cur m' = Some r ∧ (d_busy m' < d_busy m)%nat) ∨
      (d_cur m' = None ∧ ¬ d_owns m' (Req.id r) ∧ answers r (d_view m) (Heap.get h' (Req.id r)))
  end →
  tx_ok t m' h' ∧
  ((∀ r, d_cur m = Some r → t = Waiting r) → (tx_cost t m' ≤ tx_after t m)%nat).
Proof.
  intros Hi Ht Hsh Hi' Hv Hst Hcur. pose proof (law_bound m' h' Hi') as Hb.
  pose proof Hsh as (Hbd & _). unfold tx_cost, tx_after. destruct t as [r|r].
  - destruct Ht as (Hl & Ho & Ha). split.
    { split_and!; [by eapply heap_step_live | | by eapply accepts_shape].
      eapply heap_step_owns; [done | by destruct Hl | done]. }
    intros Hex. destruct (d_cur m) as [r'|]; [discriminate (Hex r' eq_refl)|].
    destruct Hcur as [Hc' Hbusy]. case_decide; lia.
  - destruct Ht as [Hc|(Ho & Hid & Hg)].
    + rewrite Hc in *. destruct (law_cur m h r Hi Hc) as [Hown _]. pose proof (law_owned m h _ Hi Hown).
      destruct Hcur as [[Hc' ?]|(Hc' & ? & Hg)].
      * rewrite Hc'. split; [by left | lia].
      * rewrite Hc'. split; [|lia]. right. split_and!; [done..| destruct Hst; lia | by rewrite Hv].
    + split.
      { right. split_and!; [by eapply heap_step_owns | destruct Hst; lia |].
        by rewrite (heap_step_get _ _ _ _ _ Hst Hid Ho), Hv. }
      intros Hex. destruct (d_cur m) as [r'|] eqn:Hc.
      * injection (Hex r' eq_refl) as <-. destruct (law_cur m h r Hi Hc) as [Hown _].
        by destruct Ho.
      * destruct Hcur as [-> _]. lia.
Qed.
End transaction.

(** * The invariant of a cache over its next level *)

Section invariant.
Context `{Profile} {RP : Type} `{ReplacementLaws RP} {M : Type} `{DeviceLaws M}.
Implicit Types (c : GeneralCache RP) (m : M) (h : heap) (r : MemoryReqType).

Record shape c m : Prop := {
  sh_config : config c;
  sh_policy : write_policy c ≠ WriteBackNoWriteAllocate;
  sh_prefetcher : prefetcher c = NullPrefetcher ∨
                  prefetcher c = NextLinePrefetcher (2 ^ offset_bit_width c);
  sh_grain : (bs c ≤ d_grain m)%nat;
  sh_span : d_span m ≤ 2 ^ 32;
}.

(** the block of an address is served by the next level *)
Definition fits c m (a : Z) : Prop := 0 ≤ base c a ∧ base c a + bs c ≤ d_span m.

(** a request the cache can serve, and the prefetch it may trigger *)
Definition request_ok c m r : Prop :=
  is_power_of_two (Req.get_len r) = true ∧ (Req.get_len r ≤ bs c)%nat ∧
  Req.get_addr r mod Req.get_len r = 0 ∧ req_wf r ∧ fits c m (Req.get_addr r) ∧
  (prefetch_in_flight c = false → prefetcher c ≠ NullPrefetcher →
   base c (Req.get_addr r) + 2 * bs c ≤ d_span m).

(** the request being served; its cell may be done already, as a client may register a
  request a second time *)
Definition holds c m h r : Prop :=
  request_ok c m r ∧ (Req.id r < next_id h)%nat ∧ ¬ d_owns m (Req.id r) ∧
  (prefetch_in_flight c = true → Req.is_store r = false).

(** its transaction with the next level *)
Definition carries m h t r : Prop := tx_ok t m h ∧ Req.id (LowerMemory.req t) ≠ Req.id r.

Definition phase_ok c m h : Prop :=
  match fsm c with
  | Idle =>
      prefetch_in_flight c = false ∧ store_ok c None (d_view m)
  | GeneralCache.Lookup r => holds c m h r ∧ store_ok c None (d_view m)
  | WriteBack t w =>
      ∃ r s t0 x, backup_req c = Some r ∧ holds c m h r ∧ carries m h t r ∧
        set c !! idx c (Req.get_addr r) = Some s ∧ (w < num_associativity s)%nat ∧
        rp_valid (rp s) !! w = Some false ∧ (∀ w', ¬ hits s (tag c (Req.get_addr r)) w') ∧
        hits s t0 w ∧ LowerMemory.req t = Store x ∧
        store_addr x = addr_of c t0 (idx c (Req.get_addr r)) ∧ store_bytes x = way_bytes s w ∧
        store_ok c (Some (idx c (Req.get_addr r), w)) (tx_low t m)
  | Allocate t w =>
      ∃ r s x, backup_req c = Some r ∧ holds c m h r ∧ carries m h t r ∧
        set c !! idx c (Req.get_addr r) = Some s ∧ (w < num_associativity s)%nat ∧
        rp_valid (rp s) !! w = Some false ∧ (∀ w', ¬ hits s (tag c (Req.get_addr r)) w') ∧
        LowerMemory.req t = Load x ∧ load_addr x = base c (Req.get_addr r) ∧ load_len x = bs c ∧
        store_ok c (Some (idx c (Req.get_addr r), w)) (d_view m)
  | AdditionalMissPenalty n =>
      (n ≤ miss_penalty c)%nat ∧
      ∃ r s w, backup_req c = Some r ∧ holds c m h r ∧
        set c !! idx c (Req.get_addr r) = Some s ∧ hits s (tag c (Req.get_addr r)) w ∧
        store_ok c None (d_view m)
  | WriteThroughCommit t r | WriteAround t r =>
      Policy.is_write_through (write_policy c) = true ∧ prefetch_in_flight c = false ∧ Req.is_store r = true ∧ holds c m h r ∧ carries m h t r ∧
      store_ok c None (tx_low t m)
  end.

Record inv c m h : Prop := {
  inv_shape : shape c m;
  inv_lower : d_inv m h;
  inv_pending : pending_req c = None;
  inv_queue : ∀ q, q ∈ prefetch_queue c → q mod 2 ^ offset_bit_width c = 0 ∧ fits c m q;
  inv_blocks : ∀ x s t w, set c !! x = Some s → hits s t w → addr_of c t x + bs c ≤ d_span m;
  inv_phase : phase_ok c m h;
}.

(** ** What the invariant is about *)

(** the request being served, whoever made it *)
Definition current c : option MemoryReqType :=
  match fsm c with
  | Idle => None
  | GeneralCache.Lookup r | WriteThroughCommit _ r | WriteAround _ r => Some r
  | WriteBack _ _ | Allocate _ _ | AdditionalMissPenalty _ => backup_req c
  end.
Definition trans c : option LowerMemoryTransaction :=
  match fsm c with
  | WriteBack t _ | Allocate t _ | WriteThroughCommit t _ | WriteAround t _ => Some t
  | Idle | GeneralCache.Lookup _ | AdditionalMissPenalty _ => None
  end.
(** the client's request *)
Definition client_req c : option MemoryReqType :=
  if prefetch_in_flight c then None else current c.
Definition owns c m (id : nat) : Prop :=
  (∃ r, current c = Some r ∧ id = Req.id r) ∨
  (∃ t, trans c = Some t ∧ id = Req.id (LowerMemory.req t)) ∨ d_owns m id.

Definition low c m : view := match trans c with Some t => tx_low t m | None => d_view m end.

(** the contents: the cached blocks over the next level, and the request in progress
  applied when it is not yet in either *)
Definition contents c m : view :=
  match fsm c with
  | GeneralCache.Lookup r => view_apply r (overlay c (low c m))
  | WriteBack _ _ | Allocate _ _ | AdditionalMissPenalty _ =>
      match backup_req c with
      | Some r => view_apply r (overlay c (low c m))
      | None => overlay c (low c m)
      end
  | Idle | WriteThroughCommit _ _ | WriteAround _ _ => overlay c (low c m)
  end.

(** ** Cycles until the cache is free *)
Definition hit_cost m : nat := tx_bound m + 1.
Definition refill_cost m n : nat := n + 1 + hit_cost m.
Definition is_hit c r : bool :=
  match set c !! idx c (Req.get_addr r) with
  | Some s => match way_of s (tag c (Req.get_addr r)) with Some _ => true | None => false end
  | None => false
  end.
Definition busy_with (cost : LowerMemoryTransaction → nat) c m : nat :=
  match fsm c with
  | Idle => 0
  | GeneralCache.Lookup r =>
      if is_hit c r then hit_cost m
      else 1 + tx_bound m + tx_bound m + refill_cost m (miss_penalty c)
  | WriteBack t _ => cost t + tx_bound m + refill_cost m (miss_penalty c)
  | Allocate t _ => cost t + refill_cost m (miss_penalty c)
  | AdditionalMissPenalty n => refill_cost m n
  | WriteThroughCommit t _ | WriteAround t _ => cost t
  end.
Definition busy c m : nat := busy_with (λ t, tx_cost t m) c m.
Definition busy_after c m : nat := busy_with (λ t, tx_after t m) c m.
Definition busy_bound c m : nat := 1 + tx_bound m + tx_bound m + refill_cost m (miss_penalty c).

(** ** What a tick must do *)
Definition answered (v : view) c m h c' m' h' : Prop :=
  match client_req c with
  | None => client_req c' = None
  | Some r =>
      (client_req c' = Some r ∧ Heap.get h' (Req.id r) = Heap.get h (Req.id r)) ∨
      (client_req c' = None ∧ ¬ owns c' m' (Req.id r) ∧ answers r v (Heap.get h' (Req.id r)))
  end.

(** the next level serves nobody but this cache *)
Definition exclusive c m : Prop := ∀ r, d_cur m = Some r → trans c = Some (Waiting r).

Record ticked c m h c' m' h' : Prop := {
  tk_inv : inv c' m' h';
  tk_config : same_config c c';
  tk_shape : same_shape m m';
  tk_view : contents c' m' ≡ contents c m;
  tk_heap : heap_step (owns c m) (owns c' m') h h';
  tk_answer : answered (contents c m) c m h c' m' h';
  tk_exclusive : exclusive c m → exclusive c' m';
  tk_busy : (busy c m = 0 ∨ busy_after c' m' < busy c m)%nat;
}.
End invariant.

(** * Facts about requests, allocation and frames *)

Lemma aligned_within (a o n : Z) : 0 ≤ o → is_power_of_two n = true → n ≤ 2 ^ o → a mod n = 0 →
  a mod 2 ^ o + n ≤ 2 ^ o.
Proof.
  intros Ho Hn Hle Ha. apply is_power_of_two_spec in Hn as (j & Hj & ->).
  assert (j ≤ o) as Hjo by (apply (Z.pow_le_mono_r_iff 2); lia).
  assert (2 ^ o = 2 ^ (o - j) * 2 ^ j) as E by (rewrite <- Z.pow_add_r by lia; f_equal; lia).
  assert (0 < 2 ^ j) by (apply Z.pow_pos_nonneg; lia).
  assert (0 < 2 ^ (o - j)) by (apply Z.pow_pos_nonneg; lia).
  apply Z.mod_divide in Ha as [q ->]; [|lia]. rewrite E, Z.mul_mod_distr_r by lia.
  pose proof (Z.mod_pos_bound q (2 ^ (o - j))). nia.
Qed.

Section facts.
Context `{Profile} {RP : Type} `{ReplacementLaws RP} {M : Type} `{DeviceLaws M}.
Implicit Types (c : GeneralCache RP) (m : M) (h : heap) (r : MemoryReqType).

Lemma base_offset c a : config c → a = base c a + off c a ∧ base c a ≤ a < base c a + bs c.
Proof.
  intros Hc. pose proof Hc as [Hw _]. pose proof (base_address _ _ Hw a) as E.
  pose proof (addr_split c a Hc). pose proof (off_lt c a Hc). unfold base, addr_of, tag, idx in *. lia.
Qed.

Lemma request_placed c m r : shape c m → request_ok c m r →
  is_u32 (Req.get_addr r) ∧ within c (Req.get_addr r) (Req.get_len r) ∧
  0 ≤ tag c (Req.get_addr r) < tags c ∧ (0 < Req.get_len r)%nat.
Proof.
  intros [Hc _ _ _ Hsp] (Hp & Hl & Ha & _ & [Hf1 Hf2] & _). pose proof Hc as [Hw _].
  destruct (base_offset c (Req.get_addr r) Hc) as [_ Hb].
  assert (is_u32 (Req.get_addr r)) as Hu by (split; lia).
  split_and!; [done| |by apply tag_range | |].
  - unfold within, off, offset_of. pose proof (bs_pow c Hc) as E. destruct Hw as (Ho & _).
    pose proof (aligned_within (Req.get_addr r) _ _ Ho Hp) as Hal.
    rewrite <- E in *. specialize (Hal ltac:(lia) Ha).
    pose proof (Z.mod_pos_bound (Req.get_addr r) (bs c)). pose proof (bs_pos c Hc). lia.
  - by apply (tag_range _ _ Hw).
  - unfold is_power_of_two in Hp. apply andb_true_iff in Hp as [Hp _]. apply Z.ltb_lt in Hp. lia.
Qed.

Lemma request_same c c' m m' r : same_config c c' → same_shape m m' →
  prefetch_in_flight c' = prefetch_in_flight c → request_ok c m r → request_ok c' m' r.
Proof.
  intros (E1 & E2 & _ & _ & _ & E3 & _) (_ & E4 & _) E5.
  unfold request_ok, fits, base, bs. by rewrite E1, E3, E4, E5.
Qed.

Lemma shape_same c c' m m' : same_config c c' → same_shape m m' → shape c m → shape c' m'.
Proof.
  intros (E1 & E2 & E3 & _ & E4 & E5 & E6) (_ & F1 & F2) [[? [? ?]] ? ? ? ?].
  constructor; unfold config, bs in *; rewrite ?E1, ?E2, ?E3, ?E4, ?E5, ?E6, ?F1, ?F2; done.
Qed.

Lemma queue_same c c' m m' (l : list Z) : same_config c c' → same_shape m m' →
  (∀ q, q ∈ l → q mod 2 ^ offset_bit_width c = 0 ∧ fits c m q) →
  ∀ q, q ∈ l → q mod 2 ^ offset_bit_width c' = 0 ∧ fits c' m' q.
Proof.
  intros (E1 & _) (_ & E4 & _) Hq q Hin. unfold fits, base, bs. rewrite E1, E4. by apply Hq.
Qed.

Lemma store_ok_same c c' hole v : set c' = set c → offset_bit_width c' = offset_bit_width c →
  index_bit_width c' = index_bit_width c → write_policy c' = write_policy c →
  store_ok c hole v → store_ok c' hole v.
Proof.
  intros E1 E2 E3 E4 [H1' H2' H3' H4'].
  constructor; unfold sets_ok, bs, tags, addr_of in *; rewrite ?E1, ?E2, ?E3, ?E4; done.
Qed.

(** a block of the cache as a request to the next level *)
Lemma accepts_block c m r : shape c m → Req.get_len r = bs c → req_wf r →
  Req.get_addr r mod 2 ^ offset_bit_width c = 0 → 0 ≤ Req.get_addr r →
  Req.get_addr r + bs c ≤ d_span m → accepts m r.
Proof.
  intros [Hc _ _ Hg _] Hl Hwf Ha Ha1 Ha2. pose proof (bs_pow c Hc) as E.
  destruct Hc as [[Ho _] _]. unfold accepts. rewrite Hl. split_and!; try done.
  - rewrite E. by apply power_of_two_pow.
  - by rewrite E.
Qed.

(** and a store propagated to it *)
Lemma accepts_request c m r r' : shape c m → request_ok c m r → Req.get_len r' = Req.get_len r →
  Req.get_addr r' = Req.get_addr r → req_wf r' → accepts m r'.
Proof.
  intros Hsh Hr El Ea Hwf. pose proof (request_placed c m r Hsh Hr) as (_ & Hw & _ & _).
  destruct Hr as (Hp & Hl & Ha & _ & [Hf1 Hf2] & _), Hsh as [Hc _ _ Hg _].
  destruct (base_offset c (Req.get_addr r) Hc) as [E _].
  unfold accepts. rewrite El, Ea. unfold within in Hw. split_and!; try done; try lia.
Qed.

(** ** Serving this cache only *)
Lemma exclusive_free c c' m : trans c = None → exclusive c m → exclusive c' m.
Proof. intros Ht He r Hr. specialize (He r Hr). congruence. Qed.
Lemma exclusive_fin c c' m h t : d_inv m h → trans c = Some t → ¬ d_owns m (Req.id (LowerMemory.req t)) →
  exclusive c m → exclusive c' m.
Proof.
  intros Hi Ht Ho He r Hr. exfalso. apply Ho. specialize (He r Hr). rewrite Ht in He.
  injection He as ->. by apply (law_cur m h).
Qed.
Lemma exclusive_poll c c' m m' t t' : trans c = Some t → trans c' = Some t' →
  (∀ r, d_cur m' = Some r → t' = Waiting r ∨ d_cur m = Some r ∧ t' = t) →
  exclusive c m → exclusive c' m'.
Proof.
  intros Ht Ht' Hc He r Hr. rewrite Ht'. destruct (Hc r Hr) as [->|[Hr0 ->]]; [done|].
  by rewrite <- (He r Hr0).
Qed.

(** ** A new request *)
Definition allocated r h h' : Prop :=
  Req.id r = next_id h ∧ next_id h' = S (next_id h) ∧ live r h' ∧
  ∀ id, (id < next_id h)%nat → Heap.get h' id = Heap.get h id.

Lemma alloc_store a d h : let '(r, h') := Req.store a d h in
  allocated r h h' ∧ ∃ x, r = Store x ∧ store_addr x = a ∧ store_bytes x = d ∧
    store_len x = length d.
Proof.
  cbn. split; [|by eexists]. unfold allocated, live, Heap.get. cbn. rewrite lookup_insert_eq.
  split_and!; try done; [lia|]. intros id Hid. by rewrite lookup_insert_ne by lia.
Qed.
Lemma alloc_load a n h : let '(r, h') := Req.load a n h in
  allocated r h h' ∧ ∃ x, r = Load x ∧ load_addr x = a ∧ load_len x = n.
Proof.
  cbn. split; [|by eexists]. unfold allocated, live, Heap.get. cbn. rewrite lookup_insert_eq.
  split_and!; try done; [lia|]. intros id Hid. by rewrite lookup_insert_ne by lia.
Qed.

Lemma allocated_fresh r h h' m : allocated r h h' → d_inv m h →
  d_inv m h' ∧ live r h' ∧ ¬ d_owns m (Req.id r) ∧
  (∀ id, (id < next_id h)%nat → (id < next_id h')%nat ∧ Heap.get h' id = Heap.get h id ∧ Req.id r ≠ id) ∧
  (∀ P Q, (∀ id, Q id → P id ∨ id = Req.id r) → heap_step P Q h h').
Proof.
  intros (Hid & Hn & Hl & Hk) Hi. split_and!; [| done | | |].
  - eapply law_frame; [done | lia |]. intros id Ho. apply Hk. by eapply law_owned.
  - intros Ho. pose proof (law_owned _ _ _ Hi Ho). lia.
  - intros id Hlt. split_and!; [lia | by apply Hk | lia].
  - intros P Q HQ. split_and!; [lia | by right; apply Hk |].
    intros id Ho. destruct (HQ id Ho) as [?| ->]; [by left | right; lia].
Qed.
End facts.

(** * The ticks of the states other than [Lookup] *)

Section ticks.
Context `{Profile} {RP : Type} `{ReplacementLaws RP} {M : Type} `{DeviceLaws M}.
Implicit Types (c : GeneralCache RP) (m : M) (h : heap) (r : MemoryReqType).

Definition ticks_to c m h : Prop :=
  ∃ c' m' h', Cache.tick c m h = Ret (c', m', h') ∧ ticked c m h c' m' h'.

Lemma same_shape_refl m : same_shape m m.
Proof. done. Qed.

(** the request being served is not touched by a step of the next level *)
Lemma holds_step c m h r m' h' P :
  holds c m h r → same_shape m m' → heap_step P (d_owns m') h h' → ¬ P (Req.id r) →
  holds c m' h' r ∧ Heap.get h' (Req.id r) = Heap.get h (Req.id r).
Proof.
  intros (Hr & Hl & Ho & Hp) Hsh Hst HP. split; [|by eapply heap_step_get].
  split_and!; [by eapply request_same | destruct Hst; lia | | done].
  by eapply heap_step_owns.
Qed.

(** a request still being served *)
Lemma answered_pending v c m h c' m' h' r : current c = Some r → current c' = Some r →
  prefetch_in_flight c' = prefetch_in_flight c →
  Heap.get h' (Req.id r) = Heap.get h (Req.id r) → answered v c m h c' m' h'.
Proof.
  intros E E' Ep Eg. unfold answered, client_req. rewrite E, E', Ep.
  destruct (prefetch_in_flight c); [done | by left].
Qed.

Lemma tick_penalty c m h n : inv c m h → fsm c = AdditionalMissPenalty n → ticks_to c m h.
Proof.
  intros [Hsh Hlow Hp Hq Hbl Hph] Hf. unfold phase_ok in Hph. rewrite Hf in Hph.
  destruct Hph as (Hn & r & s & w & Hb & Hh & Hx & Hw & Hst).
  unfold ticks_to, Cache.tick. rewrite Hf. destruct n as [|n].
  - rewrite Hb. cbn [unwrap]. rewrite bind_Ret. eexists _, _, _. split; [reflexivity|].
    assert (Hit : is_hit c r = true).
    { unfold is_hit. rewrite Hx. destruct (way_of_spec s (tag c (Req.get_addr r)) (st_sets _ _ _ Hst _ _ Hx))
        as [(w' & _ & ->)|[Hm _]]; [done | by destruct (Hm w)]. }
    constructor; try done.
    + constructor; try done; [by apply (shape_same c _ m)|]. split_and!; try done. by apply (store_ok_same c).
    + unfold contents, low, trans. cbn. by rewrite Hf, Hb.
    + apply heap_step_refl. unfold owns, current, trans. cbn. rewrite Hf, Hb. done.
    + by apply (answered_pending _ _ _ _ _ _ _ r); unfold current; cbn; rewrite ?Hf.
    + apply exclusive_free. unfold trans. by rewrite Hf.
    + right. unfold busy, busy_after, busy_with, refill_cost. cbn. rewrite Hf.
      change (is_hit _ r) with (is_hit c r). rewrite Hit. lia.
  - eexists _, _, _. split; [reflexivity|]. constructor; try done.
    + constructor; try done; [by apply (shape_same c _ m)|]. unfold phase_ok. cbn. split; [lia|].
      exists r, s, w. split_and!; try done. by apply (store_ok_same c).
    + unfold contents, low, trans. cbn. by rewrite Hf.
    + apply heap_step_refl. unfold owns, current, trans. cbn. rewrite Hf. done.
    + by apply (answered_pending _ _ _ _ _ _ _ r); unfold current; cbn; rewrite ?Hf.
    + apply exclusive_free. unfold trans. by rewrite Hf.
    + right. unfold busy, busy_after, busy_with, refill_cost. cbn. rewrite Hf. lia.
Qed.

Lemma tx_cost_pos t m : (0 < tx_cost t m)%nat.
Proof. unfold tx_cost. destruct t; [lia|]. case_match; lia. Qed.

(** what survives a poll of the next level *)
Lemma inv_poll c m h r t m' h' f : inv c m h → holds c m h r → carries m h t r →
  d_inv m' h' → same_shape m m' →
  heap_step (λ id, d_owns m id ∨ id = Req.id (LowerMemory.req t)) (d_owns m') h h' →
  (holds c m' h' r ∧ Heap.get h' (Req.id r) = Heap.get h (Req.id r)) ∧
  (phase_ok (Cache.with_fsm f c) m' h' → inv (Cache.with_fsm f c) m' h').
Proof.
  intros [Hsh Hlow Hp Hq Hbl _] Hh [_ Hne] Hi' Hss Hst. split.
  - eapply holds_step; [done..|]. intros [Ho|E]; [|by apply Hne].
    by destruct Hh as (_ & _ & ? & _).
  - intros Hph. constructor; try done; [by apply (shape_same c _ m)|by eapply queue_same|].
    destruct Hss as (_ & -> & _). exact Hbl.
Qed.

(** the footprint while the transaction continues *)
Lemma owns_poll c m h r t t' m' h' f : current c = Some r → trans c = Some t →
  (∀ id, owns (Cache.with_fsm f c) m' id →
     id = Req.id r ∨ id = Req.id (LowerMemory.req t) ∨ d_owns m' id) →
  LowerMemory.req t' = LowerMemory.req t →
  heap_step (λ id, d_owns m id ∨ id = Req.id (LowerMemory.req t)) (d_owns m') h h' →
  heap_step (owns c m) (owns (Cache.with_fsm f c) m') h h'.
Proof.
  intros Hc Ht Ho _ Hst. eapply heap_step_weaken; [| |exact Hst].
  - intros id [Hd| ->]; unfold owns; [by right; right|]. right; left. by exists t.
  - intros id Hid. destruct (Ho id Hid) as [->|[->|?]]; [right; left|right; left|by left]; unfold owns.
    + left. by exists r.
    + right; left. by exists t.
Qed.

Definition commit_state (state : LowerMemoryTransaction → MainStates) r : Prop :=
  state = (λ t, WriteThroughCommit t r) ∨ state = (λ t, WriteAround t r).

Lemma commit_spec c m h state t r : inv c m h → commit_state state r → fsm c = state t →
  ∃ c' m' h', Cache.commit c state t r m h = Ret (c', m', h') ∧ ticked c m h c' m' h'.
Proof.
  intros Hinv Hstate Hf. pose proof Hinv as [Hsh Hlow Hp Hq Hbl Hph].
  assert (Policy.is_write_through (write_policy c) = true ∧ prefetch_in_flight c = false ∧
    Req.is_store r = true ∧ holds c m h r ∧ carries m h t r ∧ store_ok c None (tx_low t m))
    as (Hpol & Hpf & Hstore & Hh & Hca & Hst).
  { unfold phase_ok in Hph. rewrite Hf in Hph. by destruct Hstate as [->| ->]. }
  assert (current c = Some r ∧ trans c = Some t ∧ contents c m = overlay c (tx_low t m) ∧
    busy c m = tx_cost t m) as (Ec & Et & Econt & Eb).
  { unfold current, trans, contents, busy, busy_with, low, trans. rewrite Hf. by destruct Hstate as [->| ->]. }
  destruct (progress_spec t m h Hlow (proj1 Hca)) as (fin & t' & m' & h' & E & Hi' & Hss & Er & Ht' & Hlv & Hhs & Hcurs & Hfin).
  unfold Cache.commit. rewrite E, bind_Ret. destruct fin.
  - destruct Hfin as (-> & -> & -> & Hfree & Elow & Hg). destruct r as [x|x]; [done|].
    cbn [Req.complete_store Req.store_req_ref]. eexists _, _, _. split; [reflexivity|].
    pose proof Hh as (_ & Hl & Ho & _).
    assert (Hi2 : d_inv m (StoreReq.complete x h)).
    { eapply law_frame; [done..|]. intros id Hid. apply get_set_ne. intros <-. by apply Ho. }
    constructor; try done.
    + constructor; try done; [by apply (shape_same c _ m)|]. split_and!; try done.
      rewrite <- Elow. by apply (store_ok_same c).
    + rewrite Econt, Elow. done.
    + split_and!; [done| |].
      * intros id _. destruct (decide (id = store_id x)) as [->|]; [left; left; by exists (Store x)|].
        right. by apply get_set_ne.
      * intros id [(? & [=] & _)|[(? & [=] & _)|?]]. left. by right; right.
    + unfold answered, client_req. cbn. rewrite Hpf, Ec. right. split_and!; [done| |].
      * intros [(? & [=] & _)|[(? & [=] & _)|?]]. by apply Ho.
      * unfold StoreReq.complete. rewrite get_set_eq. by apply (answers_reply (Store x)).
    + by apply (exclusive_fin _ _ _ h t).
    + right. rewrite Eb. apply tx_cost_pos.
  - eexists _, _, _. split; [reflexivity|].
    destruct (inv_poll c m h r t m' h' (state t') Hinv Hh Hca Hi' Hss Hhs) as [[Hh' Hcell] Hmk].
    constructor; try done.
    + apply Hmk. assert (store_ok (Cache.with_fsm (state t') c) None (tx_low t' m')).
      { apply (store_ok_same c); [done..|]. by eapply store_ok_proper. }
      assert (carries m' h' t' r) by (split; [done|]; by rewrite Er; apply Hca).
      unfold phase_ok. cbn. by destruct Hstate as [->| ->].
    + rewrite Econt. transitivity (overlay c (tx_low t' m')).
      * unfold contents, low, trans. cbn. by destruct Hstate as [->| ->].
      * by apply overlay_proper.
    + eapply owns_poll; [done | done | | exact Er | exact Hhs]. unfold owns, current, trans. cbn.
      intros id. destruct Hstate as [->| ->];
        (intros [(? & [= <-] & ->)|[(? & [= <-] & ->)|?]]; [by left | right; left; by rewrite Er | by right; right]).
    + apply (answered_pending _ _ _ _ _ _ _ r); try done. unfold current. cbn. by destruct Hstate as [->| ->].
    + apply (exclusive_poll _ _ _ _ t t'); try done. unfold trans. cbn. by destruct Hstate as [->| ->].
    + right. rewrite Eb. eapply Nat.le_lt_trans; [|exact Hfin]. unfold busy_after, busy_with. cbn.
      by destruct Hstate as [->| ->].
Qed.

(** a refill request just made *)
Lemma refill_request c m h r : inv c m h → holds c m h r →
  let '(ra, h') := Req.load (base c (Req.get_addr r)) (bs c) h in
  (∃ x, ra = Load x ∧ load_addr x = base c (Req.get_addr r) ∧ load_len x = bs c) ∧
  d_inv m h' ∧ holds c m h' r ∧ Heap.get h' (Req.id r) = Heap.get h (Req.id r) ∧
  carries m h' (Sending ra) r ∧
  ∀ P Q, (∀ id, Q id → P id ∨ id = Req.id ra) → heap_step P Q h h'.
Proof.
  intros [Hsh Hlow _ _ _ _] Hh. pose proof Hh as (Hr & Hl & Ho & Hpf).
  pose proof (alloc_load (base c (Req.get_addr r)) (bs c) h) as Hal.
  destruct (Req.load _ _ _) as [ra h']. destruct Hal as [Hal (x & -> & Ex1 & Ex2)].
  destruct (allocated_fresh _ _ _ m Hal Hlow) as (Hi' & Hla & Hoa & Hk & Hhs).
  destruct (Hk _ Hl) as (Hl' & Hcell & Hne). split_and!; [by exists x | done | done | done | | done].
  split; [|done]. split_and!; [done..|]. destruct Hr as (_ & _ & _ & _ & [Hf1 Hf2] & _).
  eapply accepts_block; [done | exact Ex2 | done | | |]; cbn; rewrite Ex1; [|lia..].
  destruct Hsh as [[Hw _] _ _ _ _]. by eapply base_of_aligned.
Qed.

Lemma tick_write_back c m h t w : inv c m h → fsm c = WriteBack t w → ticks_to c m h.
Proof.
  intros Hinv Hf. pose proof Hinv as [Hsh Hlow Hp Hq Hbl Hph].
  unfold phase_ok in Hph. rewrite Hf in Hph.
  destruct Hph as (r & s & t0 & x & Hb & Hh & Hca & Hx & Hw & Hrp & Hmiss & Hhit & Ereq & Ea & Ed & Hst).
  destruct (progress_spec t m h Hlow (proj1 Hca)) as (fin & t' & m' & h' & E & Hi' & Hss & Er & Ht' & Hlv & Hhs & Hcurs & Hfin).
  unfold ticks_to, Cache.tick. rewrite Hf. unfold Cache.write_back. rewrite E, bind_Ret. destruct fin.
  - destruct Hfin as (-> & -> & -> & Hfree & Elow & Hg). rewrite Hb. cbn [unwrap]. rewrite bind_Ret.
    pose proof Hsh as [Hc _ _ _ _]. pose proof Hc as [Hwd _].
    destruct (request_placed c m r Hsh (proj1 Hh)) as (Hu & _).
    rewrite (block_base_spec c Hwd _ Hu), bind_Ret, (block_len_spec c Hwd), bind_Ret.
    pose proof (refill_request c m h r Hinv Hh) as Href.
    change (base_of (offset_bit_width c)) with (base c).
    change (Z.to_nat (2 ^ offset_bit_width c)) with (bs c).
    destruct (Req.load _ _ _) as [ra h2]. destruct Href as ((y & -> & Ey1 & Ey2) & Hi2 & Hh2 & Hcell & Hca2 & Hhs2).
    eexists _, _, _. split; [reflexivity|]. constructor; try done.
    + constructor; try done; [by apply (shape_same c _ m)|].
      exists r, s, y. split_and!; try done. rewrite <- Elow. by apply (store_ok_same c).
    + unfold contents, low, trans. cbn. rewrite Hf, Hb, Elow. done.
    + apply Hhs2. unfold owns, current, trans. cbn. rewrite Hf.
      intros id [Ho|[(? & [= <-] & ->)|Ho]]; [left; by left | by right | left; by right; right].
    + apply (answered_pending _ _ _ _ _ _ _ r); try done. unfold current. by rewrite Hf.
    + apply (exclusive_fin _ _ _ h t); try done. unfold trans. by rewrite Hf.
    + right. unfold busy, busy_after, busy_with. cbn -[tx_after tx_bound]. rewrite Hf.
      pose proof (tx_cost_pos t m).
      destruct (tx_cost_bound (LowerMemory.new (Load y)) m h2 Hi2) as [_ ?].
      unfold LowerMemory.new in *. unfold refill_cost, hit_cost. cbn -[tx_after tx_bound] in *. lia.
  - eexists _, _, _. split; [reflexivity|].
    destruct (inv_poll c m h r t m' h' (WriteBack t' w) Hinv Hh Hca Hi' Hss Hhs) as [[Hh' Hcell] Hmk].
    constructor; try done.
    + apply Hmk. exists r, s, t0, x. split_and!; try done.
      * split; [done|]. by rewrite Er; apply Hca.
      * by rewrite Er.
      * apply (store_ok_same c); [done..|]. by eapply store_ok_proper; [|exact Hst].
    + unfold contents, low, trans. cbn. rewrite Hf, Hb. apply view_apply_proper. exact (overlay_proper c _ _ Hlv).
    + eapply owns_poll; [by unfold current; rewrite Hf | by unfold trans; rewrite Hf | | exact Er | exact Hhs].
      unfold owns, current, trans. cbn. rewrite Hb.
      intros id [(? & [= <-] & ->)|[(? & [= <-] & ->)|?]]; [by left | right; left; by rewrite Er | by right; right].
    + apply (answered_pending _ _ _ _ _ _ _ r); try done. unfold current. by rewrite Hf.
    + apply (exclusive_poll _ _ _ _ t t'); try done. unfold trans. by rewrite Hf.
    + right. unfold busy, busy_after, busy_with, refill_cost, hit_cost. cbn. rewrite Hf.
      destruct Hss as (Hbd & _). unfold tx_bound in *. rewrite Hbd. lia.
Qed.

(** a cache whose set [x] became [s'] and whose controller state changed *)
Lemma update_intro c x s s' f b q inf st :
  set c !! x = Some s →
  set_update c (Cache.upd c (<[x:=s']> (set c)) f None b q inf st) x s s'.
Proof. by constructor. Qed.

Lemma update_same_config c x s' f b q inf st :
  same_config c (Cache.upd c (<[x:=s']> (set c)) f None b q inf st).
Proof. split_and!; try done. cbn. by rewrite length_insert. Qed.

(** blocks stay in the reach of the next level *)
Lemma update_blocks c c' x s s' m : set_update c c' x s s' →
  (∀ y s t w, set c !! y = Some s → hits s t w → addr_of c t y + bs c ≤ d_span m) →
  (∀ t w, hits s' t w → hits s t w ∨ addr_of c t x + bs c ≤ d_span m) →
  ∀ y s t w, set c' !! y = Some s → hits s t w → addr_of c' t y + bs c' ≤ d_span m.
Proof.
  intros Hu Hbl Hh y s1 t w Hy Hw. destruct (su_slices _ _ _ _ _ Hu) as (_ & _ & _ & -> & _ & ->).
  rewrite (su_lookup _ _ _ _ _ Hu) in Hy. case_decide; [|by eapply Hbl]. injection Hy as <-. subst y.
  destruct (Hh t w Hw) as [?|?]; [|done]. eapply Hbl; [apply (su_old _ _ _ _ _ Hu) | done].
Qed.

Lemma tick_allocate c m h t w : inv c m h → fsm c = Allocate t w → ticks_to c m h.
Proof.
  intros Hinv Hf. pose proof Hinv as [Hsh Hlow Hp Hq Hbl Hph].
  unfold phase_ok in Hph. rewrite Hf in Hph.
  destruct Hph as (r & s & y & Hb & Hh & Hca & Hx & Hw & Hrp & Hmiss & Ereq & Ea & El & Hst).
  destruct (progress_spec t m h Hlow (proj1 Hca)) as (fin & t' & m' & h' & E & Hi' & Hss & Er & Ht' & Hlv & Hhs & Hcurs & Hfin).
  assert (Elowt : tx_low t m = d_view m) by (destruct t; cbn in Ereq |- *; [by rewrite Ereq | done]).
  unfold ticks_to, Cache.tick. rewrite Hf. unfold Cache.allocate. rewrite E, bind_Ret. destruct fin.
  - destruct Hfin as (-> & -> & -> & Hfree & _ & Hg).
    unfold LowerMemory.load_data, Req.load_data. rewrite Ereq in Hg |- *.
    cbn [Req.load_req_ref mbind exec_bind mret exec_ret]. unfold LoadReq.data.
    destruct Hg as [_ [Hdl Hdb]]. rewrite Ea in Hdb. rewrite El in Hdl, Hdb.
    change (load_id y) with (Req.id (Load y)). rewrite Hb. cbn [unwrap].
    set (d := buffer (Heap.get h (Req.id (Load y)))) in *. pose proof Hsh as [Hc _ _ _ _]. pose proof Hc as [Hwd _].
    destruct (request_placed c m r Hsh (proj1 Hh)) as (Hu & _ & Htag & _).
    rewrite bind_Ret, (addr_transfer_spec c Hwd _ Hu). cbn [mbind exec_bind].
    fold (tag c (Req.get_addr r)) (idx c (Req.get_addr r)). rewrite (index_Ret _ _ _ Hx), bind_Ret.
    destruct (insert_block_spec (num_associativity s) (bs c) (tags c) s w (tag c (Req.get_addr r)) d) as (s' & -> & Hok' & Hhits & Hblk & Hoth & Hdirty & Hrp');
      [by apply (st_sets _ _ _ Hst (idx c (Req.get_addr r))) | done | done | done | done | done |].
    rewrite bind_Ret. unfold Cache.set_way. rewrite set_index_Ret by (by eapply lookup_lt_Some).
    cbn [mbind exec_bind mret exec_ret]. eexists _, _, _. split; [reflexivity|].
    set (x := idx c (Req.get_addr r)) in *.
    set (c' := Cache.with_fsm _ _).
    assert (Hupd : set_update c c' x s s') by (by constructor).
    assert (Hways : num_associativity s' = num_associativity s) by (by rewrite (so_ways _ _ _ _ Hok')).
    assert (Hba : base c (Req.get_addr r) = addr_of c (tag c (Req.get_addr r)) x) by (by apply base_address).
    assert (Hblk' : ∀ k : nat, (k < bs c)%nat → observed (addr_of c (tag c (Req.get_addr r)) x + k) →
      way_bytes s' w !! k = Some (d_view m (addr_of c (tag c (Req.get_addr r)) x + k)))
      by (rewrite Hblk, <- Hba; exact Hdb).
    pose proof (refill_overlay c c' x s s' Hupd Hc (st_sets _ _ _ Hst) Hways Hok' w _ _ Hst Hw Hmiss Hhits Hblk' Hoth Hdirty Hrp') as Hov.
    pose proof (refill_store c c' x s s' Hupd Hc (st_sets _ _ _ Hst) Hways Hok' w _ _ Hst Hw Hmiss Hhits Hblk' Hoth Hdirty Hrp') as Hst'.
    assert (Hcfg : same_config c c') by (split_and!; try done; cbn; by rewrite length_insert).
    constructor; try done.
    + constructor; try done.
      * by eapply shape_same.
      * eapply update_blocks; [exact Hupd | exact Hbl |].
        intros t' w' [[_ ->]|[_ ?]]%Hhits; [right | by left].
        destruct Hh as ((_ & _ & _ & _ & [_ Hf2] & _) & _). rewrite <- Hba. lia.
      * split; [done|]. exists r, s', w. split_and!; try done.
        -- cbn. apply list_lookup_insert_eq. by eapply lookup_lt_Some.
        -- apply Hhits. by left.
    + unfold contents, low, trans. cbn. rewrite Hf, Hb, Elowt. apply view_apply_proper. exact Hov.
    + apply heap_step_refl. unfold owns, current, trans. cbn. rewrite Hf.
      intros id [Ho|[(? & [=] & ->)|Ho]]; [by left | by right; right].
    + apply (answered_pending _ _ _ _ _ _ _ r); try done. unfold current. by rewrite Hf.
    + apply (exclusive_fin _ _ _ h t); try done. unfold trans. by rewrite Hf.
    + right. subst c'. unfold busy, busy_after, busy_with. cbn -[tx_after tx_bound tx_cost]. rewrite Hf.
      pose proof (tx_cost_pos t m). unfold refill_cost, hit_cost. clear -H4. lia.
  - eexists _, _, _. split; [reflexivity|].
    destruct (inv_poll c m h r t m' h' (Allocate t' w) Hinv Hh Hca Hi' Hss Hhs) as [[Hh' Hcell] Hmk].
    assert (Elowt' : tx_low t' m' = d_view m').
    { rewrite Ereq in Er. destruct t'; cbn in Er |- *; [by rewrite Er | done]. }
    rewrite Elowt, Elowt' in Hlv.
    constructor; try done.
    + apply Hmk. exists r, s, y. split_and!; try done.
      * split; [done|]. by rewrite Er; apply Hca.
      * by rewrite Er.
      * apply (store_ok_same c); [done..|]. by eapply store_ok_proper; [|exact Hst].
    + unfold contents, low, trans. cbn. rewrite Hf, Hb, Elowt, Elowt'. apply view_apply_proper. exact (overlay_proper c _ _ Hlv).
    + eapply owns_poll; [by unfold current; rewrite Hf | by unfold trans; rewrite Hf | | exact Er | exact Hhs].
      unfold owns, current, trans. cbn. rewrite Hb.
      intros id [(? & [= <-] & ->)|[(? & [= <-] & ->)|?]]; [by left | right; left; by rewrite Er | by right; right].
    + apply (answered_pending _ _ _ _ _ _ _ r); try done. unfold current. by rewrite Hf.
    + apply (exclusive_poll _ _ _ _ t t'); try done. unfold trans. by rewrite Hf.
    + right. unfold busy, busy_after, busy_with, refill_cost, hit_cost. cbn. rewrite Hf.
      destruct Hss as (Hbd & _). unfold tx_bound in *. rewrite Hbd. lia.
Qed.
End ticks.

(** * The [Lookup] state *)

Section lookup.
Context `{Profile} {RP : Type} `{ReplacementLaws RP} {M : Type} `{DeviceLaws M}.
Context (c : GeneralCache RP) (m : M) (h : heap) (r : MemoryReqType).
Context (Hinv : inv c m h) (Hf : fsm c = GeneralCache.Lookup r).

Abbreviation x := (idx c (Req.get_addr r)).
Abbreviation t := (tag c (Req.get_addr r)).
Context (s : GeneralCacheSetUnit RP) (Hx : set c !! x = Some s).
Context (q : list Z) (Hq : ∀ a, a ∈ q → a mod 2 ^ offset_bit_width c = 0 ∧ fits c m a).

(** the cache after the lookup *)
Definition looked s' f b inf st : GeneralCache RP :=
  Cache.upd c (<[x:=s']> (set c)) f None b q inf st.

Lemma lookup_phase : holds c m h r ∧ store_ok c None (d_view m).
Proof using Hinv Hf. pose proof (inv_phase _ _ _ Hinv) as Hp. unfold phase_ok in Hp. by rewrite Hf in Hp. Qed.
Lemma lookup_contents : contents c m = view_apply r (overlay c (d_view m)).
Proof using Hf. unfold contents, low, trans. by rewrite Hf. Qed.
Lemma lookup_client : client_req c = if prefetch_in_flight c then None else Some r.
Proof using Hf. unfold client_req, current. by rewrite Hf. Qed.
Lemma lookup_exclusive (c' : GeneralCache RP) : exclusive c m → exclusive c' m.
Proof using Hf. apply exclusive_free. unfold trans. by rewrite Hf. Qed.
Lemma lookup_owns id : owns c m id ↔ id = Req.id r ∨ d_owns m id.
Proof using Hf.
  unfold owns, current, trans. rewrite Hf. split.
  - intros [(? & [= <-] & ->)|[(? & [=] & _)|?]]; [by left | by right].
  - intros [->|?]; [left; by exists r | by right; right].
Qed.

Lemma looked_config s' f b inf st : same_config c (looked s' f b inf st).
Proof using Type. split_and!; try done. cbn. by rewrite length_insert. Qed.
Lemma looked_update s' f b inf st : set_update c (looked s' f b inf st) x s s'.
Proof using Hx. by constructor. Qed.

(** what every outcome shares *)
Lemma looked_inv s' f b inf st h' :
  (∀ t' w, hits s' t' w ↔ hits s t' w) → d_inv m h' →
  phase_ok (looked s' f b inf st) m h' → inv (looked s' f b inf st) m h'.
Proof using All.
  intros Hh Hi Hp. destruct Hinv as [Hsh _ _ _ Hbl _]. constructor; try done; try apply lookup_exclusive.
  - eapply shape_same; [apply looked_config | done | done].
  - eapply update_blocks; [apply looked_update | exact Hbl |]. intros t' w Hw. left. by apply Hh.
Qed.

(** ** Hits *)
Section hit.
Context (w : nat) (Hw : hits s t w).

Lemma hit_is_hit : is_hit c r = true.
Proof using All.
  destruct lookup_phase as (_ & Hst). unfold is_hit. rewrite Hx.
  destruct (way_of_spec s t (st_sets _ _ _ Hst _ _ Hx)) as [(w' & _ & ->)|[Hm _]]; [done|].
  by destruct (Hm w).
Qed.

Lemma hit_sets : set_ok (num_associativity s) (bs c) (tags c) s.
Proof using All. destruct lookup_phase as (_ & Hst). by apply (st_sets _ _ _ Hst x). Qed.

(** the request is answered in this tick *)
Lemma hit_answered s' st d v : view_apply r (overlay c (d_view m)) ≡ v →
  d = buffer (reply r v) →
  answered (contents c m) c m h (looked s' Idle (backup_req c) false st) m
    (Heap.set (Req.id r) {| done := true; buffer := d |} h).
Proof using Hinv Hf.
  intros Hv ->. destruct lookup_phase as ((_ & _ & Ho & _) & _).
  unfold answered. rewrite lookup_client. destruct (prefetch_in_flight c); [done|]. right.
  split_and!; [done| |].
  - intros [(? & [=] & _)|[(? & [=] & _)|?]]. by apply Ho.
  - rewrite get_set_eq, lookup_contents, Hv. apply (answers_reply r v).
Qed.

Lemma hit_heap s' st d : heap_step (owns c m) (owns (looked s' Idle (backup_req c) false st) m) h
  (Heap.set (Req.id r) {| done := true; buffer := d |} h).
Proof using Hf.
  split_and!; [done| |].
  - intros id _. destruct (decide (id = Req.id r)) as [->|Hne]; [left; apply lookup_owns; by left|].
    right. by apply get_set_ne.
  - intros id [(? & [=] & _)|[(? & [=] & _)|?]]. left. by right; right.
Qed.

Lemma hit_lower d : d_inv m (Heap.set (Req.id r) {| done := true; buffer := d |} h).
Proof using Hinv Hf.
  destruct lookup_phase as ((_ & _ & Ho & _) & _).
  eapply law_frame; [apply (inv_lower _ _ _ Hinv) | done |].
  intros id Hid. apply get_set_ne. intros <-. by apply Ho.
Qed.

Lemma hit_busy s' st : (busy c m = 0 ∨ busy_after (looked s' Idle (backup_req c) false st) m < busy c m)%nat.
Proof using All.
  right. unfold busy, busy_after, busy_with, hit_cost. rewrite Hf, hit_is_hit. cbn. lia.
Qed.

(** a load *)
Lemma hit_load y rp' st : r = Load y → rp_valid rp' = rp_valid (rp s) →
  set_ok (num_associativity s) (bs c) (tags c) (CacheSet.with_rp rp' s) →
  ticked c m h (looked (CacheSet.with_rp rp' s) Idle (backup_req c) false st) m
    (Heap.set (Req.id r) {| done := true;
       buffer := take (Req.get_len r) (drop (off c (Req.get_addr r)) (way_bytes s w)) |} h).
Proof using All.
  intros Hr Hrp Hok. destruct lookup_phase as (Hh & Hst).
  pose proof Hinv as [Hsh Hlow _ _ _ _]. pose proof Hsh as [Hc _ _ _ _].
  destruct (request_placed c m r Hsh (proj1 Hh)) as (_ & Hin & _).
  set (c' := looked _ _ _ _ _).
  pose proof (looked_update (CacheSet.with_rp rp' s) Idle (backup_req c) false st) as Hu. fold c' in Hu.
  constructor; try done; try apply lookup_exclusive.
  - apply looked_inv; [done | apply hit_lower |]. split_and!; try done.
    eapply (su_store_same c c' x s _ Hu (st_sets _ _ _ Hst) eq_refl Hok None None); try done.
    intros _ t' w' _ Ht'. right. unfold tracked_way. cbn. by rewrite Hrp.
  - apply looked_config.
  - rewrite lookup_contents, Hr. cbn [view_apply]. unfold contents, low, trans. cbn.
    by apply (su_overlay_same c c' x s _ Hu Hc (st_sets _ _ _ Hst) eq_refl Hok).
  - apply hit_heap.
  - eapply hit_answered; [reflexivity|]. rewrite Hr. cbn [reply buffer view_apply].
    rewrite Hr in Hin, Hx, Hw. cbn [Req.get_addr Req.get_len] in *.
    symmetry. by apply (overlay_read_hit c (d_view m) _ _ s w Hc (st_sets _ _ _ Hst)).
  - apply hit_busy.
Qed.

(** a store: the written set, and what it leaves of the old one *)
Section store.
Context (y : MemoryStoreReq) (Hr : r = Store y) (s' : GeneralCacheSetUnit RP) (mark : Prop).
Context (Hok : set_ok (num_associativity s) (bs c) (tags c) s').
Context (Hhits : ∀ t' w', hits s' t' w' ↔ hits s t' w').
Context (Hblk : way_bytes s' w = take (off c (Req.get_addr r)) (way_bytes s w) ++ store_bytes y ++
  drop (off c (Req.get_addr r) + Req.get_len r) (way_bytes s w)).
Context (Hother : ∀ w', w' ≠ w → (w' < num_associativity s)%nat → way_bytes s' w' = way_bytes s w').
Context (Hdirty : ∀ w', is_dirty s' w' ↔ is_dirty s w' ∨ (mark ∧ w' = w)).
Context (Hrp : rp_valid (rp s') = rp_valid (rp s)).

Lemma store_facts : config c ∧ within c (Req.get_addr r) (Req.get_len r) ∧ sets_ok c ∧
  num_associativity s' = num_associativity s ∧ length (store_bytes y) = Req.get_len r.
Proof using All.
  destruct lookup_phase as (Hh & Hst). pose proof Hinv as [Hsh _ _ _ _ _].
  pose proof Hsh as [Hc _ _ _ _]. destruct (request_placed c m r Hsh (proj1 Hh)) as (_ & Hin & _).
  destruct Hh as ((_ & _ & _ & Hwf & _) & _).
  split_and!; [done | done | apply (st_sets _ _ _ Hst) | by rewrite (so_ways _ _ _ _ Hok) | by rewrite Hr in Hwf |- *].
Qed.

Lemma store_contents f b inf st v :
  overlay (looked s' f b inf st) v ≡ view_apply r (overlay c v).
Proof using All.
  destruct store_facts as (Hc & Hin & Hsets & Hways & Hd).
  rewrite Hr. cbn [view_apply]. change (store_addr y) with (Req.get_addr (Store y)). rewrite <- Hr.
  apply (write_overlay c Hc _ _ Hin _ s s' w _ (looked_update s' f b inf st) Hsets Hways Hok Hd Hw Hhits Hblk Hother).
Qed.

Lemma hit_store_back st : Policy.is_write_through (write_policy c) = false → mark →
  ticked c m h (looked s' Idle (backup_req c) false st) m
    (Heap.set (Req.id r) {| done := true; buffer := [] |} h).
Proof using All.
  intros Hp Hmark. destruct store_facts as (Hc & Hin & Hsets & Hways & Hd).
  destruct lookup_phase as (Hh & Hst). constructor; try done; try apply lookup_exclusive.
  - apply looked_inv; [done | apply hit_lower |]. split_and!; try done.
    apply (write_store_back c Hc _ _ Hin _ s s' w _ (looked_update s' _ _ _ _) Hsets Hways Hok Hd Hw Hhits Hblk Hother); try done.
    intros w'. rewrite Hdirty. clear -Hmark. tauto.
  - apply looked_config.
  - rewrite lookup_contents. unfold contents, low, trans. cbn. apply store_contents.
  - apply hit_heap.
  - eapply hit_answered; [reflexivity|]. by rewrite Hr.
  - apply hit_busy.
Qed.

Lemma hit_store_through rp' h' xs st :
  Policy.is_write_through (write_policy c) = true → ¬ mark → prefetch_in_flight c = false →
  allocated rp' h h' → rp' = Store xs → store_addr xs = Req.get_addr r →
  store_bytes xs = store_bytes y → store_len xs = length (store_bytes y) →
  ticked c m h (looked s' (WriteThroughCommit (LowerMemory.new rp') r) (backup_req c) false st) m h'.
Proof using All.
  intros Hp Hmark Hpf Hal Exs E1 E2 E3. destruct store_facts as (Hc & Hin & Hsets & Hways & Hd).
  destruct lookup_phase as (Hh & Hst). pose proof Hinv as [Hsh Hlow _ _ _ _].
  pose proof Hh as (Hro & Hl & Ho & _).
  destruct (allocated_fresh _ _ _ m Hal Hlow) as (Hi' & Hl' & Ho' & Hk & Hhs).
  destruct (Hk _ Hl) as (Hlr & Hcell & Hne).
  assert (Eapp : ∀ v, view_apply rp' v = view_apply r v).
  { intros v. rewrite Exs, Hr. cbn. rewrite E1, E2, Hr. done. }
  constructor; try done; try apply lookup_exclusive.
  - apply looked_inv; [done | done |]. split_and!; try done.
    + by rewrite Hr.
    + split_and!; try done. eapply request_same; [apply looked_config | done | done | done].
    + split; [|done]. split_and!; try done.
      eapply accepts_request; [done | exact Hro | | by rewrite Exs | by rewrite Exs; cbn; congruence].
      rewrite Exs. cbn. by rewrite E3.
    + change (tx_low _ m) with (view_apply rp' (d_view m)). rewrite Eapp, Hr. cbn [view_apply].
      change (store_addr y) with (Req.get_addr (Store y)). rewrite <- Hr.
      apply (write_store_through c Hc _ _ Hin _ s s' w _ (looked_update s' _ _ _ _) Hsets Hways Hok Hd Hw Hhits Hblk Hother); try done.
      intros w'. rewrite Hdirty. clear -Hmark. tauto.
  - apply looked_config.
  - rewrite lookup_contents. transitivity (overlay (looked s' (WriteThroughCommit (LowerMemory.new rp') r)
      (backup_req c) false st) (view_apply rp' (d_view m))); [done|].
    rewrite Eapp, store_contents, Hr. cbn [view_apply].
    change (store_addr y) with (Req.get_addr (Store y)). rewrite <- Hr. apply overlay_write_write.
  - apply Hhs. intros id [(? & [= <-] & ->)|[(? & [= <-] & ->)|?]].
    + left. apply lookup_owns. by left.
    + by right.
    + left. apply lookup_owns. by right.
  - apply (answered_pending _ _ _ _ _ _ _ r); try done. unfold current. by rewrite Hf.
  - right. unfold busy, busy_after, busy_with, hit_cost. rewrite Hf, hit_is_hit.
    destruct (tx_cost_bound (LowerMemory.new rp') m h Hlow) as [_ ?].
    cbn -[tx_after tx_bound] in *. unfold LowerMemory.new in *. lia.
Qed.
End store.
End hit.

(** ** Misses *)
Section miss.
Context (Hmiss : ∀ w, ¬ hits s t w).
(** the way to replace, and the policy after the eviction *)
Context (w : nat) (Hwlt : (w < num_associativity s)%nat) (rp1 : RP).
Context (Hok : set_ok (num_associativity s) (bs c) (tags c) (CacheSet.with_rp rp1 s)).
Context (Hrp : rp_valid rp1 = <[w:=false]> (rp_valid (rp s))).
Context (rr : MemoryReqType) (h' : heap) (Hal : allocated rr h h') (st : CacheStatistic).

Abbreviation s1 := (CacheSet.with_rp rp1 s).

Lemma miss_facts : config c ∧ sets_ok c ∧ holds c m h' r ∧ d_inv m h' ∧ live rr h' ∧
  ¬ d_owns m (Req.id rr) ∧ Req.id rr ≠ Req.id r.
Proof using All.
  destruct lookup_phase as ((Hro & Hl & Ho & Hp) & Hst). pose proof Hinv as [Hsh Hlow _ _ _ _].
  destruct (allocated_fresh _ _ _ m Hal Hlow) as (? & ? & ? & Hk & _). destruct (Hk _ Hl) as (? & _ & ?).
  split_and!; try done; [apply Hsh | apply (st_sets _ _ _ Hst)].
Qed.

Lemma miss_holds f b inf : inf = prefetch_in_flight c → holds (looked s1 f b inf st) m h' r.
Proof using All.
  intros ->. destruct miss_facts as (_ & _ & (Hro & Hl & Ho & Hp) & _).
  by split_and!.
Qed.

Lemma miss_lookup f b inf : set (looked s1 f b inf st) !! x = Some s1.
Proof using All. cbn. apply list_lookup_insert_eq. by eapply lookup_lt_Some. Qed.

Lemma miss_free : rp_valid (rp s1) !! w = Some false.
Proof using All.
  cbn. rewrite Hrp. apply list_lookup_insert_eq. rewrite <- (length_insert _ w false), <- Hrp.
  change rp1 with (rp s1). by rewrite (so_rp_len _ _ _ _ Hok).
Qed.

Lemma miss_busy n f b inf : (n ≤ tx_bound m + tx_bound m + refill_cost m (miss_penalty c))%nat →
  busy_after (looked s1 f b inf st) m = n →
  (busy c m = 0 ∨ busy_after (looked s1 f b inf st) m < busy c m)%nat.
Proof using All.
  intros Hn ->. right. unfold busy, busy_with. rewrite Hf. unfold is_hit. rewrite Hx.
  destruct lookup_phase as (_ & Hst).
  destruct (way_of_spec s t (st_sets _ _ _ Hst _ _ Hx)) as [(w' & Hw' & _)|[_ ->]]; [by destruct (Hmiss w')|].
  lia.
Qed.

Lemma miss_heap f b inf : current (looked s1 f b inf st) = Some r →
  trans (looked s1 f b inf st) = Some (LowerMemory.new rr) →
  heap_step (owns c m) (owns (looked s1 f b inf st) m) h h'.
Proof using All.
  intros Ec Et. destruct (allocated_fresh _ _ _ m Hal (inv_lower _ _ _ Hinv)) as (_ & _ & _ & _ & Hhs).
  apply Hhs. unfold owns at 1. rewrite Ec, Et. intros id [(? & [= <-] & ->)|[(? & [= <-] & ->)|?]].
  - left. apply lookup_owns. by left.
  - by right.
  - left. apply lookup_owns. by right.
Qed.

Lemma miss_answered f b inf v m' : inf = prefetch_in_flight c →
  current (looked s1 f b inf st) = Some r → answered v c m h (looked s1 f b inf st) m' h'.
Proof using All.
  intros -> Ec. destruct lookup_phase as ((_ & Hl & _) & _).
  apply (answered_pending _ _ _ _ _ _ _ r); try done; [unfold current; by rewrite Hf|].
  by apply Hal.
Qed.

Lemma miss_overlay f b inf v : overlay (looked s1 f b inf st) v ≡ overlay c v.
Proof using All.
  destruct miss_facts as (Hc & Hsets & _).
  by apply (su_overlay_same c _ x s s1 (looked_update _ _ _ _ _) Hc Hsets eq_refl Hok).
Qed.

(** a store that misses in a no-write-allocate cache bypasses it *)
Lemma miss_bypass y xs :
  r = Store y → Policy.is_write_through (write_policy c) = true → prefetch_in_flight c = false →
  rr = Store xs → store_addr xs = Req.get_addr r →
  store_bytes xs = store_bytes y → store_len xs = length (store_bytes y) →
  ticked c m h (looked s1 (WriteAround (LowerMemory.new rr) r) (backup_req c) false st) m h'.
Proof using All.
  intros Hr Hp Hpf Exs E1 E2 E3. destruct miss_facts as (Hc & Hsets & Hh' & Hi' & Hl' & Ho' & Hne).
  destruct lookup_phase as (Hh & Hst). pose proof Hinv as [Hsh Hlow _ _ _ _].
  destruct (request_placed c m r Hsh (proj1 Hh)) as (_ & Hin & _).
  assert (Hd : length (store_bytes y) = Req.get_len r).
  { destruct Hh as ((_ & _ & _ & Hwf & _) & _). by rewrite Hr in Hwf |- *. }
  rewrite <- Hd in Hin.
  assert (Eapp : view_apply rr (d_view m) = view_write (d_view m) (Req.get_addr r) (store_bytes y)).
  { rewrite Exs. cbn. by rewrite E1, E2. }
  constructor; try done; try apply lookup_exclusive.
  - apply looked_inv; [done | done |]. split_and!; try done.
    + by rewrite Hr.
    + by apply miss_holds.
    + split; [|done]. split_and!; try done.
      eapply accepts_request; [done | apply Hh | | by rewrite Exs | by rewrite Exs; cbn; congruence].
      rewrite Exs. cbn. by rewrite E3.
    + change (tx_low _ m) with (view_apply rr (d_view m)). rewrite Eapp.
      apply (su_store_same c _ x s s1 (looked_update _ _ _ _ _) Hsets eq_refl Hok None None); try done.
      * cbn. congruence.
      * by apply (bypass_store c Hc Hsets _ _ Hin s Hx Hmiss).
  - apply looked_config.
  - rewrite lookup_contents. transitivity (overlay (looked s1 (WriteAround (LowerMemory.new rr) r)
      (backup_req c) false st) (view_apply rr (d_view m))); [done|].
    rewrite miss_overlay, Eapp, (bypass_overlay c Hc Hsets _ _ Hin s Hx Hmiss). by rewrite Hr.
  - by apply miss_heap.
  - by apply miss_answered.
  - eapply miss_busy; [|reflexivity]. unfold busy_after, busy_with.
    destruct (tx_cost_bound (LowerMemory.new rr) m h Hlow) as [_ ?].
    cbn -[tx_after tx_bound] in *. unfold LowerMemory.new in *. lia.
Qed.

(** a clean victim: the block is fetched *)
Lemma miss_clean xs : ¬ is_dirty s w →
  rr = Load xs → load_addr xs = base c (Req.get_addr r) → load_len xs = bs c →
  ticked c m h (looked s1 (Allocate (LowerMemory.new rr) w) (Some r) (prefetch_in_flight c) st) m h'.
Proof using All.
  intros Hcl Exs E1 E2. destruct miss_facts as (Hc & Hsets & Hh' & Hi' & Hl' & Ho' & Hne).
  destruct lookup_phase as (Hh & Hst). pose proof Hinv as [Hsh Hlow _ _ _ _].
  pose proof Hc as [Hwd _].
  constructor; try done; try apply lookup_exclusive.
  - apply looked_inv; [done | done |]. exists r, s1, xs.
    split_and!; try done; [| apply miss_lookup | apply miss_free |].
    + split; [|done]. split_and!; try done. destruct Hh as ((_ & _ & _ & _ & [Hb1 Hb2] & _) & _).
      eapply accepts_block; try done; rewrite Exs; cbn; rewrite ?E1, ?E2; try done.
      by apply (base_of_aligned _ (index_bit_width c)).
    + eapply clean_victim_store; [apply looked_update | done | done | done | done | done | exact Hrp | | done].
      intros t' _. exact Hcl.
  - apply looked_config.
  - rewrite lookup_contents. transitivity (view_apply r (overlay (looked s1 (Allocate (LowerMemory.new rr) w)
      (Some r) (prefetch_in_flight c) st) (d_view m))); [|by rewrite miss_overlay].
    unfold contents, low, trans. cbn. by rewrite Exs.
  - by apply miss_heap.
  - by apply miss_answered.
  - eapply miss_busy; [|reflexivity]. unfold busy_after, busy_with.
    destruct (tx_cost_bound (LowerMemory.new rr) m h Hlow) as [_ ?].
    cbn -[tx_after tx_bound refill_cost] in *. unfold LowerMemory.new in *. lia.
Qed.

(** a dirty victim: it is written back first *)
Lemma miss_dirty t0 xs : hits s t0 w →
  rr = Store xs → store_addr xs = addr_of c t0 x → store_bytes xs = way_bytes s w →
  store_len xs = length (way_bytes s w) →
  ticked c m h (looked s1 (WriteBack (LowerMemory.new rr) w) (Some r) (prefetch_in_flight c) st) m h'.
Proof using All.
  intros Hw Exs E1 E2 E3. destruct miss_facts as (Hc & Hsets & Hh' & Hi' & Hl' & Ho' & Hne).
  destruct lookup_phase as (Hh & Hst). pose proof Hinv as [Hsh Hlow _ _ Hbl _].
  pose proof Hc as [Hwd _].
  assert (Hlen : length (way_bytes s w) = bs c).
  { by apply (length_way_bytes (num_associativity s) (bs c) (tags c)); [apply (Hsets x)|]. }
  assert (Eapp : view_apply rr (d_view m) = written c x s w t0 (d_view m)).
  { rewrite Exs. cbn. by rewrite E1, E2. }
  assert (Hsame : same_blocks s s1) by done.
  constructor; try done; try apply lookup_exclusive.
  - apply looked_inv; [done | done |]. exists r, s1, t0, xs.
    split_and!; try done; [| apply miss_lookup | apply miss_free |].
    + split; [|done]. split_and!; try done.
      eapply accepts_block; try done; rewrite Exs; cbn; rewrite ?E1, ?E2, ?E3; try done.
      * by apply address_aligned.
      * apply (address_range _ _ Hwd t0); [by apply (so_range _ _ _ _ (Hsets x s Hx) t0 w)|].
        by apply (set_index_lt c x s).
      * by eapply Hbl.
    + change (tx_low _ m) with (view_apply rr (d_view m)). rewrite Eapp.
      eapply dirty_victim_store; [apply looked_update | done | done | done | done | exact Hw | done | done | exact Hrp | done].
  - apply looked_config.
  - rewrite lookup_contents. transitivity (view_apply r (overlay (looked s1 (WriteBack (LowerMemory.new rr) w)
      (Some r) (prefetch_in_flight c) st) (view_apply rr (d_view m)))); [done|].
    rewrite miss_overlay, Eapp. apply view_apply_proper.
    eapply (written_overlay c (looked s1 (WriteBack (LowerMemory.new rr) w) (Some r) (prefetch_in_flight c) st));
      try done; apply looked_update.
  - by apply miss_heap.
  - by apply miss_answered.
  - eapply miss_busy; [|reflexivity]. unfold busy_after, busy_with.
    destruct (tx_cost_bound (LowerMemory.new rr) m h Hlow) as [_ ?].
    cbn -[tx_after tx_bound refill_cost] in *. unfold LowerMemory.new in *. lia.
Qed.
End miss.
End lookup.

(** * The [Lookup] tick *)

Section resolve.
Context `{Profile} {RP : Type} `{ReplacementLaws RP} {M : Type} `{DeviceLaws M}.
Context (c : GeneralCache RP) (m : M) (h : heap) (r : MemoryReqType).
Context (Hinv : inv c m h) (Hf : fsm c = GeneralCache.Lookup r).

Abbreviation x := (idx c (Req.get_addr r)).
Abbreviation t := (tag c (Req.get_addr r)).
Abbreviation off := (off c (Req.get_addr r)).
Context (s : GeneralCacheSetUnit RP) (Hx : set c !! x = Some s).

(** the outcome of the tag comparison's arm, before the prefetcher's hooks *)
Definition resolved (hit : bool) (c1 : GeneralCache RP) (h1 : heap) : Prop :=
  ∃ s' f b st,
    c1 = Cache.upd c (<[x:=s']> (set c)) f None b (prefetch_queue c) (prefetch_in_flight c) st ∧
    ∀ q, (∀ a, a ∈ q → a mod 2 ^ offset_bit_width c = 0 ∧ fits c m a) →
      ticked c m h (looked c r q s' f b (if hit then false else prefetch_in_flight c) st) m h1.

Lemma count_load_hpm miss (c0 : GeneralCache RP) : ∃ st, Cache.count_load miss c0 = Cache.with_hpm st c0.
Proof using Type.
  unfold Cache.count_load. destruct (prefetch_in_flight c0); [|by eexists].
  exists (hpm c0). by destruct c0.
Qed.
Lemma count_store_hpm miss (c0 : GeneralCache RP) : ∃ st, Cache.count_store miss c0 = Cache.with_hpm st c0.
Proof using Type.
  unfold Cache.count_store. destruct (prefetch_in_flight c0); [|by eexists].
  exists (hpm c0). by destruct c0.
Qed.

Lemma set_way_Ret (c0 : GeneralCache RP) s1 : length (set c0) = length (set c) →
  Cache.set_way c0 x s1 = Ret (Cache.with_set (<[x:=s1]> (set c0)) c0).
Proof using Hx.
  intros E. unfold Cache.set_way. rewrite set_index_Ret; [done|]. rewrite E. by eapply lookup_lt_Some.
Qed.

(** the cache after [tag_compare] left the set [s1] *)
Abbreviation compared s1 := (Cache.with_set (<[x:=s1]> (set c)) c).

Lemma compared_lookup s1 : index (set (compared s1)) x = Ret s1.
Proof using Hx. apply index_Ret. cbn. apply list_lookup_insert_eq. by eapply lookup_lt_Some. Qed.

Lemma compared_set_way s1 s2 st : Cache.set_way (Cache.with_hpm st (compared s1)) x s2 =
  Ret (Cache.with_hpm st (Cache.with_set (<[x:=s2]> (set c)) c)).
Proof using Hx.
  rewrite set_way_Ret by (cbn; by rewrite length_insert). f_equal.
  unfold Cache.with_set, Cache.with_hpm. cbn. by rewrite list_insert_insert_eq.
Qed.

Lemma resolved_intro (hit : bool) s' f b st h1 : b = backup_req c ∨ b = Some r →
  (∀ q, (∀ a, a ∈ q → a mod 2 ^ offset_bit_width c = 0 ∧ fits c m a) →
      ticked c m h (looked c r q s' f b (if hit then false else prefetch_in_flight c) st) m h1) →
  resolved hit (Cache.with_fsm f (Cache.with_backup b (Cache.with_hpm st (Cache.with_set (<[x:=s']> (set c)) c)))) h1.
Proof using Hinv.
  intros _ Ht. exists s', f, b, st. split; [|done].
  unfold Cache.with_fsm, Cache.with_backup, Cache.with_hpm, Cache.with_set, Cache.upd. cbn.
  by rewrite (inv_pending _ _ _ Hinv).
Qed.

Lemma with_backup_same (c0 : GeneralCache RP) : Cache.with_backup (backup_req c0) c0 = c0.
Proof using Type. by destruct c0. Qed.

Lemma lookup_hit_spec w : hits s t w →
  ∃ c1 h1, Cache.lookup_hit (compared s) r x w off h = Ret (c1, h1) ∧ resolved true c1 h1.
Proof using All.
  intros Hw. destruct (lookup_phase c m h r Hinv Hf) as (Hh & Hst).
  pose proof Hinv as [Hsh _ _ _ _ _]. pose proof (st_sets _ _ _ Hst x s Hx) as Hs.
  destruct (request_placed c m r Hsh (proj1 Hh)) as (_ & Hin & _). unfold within in Hin.
  assert (Hlen : length (way_bytes s w) = bs c).
  { apply (length_way_bytes (num_associativity s) (bs c) (tags c)); [done|]. by eapply hits_lt. }
  enough (∀ r', r' = r → ∃ c1 h1, Cache.lookup_hit (compared s) r' x w off h = Ret (c1, h1) ∧
    resolved true c1 h1) as Hr' by (by apply Hr').
  intros r' Er. unfold Cache.lookup_hit. rewrite compared_lookup, bind_Ret.
  destruct (read_block_spec _ _ _ s w Hs (proj1 Hw)) as (r1 & -> & Hok1 & Hv1). rewrite bind_Ret.
  destruct r' as [y|y]; rewrite Er; symmetry in Er.
  - rewrite slice_Ret, bind_Ret by lia. unfold LoadReq.complete_from_slice.
    rewrite bool_decide_true by (rewrite length_take, length_drop, Er; cbn; rewrite Er in Hin; cbn in Hin; lia).
    cbn [assert_]. rewrite !bind_Ret. rewrite set_way_Ret by (cbn; by rewrite length_insert).
    rewrite bind_Ret. eexists _, _. split; [reflexivity|].
    destruct (count_load_hpm false (Cache.with_set (<[x:=CacheSet.with_rp r1 s]> (set (compared s))) (compared s))) as [st ->].
    replace (Cache.with_set _ _) with (Cache.with_set (<[x:=CacheSet.with_rp r1 s]> (set c)) c)
      by (unfold Cache.with_set; cbn; by rewrite list_insert_insert_eq).
    rewrite <- (with_backup_same (Cache.with_hpm st _)). apply (resolved_intro true _ _ (backup_req c)); [by left|].
    intros q Hq. replace (load_id y) with (Req.id r) by (by rewrite Er).
    by eapply hit_load.
  - assert (Hd : length (store_bytes y) = Req.get_len r).
    { destruct Hh as ((_ & _ & _ & Hwf & _) & _). by rewrite Er in Hwf |- *. }
    unfold StoreReq.data. rewrite write_slice_Ret, bind_Ret by lia.
    destruct (count_store_hpm false (compared s)) as [st ->].
    set (mark := negb (Policy.is_write_through (write_policy c))).
    destruct (write_block_spec (num_associativity s) (bs c) (tags c) mark (CacheSet.with_rp r1 s) w
      (take off (way_bytes s w) ++ store_bytes y ++ drop (off + Req.get_len r) (way_bytes s w)))
      as (s' & E & Hok & Hhits & Hblk & Hother & Hdirty & Hrp);
      [done | apply Hw | rewrite length_write_slice; lia |].
    change (write_policy (Cache.with_hpm st (compared s))) with (write_policy c).
    change (rp (CacheSet.with_rp r1 s)) with r1 in Hrp. rewrite Hv1 in Hrp.
    destruct (Policy.is_write_through (write_policy c)) eqn:Hp; subst mark; cbn [negb] in *;
      rewrite E, bind_Ret, compared_set_way, bind_Ret.
    + pose proof (alloc_store (Req.get_addr r) (store_bytes y) h) as Hal.
      destruct (Req.store _ _ _) as [rr h'] eqn:Err. destruct Hal as (Hal & xs & Exs & E1 & E2 & E3).
      eexists _, _. split; [reflexivity|]. rewrite <- (with_backup_same (Cache.with_hpm st _)).
      apply (resolved_intro true _ _ (backup_req c)); [by left|]. intros q Hq.
      assert (Hpf : prefetch_in_flight c = false).
      { destruct Hh as (_ & _ & _ & Hpf). destruct (prefetch_in_flight c); [|done].
        specialize (Hpf eq_refl). by rewrite Er in Hpf. }
      eapply (hit_store_through c m h r Hinv Hf s Hx q Hq w Hw y Er s' False); try done.
      { intros w'. rewrite Hdirty. clear. naive_solver. } by intros [].
    + eexists _, _. split; [reflexivity|]. rewrite <- (with_backup_same (Cache.with_hpm st _)).
      apply (resolved_intro true _ _ (backup_req c)); [by left|]. intros q Hq. unfold StoreReq.complete.
      replace (store_id y) with (Req.id r) by (by rewrite Er).
      eapply (hit_store_back c m h r Hinv Hf s Hx q Hq w Hw y Er s' True); try done.
      intros w'. rewrite Hdirty. clear. naive_solver.
Qed.

Lemma lookup_miss_spec need w r1 :
  (∀ w', ¬ hits s t w') → (w < num_associativity s)%nat →
  set_ok (num_associativity s) (bs c) (tags c) (CacheSet.with_rp r1 s) →
  rp_valid r1 = <[w:=false]> (rp_valid (rp s)) → (need = true ↔ is_dirty s w) →
  ∃ c1 h1, Cache.lookup_miss (compared (CacheSet.with_rp r1 s)) r t x need w h = Ret (c1, h1) ∧
    resolved false c1 h1.
Proof using All.
  intros Hmiss Hwlt Hok Hv Hneed. destruct (lookup_phase c m h r Hinv Hf) as (Hh & Hst).
  pose proof Hinv as [Hsh _ _ _ _ _]. pose proof Hsh as [Hc Hpol _ _ _]. pose proof Hc as [Hwd _].
  pose proof (st_sets _ _ _ Hst x s Hx) as Hs.
  destruct (request_placed c m r Hsh (proj1 Hh)) as (_ & _ & Ht & _).
  assert (Hxlt : x < 2 ^ index_bit_width c) by (by eapply set_index_lt).
  unfold Cache.lookup_miss. set (c0 := if Req.is_store r then _ else _).
  assert (∃ st, c0 = Cache.with_hpm st (compared (CacheSet.with_rp r1 s))) as [st Ec0].
  { subst c0. destruct (Req.is_store r); [apply count_store_hpm | apply count_load_hpm]. }
  clearbody c0. subst c0. change (write_policy (Cache.with_hpm _ _)) with (write_policy c).
  destruct (Req.is_store r && Policy.is_no_write_allocate (write_policy c)) eqn:Hby.
  - (* bypass *)
    apply andb_true_iff in Hby as [Hstore Hnwa]. assert (∃ y, r = Store y) as [y Er].
    { clear -Hstore. destruct r as [|y]; [done | by exists y]. }
    assert (Hp : Policy.is_write_through (write_policy c) = true) by (clear -Hpol Hnwa; by destruct (write_policy c)).
    assert (Hpf : prefetch_in_flight c = false).
    { destruct Hh as (_ & _ & _ & Hpf). destruct (prefetch_in_flight c); [|done].
      specialize (Hpf eq_refl). congruence. }
    assert (Req.store_data r = Ret (store_bytes y)) as -> by (by rewrite Er). rewrite bind_Ret.
    pose proof (alloc_store (Req.get_addr r) (store_bytes y) h) as Hal.
    destruct (Req.store _ _ _) as [rr h'] eqn:Err. destruct Hal as (Hal & xs & Exs & E1 & E2 & E3).
    eexists _, _. split; [reflexivity|]. rewrite <- (with_backup_same (Cache.with_hpm st _)).
    apply (resolved_intro false _ _ (backup_req c)); [by left|]. intros q Hq. rewrite Hpf.
    by eapply (miss_bypass c m h r Hinv Hf s Hx q Hq Hmiss w Hwlt r1 Hok Hv rr h' Hal st y xs).
  - destruct need.
    + (* dirty victim *)
      assert (Hd : is_dirty s w) by (by apply Hneed).
      pose proof (so_dirty_valid _ _ _ _ Hs w Hd) as Hval.
      destruct (lookup_lt_is_Some_2 (tag_array s) w) as [t0 Ht0]; [by rewrite (so_tags _ _ _ _ Hs)|].
      assert (Hw : hits s t0 w) by (by split).
      change (set (Cache.with_backup (Some r) (Cache.with_hpm st (compared (CacheSet.with_rp r1 s)))))
        with (set (compared (CacheSet.with_rp r1 s))). rewrite compared_lookup, bind_Ret.
      unfold CacheSet.get_tag. rewrite (index_Ret _ _ t0) by done. rewrite bind_Ret.
      rewrite block_addr_spec by (first [done | lia | by apply (so_range _ _ _ _ Hs t0 w)]). rewrite bind_Ret.
      destruct (read_block_spec _ _ _ (CacheSet.with_rp r1 s) w Hok Hval) as (r2 & -> & Hok2 & Hv2).
      rewrite bind_Ret. change (rp (CacheSet.with_rp r1 s)) with r1 in Hv2. rewrite Hv in Hv2.
      rewrite set_way_Ret by (cbn; by rewrite length_insert). rewrite bind_Ret.
      pose proof (alloc_store (addr_of c t0 x) (way_bytes s w) h) as Hal.
      change (way_bytes (CacheSet.with_rp r1 s) w) with (way_bytes s w).
      match goal with |- context [address ?a ?b t0 x] => change (address a b t0 x) with (addr_of c t0 x) end.
      destruct (Req.store _ _ _) as [rr h'] eqn:Err. destruct Hal as (Hal & xs & Exs & E1 & E2 & E3).
      eexists _, _. split; [reflexivity|].
      replace (Cache.with_set _ _) with (Cache.with_backup (Some r) (Cache.with_hpm st (Cache.with_set (<[x:=CacheSet.with_rp r2 s]> (set c)) c)))
        by (unfold Cache.with_set, Cache.with_backup; cbn; by rewrite list_insert_insert_eq).
      apply (resolved_intro false _ _ (Some r)); [by right|]. intros q Hq.
      by eapply (miss_dirty c m h r Hinv Hf s Hx q Hq Hmiss w Hwlt r2 Hok2 Hv2 rr h' Hal st t0 xs).
    + (* clean victim *)
      assert (Hd : ¬ is_dirty s w) by (clear -Hneed; intros Hd; by apply Hneed in Hd).
      rewrite block_addr_spec by (first [done | lia]). rewrite bind_Ret.
      rewrite block_len_spec by done. rewrite bind_Ret.
      pose proof (alloc_load (base c (Req.get_addr r)) (bs c) h) as Hal.
      match goal with |- context [address ?a ?b t x] =>
        replace (address a b t x) with (base c (Req.get_addr r)) by (by apply base_address) end.
      match goal with |- context [Req.load _ ?n h] => change n with (bs c) end.
      destruct (Req.load _ _ _) as [rr h'] eqn:Err. destruct Hal as (Hal & xs & Exs & E1 & E2).
      eexists _, _. split; [reflexivity|].
      apply (resolved_intro false _ _ (Some r)); [by right|]. intros q Hq.
      by eapply (miss_clean c m h r Hinv Hf s Hx q Hq Hmiss w Hwlt r1 Hok Hv rr h' Hal st xs).
Qed.
End resolve.

Section lookup_tick.
Context `{Profile} {RP : Type} `{ReplacementLaws RP} {M : Type} `{DeviceLaws M}.
Implicit Types (c : GeneralCache RP) (m : M) (h : heap) (r : MemoryReqType).

Lemma elem_of_enqueue a l q : a ∈ Cache.enqueue q l → a ∈ q ∨ a ∈ l.
Proof.
  revert q. induction l as [|b l IH]; intros q Ha; [by left|].
  apply (IH (if bool_decide (b ∈ q) then q else q ++ [b])) in Ha as [Ha|Ha]; [|right; by right].
  case_bool_decide; [by left|]. apply elem_of_app in Ha as [?|Ha%list_elem_of_singleton]; [by left|].
  right. rewrite Ha. left.
Qed.

Lemma predict_spec c m r hit store : shape c m → request_ok c m r → prefetch_in_flight c = false →
  ∃ l, Prefetch.predict (prefetcher c) (Req.get_addr r) hit store = Ret l ∧
    ∀ a, a ∈ l → a mod 2 ^ offset_bit_width c = 0 ∧ fits c m a.
Proof.
  intros Hsh Hr Hpf. destruct (request_placed c m r Hsh Hr) as (Hu & _).
  destruct Hsh as [Hc _ Hp _ Hspan]. pose proof Hc as [Hwd _]. pose proof Hwd as (? & ? & ?).
  destruct (base_offset c (Req.get_addr r) Hc) as [_ Hbo]. pose proof (bs_pow c Hc) as Ebs.
  destruct Hr as (_ & _ & _ & _ & [Hf1 Hf2] & Hnext). specialize (Hnext Hpf).
  destruct Hp as [->| Ep]; [exists []; split; [done|]; intros a Ha; by apply elem_of_nil in Ha|].
  rewrite Ep in *. specialize (Hnext ltac:(done)). cbn [Prefetch.predict].
  assert (Hpow : 0 < 2 ^ offset_bit_width c < 2 ^ 32)
    by (split; [apply Z.pow_pos_nonneg; lia | apply Z.pow_lt_mono_r; lia]).
  cbv zeta. unfold word_sub. replace (as_u32 (2 ^ offset_bit_width c)) with (2 ^ offset_bit_width c)
    by (symmetry; apply wrap_id; split; lia). rewrite narrow_Ret, bind_Ret by (split; lia).
  pose proof (block_base_spec c Hwd _ Hu) as Hb. unfold Cache.block_base in Hb.
  rewrite low_mask_spec in Hb by lia. injection Hb as ->. eexists. split; [reflexivity|].
  intros a ->%list_elem_of_singleton. unfold Prefetch.saturating_add. fold (base c (Req.get_addr r)).
  rewrite Z.min_l by lia.
  assert (Hmod : (base c (Req.get_addr r) + 2 ^ offset_bit_width c) mod 2 ^ offset_bit_width c = 0).
  { rewrite <- (Z.mul_1_l (2 ^ _)) at 1. rewrite Z_mod_plus_full. by apply (base_of_aligned _ (index_bit_width c)). }
  split; [done|]. unfold fits. unfold base at 1 3. unfold base_of. rewrite Hmod. lia.
Qed.

(** drawing from the generator changes no request's cell *)
Lemma inv_draws c m h g : inv c m h → inv c m (Heap.with_draws g h).
Proof.
  intros [Hsh Hst Hlow Hq Hpend Hph]. constructor; try done. by eapply law_frame.
Qed.
Lemma resolved_draws c m h r g hit c1 h1 :
  resolved c m (Heap.with_draws g h) r hit c1 h1 → resolved c m h r hit c1 h1.
Proof.
  intros (s' & f & b & st & E & Ht). exists s', f, b, st. split; [done|].
  intros q Hq. by destruct (Ht q Hq).
Qed.

Lemma tick_lookup c m h r : inv c m h → fsm c = GeneralCache.Lookup r → ticks_to c m h.
Proof.
  intros Hinv Hf. destruct (lookup_phase c m h r Hinv Hf) as (Hh & Hst).
  pose proof Hinv as [Hsh _ _ Hq _ _]. pose proof Hsh as [Hc _ _ _ _]. pose proof Hc as [Hwd _].
  destruct (request_placed c m r Hsh (proj1 Hh)) as (Hu & _).
  destruct (set_lookup c (Req.get_addr r) Hc) as [s Hx].
  pose proof (st_sets _ _ _ Hst _ s Hx) as Hs.
  unfold ticks_to, Cache.tick. rewrite Hf. unfold Cache.lookup.
  rewrite (addr_transfer_spec c Hwd _ Hu), bind_Ret.
  fold (tag c (Req.get_addr r)) (idx c (Req.get_addr r)) (off c (Req.get_addr r)).
  rewrite (index_Ret _ _ _ Hx), bind_Ret.
  assert (Hres : ∃ hit s1 g c1 h1 res, CacheSet.tag_compare s (tag c (Req.get_addr r)) (draws h) = Ret (res, s1, g) ∧
    hit = (match res with Ok _ => true | Err _ => false end) ∧
    match res with
    | Ok way_index => Cache.lookup_hit (Cache.with_set (<[idx c (Req.get_addr r):=s1]> (set c)) c) r (idx c (Req.get_addr r)) way_index (off c (Req.get_addr r)) (Heap.with_draws g h)
    | Err (need, w) => Cache.lookup_miss (Cache.with_set (<[idx c (Req.get_addr r):=s1]> (set c)) c) r (tag c (Req.get_addr r)) (idx c (Req.get_addr r)) need w (Heap.with_draws g h)
    end = Ret (c1, h1) ∧ resolved c m h r hit c1 h1).
  { destruct (tag_compare_spec _ _ _ s (tag c (Req.get_addr r)) (draws h) Hs)
      as [(w & Hw & E)|(w & need & r1 & g & Hm & Hlt & E & Hok & Hv & Hn)].
    - by eapply store_tracked.
    - destruct (lookup_hit_spec c m _ r (inv_draws _ _ _ (draws h) Hinv) Hf s Hx w Hw)
        as (c1 & h1 & E1 & Hres).
      eexists _, _, _, c1, h1, _. split_and!; [exact E | reflexivity | exact E1 | by eapply resolved_draws].
    - destruct (lookup_miss_spec c m _ r (inv_draws _ _ _ g Hinv) Hf s Hx need w r1 Hm Hlt Hok Hv Hn)
        as (c1 & h1 & E1 & Hres).
      eexists _, _, _, c1, h1, _. split_and!; [exact E | reflexivity | exact E1 | by eapply resolved_draws]. }
  destruct Hres as (hit & s1 & g & c1 & h1 & res & -> & Ehit & E & s' & f & b & st & Ec1 & Ht). rewrite bind_Ret.
  rewrite (set_way_Ret c r s Hx) by done. rewrite bind_Ret. rewrite E, bind_Ret, <- Ehit.
  destruct (prefetch_in_flight c) eqn:Hpf.
  - eexists _, _, _. split; [reflexivity|]. rewrite Ec1. destruct hit; apply (Ht (prefetch_queue c) Hq).
  - destruct (predict_spec c m r hit (Req.is_store r) Hsh (proj1 Hh) Hpf) as (l & El & Hl).
    replace (prefetcher c1) with (prefetcher c) by (by rewrite Ec1). rewrite El, bind_Ret.
    eexists _, _, _. split; [reflexivity|]. rewrite Ec1.
    specialize (Ht (Cache.enqueue (prefetch_queue c) l)). destruct hit; apply Ht;
      intros a [Ha|Ha]%elem_of_enqueue; auto.
Qed.

Lemma cache_tick_idle c m h : inv c m h → fsm c = Idle → ticks_to c m h.
Proof.
  intros Hinv Hf. pose proof Hinv as [Hsh Hlow Hp Hq Hbl Hph].
  unfold phase_ok in Hph. rewrite Hf in Hph. destruct Hph as (Hpf & Hst).
  pose proof Hsh as [Hc _ _ _ _]. pose proof Hc as [Hwd _].
  unfold ticks_to, Cache.tick. rewrite Hf. unfold Cache.idle. rewrite Hp, Hpf.
  assert (Hb0 : busy c m = 0%nat) by (unfold busy, busy_with; by rewrite Hf).
  destruct (prefetch_queue c) as [|a q] eqn:Eq.
  - eexists _, _, _. split; [reflexivity|]. constructor; try done.
    + by apply heap_step_refl.
    + unfold answered, client_req. by rewrite Hpf; unfold current; rewrite Hf.
    + by left.
  - replace (Z.to_nat (block_size_bytes c)) with (bs c) by (by destruct Hc as (_ & -> & _)).
    pose proof (alloc_load a (bs c) h) as Hal. destruct (Req.load _ _ _) as [rr h'] eqn:Err.
    destruct Hal as (Hal & xs & Exs & E1 & E2).
    destruct (allocated_fresh _ _ _ m Hal Hlow) as (Hi' & Hl' & Ho' & Hk & Hhs).
    destruct (Hq a) as [Ha Hfit]; [left|]. pose proof (bs_pow c Hc) as Ebs.
    eexists _, _, _. split; [reflexivity|]. constructor; try done.
    + constructor; try done; [by apply (shape_same c _ m) | intros a' Ha'; apply Hq; by right|].
      split; [|by apply (store_ok_same c)].
      assert (Hro : is_power_of_two (Req.get_len rr) = true ∧ (Req.get_len rr ≤ bs c)%nat ∧
        Req.get_addr rr mod Req.get_len rr = 0 ∧ req_wf rr ∧ fits c m (Req.get_addr rr)).
      { rewrite Exs. cbn. rewrite E1, E2, Ebs. split_and!; try done. apply power_of_two_pow. by destruct Hwd. }
      destruct Hro as (? & ? & ? & ? & ?). destruct Hl' as [? _]. split_and!; try done. by rewrite Exs.
    + unfold contents, low, trans. cbn. rewrite Hf. by rewrite Exs.
    + apply Hhs. unfold owns, current, trans. cbn. rewrite Hf.
      intros id [(? & [= <-] & ->)|[(? & [=] & _)|?]]; [by right | left; by right; right].
    + unfold answered, client_req. rewrite Hpf. unfold current at 1. by rewrite Hf.
    + apply exclusive_free. unfold trans. by rewrite Hf.
    + by left.
Qed.

(** every tick of a cache that satisfies the invariant *)
Lemma cache_tick_spec c m h : inv c m h → ticks_to c m h.
Proof.
  intros Hinv. destruct (fsm c) as [|r|t w|t w|n|t r|t r] eqn:Hf.
  - by apply cache_tick_idle.
  - by eapply tick_lookup.
  - by eapply tick_write_back.
  - by eapply tick_allocate.
  - by eapply tick_penalty.
  - unfold ticks_to, Cache.tick. rewrite Hf. apply (commit_spec c m h (λ t, WriteThroughCommit t r)); [done | by left | done].
  - unfold ticks_to, Cache.tick. rewrite Hf. apply (commit_spec c m h (λ t, WriteAround t r)); [done | by right | done].
Qed.
End lookup_tick.
