(* ===== verification/CacheDevice.v ===== *)
(** A cache and its next level form a lawful memory device: the instance of the contract of
    [Device.v] for [GeneralCache], so that a hierarchy of caches of any depth over main
    memory or DRAM behaves as flat memory. *)
From S2P Require Import Prelude Word AbstractMem ReplacementPolicy CacheConfig CacheSet LowerMemory GeneralCache CacheAddress Device CacheView CacheRefinement.
From stdpp Require Import base gmap numbers sets list strings.
From Stdlib Require Import Lia.
#[local] Open Scope Z_scope.
#[local] Coercion Z.of_nat : nat >-> Z.

(** a cache ticks, then the levels below it *)
#[export] Instance Cache_Device `{Profile} {RP} `{ReplacementPolicy RP} {M} `{Device M} :
    Device (GeneralCache RP * M) := {
  cycle cm h := '(cm, h) ← tick cm h; '(m, h) ← cycle cm.2 h; mret ((cm.1, m), h);
}.

(** * What the invariant says of the request and of the transaction *)

Section facts.
Context `{Profile} {RP : Type} `{ReplacementLaws RP} {M : Type} `{DeviceLaws M}.
Implicit Types (c : GeneralCache RP) (m : M) (h : heap) (r : MemoryReqType).

Lemma current_holds c m h r : inv c m h → current c = Some r → holds c m h r.
Proof.
  intros [_ _ _ _ _ Hp]. unfold phase_ok, current in *.
  destruct (fsm c); [done | naive_solver..].
Qed.
Lemma trans_ok c m h t : inv c m h → trans c = Some t →
  tx_ok t m h ∧ ∃ r, current c = Some r ∧ Req.id (LowerMemory.req t) ≠ Req.id r.
Proof.
  intros [_ _ _ _ _ Hp]. unfold phase_ok, trans, current, carries in *.
  destruct (fsm c); try done; intros [= <-]; naive_solver.
Qed.
Lemma current_idle c m h : inv c m h → current c = None → fsm c = Idle.
Proof.
  intros [_ _ _ _ _ Hp]. unfold phase_ok, current in *. destruct (fsm c); try done; naive_solver.
Qed.

Lemma tx_live t m h : d_inv m h → tx_ok t m h → (Req.id (LowerMemory.req t) < next_id h)%nat.
Proof.
  intros Hi Ht. destruct t as [r|r]; cbn in *.
  - by destruct Ht as ([? _] & _).
  - destruct Ht as [Hc|(_ & ? & _)]; [|done].
    destruct (law_cur m h r Hi Hc) as [Ho _]. by eapply law_owned.
Qed.

Lemma owns_bounded c m h id : inv c m h → owns c m id → (id < next_id h)%nat.
Proof.
  intros Hinv [(r & Hr & ->)|[(t & Ht & ->)|Ho]].
  - by destruct (current_holds c m h r Hinv Hr) as (_ & ? & _).
  - destruct (trans_ok c m h t Hinv Ht) as [Hok _]. apply (tx_live t m h); [by destruct Hinv | done].
  - eapply law_owned; [by destruct Hinv | done].
Qed.

(** the invariant when only the next level and the heap change *)
Lemma inv_transfer c m h m' h' : inv c m h → d_inv m' h' → same_shape m m' →
  d_view m' ≡ d_view m →
  (∀ r, current c = Some r → holds c m h r → holds c m' h' r) →
  (∀ t, trans c = Some t → tx_ok t m h → tx_ok t m' h') → inv c m' h'.
Proof.
  intros [Hsh Hlow Hp Hq Hbl Hph] Hi' Hss Hv Hcur Htx. constructor; try done.
  - by apply (shape_same c _ m).
  - by eapply queue_same.
  - destruct Hss as (_ & -> & _). done.
  - assert (Hst : ∀ hole, store_ok c hole (d_view m) → store_ok c hole (d_view m')).
    { intros hole. by apply store_ok_proper. }
    assert (Hstx : ∀ t hole, store_ok c hole (tx_low t m) → store_ok c hole (tx_low t m')).
    { intros t hole. apply store_ok_proper. by rewrite (tx_low_proper t m m'). }
    unfold phase_ok, current, trans, carries in *. destruct (fsm c) as [|r|t w|t w|n|t r|t r].
    + destruct Hph. split; auto.
    + destruct Hph. split; auto.
    + destruct Hph as (r & s & t0 & y & Hb & ? & [? ?] & ? & ? & ? & ? & ? & ? & ? & ? & ?).
      exists r, s, t0, y. split_and!; auto.
    + destruct Hph as (r & s & y & Hb & ? & [? ?] & ? & ? & ? & ? & ? & ? & ? & ?).
      exists r, s, y. split_and!; auto.
    + destruct Hph as (? & r & s & w & Hb & ? & ? & ? & ?). split; [done|].
      exists r, s, w. split_and!; auto.
    + destruct Hph as (? & ? & ? & ? & [? ?] & ?). split_and!; auto.
    + destruct Hph as (? & ? & ? & ? & [? ?] & ?). split_and!; auto.
Qed.

Lemma contents_proper c m m' : d_view m' ≡ d_view m → contents c m' ≡ contents c m.
Proof.
  intros Hv. assert (Hl : low c m' ≡ low c m).
  { unfold low. destruct (trans c) as [t|]; [by apply tx_low_proper | done]. }
  pose proof (overlay_proper c _ _ Hl) as Ho. unfold contents. destruct (fsm c); try done;
    try (destruct (backup_req c); [|done]); by apply view_apply_proper.
Qed.

Lemma inv_frame c m h h' : inv c m h → (next_id h ≤ next_id h')%nat →
  (∀ id, owns c m id → Heap.get h' id = Heap.get h id) → inv c m h'.
Proof.
  intros Hinv Hn Hk. apply (inv_transfer c m h); try done.
  - eapply law_frame; [apply Hinv | done |]. intros id Ho. apply Hk. by right; right.
  - intros r Hr (? & Hl & ? & ?). split_and!; try done. lia.
  - intros t Ht Hok. assert (Heap.get h' (Req.id (LowerMemory.req t)) = Heap.get h (Req.id (LowerMemory.req t))) as E.
    { apply Hk. right; left. by exists t. }
    destruct t as [r|r]; cbn in *.
    + destruct Hok as (? & ? & ?). split_and!; try done. by eapply live_frame.
    + destruct Hok as [?|(? & ? & ?)]; [by left|right]. rewrite E. split_and!; try done. lia.
Qed.

(** ** The cycle of the levels below *)
Lemma busy_le c m m' h h' : d_inv m h → same_shape m m' →
  (∀ t, trans c = Some t → tx_cost t m' ≤ tx_after t m)%nat → (busy c m' ≤ busy_after c m)%nat.
Proof.
  intros Hi (Hb & _) Ht. unfold busy, busy_after, busy_with, refill_cost, hit_cost, trans in *.
  assert (tx_bound m' = tx_bound m) as -> by (unfold tx_bound; by rewrite Hb).
  destruct (fsm c); try lia; try (specialize (Ht _ eq_refl); lia).
Qed.

Lemma lower_cycle c m h : inv c m h → ∃ m' h', cycle m h = Ret (m', h') ∧ inv c m' h' ∧
  same_shape m m' ∧ contents c m' ≡ contents c m ∧ heap_step (owns c m) (owns c m') h h' ∧
  heap_step (d_owns m) (d_owns m') h h' ∧
  (exclusive c m → exclusive c m' ∧ (busy c m' ≤ busy_after c m)%nat).
Proof.
  intros Hinv. pose proof (inv_lower _ _ _ Hinv) as Hi.
  destruct (law_cycle m h Hi) as (m' & h' & E & Hi' & Hss & Hv & Hst & Hcur).
  exists m', h'.
  assert (Htx : ∀ t, trans c = Some t → tx_ok t m h → tx_ok t m' h' ∧
    ((∀ r, d_cur m = Some r → t = Waiting r) → (tx_cost t m' ≤ tx_after t m)%nat)).
  { intros t _ Ht. by eapply tx_cycle. }
  split_and!; try done.
  - apply (inv_transfer c m h); try done.
    + intros r Hr Hh. by eapply (holds_step c m h r m' h'); [| | |destruct Hh as (_ & _ & ? & _)].
    + intros t Ht Hok. by apply Htx.
  - by apply contents_proper.
  - eapply heap_step_weaken; [| |exact Hst].
    + intros id Ho. by right; right.
    + intros id [?|[?|?]]; [right; left; by left | right; left; by right; left | by left].
  - intros Hex. split.
    + intros r Hr. apply Hex. destruct (d_cur m) as [r'|]; [|by destruct Hcur as [? _]; congruence].
      destruct Hcur as [[? _]|[? _]]; congruence.
    + apply (busy_le c m m' h h'); [done..|]. intros t Ht.
      apply Htx; [done | by apply (trans_ok c m h t Hinv Ht) |].
      intros r Hr. specialize (Hex r Hr). congruence.
Qed.

(** a request that was answered stays answered *)
Lemma answered_step c c' m m1 m' h1 h' r v : inv c' m1 h1 →
  (Req.id r < next_id h1)%nat → heap_step (owns c' m1) (owns c' m') h1 h' →
  ¬ owns c' m1 (Req.id r) → answers r v (Heap.get h1 (Req.id r)) →
  ¬ owns c' m' (Req.id r) ∧ answers r v (Heap.get h' (Req.id r)).
Proof.
  intros Hinv Hid Hst Ho Hg. split; [by eapply heap_step_owns|].
  by rewrite (heap_step_get _ _ _ _ _ Hst Hid Ho).
Qed.
End facts.

(** * Registration *)

Section registration.
Context `{Profile} {RP : Type} `{ReplacementLaws RP} {M : Type} `{DeviceLaws M}.
Implicit Types (c : GeneralCache RP) (m : M) (h : heap) (r : MemoryReqType).

(** the addresses served: whole blocks of the next level; a next-line prefetcher also
  needs the block after each block served *)
Definition span c m : Z :=
  d_span m / 2 ^ offset_bit_width c * 2 ^ offset_bit_width c -
  match prefetcher c with NullPrefetcher => 0 | NextLinePrefetcher _ => 2 ^ offset_bit_width c end.

Definition served c m r : Prop :=
  is_power_of_two (Req.get_len r) = true ∧ (Req.get_len r ≤ bs c)%nat ∧
  Req.get_addr r mod Req.get_len r = 0 ∧ 0 ≤ Req.get_addr r ∧
  Req.get_addr r + Req.get_len r ≤ span c m ∧ req_wf r.

Lemma block_below c (D a : Z) : config c → 0 ≤ a < D / 2 ^ offset_bit_width c * 2 ^ offset_bit_width c →
  0 ≤ base c a ∧ base c a + bs c ≤ D / 2 ^ offset_bit_width c * 2 ^ offset_bit_width c ∧
  D / 2 ^ offset_bit_width c * 2 ^ offset_bit_width c ≤ D.
Proof.
  intros Hc Ha. pose proof Hc as [Hw _]. pose proof (bs_pow c Hc) as E. pose proof (pow_o _ _ Hw) as Hp.
  unfold base, base_of. set (k := 2 ^ offset_bit_width c) in *. rewrite E.
  pose proof (Z.div_mod a k ltac:(lia)) as Ea. pose proof (Z.mod_pos_bound a k Hp).
  pose proof (Z.mul_div_le D k Hp). assert (0 ≤ a / k) by (apply Z.div_pos; lia).
  assert (a / k < D / k) by (apply (Z.mul_lt_mono_pos_l k); lia).
  replace (a - a mod k) with (k * (a / k)) by lia. split_and!; [nia | | lia].
  replace (k * (a / k) + k) with ((a / k + 1) * k) by lia. apply Z.mul_le_mono_nonneg_r; lia.
Qed.

Lemma served_request c m r : shape c m → prefetch_in_flight c = false → served c m r → request_ok c m r.
Proof.
  intros [Hc _ Hpf _ _] Hfl (Hp & Hl & Ha & H0' & Hs & Hwf).
  assert (0 < Req.get_len r)%nat.
  { unfold is_power_of_two in Hp. apply andb_true_iff in Hp as [Hp _]. apply Z.ltb_lt in Hp. lia. }
  pose proof (bs_pow c Hc) as E. pose proof Hc as [Hw _]. pose proof (pow_o _ _ Hw).
  unfold span in Hs.
  destruct (block_below c (d_span m) (Req.get_addr r) Hc) as (Hb1 & Hb2 & Hb3); [destruct (prefetcher c); lia|].
  split_and!; try done; [unfold fits; lia|]. intros _ Hnn.
  destruct Hpf as [?|Ep]; [done|]. rewrite Ep in Hs. cbv iota in Hs.
  destruct (block_below c (d_span m) (Req.get_addr r + bs c) Hc) as (_ & Hb4 & _); [lia|].
  replace (base c (Req.get_addr r + bs c)) with (base c (Req.get_addr r) + bs c) in Hb4; [lia|].
  unfold base, base_of. rewrite E. rewrite <- (Z.mul_1_l (2 ^ _)) at 4. rewrite Z_mod_plus_full. lia.
Qed.

Lemma alignment_ok c m r : config c → served c m r → Cache.alignment_check c r = Ret true.
Proof.
  intros Hc (Hp & Hl & Ha & _). pose proof Hc as ([Ho ?] & Eb & _). pose proof (bs_pow c Hc) as E.
  pose proof (bs_pos c Hc). unfold Cache.alignment_check. rewrite Eb, <- E.
  assert (Hal : Req.get_addr r mod bs c + Req.get_len r ≤ bs c).
  { rewrite E. apply aligned_within; [lia | done | lia | done]. }
  assert (0 < Req.get_len r).
  { unfold is_power_of_two in Hp. apply andb_true_iff in Hp as [Hp _]. by apply Z.ltb_lt in Hp. }
  rewrite (proj2 (Z.eqb_neq (bs c) 0)) by lia.
  rewrite Hp, Ha, (proj2 (Z.ltb_lt 0 _)), !(proj2 (Z.leb_le _ _)) by lia.
  by repeat case_match.
Qed.

(** the cache that has taken a request over *)
Definition accept r c : GeneralCache RP :=
  Cache.with_fsm (GeneralCache.Lookup r) (Cache.with_pending None c).

(** the first of the two ticks of a registration *)
Lemma tick_accept c m h r : fsm c = Idle →
  Cache.tick (Cache.with_pending (Some r) c) m h = Ret (accept r c, m, h).
Proof. intros Hf. unfold Cache.tick. cbn [fsm Cache.with_pending Cache.upd]. by rewrite Hf. Qed.

Lemma accept_inv c m h r : inv c m h → fsm c = Idle → served c m r → (Req.id r < next_id h)%nat →
  ¬ owns c m (Req.id r) →
  inv (accept r c) m h ∧ contents (accept r c) m = view_apply r (contents c m) ∧
  client_req (accept r c) = Some r.
Proof.
  intros Hinv Hf Hs Hl Hno. pose proof Hinv as [Hsh Hlow Hp Hq Hbl Hph].
  unfold phase_ok in Hph. rewrite Hf in Hph. destruct Hph as (Hpf & Hst). split_and!.
  - constructor; try done; [by apply (shape_same c _ m)|]. split; [|by apply (store_ok_same c)].
    split_and!; [by apply (served_request c) | exact Hl | | by cbn; rewrite Hpf].
    intros Ho. apply Hno. by right; right.
  - unfold contents, low, trans. cbn. by rewrite Hf.
  - unfold client_req, current. cbn. by rewrite Hpf.
Qed.

(** a free cache accepts, a busy one refuses *)
Lemma try_accept c m h r : inv c m h → fsm c = Idle → served c m r →
  Cache.try_register_req c m r h =
    ('(c, m, h) ← Cache.tick (accept r c) m h; mret (Ok tt, c, m, h)).
Proof.
  intros Hinv Hf Hs. pose proof Hinv as [Hsh _ Hp _ _ _].
  unfold Cache.try_register_req. rewrite (alignment_ok c m) by (done || by destruct Hsh).
  cbn [mbind exec_bind assert_]. rewrite Hf, Hp.
  by rewrite (tick_accept c m h r Hf).
Qed.

(** a hit is answered before the call returns *)
Lemma register_idle c m h r : inv c m h → fsm c = Idle → served c m r → (Req.id r < next_id h)%nat →
  ¬ owns c m (Req.id r) →
  ∃ c' m' h', Cache.try_register_req c m r h = Ret (Ok tt, c', m', h') ∧
    ticked (accept r c) m h c' m' h' ∧
    contents (accept r c) m = view_apply r (contents c m).
Proof.
  intros Hinv Hf Hs Hl Hno. destruct (accept_inv c m h r Hinv Hf Hs Hl Hno) as (Hinv1 & Hv & _).
  destruct (cache_tick_spec _ m h Hinv1) as (c' & m' & h' & E & Ht).
  exists c', m', h'. split_and!; [|done..]. by rewrite (try_accept c m h r), E.
Qed.

Lemma idle_cases c : fsm c = Idle ∨ fsm c ≠ Idle.
Proof. destruct (fsm c); [by left | by right..]. Qed.

Lemma busy_pos c m : fsm c ≠ Idle → (0 < busy c m)%nat.
Proof.
  intros Hf. unfold busy, busy_with, refill_cost, hit_cost. destruct (fsm c) as [|r'|t w|t w|n|t r'|t r']; try lia; try done.
  - case_match; lia.
  - apply tx_cost_pos.
  - apply tx_cost_pos.
Qed.

Lemma register_busy c m h r : inv c m h → fsm c ≠ Idle → served c m r →
  Cache.try_register_req c m r h = Ret (Err tt, c, m, h) ∧ (0 < busy c m)%nat.
Proof.
  intros Hinv Hf Hs. pose proof Hinv as [Hsh _ _ _ _ _]. split; [|by apply busy_pos].
  unfold Cache.try_register_req. rewrite (alignment_ok c m) by (done || by destruct Hsh).
  cbn [mbind exec_bind assert_]. by destruct (fsm c).
Qed.
End registration.

(** * The contract *)

Section laws.
Context `{Profile} {RP : Type} `{ReplacementLaws RP} {M : Type} `{DeviceLaws M}.
Implicit Types (c : GeneralCache RP) (m : M) (h : heap) (r : MemoryReqType).

Lemma same_bounds c m c' m' : same_config c c' → same_shape m m' →
  busy_bound c' m' = busy_bound c m ∧ span c' m' = span c m ∧ bs c' = bs c.
Proof.
  intros (E1 & _ & _ & E4 & _ & E6 & _) (F1 & F2 & _).
  unfold busy_bound, refill_cost, hit_cost, tx_bound, span, bs. by rewrite E1, E4, E6, F1, F2.
Qed.

Lemma busy_le_bound c m h : inv c m h → (busy c m ≤ busy_bound c m)%nat.
Proof.
  intros Hinv. pose proof (inv_lower _ _ _ Hinv) as Hi. pose proof (inv_phase _ _ _ Hinv) as Hp.
  unfold busy, busy_with, busy_bound, refill_cost, hit_cost. unfold phase_ok in Hp.
  destruct (fsm c) as [|r|t w|t w|n|t r|t r]; try lia;
    try (destruct (tx_cost_bound t m h Hi); lia).
  case_match; unfold hit_cost; lia.
Qed.

(** the cells of the client during a step below the cache *)
Lemma client_held c m h r : inv c m h → client_req c = Some r →
  (Req.id r < next_id h)%nat ∧ ¬ d_owns m (Req.id r).
Proof.
  intros Hinv Hr. unfold client_req in Hr. destruct (prefetch_in_flight c); [done|].
  by destruct (current_holds c m h r Hinv Hr) as (_ & ? & ? & _).
Qed.

(** a tick of the cache, then a cycle below it *)
Lemma cycle_spec c m h : inv c m h →
  ∃ c' m' h', cycle (c, m) h = Ret ((c', m'), h') ∧ inv c' m' h' ∧
    same_config c c' ∧ same_shape m m' ∧ contents c' m' ≡ contents c m ∧
    heap_step (owns c m) (owns c' m') h h' ∧ answered (contents c m) c m h c' m' h' ∧
    (exclusive c m → exclusive c' m' ∧ (busy c m = 0 ∨ busy c' m' < busy c m)%nat).
Proof.
  intros Hinv. destruct (cache_tick_spec c m h Hinv) as (c' & m1 & h1 & E1 & [Hi1 Hcf Hss1 Hv1 Hst1 Ha1 Hx1 Hb1]).
  destruct (lower_cycle c' m1 h1 Hi1) as (m' & h' & E2 & Hi' & Hss2 & Hv2 & Hst2 & Hst3 & Hb2).
  exists c', m', h'. split_and!; try done.
  - cbn. unfold tick, Cache_Clocked. cbn. rewrite E1. cbn. by rewrite E2.
  - by eapply same_shape_trans.
  - by rewrite Hv2.
  - eapply heap_step_trans; [|exact Hst1 | exact Hst2]. apply Hst1.
  - unfold answered in *. destruct (client_req c) as [r|] eqn:Er; [|done].
    destruct Ha1 as [[Er' Hg]|(Hn & Ho & Hg)]; [left|right]; (split; [done|]).
    + destruct (client_held c' m1 h1 r Hi1 Er'). by rewrite (heap_step_get _ _ _ _ _ Hst3).
    + destruct (client_held c m h r Hinv Er) as [Hid _].
      eapply (answered_step c c' m m1 m' h1 h'); try done. destruct Hst1 as (? & _). lia.
  - intros Hx. destruct (Hb2 (Hx1 Hx)). split; [done|]. destruct Hb1; [by left | right; lia].
Qed.

(** the invariant of a cache whose next level has no other client, and whose own client's
  request is not done while it is in flight *)
Definition sole c m h : Prop :=
  inv c m h ∧ exclusive c m ∧
  ∀ r, client_req c = Some r → done (Heap.get h (Req.id r)) = false.

#[export] Program Instance Cache_laws : DeviceLaws (GeneralCache RP * M) := {|
  d_inv cm h := sole cm.1 cm.2 h;
  d_view cm := contents cm.1 cm.2;
  d_cur cm := client_req cm.1;
  d_owns cm := owns cm.1 cm.2;
  d_busy cm := busy cm.1 cm.2;
  d_bound cm := busy_bound cm.1 cm.2;
  d_span cm := span cm.1 cm.2;
  d_grain cm := bs cm.1;
|}.
Next Obligation. intros [c m] h id (Hinv & _) Ho. by eapply owns_bounded. Qed.
Next Obligation. intros [c m] h (Hinv & _). by eapply busy_le_bound. Qed.
Next Obligation.
  intros [c m] h h' (Hinv & Hx & Hd) Hn Hk. split_and!; [by eapply inv_frame | done |].
  intros r Hr. rewrite Hk; [by apply Hd|]. cbn in *. unfold client_req in Hr.
  destruct (prefetch_in_flight c); [done|]. left. by exists r.
Qed.
Next Obligation.
  intros [c m] h r (Hinv & _ & Hd) Hr. cbn in *. split; [|by apply Hd].
  unfold client_req in Hr. destruct (prefetch_in_flight c); [done|]. left. by exists r.
Qed.
Next Obligation.
  intros [c m] h r (Hinv & Hx & Hdone) Hs Hid Hd Ho. cbn [fst snd] in *.
  destruct (idle_cases c) as [Hf|Hf].
  - destruct (register_idle c m h r Hinv Hf Hs) as (c' & m' & h' & E & [Hi Hcf Hss Hv Hst Ha Hx' Hb] & Ec);
      [done | done |].
    exists (Ok tt), (c', m'), h'. cbn [fst snd]. split; [cbn; by rewrite E|].
    destruct (same_bounds c m c' m' Hcf Hss) as (E1 & E2 & E3).
    assert (Hpf : prefetch_in_flight c = false).
    { pose proof (inv_phase _ _ _ Hinv) as Hp. unfold phase_ok in Hp. rewrite Hf in Hp. by destruct Hp. }
    unfold answered in Ha. replace (client_req (accept r c)) with (Some r) in Ha
      by (unfold client_req, current; cbn; by rewrite Hpf).
    unfold sole. split_and!; try done.
    + unfold client_req, current. rewrite Hf, Hpf. done.
    + apply Hx'. apply (exclusive_free c); [|done]. unfold trans. by rewrite Hf.
    + intros r' Hr'. destruct Ha as [[E' Hg]|[E' _]]; [|congruence]. rewrite E' in Hr'.
      injection Hr' as <-. by rewrite Hg.
    + rewrite Hv, Ec. done.
    + eapply heap_step_weaken; [| |exact Hst].
      * intros id [(? & [= <-] & ->)|[(? & [=] & _)|?]]; [by right|]. left. by right; right.
      * intros id ?. by left.
    + destruct Ha as [[? _]|(? & ? & Hg)]; [by left|right]. split_and!; [done..|].
      rewrite Ec in Hg. by apply (answers_apply r (contents c m)).
  - destruct (register_busy c m h r Hinv Hf Hs) as [E Hb].
    exists (Err tt), (c, m), h. split; [|done]. cbn. by rewrite E.
Qed.
Next Obligation.
  intros [c m] h (Hinv & Hx & Hd). cbn [fst snd] in *.
  destruct (cycle_spec c m h Hinv) as (c' & m' & h' & E & Hi & Hcf & Hss & Hv & Hst & Ha & Hx').
  destruct (Hx' Hx) as [Hxc Hb].
  exists (c', m'), h'. cbn [fst snd]. destruct (same_bounds c m c' m' Hcf Hss) as (E1 & E2 & E3).
  unfold answered in Ha. unfold sole.
  split_and!; try done.
  - intros r Hr. destruct (client_req c) as [r0|] eqn:Er; [|congruence].
    destruct Ha as [[E' Hg]|[E' _]]; [|congruence]. rewrite E' in Hr. injection Hr as <-.
    rewrite Hg. by apply Hd.
  - destruct (client_req c) as [r|] eqn:Er; [|done].
    destruct Ha as [[? _]|(? & ? & ?)]; [left|by right]. split; [done|]. destruct Hb as [Hb|?]; [|done].
(* a cache serving a request is busy *)
exfalso. destruct (idle_cases c) as [Hf|Hf].
+ unfold client_req, current in Er. rewrite Hf in Er. by destruct (prefetch_in_flight c).
+ pose proof (busy_pos c m Hf). lia.
Qed.
End laws.
