(* ===== verification/Hierarchy.v ===== *)
(** Cache hierarchies: freshly built caches over a lawful memory behave as flat memory.
    The theorems instantiate the client theorem of [Device.v] with caches built by
    [GeneralCache::new] over [SimpleMem] and [SimpleDram]. *)
From S2P Require Import Prelude Word AbstractMem SimpleMem Dram ReplacementPolicy CacheConfig CacheSet LowerMemory GeneralCache CacheAddress Device MemoryDevices CacheView CacheRefinement CacheDevice.
From stdpp Require Import base gmap numbers sets list strings.
From Stdlib Require Import Lia.
#[local] Open Scope Z_scope.
#[local] Coercion Z.of_nat : nat >-> Z.

(** * A freshly built cache *)

(** a geometry that [CacheGeometry::new] accepted *)
Definition accepted (g : CacheGeometry) : Prop :=
  ∃ total bs ways, 0 ≤ total ∧ 0 ≤ bs ∧ 0 ≤ ways ∧ Geometry.new total bs ways = Ok g.

(** a configuration of a correct cache: accepted, with at least one and at most 31 bits of
    offset and index, a number of ways the policy supports, and not the write policy that
    loses data *)
Record configured (RP : Type) `{ReplacementLaws RP} (cfg : GeneralCacheConfig) : Prop := {
  cfg_geometry : accepted (geometry cfg);
  cfg_widths : 1 ≤ CacheConfig.offset_bit_width (geometry cfg) +
                   CacheConfig.index_bit_width (geometry cfg) ≤ 31;
  cfg_ways : rp_ways (Z.to_nat (num_of_way (geometry cfg)));
  cfg_policy : CacheConfig.write_policy cfg ≠ WriteBackNoWriteAllocate;
}.

(** over a next level that serves its blocks *)
Definition suits {M} `{DeviceLaws M} (cfg : GeneralCacheConfig) (m : M) : Prop :=
  CacheConfig.block_size (geometry cfg) ≤ d_grain m ∧ d_span m ≤ 2 ^ 32.

(** the addresses such a cache serves over [D] bytes, and the cycles an access may take over
    a next level that needs [b] *)
Definition reach (cfg : GeneralCacheConfig) (D : Z) : Z :=
  let bs := CacheConfig.block_size (geometry cfg) in
  D / bs * bs - match prefetcher_kind cfg with Null => 0 | NextLine => bs end.
Definition cycle_bound (cfg : GeneralCacheConfig) (b : nat) : nat :=
  6 * b + 12 + CacheConfig.miss_penalty cfg.

(** an aligned access of at most [n] bytes below [D] *)
Definition access_in (n D : Z) (a : access) : Prop :=
  let r := fst (request_of a Heap.empty) in
  is_power_of_two (Req.get_len r) = true ∧ Req.get_len r ≤ n ∧
  Req.get_addr r mod Req.get_len r = 0 ∧ 0 ≤ Req.get_addr r ∧ Req.get_addr r + Req.get_len r ≤ D.

Section fresh.
Context `{Profile} {RP : Type} `{ReplacementLaws RP} {M : Type} `{DeviceLaws M}.

Definition blank (ways bs : nat) (s : GeneralCacheSetUnit RP) : Prop :=
  (∀ tags, set_ok ways bs tags s) ∧ (∀ t w, ¬ hits s t w) ∧ ∀ w, ¬ is_dirty s w.

Lemma new_sets_spec n ways bs : rp_ways ways →
  ∃ l, Cache.new_sets n ways bs = Ret l ∧ length l = n ∧ ∀ x s, l !! x = Some s → blank ways bs s.
Proof.
  intros Hw. induction n as [|n (l & E & Hl & Hb)].
  { exists []. split_and!; [done..|]. by intros x s ?. }
  cbn [Cache.new_sets]. destruct (new_ok ways bs 0 Hw) as (s & Es & Hok & _ & Hh & Hd).
  rewrite Es, bind_Ret, E, bind_Ret. exists (s :: l). split_and!; [done | by cbn; rewrite Hl |].
  intros [|x] s' Hx; [injection Hx as <-|by eapply Hb]. split_and!; try done.
  intros tags. destruct Hok. constructor; try done. intros t w Hw'. by destruct (Hh t w).
Qed.

(** what a new cache is *)
Record empty_cache cfg (c : GeneralCache RP) (m : M) : Prop := {
  em_fsm : fsm c = Idle;
  em_prefetch : prefetch_in_flight c = false;
  em_view : ∀ a, contents c m a = d_view m a;
  em_clean : ∀ x s w, set c !! x = Some s → ¬ is_dirty s w;
  em_span : span c m = reach cfg (d_span m);
  em_bound : busy_bound c m = cycle_bound cfg (d_bound m);
  em_block : Z.of_nat (bs c) = CacheConfig.block_size (geometry cfg);
}.

(** the new cache satisfies the invariant over any next level that serves its blocks *)
Lemma fresh_inv cfg (m : M) h : configured RP cfg → suits cfg m → d_inv m h →
  ∃ c : GeneralCache RP, Cache.new cfg = Ret c ∧ inv c m h ∧ empty_cache cfg c m.
Proof.
  intros [(total & bsz & ways & Ht & Hb & Hwy & Hg) Hwid Hrw Hpol] [Hgr Hsp] Hi.
  apply geometry_new_inv in Hg as (Eb & _ & _ & _ & _ & Ho & Hx & Ebs & Ens & _); [|done..].
  unfold Cache.new.
  destruct (new_sets_spec (Z.to_nat (num_sets (geometry cfg))) (Z.to_nat (num_of_way (geometry cfg)))
    (Z.to_nat (CacheConfig.block_size (geometry cfg))) Hrw) as (l & -> & Hl & Hbl).
  rewrite bind_Ret. eexists. split; [reflexivity|].
  set (c := {| offset_bit_width := _ |}).
  assert (Hc : config c).
  { split_and!; cbn; [unfold widths; lia | by rewrite Eb, Ebs | by rewrite Hl, Ens]. }
  assert (Hsets : sets_ok c).
  { intros x s Hs. destruct (Hbl x s Hs) as (Hok & _ & _). unfold bs. cbn.
    rewrite (so_ways _ _ _ _ (Hok 0)). rewrite Eb, Ebs in Hok. apply Hok. }
  assert (Hmiss : ∀ a v, overlay c v a = v a).
  { intros a v. destruct (set_lookup c a Hc) as [s Hs]. apply (overlay_miss c v a s Hsets Hs).
    intros w. by destruct (Hbl _ _ Hs) as (_ & ? & _). }
  split.
  - constructor; try done.
    + constructor; try done; cbn.
      * rewrite Eb, Ebs. destruct (prefetcher_kind cfg); [by left | by right].
      * unfold bs. cbn. rewrite <- Ebs, <- Eb. lia.
    + intros q Hq. by apply elem_of_nil in Hq.
    + intros x s t w Hs Hw. by destruct (Hbl x s Hs) as (_ & Hh & _); destruct (Hh t w).
    + split; [done|]. constructor; try done.
      * intros _ x s t w Hs Hw. by destruct (Hbl x s Hs) as (_ & Hh & _); destruct (Hh t w).
      * intros x s t w k Hs Hw. by destruct (Hbl x s Hs) as (_ & Hh & _); destruct (Hh t w).
      * intros _ x s w Hs. by destruct (Hbl x s Hs) as (_ & _ & ?).
  - constructor; try done.
    + intros a. apply Hmiss.
    + intros x s w Hs. by destruct (Hbl x s Hs) as (_ & _ & ?).
    + unfold span, reach. cbn. rewrite Eb, <- Ebs. by destruct (prefetcher_kind cfg).
    + unfold busy_bound, refill_cost, hit_cost, tx_bound, cycle_bound. cbn [miss_penalty c]. lia.
    + unfold bs. cbn. rewrite <- Ebs, <- Eb. lia.
Qed.

Lemma reach_le cfg D : configured RP cfg → 0 ≤ D → reach cfg D ≤ D.
Proof.
  intros [(total & bsz & ways & Ht & Hb & Hwy & Hg) _ _ _] HD.
  apply geometry_new_inv in Hg as (Eb & _ & _ & _ & _ & Ho & _ & Ep & _); [|done..].
  unfold reach. rewrite Eb. assert (0 < bsz) by (rewrite Ep; by apply Z.pow_pos_nonneg).
  pose proof (Z.mul_div_le D bsz). destruct (prefetcher_kind cfg); lia.
Qed.

(** the new cache is empty, free, and shows the contents of the next level *)
Lemma fresh_cache cfg (m : M) h : configured RP cfg → suits cfg m → d_inv m h → d_cur m = None →
  ∃ c : GeneralCache RP, Cache.new cfg = Ret c ∧ d_inv (c, m) h ∧ d_cur (c, m) = None ∧
    d_view (c, m) ≡ d_view m ∧ d_span (c, m) = reach cfg (d_span m) ∧
    d_bound (c, m) = cycle_bound cfg (d_bound m) ∧
    Z.of_nat (d_grain (c, m)) = CacheConfig.block_size (geometry cfg).
Proof.
  intros Hcfg Hs Hi Hcur. destruct (fresh_inv cfg m h Hcfg Hs Hi) as (c & E & Hinv & [Hf Hp Hv _ ? ? ?]).
  assert (Hcl : client_req c = None) by (unfold client_req, current; by rewrite Hf, Hp).
  exists c. split_and!; try done.
  - split_and!; [done | intros r; cbn; congruence | intros r; cbn; congruence].
  - intros a _. apply Hv.
Qed.

End fresh.

#[local] Existing Instance everywhere.

Section clients.
Context {M : Type} `{Device M} `{!DeviceLaws (RG := everywhere) M}.

Lemma access_accepted (d : M) a (n D : Z) : access_in n D a → n ≤ d_grain d → D ≤ d_span d → access_ok d a.
Proof.
  intros (Hp & Hl & Ha & H0' & Hd) Hn HD. split_and!; [done | lia | done.. | lia |]. by destruct a.
Qed.

(** the client of a lawful device, stated on its parameters *)
Lemma device_client (d : M) (v : view) (n D : Z) (b fuel : nat) accesses h :
  d_inv d h → d_cur d = None → d_view d ≡ v → n ≤ d_grain d → D ≤ d_span d → d_bound d = b →
  Forall (access_in n D) accesses → (b < fuel)%nat →
  ∃ d' h', client fuel d accesses h = Ret ((flat_client v accesses).1, d', h') ∧
    d_view d' ≡ (flat_client v accesses).2.
Proof.
  intros Hi Hc Hv Hn HD Hb Ha Hf.
  destruct (client_spec fuel d accesses h Hi Hc) as (d' & h' & E & _ & _ & Hv').
  - eapply Forall_impl; [exact Ha|]. intros a Haa. by eapply access_accepted.
  - lia.
  - destruct (flat_client_proper accesses _ _ Hv) as [E1 E2]. exists d', h'. rewrite <- E1. split; [done|].
    by rewrite Hv', E2.
Qed.
End clients.

(** * One level *)

(** C11: A cache is transparent: built over any lawful next level (main memory, DRAM, or
    another cache), with any replacement policy, prefetcher and write policy except
    write-back without write-allocate, it never panics and answers every sequence of aligned
    accesses with what the next level's contents hold, each access within a fixed number of
    cycles, and then shows those contents updated by the stores. *)
Theorem cache_transparent `{Profile} {RP} `{ReplacementLaws RP} {M} `{Device M}
    `{!DeviceLaws (RG := everywhere) M}
    (cfg : GeneralCacheConfig) (m : M) (h : heap) (accesses : list access) (fuel : nat) :
  configured RP cfg → suits cfg m → d_inv m h → d_cur m = None →
  Forall (access_in (CacheConfig.block_size (geometry cfg)) (reach cfg (d_span m))) accesses →
  (cycle_bound cfg (d_bound m) < fuel)%nat →
  ∃ c : GeneralCache RP, Cache.new cfg = Ret c ∧
  ∃ d h', client fuel (c, m) accesses h = Ret ((flat_client (d_view m) accesses).1, d, h') ∧
    d_view d ≡ (flat_client (d_view m) accesses).2.
Proof.
  intros Hcfg Hs Hi Hc Ha Hf.
  destruct (fresh_cache cfg m h Hcfg Hs Hi Hc) as (c & E & Hi' & Hc' & Hv & Hspan & Hb & Hg).
  exists c. split; [done|]. by eapply device_client; [.. | exact Hb | exact Ha | exact Hf]; rewrite ?Hg, ?Hspan.
Qed.

(** * Two levels over main memory *)

Section two_levels.
Context `{Profile} {R1 : Type} `{ReplacementLaws R1} {R2 : Type} `{ReplacementLaws R2}.
Context {M : Type} `{Device M} `{!DeviceLaws (RG := everywhere) M}.

Lemma two_levels (cfg1 cfg2 : GeneralCacheConfig) (m : M) (v : view) h accesses fuel :
  configured R1 cfg1 → configured R2 cfg2 →
  CacheConfig.block_size (geometry cfg1) ≤ CacheConfig.block_size (geometry cfg2) ≤ d_grain m →
  0 ≤ d_span m ≤ 2 ^ 32 → d_inv m h → d_cur m = None → d_view m ≡ v →
  Forall (access_in (CacheConfig.block_size (geometry cfg1))
            (reach cfg1 (reach cfg2 (d_span m)))) accesses →
  (cycle_bound cfg1 (cycle_bound cfg2 (d_bound m)) < fuel)%nat →
  ∃ (l1 : GeneralCache R1) (l2 : GeneralCache R2),
    Cache.new cfg1 = Ret l1 ∧ Cache.new cfg2 = Ret l2 ∧
    ∃ d h', client fuel (l1, (l2, m)) accesses h = Ret ((flat_client v accesses).1, d, h') ∧
      d_view d ≡ (flat_client v accesses).2.
Proof.
  intros Hc1 Hc2 [Hb1 Hb2] Hsp Hi Hc Hv Ha Hf.
  destruct (fresh_cache cfg2 m h Hc2) as (l2 & E2 & Hi2 & Hcur2 & Hv2 & Hs2 & Hbd2 & Hg2); [split; [done | apply Hsp] | done..|].
  assert (Hsuit : suits cfg1 (l2, m)).
  { split; [by rewrite Hg2|]. rewrite Hs2. pose proof (reach_le cfg2 (d_span m) Hc2). lia. }
  destruct (fresh_cache cfg1 (l2, m) h Hc1 Hsuit Hi2 Hcur2) as (l1 & E1 & Hi1 & Hcur1 & Hv1 & Hs1 & Hbd1 & Hg1).
  exists l1, l2. split_and!; [done..|]. rewrite <- Hs2 in Ha. rewrite <- Hbd2 in Hf.
  eapply device_client; [done | done | by rewrite Hv1, Hv2 | .. | exact Ha | exact Hf]; rewrite ?Hg1, ?Hs1; first [exact Hbd1 | done].
Qed.
End two_levels.

(** C10: The two-level hierarchy over [SimpleMem] is flat memory: an L1 over an L2 over the
    fixed-latency memory holding [data], each level with its own geometry, replacement
    policy, write policy (except write-back without write-allocate), prefetcher and miss
    penalty, answers every sequence of aligned accesses exactly as the byte array [data]
    would, without a panic, each access within a bounded number of cycles. *)
Theorem two_level_simple_mem `{Profile} {R1} `{ReplacementLaws R1} {R2} `{ReplacementLaws R2}
    (cfg1 cfg2 : GeneralCacheConfig) (data : list Z) (accesses : list access) (fuel : nat) :
  configured R1 cfg1 → configured R2 cfg2 →
  CacheConfig.block_size (geometry cfg1) ≤ CacheConfig.block_size (geometry cfg2) ≤ MEM_SIZE →
  Z.of_nat (length data) = MEM_SIZE →
  Forall (access_in (CacheConfig.block_size (geometry cfg1)) (reach cfg1 (reach cfg2 MEM_SIZE)))
    accesses →
  (cycle_bound cfg1 (cycle_bound cfg2 16) < fuel)%nat →
  ∃ (l1 : GeneralCache R1) (l2 : GeneralCache R2),
    Cache.new cfg1 = Ret l1 ∧ Cache.new cfg2 = Ret l2 ∧
    ∃ d h', client fuel (l1, (l2, SimpleMemory.new data)) accesses Heap.empty =
        Ret ((flat_client (view_of data) accesses).1, d, h') ∧
      d_view d ≡ (flat_client (view_of data) accesses).2.
Proof.
  intros Hc1 Hc2 Hb Hd Ha Hf.
  assert (Hsp : d_span (SimpleMemory.new data) = MEM_SIZE).
  { cbn. unfold SimpleMemLaws.span. cbn [SimpleMem.data SimpleMemory.new]. lia. }
  apply two_levels; try done; rewrite ?Hsp; try done.
  - change (d_grain (SimpleMemory.new data)) with (Z.to_nat (d_span (SimpleMemory.new data))).
    rewrite Hsp. unfold MEM_SIZE in *. lia.
Qed.

(** C12: The same hierarchy (no level is write-back without write-allocate, accesses stay in
    the reach of the caches) over [SimpleDram], for every timing and initial contents of at
    most 4 GiB: the row buffer and its state machine change latencies, never answers. *)
Theorem two_level_dram `{Profile} {R1} `{ReplacementLaws R1} {R2} `{ReplacementLaws R2}
    (cfg1 cfg2 : GeneralCacheConfig) (t : DramTiming) (data : list Z) (accesses : list access)
    (fuel : nat) :
  configured R1 cfg1 → configured R2 cfg2 → DramInv.valid_timing t →
  CacheConfig.block_size (geometry cfg1) ≤ CacheConfig.block_size (geometry cfg2) ≤ length data →
  length data ≤ 2 ^ 32 →
  Forall (access_in (CacheConfig.block_size (geometry cfg1))
            (reach cfg1 (reach cfg2 (length data)))) accesses →
  (cycle_bound cfg1 (cycle_bound cfg2 (Z.to_nat (t_rp t + t_rcd t + t_cl t))) < fuel)%nat →
  ∃ (l1 : GeneralCache R1) (l2 : GeneralCache R2) (dram : SimpleDram),
    Cache.new cfg1 = Ret l1 ∧ Cache.new cfg2 = Ret l2 ∧ Dram.new data t = Ret dram ∧
    ∃ d h', client fuel (l1, (l2, dram)) accesses Heap.empty =
        Ret ((flat_client (view_of data) accesses).1, d, h') ∧
      d_view d ≡ (flat_client (view_of data) accesses).2.
Proof.
  intros Hc1 Hc2 Ht Hb Hd Ha Hf. pose proof Ht as ([? _] & [? _] & [? _]).
  assert (Hnew : ∃ dram, Dram.new data t = Ret dram ∧ d_inv dram Heap.empty ∧ d_cur dram = None ∧
    Dram.data dram = data ∧ timing dram = t ∧ Dram.pending_req dram = None).
  { unfold Dram.new, Timing.assert_valid. rewrite !(proj2 (Z.leb_le _ _)) by lia. eexists.
    split; [reflexivity|]. by split_and!. }
  destruct Hnew as (dram & Hnew & Hi & Hcur & Hdata & Htim & Hpend).
  assert (Hsp : d_span dram = length data) by (cbn; unfold SimpleDramLaws.span; by rewrite Hdata).
  assert (Hg : d_grain dram = length data) by (cbn; by rewrite Hdata).
  assert (Hbd : d_bound dram = Z.to_nat (t_rp t + t_rcd t + t_cl t))
    by (cbn; unfold SimpleDramLaws.bound; by rewrite Htim).
  assert (Hv : d_view dram = view_of data)
    by (cbn; unfold SimpleDramLaws.contents; by rewrite Hpend, Hdata).
  destruct (two_levels (R1 := R1) (R2 := R2) cfg1 cfg2 dram (view_of data) Heap.empty accesses fuel)
    as (l1 & l2 & ? & ? & ?); rewrite ?Hsp, ?Hg, ?Hbd, ?Hv; try done; [lia|].
  by exists l1, l2, dram.
Qed.

(** * The configurations of the command line *)

Definition l1d_config : GeneralCacheConfig := {|
  name := "L1-D$";
  geometry := {| CacheConfig.block_size := 32; num_of_way := 2; num_sets := 4;
                 CacheConfig.offset_bit_width := 5; CacheConfig.index_bit_width := 2 |};
  CacheConfig.miss_penalty := 2; CacheConfig.write_policy := WriteBackWriteAllocate;
  prefetcher_kind := Null |}.
Definition l2_config : GeneralCacheConfig := {|
  name := "L2$";
  geometry := {| CacheConfig.block_size := 64; num_of_way := 4; num_sets := 64;
                 CacheConfig.offset_bit_width := 6; CacheConfig.index_bit_width := 6 |};
  CacheConfig.miss_penalty := 10; CacheConfig.write_policy := WriteThroughNoWriteAllocate;
  prefetcher_kind := NextLine |}.

Lemma configured_l1d : configured Fifo.FifoRP l1d_config.
Proof.
  constructor; [|cbn; lia | cbn; lia | done]. exists 256, 32, 2. by split_and!.
Qed.
Lemma configured_l2 : configured PseudoLru.PseudoLruRP l2_config.
Proof.
  constructor; [|cbn; lia | reflexivity | done]. exists 16384, 64, 4. by split_and!.
Qed.

Definition some_accesses : list access :=
  [WriteAt 68 [1; 2; 3; 4]; ReadAt 70 2; ReadAt 196 4; WriteAt 324 [9]; ReadAt 68 4].

Lemma some_accesses_in D : 328 ≤ D → Forall (access_in 32 D) some_accesses.
Proof.
  intros HD. unfold some_accesses. repeat constructor; cbn; try lia; done.
Qed.

Definition small_mem : SimpleMem := SimpleMemory.new (replicate 512 7).

Lemma small_answers :
  (flat_client (d_view small_mem) some_accesses).1 = [[]; [3; 4]; [7; 7; 7; 7]; []; [1; 2; 3; 4]].
Proof. vm_compute. reflexivity. Qed.

Lemma cache_transparent_witness :
  let _ := dev_profile in
  ∃ c : GeneralCache Fifo.FifoRP, Cache.new l1d_config = Ret c ∧
  ∃ d h', client 200 (c, small_mem) some_accesses Heap.empty =
      Ret ([[]; [3; 4]; [7; 7; 7; 7]; []; [1; 2; 3; 4]], d, h') ∧
    d_view d ≡ (flat_client (d_view small_mem) some_accesses).2.
Proof.
  intros P.
  assert (Hsp : d_span small_mem = 512) by (vm_compute; reflexivity).
  assert (Hg : Z.of_nat (d_grain small_mem) = 512) by (vm_compute; reflexivity).
  rewrite <- small_answers.
  apply (cache_transparent l1d_config small_mem Heap.empty some_accesses 200).
  - apply configured_l1d.
  - split; [rewrite Hg | rewrite Hsp]; vm_compute; discriminate.
  - split; [vm_compute; lia | exact I].
  - reflexivity.
  - rewrite Hsp. apply some_accesses_in. vm_compute. discriminate.
  - vm_compute. lia.
Defined.

Lemma two_level_simple_mem_witness :
  let _ := dev_profile in
  let data := replicate (Z.to_nat MEM_SIZE) 7 in
  ∃ (l1 : GeneralCache Fifo.FifoRP) (l2 : GeneralCache PseudoLru.PseudoLruRP),
    Cache.new l1d_config = Ret l1 ∧ Cache.new l2_config = Ret l2 ∧
    ∃ d h', client 1000 (l1, (l2, SimpleMemory.new data)) some_accesses Heap.empty =
        Ret ((flat_client (view_of data) some_accesses).1, d, h') ∧
      d_view d ≡ (flat_client (view_of data) some_accesses).2.
Proof.
  intros P data. apply (two_level_simple_mem l1d_config l2_config data some_accesses 1000).
  - apply configured_l1d.
  - apply configured_l2.
  - cbn. unfold MEM_SIZE. lia.
  - unfold data. rewrite length_replicate. unfold MEM_SIZE. lia.
  - apply some_accesses_in. unfold reach, MEM_SIZE. cbn -[Z.mul Z.div]. vm_compute. discriminate.
  - vm_compute. lia.
Defined.

Lemma two_level_dram_witness :
  let _ := dev_profile in
  let data := replicate 512 7 in
  ∃ (l1 : GeneralCache Fifo.FifoRP) (l2 : GeneralCache PseudoLru.PseudoLruRP) (dram : SimpleDram),
    Cache.new l1d_config = Ret l1 ∧ Cache.new l2_config = Ret l2 ∧
    Dram.new data Timing.educational_default = Ret dram ∧
    ∃ d h', client 1000 (l1, (l2, dram)) some_accesses Heap.empty =
        Ret ((flat_client (view_of data) some_accesses).1, d, h') ∧
      d_view d ≡ (flat_client (view_of data) some_accesses).2.
Proof.
  intros P data.
  apply (two_level_dram l1d_config l2_config Timing.educational_default data some_accesses 1000).
  - apply configured_l1d.
  - apply configured_l2.
  - unfold DramInv.valid_timing. cbn. lia.
  - split; vm_compute; discriminate.
  - vm_compute. discriminate.
  - apply some_accesses_in. vm_compute. discriminate.
  - vm_compute. lia.
Defined.

(** * The excluded write policy *)

Definition wb_nwa_config : GeneralCacheConfig := {|
  name := "L1-D$";
  geometry := {| CacheConfig.block_size := 32; num_of_way := 2; num_sets := 4;
                 CacheConfig.offset_bit_width := 5; CacheConfig.index_bit_width := 2 |};
  CacheConfig.miss_penalty := 2; CacheConfig.write_policy := WriteBackNoWriteAllocate;
  prefetcher_kind := Null |}.

(** load and dirty a block, fill the other way of its set, miss with a store, which evicts
    the dirty way from the policy but bypasses the cache, then load the stored block *)
Definition losing_accesses : list access :=
  [ReadAt 64 4; WriteAt 64 [1; 2; 3; 4]; ReadAt 192 4; WriteAt 320 [5]; ReadAt 320 1; ReadAt 64 4].

(** C13: Write-back without write-allocate loses data: a store that misses makes the
    replacement policy forget its victim although the block is not replaced, and the next
    load miss then refills that way without writing its dirty bytes back.  On the default
    L1-D geometry six accesses suffice for a load to return stale bytes. *)
Theorem wb_nwa_loses_data :
  let _ := dev_profile in
  accepted (geometry wb_nwa_config) ∧
  Forall (access_in 32 (reach wb_nwa_config 512)) losing_accesses ∧
  ∃ c : GeneralCache Fifo.FifoRP, Cache.new wb_nwa_config = Ret c ∧
  ∃ d h', client 200 (c, small_mem) losing_accesses Heap.empty =
      Ret ([[7; 7; 7; 7]; []; [7; 7; 7; 7]; []; [5]; [7; 7; 7; 7]], d, h') ∧
    (flat_client (d_view small_mem) losing_accesses).1 =
      [[7; 7; 7; 7]; []; [7; 7; 7; 7]; []; [5]; [1; 2; 3; 4]].
Proof.
  intros P. split_and!.
  - exists 256, 32, 2. by split_and!.
  - repeat constructor; vm_compute; try done; discriminate.
  - eexists. split; [vm_compute; reflexivity|]. do 2 eexists.
    split; vm_compute; reflexivity.
Qed.
