(* ===== verification/SharedCache.v ===== *)
(** Two caches over one next level: the L1 caches of the processor share the L2.

    Each cache satisfies the invariant of [CacheRefinement.v] on the addresses it observes,
    whatever request of the other is in flight below.  This file shows that a tick of one of
    them does not disturb the other, and packages what the processor needs: the data cache
    shows a flat memory, and the instruction cache shows the same memory on a region that no
    store touches. *)
From S2P Require Import Prelude Word AbstractMem ReplacementPolicy CacheConfig CacheSet LowerMemory GeneralCache CacheAddress Device CacheView CacheRefinement CacheDevice.
From stdpp Require Import base gmap numbers sets list.
From Stdlib Require Import Lia.
#[local] Open Scope Z_scope.
#[local] Coercion Z.of_nat : nat >-> Z.

(** * The footprint of a tick *)

(** the heap changes only in the cells [P] and in new ones *)
Definition touches (P : nat → Prop) (h h' : heap) : Prop :=
  (next_id h ≤ next_id h')%nat ∧
  ∀ id, (id < next_id h)%nat → P id ∨ Heap.get h' id = Heap.get h id.

Section touches.
Implicit Type P : nat → Prop.

Lemma touches_refl P h : touches P h h.
Proof. split; [done | by right]. Qed.
Lemma touches_set P id c h : P id → touches P h (Heap.set id c h).
Proof.
  intros HP. split; [done|]. intros id' _. destruct (decide (id' = id)) as [->|]; [by left|].
  right. by apply get_set_ne.
Qed.
Lemma touches_load P a n h : touches P h (Req.load a n h).2 ∧ Req.id (Req.load a n h).1 = next_id h.
Proof.
  split; [|done]. split; [cbn; lia|]. intros id Hid. right. unfold Heap.get. cbn.
  by rewrite lookup_insert_ne by lia.
Qed.
Lemma touches_store P a d h : touches P h (Req.store a d h).2 ∧ Req.id (Req.store a d h).1 = next_id h.
Proof.
  split; [|done]. split; [cbn; lia|]. intros id Hid. right. unfold Heap.get. cbn.
  by rewrite lookup_insert_ne by lia.
Qed.
Lemma touches_complete P r h h' : P (Req.id r) → Req.complete_store r h = Ret h' → touches P h h'.
Proof. intros HP E. destruct r as [x|x]; [done|]. injection E as <-. by apply touches_set. Qed.
End touches.

(** no way of the set is dirty *)
Definition clean {RP} (s : GeneralCacheSetUnit RP) : Prop := ∀ w, ¬ is_dirty s w.

Section clean.
Context {RP : Type} `{ReplacementPolicy RP}.
Implicit Type s : GeneralCacheSetUnit RP.

Lemma tag_compare_clean s t g r s' g' : CacheSet.tag_compare s t g = Ret (r, s', g') →
  dirty_array s' = dirty_array s ∧ (clean s → ∀ w, r ≠ Err (true, w)).
Proof.
  unfold CacheSet.tag_compare. intros E. apply bind_inv in E as ([i|] & _ & E).
  { injection E as <- <- _. by split. }
  apply bind_inv in E as ([[[full w] r'] g1] & _ & E). apply bind_inv in E as (d & Ed & E).
  assert (s' = CacheSet.with_rp r' s) as -> by (by destruct d; injection E).
  split; [done|]. intros Hc w' ->. destruct d; [|done]. destruct full; [|done].
  apply index_inv in Ed. by apply (Hc w).
Qed.

Lemma read_block_clean s w d s' : CacheSet.read_block s w = Ret (d, s') → dirty_array s' = dirty_array s.
Proof. unfold CacheSet.read_block, CacheSet.promote. intros E. exec_inv. done. Qed.

Lemma insert_block_clean s w t d s' : CacheSet.insert_block s w t d = Ret s' → clean s → clean s'.
Proof.
  unfold CacheSet.insert_block, CacheSet.store_data. intros E Hc. exec_inv. intros w' Hd.
  unfold is_dirty in Hd. cbn in Hd. apply list_lookup_insert_Some in Hd as [(_ & ? & _)|[_ ?]]; [done|].
  by apply (Hc w').
Qed.
End clean.

Section effect.
Context `{Profile} {RP : Type} `{ReplacementPolicy RP} {M : Type} `{AbstractMemoryInterface M}.
Implicit Types (c : GeneralCache RP) (m : M) (h : heap).

(** the cells of the requests a cache works on *)
Definition own c (id : nat) : Prop :=
  (∃ r, current c = Some r ∧ id = Req.id r) ∨
  (∃ t, trans c = Some t ∧ id = Req.id (LowerMemory.req t)).

(** a cache that never stores *)
Record read_only c : Prop := {
  ro_clean : ∀ x s, set c !! x = Some s → clean s;
  ro_current : ∀ r, current c = Some r → Req.is_store r = false;
  ro_trans : ∀ t, trans c = Some t → Req.is_store (LowerMemory.req t) = false;
}.

(** A tick works on its own cells; it changes the next level only when that is given the
  request the cache is sending, and then does nothing else. *)
Record effect c m h c' m' h' : Prop := {
  ef_own : ∀ id, own c' id → own c id ∨ (next_id h ≤ id)%nat;
  ef_lower : (m' = m ∧ touches (own c) h h') ∨
    ∃ r res, trans c = Some (Sending r) ∧ try_register_req m r h = Ret (res, m', h');
  ef_read_only : read_only c → read_only c';
}.

Lemma own_lookup c r id : fsm c = GeneralCache.Lookup r → own c id ↔ id = Req.id r.
Proof.
  intros Hf. unfold own, current, trans. rewrite Hf. split.
  - by intros [(? & [= <-] & ->)|(? & [=] & _)].
  - intros ->. left. by exists r.
Qed.

(** what a lookup of [r] leaves *)
Definition looks (r : MemoryReqType) h c' h' : Prop :=
  touches (λ id, id = Req.id r) h h' ∧ ∀ id, own c' id → id = Req.id r ∨ (next_id h ≤ id)%nat.

Ltac owned := unfold own, current, trans; cbn;
  let id := fresh "id" in
  intros id [(? & [=] & ?)|(? & [=] & ?)]; subst; cbn in *; first [by left | right; lia].

Lemma set_way_clean c i s c' : Cache.set_way c i s = Ret c' →
  c' = Cache.with_set (<[i:=s]> (set c)) c ∧
  ((∀ x s, set c !! x = Some s → clean s) → clean s → ∀ x s, set c' !! x = Some s → clean s).
Proof.
  unfold Cache.set_way. intros E. exec_inv. split; [done|]. intros Hc Hs x s0 Hx. cbn in Hx.
  apply list_lookup_insert_Some in Hx as [(_ & <- & _)|[_ ?]]; [done | by eapply Hc].
Qed.

Lemma count_store_set miss c : set (Cache.count_store miss c) = set c.
Proof. unfold Cache.count_store. by destruct (prefetch_in_flight c). Qed.
Lemma count_load_set miss c : set (Cache.count_load miss c) = set c.
Proof. unfold Cache.count_load. by destruct (prefetch_in_flight c). Qed.

Lemma lookup_hit_effect c r i w o h c' h' : Cache.lookup_hit c r i w o h = Ret (c', h') →
  looks r h c' h' ∧
  (Req.is_store r = false → (∀ x s, set c !! x = Some s → clean s) → read_only c').
Proof.
  unfold Cache.lookup_hit. intros E. apply bind_inv in E as (s & Es & E). apply index_inv in Es.
  apply bind_inv in E as ([d s1] & Er & E). destruct r as [x|x].
  - apply bind_inv in E as (d1 & _ & E). apply bind_inv in E as (h1 & Eh & E).
    apply bind_inv in E as (c1 & Ec & [= <- <-]).
    unfold LoadReq.complete_from_slice in Eh. exec_inv. split; [split; [by apply touches_set | owned]|].
    intros _ Hc. apply set_way_clean in Ec as [-> Hset]. constructor; [|done..]. intros y s2. cbn.
    rewrite count_load_set. apply Hset; [done|]. intros w1. unfold is_dirty.
    rewrite (read_block_clean _ _ _ _ Er). by apply (Hc i).
  - split; [|done]. apply bind_inv in E as (b & _ & E).
    destruct (Policy.is_write_through _).
    + apply bind_inv in E as (s2 & _ & E). apply bind_inv in E as (c1 & _ & E).
      pose proof (touches_store (λ id, id = Req.id (Store x)) (Req.get_addr (Store x)) (StoreReq.data x) h) as [Ht Hid].
      destruct (Req.store _ _ h) as [rr h2]. injection E as <- <-. split; [exact Ht|]. owned.
    + apply bind_inv in E as (s2 & _ & E). apply bind_inv in E as (c1 & _ & [= <- <-]).
      split; [by apply touches_set | owned].
Qed.

Lemma lookup_miss_effect c r t i need w h c' h' : Cache.lookup_miss c r t i need w h = Ret (c', h') →
  looks r h c' h' ∧
  (Req.is_store r = false → (∀ x s, set c !! x = Some s → clean s) → need = false → read_only c').
Proof.
  unfold Cache.lookup_miss. intros E. set (c0 := if Req.is_store r then _ else _) in E.
  assert (set c0 = set c) as Ec0.
  { subst c0. destruct (Req.is_store r); [apply count_store_set | apply count_load_set]. }
  clearbody c0. destruct (Req.is_store r && _) eqn:Eb.
  - apply bind_inv in E as (d & _ & E).
    pose proof (touches_store (λ id, id = Req.id r) (Req.get_addr r) d h) as [Ht Hid].
    destruct (Req.store _ _ h) as [rr h2]. injection E as <- <-. split; [split; [exact Ht | owned]|].
    intros Hs. by rewrite Hs in Eb.
  - destruct need.
    + split; [|done]. apply bind_inv in E as (s & _ & E). apply bind_inv in E as (t0 & _ & E).
      apply bind_inv in E as (a & _ & E). apply bind_inv in E as ([d s1] & _ & E).
      apply bind_inv in E as (c1 & Ec & E). apply set_way_clean in Ec as [-> _].
      pose proof (touches_store (λ id, id = Req.id r) a d h) as [Ht Hid].
      destruct (Req.store _ _ h) as [rr h2]. injection E as <- <-. split; [exact Ht | owned].
    + apply bind_inv in E as (a & _ & E). apply bind_inv in E as (n & _ & E).
      pose proof (touches_load (λ id, id = Req.id r) a n h) as [Ht Hid].
      pose proof (eq_refl : Req.is_store (Req.load a n h).1 = false) as Hld.
      destruct (Req.load _ _ h) as [rr h2]. injection E as <- <-. split; [split; [exact Ht | owned]|].
      intros Hs Hc _. constructor; cbn; [by rewrite Ec0| |]; unfold current, trans; cbn.
      * by intros ? [= <-].
      * by intros ? [= <-].
Qed.

Lemma lookup_effect c r m h c' h' : fsm c = GeneralCache.Lookup r → Cache.lookup c r h = Ret (c', h') →
  effect c m h c' m h'.
Proof.
  unfold Cache.lookup. intros Hf E. apply bind_inv in E as ([[t i] o] & _ & E).
  apply bind_inv in E as (s & Es & E). apply index_inv in Es.
  apply bind_inv in E as ([[res s1] g] & Et & E). apply tag_compare_clean in Et as [Ed Hneed].
  apply bind_inv in E as (c1 & Ec & E). apply set_way_clean in Ec as [-> Hset].
  apply bind_inv in E as ([c2 h2] & Eh & E).
  assert (own c' = own c2 ∧ (read_only c2 → read_only c') ∧ h' = h2) as (Eo & Hro & ->).
  { destruct (prefetch_in_flight c); [|apply bind_inv in E as (l & _ & E)]; injection E as <- <-;
      [destruct res|]; (split_and!; [done | by intros [] | done]). }
  assert (Hres : looks r h c2 h2 ∧ (Req.is_store r = false → (∀ x s, set c !! x = Some s → clean s) → read_only c2)).
  { assert (Hset' : (∀ x s, set c !! x = Some s → clean s) →
      ∀ x s, set (Cache.with_set (<[i:=s1]> (set c)) c) !! x = Some s → clean s).
    { intros Hc. apply Hset; [done|]. intros w. unfold is_dirty. rewrite Ed. by apply (Hc i). }
    destruct res as [w|[need w]].
    - apply lookup_hit_effect in Eh as [? Hr]. split; [done|]. intros Hs Hc. by apply Hr; [|apply Hset'].
    - apply lookup_miss_effect in Eh as [? Hr]. split; [done|]. intros Hs Hc. apply Hr; [done | by apply Hset'|].
      destruct need; [|done]. by destruct (Hneed (Hc i s Es) w). }
  destruct Hres as [[Ht Ho] Hr]. constructor.
  - intros id. rewrite Eo. intros [->|?]%Ho; [left; by apply (own_lookup c r) | by right].
  - left. split; [done|]. destruct Ht as [? Ht]. split; [done|]. intros id Hid.
    destruct (Ht id Hid) as [->|?]; [left; by apply (own_lookup c r) | by right].
  - intros [Hc Hcur _]. apply Hro, Hr; [|done]. apply Hcur. unfold current. by rewrite Hf.
Qed.

Lemma progress_effect t m h fin t' m' h' : LowerMemory.progress t m h = Ret (fin, t', m', h') →
  LowerMemory.req t' = LowerMemory.req t ∧
  ((m' = m ∧ h' = h) ∨
   (fin = false ∧ ∃ r res, t = Sending r ∧ try_register_req m r h = Ret (res, m', h'))).
Proof.
  destruct t as [r|r]; cbn.
  - intros E. apply bind_inv in E as ([[res m1] h1] & Er & [= <- <- <- <-]).
    split; [by destruct res|]. right. split; [done|]. by exists r, res.
  - intros [= <- <- <- <-]. split; [done | by left].
Qed.

(** a state that polls the next level and stays *)
Lemma poll_effect c m h t t' m' h' f : trans c = Some t → LowerMemory.req t' = LowerMemory.req t →
  ((m' = m ∧ h' = h) ∨ ∃ r res, t = Sending r ∧ try_register_req m r h = Ret (res, m', h')) →
  trans (Cache.with_fsm f c) = Some t' → current (Cache.with_fsm f c) = current c →
  effect c m h (Cache.with_fsm f c) m' h'.
Proof.
  intros Ht Er Hm Ht' Hc. constructor.
  - intros id [(r & Hr & ->)|(t0 & Ht0 & ->)]; left.
    + left. exists r. by rewrite <- Hc.
    + right. exists t. rewrite Ht' in Ht0. injection Ht0 as <-. by rewrite Er.
  - destruct Hm as [[-> ->]|(r & res & -> & E)]; [left; split; [done | apply touches_refl]|].
    right. by exists r, res.
  - intros [H1' H2' H3']. constructor; [done | by rewrite Hc|].
    intros t0. rewrite Ht'. intros [= <-]. rewrite Er. by apply H3'.
Qed.

(** a transaction that ends *)
Lemma fin_effect c m h c' h' : touches (own c) h h' → (∀ id, own c' id → own c id ∨ (next_id h ≤ id)%nat) →
  (read_only c → read_only c') → effect c m h c' m h'.
Proof. intros Ht Ho Hr. constructor; [done | by left | done]. Qed.

Lemma commit_effect c m h state t r c' m' h' : commit_state state r → fsm c = state t →
  Cache.commit c state t r m h = Ret (c', m', h') → effect c m h c' m' h'.
Proof.
  intros Hs Hf E. assert (current c = Some r ∧ trans c = Some t) as [Hc Ht].
  { unfold current, trans. rewrite Hf. by destruct Hs as [->| ->]. }
  unfold Cache.commit in E. apply bind_inv in E as ([[[fin t'] m1] h1] & Ep & E).
  apply progress_effect in Ep as [Er Hm]. destruct fin.
  - destruct Hm as [[-> ->]|[? _]]; [|done]. apply bind_inv in E as (h2 & Eh & [= <- <- <-]).
    apply fin_effect.
    + eapply touches_complete; [|exact Eh]. left. by exists r.
    + by intros id [(? & [=] & _)|(? & [=] & _)].
    + intros [? _ _]. by constructor.
  - injection E as <- <- <-. apply (poll_effect _ _ _ t t'); try done.
    + destruct Hm as [?|[_ ?]]; [by left | by right].
    + unfold trans. cbn. by destruct Hs as [->| ->].
    + rewrite Hc. unfold current. cbn. by destruct Hs as [->| ->].
Qed.

Lemma write_back_effect c m h t w c' m' h' : fsm c = WriteBack t w →
  Cache.write_back c t w m h = Ret (c', m', h') → effect c m h c' m' h'.
Proof.
  unfold Cache.write_back. intros Hf E. assert (Ht : trans c = Some t) by (unfold trans; by rewrite Hf).
  apply bind_inv in E as ([[[fin t'] m1] h1] & Ep & E). apply progress_effect in Ep as [Er Hm].
  destruct fin.
  - destruct Hm as [[-> ->]|[? _]]; [|done]. apply bind_inv in E as (b & Eb & E). apply unwrap_inv in Eb.
    apply bind_inv in E as (a & _ & E). apply bind_inv in E as (n & _ & E).
    pose proof (touches_load (own c) a n h) as [Htl Hid].
    destruct (Req.load _ _ h) as [rr h2] eqn:El. injection E as <- <- <-. apply fin_effect; [exact Htl| |].
    + intros id [(r & Hr & ->)|(t0 & [= <-] & ->)]; [left; left|right; cbn in *; lia].
      exists r. unfold current in Hr |- *. cbn in Hr. by rewrite Hf.
    + intros [H1' H2' H3']. constructor; [done| |].
      * intros r. unfold current in *. cbn. rewrite Hf in H2'. apply H2'.
      * intros t0 [= <-]. cbn in El. by injection El as <- _.
  - injection E as <- <- <-. apply (poll_effect _ _ _ t t'); try done.
    + destruct Hm as [?|[_ ?]]; [by left | by right].
    + unfold current. cbn. by rewrite Hf.
Qed.

Lemma allocate_effect c m h t w c' m' h' : fsm c = Allocate t w →
  Cache.allocate c t w m h = Ret (c', m', h') → effect c m h c' m' h'.
Proof.
  unfold Cache.allocate. intros Hf E. assert (Ht : trans c = Some t) by (unfold trans; by rewrite Hf).
  apply bind_inv in E as ([[[fin t'] m1] h1] & Ep & E). apply progress_effect in Ep as [Er Hm].
  destruct fin.
  - destruct Hm as [[-> ->]|[? _]]; [|done]. apply bind_inv in E as (d & _ & E).
    apply bind_inv in E as (b & Eb & E). apply bind_inv in E as ([[t0 i] o] & _ & E).
    apply bind_inv in E as (s & Es & E). apply bind_inv in E as (s1 & E1 & E).
    apply bind_inv in E as (c1 & Ec & [= <- <- <-]). apply set_way_clean in Ec as [-> Hset].
    apply index_inv in Es. apply fin_effect; [apply touches_refl| |].
    + intros id [(r & Hr & ->)|(t1 & [=] & _)]. left; left.
      exists r. unfold current in Hr |- *. cbn in Hr. by rewrite Hf.
    + intros [H1' H2' H3']. constructor; [|unfold current in *; cbn; by rewrite Hf in H2'|done].
      intros y s2. apply Hset; [done|]. eapply insert_block_clean; [exact E1 | by eapply H1'].
  - injection E as <- <- <-. apply (poll_effect _ _ _ t t'); try done.
    + destruct Hm as [?|[_ ?]]; [by left | by right].
    + unfold current. cbn. by rewrite Hf.
Qed.

Lemma tick_effect c m h c' m' h' : pending_req c = None → Cache.tick c m h = Ret (c', m', h') →
  effect c m h c' m' h'.
Proof.
  intros Hp E. unfold Cache.tick in E. destruct (fsm c) as [|r|t w|t w|[|n]|t r|t r] eqn:Hf.
  - unfold Cache.idle in E. rewrite Hp in E.
    assert (effect c m h c m h) by (apply fin_effect; [apply touches_refl | by left | done]).
    destruct (prefetch_in_flight c); [by injection E as <- <- <-|].
    destruct (prefetch_queue c) as [|a q]; [by injection E as <- <- <-|].
    pose proof (touches_load (own c) a (Z.to_nat (block_size_bytes c)) h) as [Ht Hid].
    destruct (Req.load _ _ h) as [rr h2] eqn:El. injection E as <- <- <-. apply fin_effect; [exact Ht| |].
    + intros id [(r & [= <-] & ->)|(t & [=] & _)]. right. cbn in *. lia.
    + intros [? _ _]. constructor; [done| |done]. intros r [= <-]. cbn in El. by injection El as <- _.
  - apply bind_inv in E as ([c1 h1] & E & [= <- <- <-]). by eapply lookup_effect.
  - by eapply write_back_effect.
  - by eapply allocate_effect.
  - apply bind_inv in E as (r & Er & [= <- <- <-]). apply unwrap_inv in Er.
    assert (Hc : current c = Some r) by (unfold current; by rewrite Hf).
    apply fin_effect; [apply touches_refl| |].
    + intros id [(? & [= <-] & ->)|(t & [=] & _)]. left; left. by exists r.
    + intros [? Hcur _]. constructor; [done| |done]. intros r0 [= <-]. by apply Hcur.
  - injection E as <- <- <-. apply fin_effect; [apply touches_refl| |].
    + intros id [(r & Hr & ->)|(t & [=] & _)]. left; left. exists r. unfold current in *. by rewrite Hf.
    + intros [? Hcur _]. constructor; [done| |done]. unfold current in *. by rewrite Hf in Hcur.
  - by eapply (commit_effect c m h (λ t, WriteThroughCommit t r)); [left| |].
  - by eapply (commit_effect c m h (λ t, WriteAround t r)); [right| |].
Qed.
End effect.

(** * What a client of the next level does to the others *)

Section interference.
Context `{Profile} {RP : Type} `{ReplacementLaws RP} {M : Type} `{DeviceLaws M}.
Implicit Types (c : GeneralCache RP) (m : M) (h : heap).

Lemma owns_cases c m id : owns c m id ↔ own c id ∨ d_owns m id.
Proof. unfold owns, own. tauto. Qed.

Lemma own_bounded c m h id : inv c m h → own c id → (id < next_id h)%nat.
Proof. intros Hinv Ho. apply (owns_bounded c m h); [done|]. apply owns_cases. by left. Qed.

(** a next level that serves nobody has no claim on the cells of a cache *)
Lemma own_free c m h id : inv c m h → d_cur m = None → own c id → ¬ d_owns m id.
Proof.
  intros Hinv Hc [(r & Hr & ->)|(t & Ht & ->)].
  - by destruct (current_holds c m h r Hinv Hr) as (_ & _ & ? & _).
  - destruct (trans_ok c m h t Hinv Ht) as [Hok _]. destruct t as [r|r]; cbn in *.
    + by destruct Hok as (_ & ? & _).
    + destruct Hok as [?|(? & _)]; [congruence | done].
Qed.

(** the steps of another client whose cells are [P]: the next level stays, or accepts its
    request *)
Definition interferes (P : nat → Prop) m h m' h' : Prop :=
  (m' = m ∧ touches P h h') ∨
  (d_cur m = None ∧ heap_step (λ id, P id ∨ d_owns m id) (d_owns m') h h').

Lemma interferes_get c m h P m' h' id : inv c m h → interferes P m h m' h' → own c id → ¬ P id →
  Heap.get h' id = Heap.get h id.
Proof.
  intros Hinv Hint Ho HP. pose proof (own_bounded c m h id Hinv Ho) as Hid.
  destruct Hint as [(_ & _ & Hk)|(Hc & Hst)].
  - by destruct (Hk id Hid).
  - eapply heap_step_get; [done | done|]. intros [?|Hd]; [done|]. by apply (own_free c m h id).
Qed.

Lemma undisturbed c m h P m' h' : inv c m h → d_inv m' h' → same_shape m m' →
  d_view m' ≡ d_view m → interferes P m h m' h' → (∀ id, own c id → ¬ P id) →
  inv c m' h' ∧ contents c m' ≡ contents c m.
Proof.
  intros Hinv Hi' Hss Hv Hint Hdis. split; [|by apply contents_proper].
  assert (Hn : (next_id h ≤ next_id h')%nat) by (by destruct Hint as [(_ & ? & _)|(_ & ? & _)]).
  assert (Hget : ∀ id, own c id → Heap.get h' id = Heap.get h id).
  { intros id Ho. by apply (interferes_get c m h P m'); auto. }
  assert (Howns : ∀ id, own c id → ¬ d_owns m id → ¬ d_owns m' id).
  { intros id Ho Hd. destruct Hint as [(-> & _)|(_ & Hst)]; [done|].
    eapply heap_step_owns; [done | by eapply own_bounded|]. intros [?|?]; [by apply (Hdis id) | done]. }
  apply (inv_transfer c m h); try done.
  - intros r Hr (Hro & Hl & Ho & Hp). split_and!; [by apply (request_same c c m) | lia | | done].
    apply Howns; [|done]. left. by exists r.
  - intros t Ht Hok. assert (Ho : own c (Req.id (LowerMemory.req t))) by (right; by exists t).
    destruct t as [r|r]; cbn in *.
    + destruct Hok as (Hl & Hd & Ha). split_and!; [by apply (live_frame r h); auto | by apply Howns |].
      by eapply accepts_shape.
    + destruct Hok as [Hc|(Hd & Hl & Hg)].
      * left. destruct Hint as [(-> & _)|(Hc' & _)]; [done | congruence].
      * right. split_and!; [by apply Howns | lia |]. by rewrite Hget, Hv.
Qed.

(** a cache without dirty blocks shows the next level *)
Lemma through_overlay c v a : config c → Policy.is_write_through (write_policy c) = true →
  store_ok c None v → observed a → v a = overlay c v a.
Proof.
  intros Hc Hp Hst Hoa. pose proof (st_sets _ _ _ Hst) as Hsets.
  destruct (overlay_cases c a Hc Hsets) as (s & Hx & [[w Hw]|Hm]).
  - pose proof (addr_split c a Hc) as E. pose proof (off_lt c a Hc) as Hk. rewrite E.
    apply (inj Some). rewrite (overlay_hit c v _ s (tag c a) w) by done. symmetry.
    eapply (st_agree _ _ _ Hst); try done; [|by rewrite <- E].
    left. by apply (st_through _ _ _ Hst Hp (idx c a)).
  - symmetry. by apply (overlay_miss c v a s).
Qed.

(** the block the next level is being given is one the cache shows *)
Lemma low_cases c m h a : inv c m h → observed a →
  low c m a = d_view m a ∨ low c m a = overlay c (low c m) a.
Proof.
  intros Hinv Hoa. pose proof Hinv as [Hsh _ _ _ _ Hph]. pose proof Hsh as [Hc _ _ _ _].
  unfold low, phase_ok, trans in *. destruct (fsm c) as [|r|t w|t w|n|t r|t r] eqn:Hf; try by left.
  - destruct Hph as (r & s & t0 & x & _ & _ & _ & Hx & _ & _ & _ & Hw & Ereq & Ea & Ed & Hst).
    destruct t as [r'|r']; cbn in *; [|by left]. subst r'. cbn in *. rewrite Ea, Ed in *.
    set (y := idx c (Req.get_addr r)) in *.
    pose proof (set_index_lt c y s Hc Hx) as Hy. pose proof (st_sets _ _ _ Hst) as Hsets.
    assert (Hl : length (way_bytes s w) = bs c).
    { apply (length_way_bytes (num_associativity s) (bs c) (tags c)); [by eapply Hsets|].
      eapply hits_lt; [by eapply Hsets | done]. }
    destruct (decide (addr_of c t0 y ≤ a < addr_of c t0 y + bs c)) as [Hin|Hout].
    + right. set (v := view_write (d_view m) (addr_of c t0 y) (way_bytes s w)) in *.
      replace a with (addr_of c t0 y + Z.to_nat (a - addr_of c t0 y)) in * by lia.
      apply (inj Some). rewrite (overlay_hit c v y s t0 w) by (done || lia).
      symmetry. eapply (st_agree _ _ _ Hst); [done | done | by right | lia | done].
    + left. unfold view_write. by rewrite decide_False by lia.
  - destruct Hph as (r & s & y & _ & _ & _ & _ & _ & _ & _ & Ereq & _). left.
    destruct t as [r'|r']; cbn in *; [by subst r' | done].
  - right. destruct Hph as (Hp & _ & _ & _ & _ & Hst). by apply (through_overlay c).
  - right. destruct Hph as (Hp & _ & _ & _ & _ & Hst). by apply (through_overlay c).
Qed.
End interference.

(** * Two caches *)

Section exact.
Context `{Profile} {RP : Type} `{ReplacementPolicy RP} {M : Type} `{Device M}.
Context `{!DeviceLaws (RG := everywhere) M}.
#[local] Existing Instance everywhere.
Implicit Types (c : GeneralCache RP) (m : M) (h : heap).

(** what a tick does to the next level, for every address *)
Lemma effect_exact c m h c' m' h' : d_inv m h →
  (∀ r, trans c = Some (Sending r) → live r h ∧ ¬ d_owns m (Req.id r) ∧ accepts m r) →
  effect c m h c' m' h' →
  interferes (own c) m h m' h' ∧ d_inv m h ∧
  (d_view m' = d_view m ∨ ∃ r, trans c = Some (Sending r) ∧ d_view m' ≡ view_apply r (d_view m)).
Proof.
  intros Hi Htx [_ [[-> Ht]|(r & res & Hr & E)] _]; [by split_and!; [left | | left]|].
  destruct (Htx r Hr) as ([Hid Hd] & Ho & Ha).
  destruct (law_try m h r Hi Ha Hid Hd Ho) as (res' & m1 & h1 & E' & Hres).
  rewrite E' in E. injection E as <- <- <-. destruct res' as [[]|[]].
  - destruct Hres as (Hc & _ & _ & Hv & Hst & _). split_and!; [|done | right; by exists r].
    right. split; [done|]. eapply heap_step_weaken; [| |exact Hst].
    + intros id [?| ->]; [by right | left; right; by exists (Sending r)].
    + intros id ?. by left.
  - destruct Hres as (-> & -> & _). split_and!; [left; split; [done | apply touches_refl] | done | by left].
Qed.
End exact.

Section shared.
Context `{Profile} {RP : Type} `{ReplacementLaws RP} {M : Type} `{Device M}.
Context {L : DeviceLaws (RG := everywhere) M}.
(** the addresses the instruction cache is trusted on *)
Context (code : Region).
#[local] Existing Instance everywhere.
Implicit Types (ci cd : GeneralCache RP) (m : M) (h : heap).

Abbreviation code_laws := (restrict code (L := L)).
Abbreviation code_inv := (@inv RP _ _ M code _ code_laws).
Abbreviation code_ticked := (@ticked RP _ _ M code _ code_laws).
Abbreviation code_answers := (@answers code).

(** a store that leaves the code alone *)
Definition spares (r : MemoryReqType) : Prop :=
  match r with
  | Load _ => True
  | Store x => ∀ a, code a → ¬ store_addr x ≤ a < store_addr x + length (store_bytes x)
  end.

(** the instruction cache [ci] and the data cache [cd] over [m] show the flat memory [W] *)
Record shows ci cd m h (W : view) : Prop := {
  sh_data : inv cd m h;
  sh_code : code_inv ci m h;
  sh_read_only : read_only ci;
  sh_apart : ∀ id, own ci id → ¬ own cd id;
  sh_contents : ∀ a, contents cd m a = W a;
  sh_fetch : ∀ a, code a → contents ci m a = W a;
  sh_below : ∀ a, code a → d_view m a = W a;
  sh_spares : ∀ r, client_req cd = Some r → spares r;
}.

Lemma sh_lower ci cd m h W : shows ci cd m h W → d_inv m h.
Proof. intros Hs. apply (inv_lower _ _ _ (sh_data _ _ _ _ _ Hs)). Qed.

Lemma code_sending ci m h r : code_inv ci m h → trans ci = Some (Sending r) →
  live r h ∧ ¬ d_owns m (Req.id r) ∧ accepts m r.
Proof. intros Hinv Ht. exact (proj1 (trans_ok (H3 := code_laws) ci m h _ Hinv Ht)). Qed.
Lemma data_sending cd m h r : inv cd m h → trans cd = Some (Sending r) →
  live r h ∧ ¬ d_owns m (Req.id r) ∧ accepts m r.
Proof. intros Hinv Ht. exact (proj1 (trans_ok cd m h _ Hinv Ht)). Qed.

(** what the data cache writes into the code is what is there *)
Lemma low_code ci cd m h W a : shows ci cd m h W → code a → low cd m a = W a.
Proof.
  intros Hs Ha. destruct (low_cases cd m h a (sh_data _ _ _ _ _ Hs) I) as [->|E].
  { by apply (sh_below _ _ _ _ _ Hs). }
  rewrite E, <- (sh_contents _ _ _ _ _ Hs). pose proof (sh_data _ _ _ _ _ Hs) as Hinv.
  assert (Hsp : ∀ r v, current cd = Some r → view_apply r v a = v a).
  { intros [x|x] v Hr; [done|]. cbn. unfold view_write. apply decide_False.
    apply (sh_spares _ _ _ _ _ Hs (Store x)); [|done].
    unfold client_req. destruct (prefetch_in_flight cd) eqn:Hp; [|done].
    destruct (current_holds cd m h _ Hinv Hr) as (_ & _ & _ & Hn). discriminate (Hn Hp). }
  unfold contents, current in *. destruct (fsm cd); try done;
    try (by rewrite Hsp); (destruct (backup_req cd) as [r|]; [by rewrite Hsp | done]).
Qed.

(** ** What a step leaves to the clients *)

(** a cell that no part of the memory system holds *)
Definition free ci cd m h (id : nat) : Prop :=
  (id < next_id h)%nat ∧ ¬ own ci id ∧ ¬ own cd id ∧ ¬ d_owns m id.

(** a request is still being served, or answered *)
Definition data_served ci cd m h W r : Prop :=
  client_req cd = None ∧ free ci cd m h (Req.id r) ∧ answers r W (Heap.get h (Req.id r)).
Definition code_served ci cd m h W r : Prop :=
  free ci cd m h (Req.id r) ∧ code_answers r W (Heap.get h (Req.id r)).

Record stepped (W : view) ci cd m h ci' cd' m' h' : Prop := {
  sp_code_config : same_config ci ci';
  sp_data_config : same_config cd cd';
  sp_shape : same_shape m m';
  sp_next : (next_id h ≤ next_id h')%nat;
  sp_free : ∀ id, free ci cd m h id → free ci' cd' m' h' id ∧ Heap.get h' id = Heap.get h id;
  sp_none : client_req cd = None → client_req cd' = None;
  sp_data : ∀ r, client_req cd = Some r →
    (client_req cd' = Some r ∧ Heap.get h' (Req.id r) = Heap.get h (Req.id r)) ∨
    data_served ci' cd' m' h' W r;
  sp_code : ∀ r, client_req ci = Some r →
    (client_req ci' = Some r ∧ Heap.get h' (Req.id r) = Heap.get h (Req.id r)) ∨
    code_served ci' cd' m' h' W r;
}.

Lemma same_config_refl (c : GeneralCache RP) : same_config c c.
Proof. by split_and!. Qed.
Lemma same_config_trans (c c' c'' : GeneralCache RP) :
  same_config c c' → same_config c' c'' → same_config c c''.
Proof. intros (?&?&?&?&?&?&?) (?&?&?&?&?&?&?). split_and!; congruence. Qed.

Lemma stepped_refl W ci cd m h : stepped W ci cd m h ci cd m h.
Proof. constructor; try done; by left. Qed.

Lemma stepped_trans W ci cd m h ci1 cd1 m1 h1 ci2 cd2 m2 h2 :
  stepped W ci cd m h ci1 cd1 m1 h1 → stepped W ci1 cd1 m1 h1 ci2 cd2 m2 h2 →
  stepped W ci cd m h ci2 cd2 m2 h2.
Proof.
  intros [A1 A2 A3 A4 A5 A6 A7 A8] [B1 B2 B3 B4 B5 B6 B7 B8]. constructor.
  - by eapply same_config_trans.
  - by eapply same_config_trans.
  - by eapply same_shape_trans.
  - lia.
  - intros id Hf. destruct (A5 id Hf) as [Hf1 <-]. by apply B5.
  - auto.
  - intros r Hr. destruct (A7 r Hr) as [[Hr1 <-]|(Hn & Hf & Ha)]; [by apply B7|].
    right. destruct (B5 _ Hf) as [Hf' E]. split_and!; [auto | done | by rewrite E].
  - intros r Hr. destruct (A8 r Hr) as [[Hr1 <-]|[Hf Ha]]; [by apply B8|].
    right. destruct (B5 _ Hf) as [Hf' E]. split; [done | by rewrite E].
Qed.

Lemma client_own (c : GeneralCache RP) r : client_req c = Some r → own c (Req.id r).
Proof. unfold client_req. destruct (prefetch_in_flight c); [done|]. intros Hr. left. by exists r. Qed.

(** ** A tick of the instruction cache *)
Lemma tick_code ci cd m h W : shows ci cd m h W →
  ∃ ci' m' h', Cache.tick ci m h = Ret (ci', m', h') ∧ shows ci' cd m' h' W ∧
    stepped W ci cd m h ci' cd m' h'.
Proof.
  intros Hs. pose proof (sh_code _ _ _ _ _ Hs) as Hci. pose proof (sh_data _ _ _ _ _ Hs) as Hcd.
  destruct (cache_tick_spec (H3 := code_laws) ci m h Hci) as (ci' & m' & h' & E & Htk).
  exists ci', m', h'. pose proof (tick_effect _ _ _ _ _ _ (inv_pending _ _ _ Hci) E) as Hef.
  destruct (effect_exact ci m h ci' m' h' (sh_lower _ _ _ _ _ Hs) (λ r, code_sending ci m h r Hci) Hef)
    as (Hint & _ & Hv).
  pose proof Htk as [Hi' Hcf Hss Hvc Hst Hans _ _].
  assert (Hv' : ∀ a, d_view m' a = d_view m a).
  { destruct Hv as [->|(r & Hr & E')]; [done|]. intros a. rewrite (E' a I).
    pose proof (ro_trans _ (sh_read_only _ _ _ _ _ Hs) _ Hr) as Hro. cbn in Hro. by destruct r. }
  pose proof (inv_lower (H3 := code_laws) _ _ _ Hi') as Hlow'.
  destruct (undisturbed cd m h (own ci) m' h' Hcd Hlow' Hss (view_eq_everywhere _ _ Hv') Hint) as [Hcd' Hcc].
  { intros id Ho Ho'. by apply (sh_apart _ _ _ _ _ Hs id). }
  assert (Hfree : ∀ id, (id < next_id h)%nat → ¬ own ci' id → ¬ own cd id → ¬ d_owns m' id →
    free ci' cd m' h' id) by (intros id ????; destruct Hst; split_and!; [lia | done..]).
  split_and!; [done| |constructor; try done].
  2:{ apply Hst. }
  2:{ intros id (Hid & Hc & Hd & Hm). assert (Hno : ¬ owns ci m id) by (intros [?|?]%owns_cases; done).
      split; [|by eapply heap_step_get].
      pose proof (heap_step_owns _ _ _ _ _ Hst Hid Hno) as Hno'.
      apply Hfree; [done | | done |]; intros ?; apply Hno', owns_cases; [by left | by right]. }
  2:{ intros r Hr. left. split; [done|]. pose proof (client_own _ _ Hr) as Ho.
      eapply interferes_get; [exact Hcd | exact Hint | done |]. intros Ho'. by apply (sh_apart _ _ _ _ _ Hs _ Ho'). }
  2:{ intros r Hr. unfold answered in Hans. rewrite Hr in Hans. destruct Hans as [?|(_ & Hno & Han)]; [by left|right].
      pose proof (client_own _ _ Hr) as Ho. split.
      - apply Hfree; [by apply (own_bounded (H3 := code_laws) ci m h) | | by apply (sh_apart _ _ _ _ _ Hs) |];
          intros ?; apply Hno, owns_cases; [by left | by right].
      - eapply (answers_proper (RG := code)); [|reflexivity | exact Han]. intros a Hc. symmetry.
        by apply (sh_fetch _ _ _ _ _ Hs). }
  constructor; try apply Hs; try done.
  - by apply (ef_read_only _ _ _ _ _ _ Hef), Hs.
  - intros id Ho Hd. destruct (ef_own _ _ _ _ _ _ Hef id Ho) as [?|Hn].
    + by apply (sh_apart _ _ _ _ _ Hs id).
    + pose proof (own_bounded cd m h id Hcd Hd). lia.
  - intros a. rewrite (Hcc a I). apply Hs.
  - intros a Ha. etrans; [exact (Hvc a Ha)|]. by apply (sh_fetch _ _ _ _ _ Hs).
  - intros a Ha. rewrite Hv'. by apply (sh_below _ _ _ _ _ Hs).
Qed.

(** ** A tick of the data cache *)
Lemma tick_data ci cd m h W : shows ci cd m h W →
  ∃ cd' m' h', Cache.tick cd m h = Ret (cd', m', h') ∧ shows ci cd' m' h' W ∧
    stepped W ci cd m h ci cd' m' h'.
Proof.
  intros Hs. pose proof (sh_code _ _ _ _ _ Hs) as Hci. pose proof (sh_data _ _ _ _ _ Hs) as Hcd.
  destruct (cache_tick_spec cd m h Hcd) as (cd' & m' & h' & E & Htk).
  exists cd', m', h'. pose proof (tick_effect _ _ _ _ _ _ (inv_pending _ _ _ Hcd) E) as Hef.
  destruct (effect_exact cd m h cd' m' h' (sh_lower _ _ _ _ _ Hs) (λ r, data_sending cd m h r Hcd) Hef)
    as (Hint & _ & Hv).
  pose proof Htk as [Hi' Hcf Hss Hvc Hst Hans _ _].
  assert (Hv' : ∀ a, code a → d_view m' a = W a).
  { intros a Hc. destruct Hv as [->|(r & Hr & E')]; [by apply (sh_below _ _ _ _ _ Hs)|].
    rewrite (E' a I). rewrite <- (low_code _ _ _ _ _ _ Hs Hc). unfold low. by rewrite Hr. }
  assert (Hsame : @view_eq code (d_view m') (d_view m)).
  { intros a Hc. rewrite Hv' by done. symmetry. by apply (sh_below _ _ _ _ _ Hs). }
  destruct (undisturbed (H3 := code_laws) ci m h (own cd) m' h' Hci (inv_lower _ _ _ Hi') Hss Hsame Hint) as [Hci' Hcc].
  { apply Hs. }
  assert (Hfree : ∀ id, (id < next_id h)%nat → ¬ own ci id → ¬ own cd' id → ¬ d_owns m' id →
    free ci cd' m' h' id) by (intros id ????; destruct Hst; split_and!; [lia | done..]).
  split_and!; [done| |constructor; try done].
  2:{ apply Hst. }
  2:{ intros id (Hid & Hc & Hd & Hm). assert (Hno : ¬ owns cd m id) by (intros [?|?]%owns_cases; done).
      split; [|by eapply heap_step_get].
      pose proof (heap_step_owns _ _ _ _ _ Hst Hid Hno) as Hno'.
      apply Hfree; [done | done | |]; intros ?; apply Hno', owns_cases; [by left | by right]. }
  2:{ intros Hn. unfold answered in Hans. by rewrite Hn in Hans. }
  2:{ intros r Hr. unfold answered in Hans. rewrite Hr in Hans. destruct Hans as [?|(Hn & Hno & Han)]; [by left|right].
      pose proof (client_own _ _ Hr) as Ho. split_and!; [done| |].
      - apply Hfree; [by apply (own_bounded cd m h) | | |].
        + intros Ho'. by apply (sh_apart _ _ _ _ _ Hs _ Ho').
        + intros ?; apply Hno, owns_cases; by left.
        + intros ?; apply Hno, owns_cases; by right.
      - eapply answers_proper; [|reflexivity | exact Han]. intros a _. symmetry.
        by apply (sh_contents _ _ _ _ _ Hs). }
  2:{ intros r Hr. left. split; [done|]. pose proof (client_own _ _ Hr) as Ho.
      eapply (interferes_get (H3 := code_laws)); [exact Hci | exact Hint | done |]. by apply (sh_apart _ _ _ _ _ Hs). }
  constructor; try apply Hs; try done.
  - intros id Ho Hd. destruct (ef_own _ _ _ _ _ _ Hef id Hd) as [?|Hn].
    + by apply (sh_apart _ _ _ _ _ Hs id).
    + pose proof (own_bounded (H3 := code_laws) ci m h id Hci Ho). lia.
  - intros a. rewrite (Hvc a I). apply Hs.
  - intros a Hc. etrans; [exact (Hcc a Hc)|]. by apply (sh_fetch _ _ _ _ _ Hs).
  - intros r Hr. unfold answered in Hans. destruct (client_req cd) as [r0|] eqn:E0; [|congruence].
    destruct Hans as [[E1 _]|[E1 _]]; [|congruence]. rewrite E1 in Hr. injection Hr as <-.
    by apply (sh_spares _ _ _ _ _ Hs).
Qed.

(** ** The cycle below, and the whole cycle *)
Lemma cycle_below ci cd m h W : shows ci cd m h W →
  ∃ m' h', cycle m h = Ret (m', h') ∧ shows ci cd m' h' W ∧ stepped W ci cd m h ci cd m' h'.
Proof.
  intros Hs. pose proof (sh_code _ _ _ _ _ Hs) as Hci. pose proof (sh_data _ _ _ _ _ Hs) as Hcd.
  destruct (law_cycle m h (sh_lower _ _ _ _ _ Hs)) as (m' & h' & E & _ & _ & Hv & _).
  destruct (lower_cycle cd m h Hcd) as (m1 & h1 & E1 & Hcd' & Hss & Hcc & _ & Hst & _).
  rewrite E in E1. injection E1 as <- <-.
  destruct (lower_cycle (H3 := code_laws) ci m h Hci) as (m1 & h1 & E1 & Hci' & _ & Hfc & _).
  rewrite E in E1. injection E1 as <- <-.
  exists m', h'. split_and!; [done| |].
  - constructor; try apply Hs; try done.
    + intros a. rewrite (Hcc a I). apply Hs.
    + intros a Hc. etrans; [exact (Hfc a Hc)|]. by apply (sh_fetch _ _ _ _ _ Hs).
    + intros a Hc. rewrite (Hv a I). by apply (sh_below _ _ _ _ _ Hs).
  - assert (Hheld : ∀ id, (id < next_id h)%nat → ¬ d_owns m id → Heap.get h' id = Heap.get h id ∧ ¬ d_owns m' id).
    { intros id Hid Ho. split; [by eapply heap_step_get | by eapply heap_step_owns]. }
    constructor; try done; [by destruct Hst| | |].
    + intros id (Hid & ? & ? & Ho). destruct (Hheld id Hid Ho). destruct Hst. split; [|done].
      split_and!; [lia | done..].
    + intros r Hr. left. destruct (client_held cd m h r Hcd Hr). split; [done|]. by apply Hheld.
    + intros r Hr. left. destruct (client_held (H3 := code_laws) ci m h r Hci Hr). split; [done|]. by apply Hheld.
Qed.

Lemma caches_cycle ci cd m h W : shows ci cd m h W →
  ∃ ci' m1 h1 cd' m2 h2 m' h', Cache.tick ci m h = Ret (ci', m1, h1) ∧
    Cache.tick cd m1 h1 = Ret (cd', m2, h2) ∧ cycle m2 h2 = Ret (m', h') ∧
    shows ci' cd' m' h' W ∧ stepped W ci cd m h ci' cd' m' h'.
Proof.
  intros Hs. destruct (tick_code _ _ _ _ _ Hs) as (ci' & m1 & h1 & E1 & Hs1 & Hst1).
  destruct (tick_data _ _ _ _ _ Hs1) as (cd' & m2 & h2 & E2 & Hs2 & Hst2).
  destruct (cycle_below _ _ _ _ _ Hs2) as (m' & h' & E3 & Hs3 & Hst3).
  exists ci', m1, h1, cd', m2, h2, m', h'. split_and!; [done..|].
  eapply stepped_trans; [exact Hst1|]. by eapply stepped_trans.
Qed.

(** ** New cells *)
Lemma shows_grow ci cd m h h' W : shows ci cd m h W → (next_id h ≤ next_id h')%nat →
  (∀ id, (id < next_id h)%nat → Heap.get h' id = Heap.get h id) →
  shows ci cd m h' W ∧ stepped W ci cd m h ci cd m h' ∧
  ∀ id, (next_id h ≤ id < next_id h')%nat → free ci cd m h' id.
Proof.
  intros Hs Hn Hk. pose proof (sh_code _ _ _ _ _ Hs) as Hci. pose proof (sh_data _ _ _ _ _ Hs) as Hcd.
  split_and!.
  - constructor; try apply Hs.
    + apply (inv_frame cd m h); [done..|]. intros id Ho. apply Hk. by apply (owns_bounded cd m h).
    + apply (inv_frame (H3 := code_laws) ci m h); [done..|]. intros id Ho. apply Hk.
      by apply (owns_bounded (H3 := code_laws) ci m h).
  - constructor; try done.
    + intros id (Hid & ? & ? & ?). split; [|by apply Hk]. split_and!; [lia | done..].
    + intros r Hr. left. split; [done|]. apply Hk. by apply (client_held cd m h).
    + intros r Hr. left. split; [done|]. apply Hk. by apply (client_held (H3 := code_laws) ci m h).
  - intros id [Hid Hid']. split_and!; [done| | |]; intros Ho.
    + pose proof (own_bounded (H3 := code_laws) ci m h id Hci Ho). lia.
    + pose proof (own_bounded cd m h id Hcd Ho). lia.
    + pose proof (law_owned m h id (sh_lower _ _ _ _ _ Hs) Ho). lia.
Qed.

(** ** Registration *)
Lemma own_accept (c : GeneralCache RP) r id : own (accept r c) id ↔ id = Req.id r.
Proof. apply own_lookup. done. Qed.
Lemma own_idle (c : GeneralCache RP) id : fsm c = Idle → ¬ own c id.
Proof. unfold own, current, trans. intros ->. naive_solver. Qed.

Lemma register_code ci cd m h W r : shows ci cd m h W → served ci m r → Req.is_store r = false →
  free ci cd m h (Req.id r) ∨ client_req ci = Some r →
  (Cache.try_register_req ci m r h = Ret (Err tt, ci, m, h)) ∨
  ∃ ci' m' h', Cache.try_register_req ci m r h = Ret (Ok tt, ci', m', h') ∧
    fsm ci = Idle ∧ client_req (accept r ci) = Some r ∧
    shows ci' cd m' h' W ∧ stepped W (accept r ci) cd m h ci' cd m' h'.
Proof.
  intros Hs Hr Hld Hfree. pose proof (sh_code _ _ _ _ _ Hs) as Hci.
  destruct (idle_cases ci) as [Hf|Hf].
  2:{ left. by destruct (register_busy (H3 := code_laws) ci m h r Hci Hf Hr). }
  right. destruct Hfree as [(Hid & Ho & Hod & Hom)|Hc].
  2:{ unfold client_req, current in Hc. rewrite Hf in Hc. by destruct (prefetch_in_flight ci). }
  destruct (accept_inv (H3 := code_laws) ci m h r Hci Hf Hr Hid) as (Hci1 & Hv & Hcl).
  { intros [?|?]%(owns_cases (H3 := code_laws)); done. }
  assert (Hs1 : shows (accept r ci) cd m h W).
  { constructor; try apply Hs; try done.
    - destruct (sh_read_only _ _ _ _ _ Hs) as [H1' _ _]. constructor; [done| |done].
      unfold current. cbn. by intros ? [= <-].
    - intros id ->%own_accept. done.
    - intros a Ha. etrans; [exact (f_equal (λ f : view, f a) Hv)|]. destruct r; [|done].
      by apply (sh_fetch _ _ _ _ _ Hs). }
  destruct (tick_code _ _ _ _ _ Hs1) as (ci' & m' & h' & E & Hs' & Hst).
  exists ci', m', h'. split_and!; try done.
  by rewrite (try_accept (H3 := code_laws) ci m h r), E.
Qed.

Lemma register_data ci cd m h W r : shows ci cd m h W → served cd m r → spares r →
  free ci cd m h (Req.id r) →
  (Cache.try_register_req cd m r h = Ret (Err tt, cd, m, h)) ∨
  ∃ cd' m' h', Cache.try_register_req cd m r h = Ret (Ok tt, cd', m', h') ∧
    fsm cd = Idle ∧ client_req (accept r cd) = Some r ∧
    shows ci cd' m' h' (view_apply r W) ∧ stepped (view_apply r W) ci (accept r cd) m h ci cd' m' h'.
Proof.
  intros Hs Hr Hsp (Hid & Ho & Hod & Hom). pose proof (sh_data _ _ _ _ _ Hs) as Hcd.
  destruct (idle_cases cd) as [Hf|Hf].
  2:{ left. by destruct (register_busy cd m h r Hcd Hf Hr). }
  right. destruct (accept_inv cd m h r Hcd Hf Hr Hid) as (Hcd1 & Hv & Hcl).
  { intros [?|?]%owns_cases; done. }
  assert (Hcode : ∀ a, code a → view_apply r W a = W a).
  { intros a Ha. destruct r as [x|x]; [done|]. cbn. unfold view_write. apply decide_False. by apply Hsp. }
  assert (Hs1 : shows ci (accept r cd) m h (view_apply r W)).
  { constructor; try apply Hs; try done.
    - intros id Hi ->%own_accept. done.
    - intros a. rewrite Hv. apply view_apply_proper; [|done]. intros b _. by apply (sh_contents _ _ _ _ _ Hs).
    - intros a Ha. rewrite Hcode by done. by apply (sh_fetch _ _ _ _ _ Hs).
    - intros a Ha. rewrite Hcode by done. by apply (sh_below _ _ _ _ _ Hs).
    - intros r' Hr'. rewrite Hcl in Hr'. by injection Hr' as <-. }
  destruct (tick_data _ _ _ _ _ Hs1) as (cd' & m' & h' & E & Hs' & Hst).
  exists cd', m', h'. split_and!; try done.
  by rewrite (try_accept cd m h r), E.
Qed.
End shared.
