(* ===== verification/CacheWaits.v ===== *)
(** How long the clients of two caches over a shared next level wait.

    A cache alone is free within [busy] cycles ([CacheRefinement.v]).  When two caches share
    their next level, either can find it taken by the other.  The instruction cache ticks
    first, so it waits for one request of the data cache at most; the data cache can be
    overtaken, but only once, since after the answer the instruction cache lets a tick pass.
    The waits below count this in, and [caches_wait] shows that they decrease in every
    cycle, for both caches at once. *)
From S2P Require Import Prelude Word AbstractMem ReplacementPolicy CacheConfig CacheSet LowerMemory GeneralCache CacheAddress Device CacheView CacheRefinement CacheDevice SharedCache.
From stdpp Require Import base gmap numbers sets list strings.
From Stdlib Require Import Lia.
#[local] Open Scope Z_scope.
#[local] Coercion Z.of_nat : nat >-> Z.

#[export] Instance MemoryLoadReq_eq_dec : EqDecision MemoryLoadReq.
Proof. solve_decision. Defined.
#[export] Instance MemoryStoreReq_eq_dec : EqDecision MemoryStoreReq.
Proof. solve_decision. Defined.
#[export] Instance MemoryReqType_eq_dec : EqDecision MemoryReqType.
Proof. solve_decision. Defined.

(** * The stages of a request in a cache *)

Section stages.
Context `{Profile} {RP : Type} `{ReplacementPolicy RP}.
Implicit Types (c : GeneralCache RP) (h : heap).

(** how many of the states of the controller are still ahead of it *)
Definition stage c : nat :=
  match fsm c with
  | Idle => 0
  | WriteThroughCommit _ _ | WriteAround _ _ => 1
  | GeneralCache.Lookup r => if is_hit c r then 2 else 6 + miss_penalty c
  | AdditionalMissPenalty n => 3 + n
  | Allocate _ _ => 4 + miss_penalty c
  | WriteBack _ _ => 5 + miss_penalty c
  end.

(** the lookup leaves a transaction that is not yet sent, if any *)
Definition unsent c : Prop := ∀ t, trans c = Some t → ∃ r, t = Sending r.

Lemma unsent_none c : trans c = None → unsent c.
Proof. by intros E t; rewrite E. Qed.

Lemma count_store_prefetch miss c : prefetch_in_flight (Cache.count_store miss c) = prefetch_in_flight c.
Proof. unfold Cache.count_store. by destruct (prefetch_in_flight c) eqn:E. Qed.
Lemma count_load_prefetch miss c : prefetch_in_flight (Cache.count_load miss c) = prefetch_in_flight c.
Proof. unfold Cache.count_load. by destruct (prefetch_in_flight c) eqn:E. Qed.

Lemma lookup_hit_unsent c r i w o h c' h' : Cache.lookup_hit c r i w o h = Ret (c', h') →
  unsent c' ∧ prefetch_in_flight c' = prefetch_in_flight c.
Proof.
  unfold Cache.lookup_hit. intros E. apply bind_inv in E as (s & _ & E).
  apply bind_inv in E as ([d s1] & _ & E). destruct r as [x|x].
  - apply bind_inv in E as (d1 & _ & E). apply bind_inv in E as (h1 & _ & E).
    apply bind_inv in E as (c1 & Ec & [= <- <-]). apply set_way_clean in Ec as [-> _].
    split; [by apply unsent_none|]. cbn. by rewrite count_load_prefetch.
  - apply bind_inv in E as (b & _ & E). destruct (Policy.is_write_through _).
    + apply bind_inv in E as (s2 & _ & E). apply bind_inv in E as (c1 & Ec & E).
      apply set_way_clean in Ec as [-> _]. destruct (Req.store _ _ h) as [rr h2]. injection E as <- <-.
      split; [intros t [= <-]; by eexists|]. cbn. by rewrite count_store_prefetch.
    + apply bind_inv in E as (s2 & _ & E). apply bind_inv in E as (c1 & Ec & [= <- <-]).
      apply set_way_clean in Ec as [-> _]. split; [by apply unsent_none|]. cbn. by rewrite count_store_prefetch.
Qed.

Lemma lookup_miss_unsent c r t i need w h c' h' : Cache.lookup_miss c r t i need w h = Ret (c', h') →
  unsent c' ∧ prefetch_in_flight c' = prefetch_in_flight c.
Proof.
  unfold Cache.lookup_miss. intros E. set (c0 := if Req.is_store r then _ else _) in E.
  assert (prefetch_in_flight c0 = prefetch_in_flight c) as <-.
  { subst c0. destruct (Req.is_store r); [apply count_store_prefetch | apply count_load_prefetch]. }
  clearbody c0. assert (Hsent : ∀ c1 r1, trans c1 = Some (LowerMemory.new r1) → unsent c1)
    by (intros c1 r1 E1 t1; rewrite E1; intros [= <-]; by eexists).
  destruct (Req.is_store r && _).
  - apply bind_inv in E as (d & _ & E). destruct (Req.store _ _ h) as [rr h2]. injection E as <- <-.
    split; [by apply (Hsent _ rr) | done].
  - destruct need.
    + apply bind_inv in E as (s & _ & E). apply bind_inv in E as (t0 & _ & E).
      apply bind_inv in E as (a & _ & E). apply bind_inv in E as ([d s1] & _ & E).
      apply bind_inv in E as (c1 & Ec & E). apply set_way_clean in Ec as [-> _].
      destruct (Req.store _ _ h) as [rr h2]. injection E as <- <-. split; [by apply (Hsent _ rr) | done].
    + apply bind_inv in E as (a & _ & E). apply bind_inv in E as (n & _ & E).
      destruct (Req.load _ _ h) as [rr h2]. injection E as <- <-. split; [by apply (Hsent _ rr) | done].
Qed.

Lemma lookup_unsent c r h c' h' : Cache.lookup c r h = Ret (c', h') →
  unsent c' ∧ (prefetch_in_flight c = false → prefetch_in_flight c' = false).
Proof.
  unfold Cache.lookup. intros E. apply bind_inv in E as ([[t i] o] & _ & E).
  apply bind_inv in E as (s & _ & E). apply bind_inv in E as ([[res s1] g] & _ & E).
  apply bind_inv in E as (c1 & Ec & E). apply set_way_clean in Ec as [-> _].
  apply bind_inv in E as ([c2 h2] & Eh & E).
  assert (Hc2 : unsent c2 ∧ prefetch_in_flight c2 = prefetch_in_flight c).
  { destruct res as [w|[need w]]; [by apply lookup_hit_unsent in Eh | by apply lookup_miss_unsent in Eh]. }
  destruct Hc2 as [Hu Hp].
  destruct (prefetch_in_flight c); [|apply bind_inv in E as (l & _ & E)]; injection E as <- <-.
  - by destruct res.
  - done.
Qed.
End stages.

Section tick.
Context `{Profile} {RP : Type} `{ReplacementLaws RP} {M : Type} `{DeviceLaws M}.
Implicit Types (c : GeneralCache RP) (m : M) (h : heap) (r : MemoryReqType).

(** the controller moves on, after the answer of the next level if it asked for one *)
Definition moves c m h c' m' : Prop := (stage c' < stage c)%nat ∧ m' = m ∧ unsent c' ∧
  ∀ t, trans c = Some t → ∃ r, t = Waiting r ∧ Req.is_done r h = true.
(** or it polls the next level *)
Definition polls c m h c' m' h' : Prop := ∃ t t', trans c = Some t ∧ trans c' = Some t' ∧
  stage c' = stage c ∧ LowerMemory.progress t m h = Ret (false, t', m', h').

Lemma progress_fin t m h t' m' h' : LowerMemory.progress t m h = Ret (true, t', m', h') →
  m' = m ∧ ∃ r, t = Waiting r ∧ Req.is_done r h = true.
Proof.
  destruct t as [r|r]; cbn; [|by intros [= Hd _ <- _]; eauto].
  intros E. by apply bind_inv in E as ([[res m1] h1] & _ & [=]).
Qed.

Lemma commit_moves c m h state t r c' m' h' : commit_state state r → fsm c = state t →
  Cache.commit c state t r m h = Ret (c', m', h') → moves c m h c' m' ∨ polls c m h c' m' h'.
Proof.
  intros Hs Hf E. assert (Ht : trans c = Some t ∧ stage c = 1%nat).
  { unfold trans, stage. rewrite Hf. by destruct Hs as [->| ->]. }
  destruct Ht as [Ht Es]. unfold Cache.commit in E. apply bind_inv in E as ([[[fin t'] m1] h1] & Ep & E).
  destruct fin.
  - pose proof (progress_fin _ _ _ _ _ _ Ep) as [-> Hd]. apply bind_inv in E as (h2 & _ & [= <- <- <-]). left.
    split_and!; [rewrite Es; cbn; lia | done | by apply unsent_none |].
    rewrite Ht. by intros ? [= <-].
  - injection E as <- <- <-. right. exists t, t'. split_and!; try done; rewrite ?Es; by destruct Hs as [->| ->].
Qed.

(** what a tick of a busy cache does *)
Lemma tick_moves c m h c' m' h' : inv c m h → fsm c ≠ Idle → Cache.tick c m h = Ret (c', m', h') →
  moves c m h c' m' ∨ polls c m h c' m' h'.
Proof.
  intros Hinv Hn E. destruct (cache_tick_spec c m h Hinv) as (c1 & m1 & h1 & E' & Htk).
  rewrite E in E'. injection E' as <- <- <-. pose proof Htk as [Hinv' (_ & _ & _ & Epen & _) Hss _ _ _ _ Hbusy].
  assert (Hb : (busy_after c' m' < busy c m)%nat).
  { destruct Hbusy as [Hb|?]; [|done]. pose proof (busy_pos c m Hn). lia. }
  pose proof (inv_phase _ _ _ Hinv') as Hph'.
  assert (Hpos : ∀ t, (0 < tx_after t m')%nat).
  { intros t. unfold tx_after. destruct t; repeat case_match; lia. }
  unfold Cache.tick in E. destruct (fsm c) as [|r|t w|t w|[|n]|t r|t r] eqn:Hf; [done|..].
  - left. apply bind_inv in E as ([c2 h2] & El & [= <- <- <-]). destruct (lookup_unsent _ _ _ _ _ El) as [Hu _].
    split_and!; [|done|done|unfold trans; by rewrite Hf]. unfold busy, busy_after, busy_with, refill_cost, hit_cost in Hb. rewrite Hf in Hb.
    unfold stage. rewrite Hf, Epen. unfold phase_ok in Hph'. rewrite Epen in *.
    destruct (is_hit c r), (fsm c2) as [|r'|t' w'|t' w'|n'|t' r'|t' r']; try lia;
      first [ destruct (is_hit c2 r'); lia | destruct Hph'; lia
            | pose proof (Hpos t'); lia ].
  - unfold Cache.write_back in E. apply bind_inv in E as ([[[fin t'] m1] h1] & Ep & E). destruct fin.
    + pose proof (progress_fin _ _ _ _ _ _ Ep) as [-> Hd]. apply bind_inv in E as (b & _ & E).
      apply bind_inv in E as (a & _ & E). apply bind_inv in E as (n & _ & E).
      destruct (Req.load _ _ h1) as [rr h2]. injection E as <- <- <-. left.
      split_and!; [unfold stage; rewrite Hf; cbn; lia | done | intros t0 [= <-]; by eexists |].
      unfold trans. rewrite Hf. by intros ? [= <-].
    + injection E as <- <- <-. right. exists t, t'. unfold trans, stage. rewrite Hf. by split_and!.
  - unfold Cache.allocate in E. apply bind_inv in E as ([[[fin t'] m1] h1] & Ep & E). destruct fin.
    + pose proof (progress_fin _ _ _ _ _ _ Ep) as [-> Hd]. apply bind_inv in E as (d & _ & E).
      apply bind_inv in E as (b & _ & E). apply bind_inv in E as ([[t0 i] o] & _ & E).
      apply bind_inv in E as (s & _ & E). apply bind_inv in E as (s1 & _ & E).
      apply bind_inv in E as (c1 & Ec & [= <- <- <-]). apply set_way_clean in Ec as [-> _]. left.
      split_and!; [unfold stage; rewrite Hf; cbn; lia | done | by apply unsent_none |].
      unfold trans. rewrite Hf. by intros ? [= <-].
    + injection E as <- <- <-. right. exists t, t'. unfold trans, stage. rewrite Hf. by split_and!.
  - left. apply bind_inv in E as (r & _ & [= <- <- <-]). split_and!; [|done | by apply unsent_none | unfold trans; by rewrite Hf].
    unfold busy, busy_after, busy_with, refill_cost, hit_cost in Hb. rewrite Hf in Hb. unfold stage. rewrite Hf.
    cbn in Hb |- *. destruct (is_hit _ r); lia.
  - left. injection E as <- <- <-. split_and!; [unfold stage; rewrite Hf; cbn; lia | done | by apply unsent_none |].
    unfold trans. by rewrite Hf.
  - apply (commit_moves c m h (λ t, WriteThroughCommit t r) t r); [by left | done..].
  - apply (commit_moves c m h (λ t, WriteAround t r) t r); [by right | done..].
Qed.

(** a cache that is not busy may start a prefetch *)
Lemma idle_tick c m h c' m' h' : fsm c = Idle → pending_req c = None →
  Cache.tick c m h = Ret (c', m', h') → m' = m ∧ trans c' = None.
Proof.
  unfold Cache.tick, Cache.idle. intros Hf Hp. rewrite Hf, Hp.
  destruct (prefetch_in_flight c); [|destruct (prefetch_queue c)];
    try (intros [= <- <- _]; split; [done | unfold trans; by rewrite Hf]).
  destruct (Req.load _ _ h) as [rr h1]. by intros [= <- <- _].
Qed.

(** a request that is not a prefetch does not become one *)
Lemma tick_prefetch c m h c' m' h' : fsm c ≠ Idle → prefetch_in_flight c = false →
  Cache.tick c m h = Ret (c', m', h') → prefetch_in_flight c' = false.
Proof.
  intros Hn Hp E. unfold Cache.tick in E. destruct (fsm c) as [|r|t w|t w|[|n]|t r|t r]; [done|..].
  - apply bind_inv in E as ([c2 h2] & El & [= <- <- <-]). by apply lookup_unsent in El as [_ Hl]; apply Hl.
  - unfold Cache.write_back in E. apply bind_inv in E as ([[[fin t'] m1] h1] & _ & E).
    destruct fin; [|by injection E as <- _ _]. apply bind_inv in E as (b & _ & E).
    apply bind_inv in E as (a & _ & E). apply bind_inv in E as (n & _ & E).
    destruct (Req.load _ _ h1) as [rr h2]. by injection E as <- _ _.
  - unfold Cache.allocate in E. apply bind_inv in E as ([[[fin t'] m1] h1] & _ & E).
    destruct fin; [|by injection E as <- _ _]. apply bind_inv in E as (d & _ & E).
    apply bind_inv in E as (b & _ & E). apply bind_inv in E as ([[t0 i] o] & _ & E).
    apply bind_inv in E as (s & _ & E). apply bind_inv in E as (s1 & _ & E).
    apply bind_inv in E as (c1 & Ec & [= <- _ _]). by apply set_way_clean in Ec as [-> _].
  - by apply bind_inv in E as (r & _ & [= <- _ _]).
  - by injection E as <- _ _.
  - unfold Cache.commit in E. apply bind_inv in E as ([[[fin t'] m1] h1] & _ & E).
    destruct fin; [|by injection E as <- _ _]. by apply bind_inv in E as (h2 & _ & [= <- _ _]).
  - unfold Cache.commit in E. apply bind_inv in E as ([[[fin t'] m1] h1] & _ & E).
    destruct fin; [|by injection E as <- _ _]. by apply bind_inv in E as (h2 & _ & [= <- _ _]).
Qed.

Lemma stage_bound c m h : inv c m h → (stage c ≤ 6 + miss_penalty c)%nat.
Proof.
  intros Hinv. pose proof (inv_phase _ _ _ Hinv) as Hp. unfold phase_ok, stage in *.
  destruct (fsm c); try lia. destruct (is_hit c req); lia.
Qed.
End tick.

(** * Prompt devices *)

(** a device that accepts only when it is free, and is free as soon as it has answered *)
Class PromptLaws (D : Type) `{DeviceLaws D} : Prop := {
  prompt_accepts d h r d' h' : d_inv d h → accepts d r →
    (Req.id r < next_id h)%nat → done (Heap.get h (Req.id r)) = false → ¬ d_owns d (Req.id r) →
    try_register_req d r h = Ret (Ok tt, d', h') → d_busy d = 0%nat ∧ (d_cur d' = None → d_busy d' = 0%nat);
  prompt_answers d h r d' h' : d_inv d h → d_cur d = Some r → cycle d h = Ret (d', h') →
    d_cur d' = None → d_busy d' = 0%nat;
}.

Section prompt.
Context `{Profile} {RP : Type} `{ReplacementLaws RP} {M : Type} `{DeviceLaws M}.
Implicit Types (c : GeneralCache RP) (m : M) (h : heap) (r : MemoryReqType).

Lemma idle_busy c m : fsm c = Idle → busy c m = 0%nat.
Proof. unfold busy, busy_with. by intros ->. Qed.

(** a cache that has answered its client is idle *)
Lemma answered_idle c m h c' m' h' r : inv c m h → client_req c = Some r →
  Cache.tick c m h = Ret (c', m', h') → inv c' m' h' → client_req c' = None → fsm c' = Idle.
Proof.
  intros Hinv Hr E Hinv' Hn. unfold client_req in *.
  destruct (prefetch_in_flight c) eqn:Hp; [done|].
  rewrite (tick_prefetch c m h c' m' h') in Hn; [by apply (current_idle c' m' h') | | done | exact E].
  intros Hf. unfold current in Hr. by rewrite Hf in Hr.
Qed.

#[export] Instance Cache_prompt : PromptLaws (GeneralCache RP * M).
Proof.
  constructor.
  - intros [c m] h r [c' m'] h' (Hinv & _ & _) Ha Hid _ Ho E. cbn [fst snd] in *.
    cbn in E. apply bind_inv in E as ([[[res c1] m1] h1] & E & [= -> -> -> ->]).
    destruct (idle_cases c) as [Hf|Hf].
    2:{ destruct (register_busy c m h r Hinv Hf Ha) as [E' _]. rewrite E' in E. done. }
    split; [by apply idle_busy|]. intros Hn.
    destruct (accept_inv c m h r Hinv Hf Ha Hid Ho) as (Hinv1 & _ & Hcl).
    rewrite (try_accept c m h r Hinv Hf Ha) in E. apply bind_inv in E as ([[c2 m2] h2] & E & [= <- <- <-]).
    destruct (cache_tick_spec _ m h Hinv1) as (c3 & m3 & h3 & E3 & Htk). rewrite E in E3. injection E3 as <- <- <-.
    apply idle_busy. eapply (answered_idle (accept r c) m h); [done | done | exact E | apply Htk | done].
  - intros [c m] h r [c' m'] h' (Hinv & _ & _) Hr E Hn. cbn [fst snd] in *.
    cbn in E. unfold tick, Cache_Clocked in E. cbn [fst snd] in E.
    apply bind_inv in E as ([[c1 m1] h1] & E & E2). apply bind_inv in E as ([[c2 m2] h2] & E & [= <- <- <-]).
    apply bind_inv in E2 as ([m3 h3] & _ & [= <- <- <-]).
    destruct (cache_tick_spec c m h Hinv) as (c3 & m4 & h4 & E3 & Htk). rewrite E in E3. injection E3 as <- <- <-.
    apply idle_busy. eapply (answered_idle c m h); [done | done | exact E | apply Htk | done].
Qed.
End prompt.

(** * Two caches over a prompt device *)

Section shared.
Context `{Profile} {RP : Type} `{ReplacementLaws RP} {M : Type} `{Device M}.
Context {L : DeviceLaws (RG := everywhere) M} {PL : PromptLaws (RG := everywhere) M}.
Context (code : Region).
#[local] Existing Instance everywhere.
Implicit Types (ci cd : GeneralCache RP) (m : M) (h : heap).

Abbreviation code_laws := (restrict code (L := L)).

(** ** Waits *)

(** a transaction with the next level; [late] is how long others may keep it from being sent *)
Definition tx_wait (late : nat) (t : LowerMemoryTransaction) m : nat :=
  match t with
  | Waiting r => if bool_decide (d_cur m = Some r) then d_busy m + 2 else 1
  | Sending _ => late + d_busy m + 1
  end.

(** the instruction cache will not send in the next cycle, and the next level will then be
  free for the data cache *)
Definition yields ci m : bool :=
  match trans ci with
  | Some (Waiting r) => bool_decide (d_cur m = Some r) || (d_busy m =? 0)%nat
  | _ => false
  end.
Definition late_code m : nat := d_bound m + 3.
Definition late_data ci m : nat := if yields ci m then d_bound m + 3 else 2 * (d_bound m + 3).
Definition tx_wait_bound m : nat := 3 * d_bound m + 8.

Definition wait_with (late : nat) (c : GeneralCache RP) m : nat :=
  stage c * tx_wait_bound m + match trans c with Some t => tx_wait late t m | None => 0 end.
Definition code_wait ci m : nat := wait_with (late_code m) ci m.
Definition data_wait ci cd m : nat := wait_with (late_data ci m) cd m.
Definition wait_bound (c : GeneralCache RP) m : nat := (7 + miss_penalty c) * tx_wait_bound m.

Lemma tx_wait_lt late t m h : d_inv m h → (late ≤ 2 * (d_bound m + 3))%nat →
  (tx_wait late t m < tx_wait_bound m)%nat.
Proof using Type.
  intros Hi Hl. pose proof (law_bound m h Hi). unfold tx_wait, tx_wait_bound.
  destruct t; [lia|]. case_bool_decide; lia.
Qed.

Lemma late_data_le ci m : (d_bound m + 3 ≤ late_data ci m ≤ 2 * (d_bound m + 3))%nat.
Proof using Type. unfold late_data. destruct (yields ci m); lia. Qed.

(** the wait of a cache that has moved on *)
Lemma moved_wait late late' c c' m m' h' k : d_inv m' h' → d_bound m' = d_bound m →
  (late' ≤ 2 * (d_bound m + 3))%nat → (stage c' < stage c)%nat → k = wait_with late c m →
  (wait_with late' c' m' < k)%nat.
Proof using Type.
  intros Hi Eb Hl Hs ->. unfold wait_with.
  assert (Ebb : tx_wait_bound m' = tx_wait_bound m) by (unfold tx_wait_bound; by rewrite Eb).
  assert (Ht : (match trans c' with Some t => tx_wait late' t m' | None => 0 end < tx_wait_bound m)%nat).
  { rewrite <- Ebb. destruct (trans c') as [t|]; [|unfold tx_wait_bound; lia].
    eapply tx_wait_lt; [exact Hi | by rewrite Eb]. }
  rewrite Ebb. nia.
Qed.

Lemma wait_with_bound late c m h : d_inv m h → (late ≤ 2 * (d_bound m + 3))%nat →
  (stage c ≤ 6 + miss_penalty c)%nat → (wait_with late c m < wait_bound c m)%nat.
Proof using Type.
  intros Hi Hl Hs. unfold wait_with, wait_bound.
  assert (Ht : (match trans c with Some t => tx_wait late t m | None => 0 end < tx_wait_bound m)%nat).
  { destruct (trans c) as [t|]; [by eapply tx_wait_lt | unfold tx_wait_bound; lia]. }
  nia.
Qed.

(** ** What happens to the next level *)

(** a transaction as the invariant of its cache describes it *)
Definition tx_fine t m h : Prop :=
  match t with
  | Sending r => live r h ∧ ¬ d_owns m (Req.id r) ∧ accepts m r
  | Waiting r => d_cur m = Some r ∨ done (Heap.get h (Req.id r)) = true
  end.

Lemma data_fine cd m h t : inv cd m h → trans cd = Some t → tx_fine t m h.
Proof using Type.
  intros Hinv Ht. destruct (trans_ok cd m h t Hinv Ht) as [Hok _]. destruct t as [r|r]; [done|].
  destruct Hok as [?|(_ & _ & Ha)]; [by left | right; by eapply answers_done].
Qed.
Lemma code_fine ci m h t : @inv RP _ _ M code _ code_laws ci m h → trans ci = Some t → tx_fine t m h.
Proof using Type.
  intros Hinv Ht. destruct (trans_ok (H3 := code_laws) ci m h t Hinv Ht) as [Hok _]. destruct t as [r|r]; [done|].
  destruct Hok as [?|(_ & _ & Ha)]; [by left | right; by eapply (answers_done (RG := code))].
Qed.

(** the outcomes of a poll *)
Definition refused t m t' m' : Prop := (∃ r, t = Sending r) ∧ t' = t ∧ m' = m ∧ (0 < d_busy m)%nat.
Definition accepted t m t' m' : Prop := ∃ r, t = Sending r ∧ t' = Waiting r ∧ d_busy m = 0%nat ∧
  d_cur m = None ∧ (d_cur m' = Some r ∨ d_cur m' = None ∧ d_busy m' = 0%nat).
Definition in_flight t m t' m' : Prop := ∃ r, t = Waiting r ∧ t' = t ∧ m' = m ∧ d_cur m = Some r.

Lemma poll_cases t t' m h m' h' : d_inv m h → tx_fine t m h →
  LowerMemory.progress t m h = Ret (false, t', m', h') →
  refused t m t' m' ∨ accepted t m t' m' ∨ in_flight t m t' m'.
Proof using PL.
  intros Hi Ht E. destruct t as [r|r]; cbn in E.
  - destruct Ht as ([Hid Hd] & Ho & Ha). apply bind_inv in E as ([[res m1] h1] & Et & E).
    destruct (law_try m h r Hi Ha Hid Hd Ho) as (res' & m2 & h2 & Et' & Hres).
    rewrite Et in Et'. injection Et' as <- <- <-. destruct res as [[]|[]]; injection E as <- <- <-.
    + right; left. destruct Hres as (Hc & _ & _ & _ & _ & Hcur).
      destruct (prompt_accepts m h r m1 h1 Hi Ha Hid Hd Ho Et) as [Hb Hb'].
      exists r. split_and!; try done. destruct Hcur as [?|[? _]]; [by left | right; auto].
    + left. destruct Hres as (-> & _ & ?). split_and!; [by eexists | done..].
  - injection E as Hd <- <- <-. rewrite is_done_get in Hd. right; right. exists r. split_and!; try done.
    by destruct Ht as [?|?]; [|congruence].
Qed.

Lemma cycle_busy m h m' h' : d_inv m h → cycle m h = Ret (m', h') → (0 < d_busy m)%nat ∨ is_Some (d_cur m) →
  (d_cur m' = d_cur m ∧ (d_busy m' < d_busy m)%nat) ∨ (is_Some (d_cur m) ∧ d_cur m' = None ∧ d_busy m' = 0%nat).
Proof using PL.
  intros Hi E Hb. destruct (law_cycle m h Hi) as (m1 & h1 & E1 & _ & _ & _ & _ & Hcur).
  rewrite E in E1. injection E1 as <- <-. destruct (d_cur m) as [r|] eqn:Hc.
  - destruct Hcur as [?|[Hn _]]; [by left | right]. split_and!; [done..|]. by eapply prompt_answers.
  - left. destruct Hcur as [? [?|?]]; [|done]. destruct Hb as [?|[? [=]]]. lia.
Qed.

(** a busy next level is left alone by a tick *)
Lemma data_tick_busy cd m h cd' m' h' : inv cd m h → Cache.tick cd m h = Ret (cd', m', h') →
  (0 < d_busy m)%nat ∨ is_Some (d_cur m) → m' = m.
Proof using PL.
  intros Hinv E Hb. destruct (idle_cases cd) as [Hf|Hf].
  { by apply (idle_tick cd m h cd' m' h' Hf (inv_pending _ _ _ Hinv)). }
  destruct (tick_moves cd m h cd' m' h' Hinv Hf E) as [(_ & -> & _)|(t & t' & Ht & _ & _ & Ep)]; [done|].
  destruct (poll_cases t t' m h m' h' (inv_lower _ _ _ Hinv) (data_fine cd m h t Hinv Ht) Ep)
    as [(_ & _ & -> & _)|[(r & _ & _ & ? & Hc & _)|(r & _ & _ & -> & _)]]; [done| |done].
  rewrite Hc in Hb. destruct Hb as [?|[? [=]]]. lia.
Qed.

(** the instruction cache keeps waiting while its request is in flight *)
Lemma code_tick_waits ci m h ci' m' h' r : @inv RP _ _ M code _ code_laws ci m h →
  Cache.tick ci m h = Ret (ci', m', h') → trans ci = Some (Waiting r) → d_cur m = Some r →
  m' = m ∧ trans ci' = Some (Waiting r).
Proof using Type.
  intros Hinv E Ht Hc. assert (Hf : fsm ci ≠ Idle) by (intros Hf; unfold trans in Ht; by rewrite Hf in Ht).
  destruct (law_cur m h r (inv_lower (H3 := code_laws) _ _ _ Hinv) Hc) as [_ Hd].
  destruct (tick_moves (H3 := code_laws) ci m h ci' m' h' Hinv Hf E) as [(_ & -> & _ & Hm)|(t & t' & Ht0 & Ht' & _ & Ep)].
  - destruct (Hm _ Ht) as (r' & [= <-] & Hd'). rewrite is_done_get in Hd'. congruence.
  - rewrite Ht in Ht0. injection Ht0 as <-. cbn in Ep. injection Ep as _ <- <- _. done.
Qed.

(** ** The waits decrease *)

Lemma bound_same m m' : same_shape m m' → d_bound m' = d_bound m.
Proof using Type. by intros (? & _). Qed.

(** a transaction that is still in the next level *)
Lemma flight_wait late late' r m m' : d_cur m = Some r →
  (d_cur m' = d_cur m ∧ (d_busy m' < d_busy m)%nat) ∨ (is_Some (d_cur m) ∧ d_cur m' = None ∧ d_busy m' = 0%nat) →
  (tx_wait late' (Waiting r) m' < tx_wait late (Waiting r) m)%nat.
Proof using Type.
  intros Hc [[Hc' ?]|(_ & Hc' & _)]; unfold tx_wait; rewrite Hc', Hc; repeat case_bool_decide; try congruence; lia.
Qed.

Lemma polled_wait late late' (c c' : GeneralCache RP) t t' m m' : trans c = Some t → trans c' = Some t' →
  stage c' = stage c → d_bound m' = d_bound m →
  (tx_wait late' t' m' < tx_wait late t m)%nat → (wait_with late' c' m' < wait_with late c m)%nat.
Proof using Type.
  intros Ht Ht' Es Eb Hw. unfold wait_with, tx_wait_bound. rewrite Ht, Ht', Es, Eb. lia.
Qed.

Lemma accepted_wait late r m : (d_busy m ≤ d_bound m)%nat → (tx_wait late (Waiting r) m ≤ d_bound m + 2)%nat.
Proof using Type. intros. cbn. case_bool_decide; lia. Qed.

(** what a tick of the instruction cache does to the next level *)
Lemma code_tick_effect ci m h ci' m1 h1 : @inv RP _ _ M code _ code_laws ci m h →
  Cache.tick ci m h = Ret (ci', m1, h1) →
  (m1 = m ∧ (yields ci m = true → (0 < d_busy m)%nat → ∃ r, d_cur m = Some r ∧ trans ci' = Some (Waiting r))) ∨
  (yields ci m = false ∧ d_busy m = 0%nat ∧ ∃ r, trans ci' = Some (Waiting r) ∧
     (d_cur m1 = Some r ∨ d_cur m1 = None ∧ d_busy m1 = 0%nat)).
Proof using PL.
  intros Hinv E. pose proof (inv_lower (H3 := code_laws) _ _ _ Hinv) as Hi.
  assert (Hy : m1 = m → m1 = m ∧ (yields ci m = true → (0 < d_busy m)%nat →
    ∃ r, d_cur m = Some r ∧ trans ci' = Some (Waiting r))).
  { intros ->. split; [done|]. unfold yields. intros Hy Hb.
    destruct (trans ci) as [[r|r]|] eqn:Ht; [done| |done]. exists r.
    apply orb_true_iff in Hy as [Hc%bool_decide_eq_true|Hz%Nat.eqb_eq]; [|lia].
    split; [done|]. by apply (code_tick_waits ci m h ci' m h1 r). }
  destruct (idle_cases ci) as [Hf|Hf].
  { left. apply Hy. by apply (idle_tick ci m h ci' m1 h1 Hf (inv_pending (H3 := code_laws) _ _ _ Hinv)). }
  destruct (tick_moves (H3 := code_laws) ci m h ci' m1 h1 Hinv Hf E) as [(_ & Em & _)|(t & t' & Ht & Ht' & _ & Ep)];
    [left; by apply Hy|].
  destruct (poll_cases t t' m h m1 h1 Hi (code_fine ci m h t Hinv Ht) Ep)
    as [(_ & _ & Em & _)|[(r & -> & -> & Hb & _ & Hcur)|(r & _ & _ & Em & _)]]; [left; by apply Hy| |left; by apply Hy].
  right. unfold yields. rewrite Ht. split_and!; [done..|]. by exists r.
Qed.

Section cycle.
Context (ci cd : GeneralCache RP) (m : M) (h : heap) (W : view) (ci' : GeneralCache RP) (m1 : M) (h1 : heap).
Context (cd' : GeneralCache RP) (m2 : M) (h2 : heap) (m' : M) (h' : heap).
Context (Hs : shows code ci cd m h W) (Hs1 : shows code ci' cd m1 h1 W) (Hs2 : shows code ci' cd' m2 h2 W).
Context (Hs3 : shows code ci' cd' m' h' W).
Context (E1 : Cache.tick ci m h = Ret (ci', m1, h1)) (E2 : Cache.tick cd m1 h1 = Ret (cd', m2, h2)).
Context (E3 : cycle m2 h2 = Ret (m', h')).
Context (B1 : d_bound m1 = d_bound m) (B2 : d_bound m2 = d_bound m) (B3 : d_bound m' = d_bound m).

Lemma code_cycle_wait : fsm ci ≠ Idle → (code_wait ci' m' < code_wait ci m)%nat.
Proof using All.
  intros Hn. pose proof (sh_code _ _ _ _ _ _ Hs) as Hinv. unfold code_wait, late_code. rewrite B3.
  destruct (tick_moves (H3 := code_laws) ci m h ci' m1 h1 Hinv Hn E1) as [(Hst & _)|(t & t' & Ht & Ht' & Est & Ep)].
  { eapply moved_wait; [exact (sh_lower _ _ _ _ _ _ Hs3) | done | lia | exact Hst | done]. }
  apply (polled_wait _ _ ci ci' t t'); [done..|].
  pose proof (law_bound _ _ (sh_lower _ _ _ _ _ _ Hs3)) as Hb3.
  assert (Hkeep : (0 < d_busy m1)%nat ∨ is_Some (d_cur m1) → m2 = m1)
    by (apply (data_tick_busy cd m1 h1 cd' m2 h2); [exact (sh_data _ _ _ _ _ _ Hs1) | done]).
  pose proof (cycle_busy m2 h2 m' h' (sh_lower _ _ _ _ _ _ Hs2) E3) as Hcyc.
  destruct (poll_cases t t' m h m1 h1 (sh_lower _ _ _ _ _ _ Hs) (code_fine ci m h t Hinv Ht) Ep)
    as [([r ->] & -> & -> & Hb)|[(r & -> & -> & Hb & Hc & Hcur)|(r & -> & -> & -> & Hc)]].
  - rewrite (Hkeep (or_introl Hb)) in Hcyc. cbn. destruct (Hcyc (or_introl Hb)) as [[_ ?]|(_ & _ & ?)]; lia.
  - pose proof (accepted_wait (d_bound m + 3) r m' Hb3). cbn [tx_wait] in *. lia.
  - rewrite (Hkeep (or_intror (ex_intro _ r Hc))) in Hcyc.
    apply flight_wait; [done | apply Hcyc; right; by exists r].
Qed.

(** whatever the instruction cache does, the data cache is not kept waiting for ever *)
Lemma data_cycle_wait : fsm cd ≠ Idle → (data_wait ci' cd' m' < data_wait ci cd m)%nat.
Proof using All.
  intros Hn. pose proof (sh_data _ _ _ _ _ _ Hs1) as Hinv. unfold data_wait.
  pose proof (late_data_le ci' m') as Hl'. pose proof (late_data_le ci m) as Hl. rewrite B3 in Hl'.
  pose proof (law_bound _ _ (sh_lower _ _ _ _ _ _ Hs3)) as Hb3. rewrite B3 in Hb3.
  pose proof (law_bound _ _ (sh_lower _ _ _ _ _ _ Hs)) as Hb0.
  destruct (tick_moves cd m1 h1 cd' m2 h2 Hinv Hn E2) as [(Hst & _)|(t & t' & Ht & Ht' & Est & Ep)].
  { eapply moved_wait; [exact (sh_lower _ _ _ _ _ _ Hs3) | done | lia | exact Hst | done]. }
  apply (polled_wait _ _ cd cd' t t'); [done..|].
  pose proof (cycle_busy m2 h2 m' h' (sh_lower _ _ _ _ _ _ Hs2) E3) as Hcyc.
  pose proof (code_tick_effect ci m h ci' m1 h1 (sh_code _ _ _ _ _ _ Hs) E1) as Hcode.
  destruct (poll_cases t t' m1 h1 m2 h2 (sh_lower _ _ _ _ _ _ Hs1) (data_fine cd m1 h1 t Hinv Ht) Ep)
    as [([r ->] & -> & Em2 & Hb)|[(r & -> & -> & _)|(r & -> & -> & Em2 & Hc)]].
  - rewrite Em2 in Hcyc. specialize (Hcyc (or_introl Hb)). cbn.
    destruct Hcode as [[Em1 Hy]|(Hy & Hz & r1 & Ht1 & [Hc1|[_ ?]])]; [| |lia].
    + rewrite Em1 in Hcyc, Hb. assert (Hb' : (d_busy m' < d_busy m)%nat) by (destruct Hcyc as [[_ ?]|(_ & _ & ?)]; lia).
      enough (late_data ci' m' ≤ late_data ci m)%nat by lia. unfold late_data at 2.
      destruct (yields ci m) eqn:Hyc; [|lia]. destruct (Hy eq_refl Hb) as (r1 & Hc1 & Ht1).
      unfold late_data, yields. rewrite Ht1.
      destruct Hcyc as [[-> _]|(_ & _ & ->)]; [rewrite bool_decide_eq_true_2 by done; cbn; lia|].
      rewrite Nat.eqb_refl, orb_true_r. lia.
    + assert (Hy' : yields ci' m' = true).
      { unfold yields. rewrite Ht1. destruct Hcyc as [[-> _]|(_ & _ & ->)].
        - by rewrite bool_decide_eq_true_2.
        - by rewrite Nat.eqb_refl, orb_true_r. }
      unfold late_data. rewrite Hy, Hy', B3. lia.
  - pose proof (accepted_wait (late_data ci' m') r m') as Ha. rewrite B3 in Ha. specialize (Ha Hb3).
    cbn [tx_wait] in *. lia.
  - rewrite Em2 in Hcyc. specialize (Hcyc (or_intror (ex_intro _ r Hc))).
    destruct Hcode as [[-> _]|(_ & _ & r1 & Ht1 & [Hc1|[? _]])]; [by apply flight_wait| |congruence].
    exfalso. rewrite Hc in Hc1. injection Hc1 as <-.
    apply (sh_apart _ _ _ _ _ _ Hs1 (Req.id r)); right; by eexists.
Qed.
End cycle.

(** a cycle of the memory system brings both caches nearer to being free *)
Lemma caches_wait ci cd m h W : shows code ci cd m h W →
  ∃ ci' m1 h1 cd' m2 h2 m' h', Cache.tick ci m h = Ret (ci', m1, h1) ∧
    Cache.tick cd m1 h1 = Ret (cd', m2, h2) ∧ cycle m2 h2 = Ret (m', h') ∧
    shows code ci' cd' m' h' W ∧ stepped code W ci cd m h ci' cd' m' h' ∧
    (fsm ci ≠ Idle → (code_wait ci' m' < code_wait ci m)%nat) ∧
    (fsm cd ≠ Idle → (data_wait ci' cd' m' < data_wait ci cd m)%nat).
Proof using PL.
  intros Hs. destruct (tick_code code _ _ _ _ _ Hs) as (ci' & m1 & h1 & E1 & Hs1 & Hst1).
  destruct (tick_data code _ _ _ _ _ Hs1) as (cd' & m2 & h2 & E2 & Hs2 & Hst2).
  destruct (cycle_below code _ _ _ _ _ Hs2) as (m' & h' & E3 & Hs3 & Hst3).
  pose proof (bound_same _ _ (sp_shape _ _ _ _ _ _ _ _ _ _ Hst1)) as B1.
  pose proof (bound_same _ _ (sp_shape _ _ _ _ _ _ _ _ _ _ Hst2)) as B2.
  pose proof (bound_same _ _ (sp_shape _ _ _ _ _ _ _ _ _ _ Hst3)) as B3.
  exists ci', m1, h1, cd', m2, h2, m', h'. split_and!; try done.
  - eapply stepped_trans; [exact Hst1|]. by eapply stepped_trans.
  - eapply code_cycle_wait; [exact Hs | exact Hs1 | exact Hs2 | exact Hs3 | exact E1 | exact E2 | exact E3 | congruence..].
  - eapply data_cycle_wait; [exact Hs | exact Hs1 | exact Hs2 | exact Hs3 | exact E1 | exact E2 | exact E3 | congruence..].
Qed.
End shared.
