(* ===== verification/MemoryAccess.v ===== *)
(** The data access of the MEM stage:
    [simulator/src/hardware/pipeline_processor/memory_access.rs]. *)
From S2P Require Import Prelude Word Format Instruction BranchPredictor Uop AbstractMem.
From stdpp Require Import base numbers list.
From Stdlib Require Import Lia.
#[local] Open Scope Z_scope.
#[local] Coercion Z.of_nat : nat >-> Z.

(** [MemoryTransactionState]; [MemoryTransaction] is a record of this one field *)
Inductive MemoryTransaction :=
  | TxIdle
  | TxSending (req : MemoryReqType) (access : MemoryAccess)
  | TxWaiting (req : MemoryReqType) (access : MemoryAccess)
  | TxComplete (load_value : option Z).

Inductive MemoryTransactionStatus :=
  | Pending
  | Complete (load_value : option Z).

Module Transaction.
Definition default : MemoryTransaction := TxIdle.
Definition reset (t : MemoryTransaction) : MemoryTransaction := TxIdle.

Definition request_for (access : MemoryAccess) (h : heap) : exec (MemoryReqType * heap) :=
  match Access.store_value access with
  | Some store_value =>
      d ← slice (to_le_bytes 4 store_value) 0 (Access.len access);
      mret (Req.store (Access.addr access) d h)
  | None => mret (Req.load (Access.addr access) (Access.len access) h)
  end.

Definition complete (req : MemoryReqType) (access : MemoryAccess) (h : heap)
    : exec (MemoryTransactionStatus * MemoryTransaction) :=
  load_value ← (if Access.is_load access then
                  bytes ← Req.load_data req h;
                  v ← Access.loaded_value access bytes; mret (Some v)
                else mret None);
  mret (Complete load_value, TxComplete load_value).

Section transaction.
Context {M : Type} `{AbstractMemoryInterface M}.

Definition send (memory : M) (req : MemoryReqType) (access : MemoryAccess) (h : heap)
    : exec (MemoryTransactionStatus * MemoryTransaction * M * heap) :=
  '(res, memory, h) ← try_register_req memory req h;
  match res with
  | Err _ => mret (Pending, TxSending req access, memory, h)
  | Ok _ =>
      if Req.is_done req h then
        '(st, t) ← complete req access h; mret (st, t, memory, h)
      else mret (Pending, TxWaiting req access, memory, h)
  end.

Definition progress (t : MemoryTransaction) (memory : M) (access : MemoryAccess) (h : heap)
    : exec (MemoryTransactionStatus * MemoryTransaction * M * heap) :=
  match t with
  | TxIdle =>
      '(req, h) ← request_for access h;
      send memory req access h
  | TxSending req access => send memory req access h
  | TxWaiting req access =>
      if Req.is_done req h then
        '(st, t) ← complete req access h; mret (st, t, memory, h)
      else mret (Pending, t, memory, h)
  | TxComplete load_value => mret (Complete load_value, t, memory, h)
  end.
End transaction.
End Transaction.
