(* ===== verification/MemoryPorts.v ===== *)
(** The two ports of the processor on the memory system: the fetch of IF through the
    instruction cache and the transaction of MEM through the data cache, over the shared L2.

    A request handed to a cache may be waiting in the processor, in flight or answered; this
    file says what each port knows of its request in every such state, that the steps of the
    other port and of the clock preserve it, and what the port gets in the end: the words and
    the bytes of the flat memory the caches show. *)
From S2P Require Import Prelude Word BranchPredictor Uop AbstractMem ReplacementPolicy CacheConfig CacheSet LowerMemory GeneralCache CacheAddress Device CacheView CacheRefinement CacheDevice SharedCache MemoryAccess FlatMachine.
From stdpp Require Import base gmap numbers sets list.
From Stdlib Require Import Lia.
#[local] Open Scope Z_scope.
#[local] Coercion Z.of_nat : nat >-> Z.

(** * Requests of an access *)

(** the request that MEM makes for an access *)
Definition asks (r : MemoryReqType) (a : MemoryAccess) : Prop :=
  Req.get_addr r = Access.addr a ∧ Req.get_len r = Access.len a ∧ req_wf r ∧
  match a with
  | LoadAccess _ _ _ => Req.is_store r = false
  | StoreAccess _ w x => ∃ y, r = Store y ∧ store_bytes y = stored_bytes w x
  end.

Section requests.
Implicit Types (r : MemoryReqType) (a : MemoryAccess) (v : view).

Lemma width_cases w : width_len w = 1%nat ∨ width_len w = 2%nat ∨ width_len w = 4%nat.
Proof. destruct w; cbn; tauto. Qed.

Lemma request_for_asks a h r h' : Transaction.request_for a h = Ret (r, h') →
  asks r a ∧ Req.id r = next_id h ∧ next_id h' = S (next_id h) ∧
  done (Heap.get h' (Req.id r)) = false ∧
  ∀ id, (id < next_id h)%nat → Heap.get h' id = Heap.get h id.
Proof.
  unfold Transaction.request_for, asks. destruct a as [ad w e|ad w x]; cbn [Access.store_value]; intros E.
  - injection E as <- <-. split_and!; try done.
    + unfold Heap.get. cbn. by rewrite lookup_insert_eq.
    + intros id Hid. unfold Heap.get. cbn. by rewrite lookup_insert_ne by lia.
  - apply bind_inv in E as (d & Ed & E). injection E as <- <-.
    assert (d = stored_bytes w x) as ->.
    { unfold slice in Ed. case_decide; [|done]. by apply Ret_inj in Ed. }
    assert (Hl : length (stored_bytes w x) = width_len w)
      by (unfold stored_bytes; rewrite length_take, length_to_le_bytes; destruct (width_cases w) as [?|[?|?]]; lia).
    split_and!; [done|exact Hl|done|by eexists|..]; try done.
    + unfold Heap.get. cbn. by rewrite lookup_insert_eq.
    + intros id Hid. unfold Heap.get. cbn. by rewrite lookup_insert_ne by lia.
Qed.

(** what the request does to the memory is what the access does *)
Lemma asks_apply r a v : asks r a → view_apply r v = mem_after v (Some a).
Proof.
  intros (Ha & _ & _ & Hk). destruct a as [ad w e|ad w x]; cbn.
  - by destruct r.
  - destruct Hk as (y & -> & Hb). cbn in *. by rewrite Ha, Hb.
Qed.

Lemma load_value_ext v w a : (∀ x, v x = w x) → load_value v a = load_value w a.
Proof.
  intros E. unfold load_value. by rewrite (view_read_ext v w).
Qed.
End requests.

(** * The ports *)

Section ports.
Context `{Profile} {RP : Type} `{ReplacementLaws RP} {M : Type} `{Device M}.
Context {L : DeviceLaws (RG := everywhere) M}.
(** the code, and its contents *)
Context (code : Region) (V0 : view).
#[local] Existing Instance everywhere.
Implicit Types (ci cd : GeneralCache RP) (m : M) (h : heap) (r : MemoryReqType).

Abbreviation code_answers := (@Device.answers code).

(** a fetch that IF has handed over, or is about to *)
Definition fetch_served ci cd m h r : Prop :=
  (client_req ci = Some r ∨ free ci cd m h (Req.id r)) ∧
  (done (Heap.get h (Req.id r)) = true → code_answers r V0 (Heap.get h (Req.id r))).

(** the transaction of MEM; [W] is the memory the caches show *)
Definition tx_served ci cd m h (W : view) (t : MemoryTransaction) : Prop :=
  match t with
  | TxIdle => client_req cd = None
  | TxSending r a =>
      client_req cd = None ∧ asks r a ∧ free ci cd m h (Req.id r) ∧
      done (Heap.get h (Req.id r)) = false
  | TxWaiting r a =>
      asks r a ∧
      (client_req cd = Some r ∧ done (Heap.get h (Req.id r)) = false ∨ data_served ci cd m h W r)
  | TxComplete _ => False
  end.

(** the memory once the transaction has been made; [acc] is the access of MEM *)
Definition settled_view (W : view) (t : MemoryTransaction) (acc : option MemoryAccess) : view :=
  match t with
  | TxIdle => mem_after W acc
  | TxSending r _ => view_apply r W
  | _ => W
  end.

Definition tx_req (t : MemoryTransaction) : option MemoryReqType :=
  match t with TxSending r _ | TxWaiting r _ => Some r | _ => None end.

(** ** Steps preserve what the ports know *)
Section step.
Context (W : view) ci cd m h ci' cd' m' h' (Hst : stepped code W ci cd m h ci' cd' m' h').

Lemma stepped_fetch r : (∀ a, code a → W a = V0 a) →
  fetch_served ci cd m h r → fetch_served ci' cd' m' h' r.
Proof using Hst.
  intros HW [[Hc|Hf] Hd].
  - destruct (sp_code _ _ _ _ _ _ _ _ _ _ Hst r Hc) as [[Hc' E]|[Hf' Ha]].
    + split; [by left|]. by rewrite E.
    + split; [by right|]. intros _. eapply (answers_proper (RG := code)); [|reflexivity|exact Ha].
      intros a Ha'. symmetry. by apply HW.
  - destruct (sp_free _ _ _ _ _ _ _ _ _ _ Hst _ Hf) as [Hf' E]. split; [by right|]. by rewrite E.
Qed.

Lemma stepped_tx t : tx_served ci cd m h W t → tx_served ci' cd' m' h' W t.
Proof using Hst.
  destruct t as [|r a|r a|v]; [exact (sp_none _ _ _ _ _ _ _ _ _ _ Hst)| | |done]; unfold tx_served.
  - intros (Hc & Ha & Hf & Hd). destruct (sp_free _ _ _ _ _ _ _ _ _ _ Hst _ Hf) as [Hf' E].
    split_and!; [exact (sp_none _ _ _ _ _ _ _ _ _ _ Hst Hc) | exact Ha | exact Hf' | by rewrite E].
  - intros [Ha [[Hc Hd]|(Hc & Hf & Han)]]; split; try done.
    + destruct (sp_data _ _ _ _ _ _ _ _ _ _ Hst r Hc) as [[Hc' E]|?]; [left|by right].
      split; [done|]. by rewrite E.
    + destruct (sp_free _ _ _ _ _ _ _ _ _ _ Hst _ Hf) as [Hf' E]. right.
      split_and!; [exact (sp_none _ _ _ _ _ _ _ _ _ _ Hst Hc) | exact Hf' | by rewrite E].
Qed.
End step.

(** handing a request to one cache leaves the cells of the other port free *)
Lemma accept_code_free ci cd m h r id : free ci cd m h id → id ≠ Req.id r →
  free (accept r ci) cd m h id.
Proof. intros (? & ? & ? & ?) Hne. split_and!; [done | | done | done]. by intros ->%own_accept. Qed.
Lemma accept_data_free ci cd m h r id : free ci cd m h id → id ≠ Req.id r →
  free ci (accept r cd) m h id.
Proof. intros (? & ? & ? & ?) Hne. split_and!; [done | done | | done]. by intros ->%own_accept. Qed.

Lemma accept_code_tx ci cd m h W r t : (∀ r', tx_req t = Some r' → Req.id r ≠ Req.id r') →
  tx_served ci cd m h W t → tx_served (accept r ci) cd m h W t.
Proof.
  destruct t as [|r' a|r' a|v]; cbn; intros Hne; [done| | |done].
  - intros (? & ? & ? & ?). split_and!; try done. apply accept_code_free; [done|].
    symmetry. by apply Hne.
  - intros [? [?|(? & ? & ?)]]; (split; [done|]); [by left|right]. split_and!; try done.
    apply accept_code_free; [done|]. symmetry. by apply Hne.
Qed.
Lemma accept_data_fetch ci cd m h r r' : Req.id r' ≠ Req.id r →
  fetch_served ci cd m h r' → fetch_served ci (accept r cd) m h r'.
Proof.
  intros Hne [[?|?] ?]; (split; [|done]); [by left|right]. by apply accept_data_free.
Qed.

(** the cells of the two ports differ from one that is allocated now *)
Lemma fetch_served_old ci cd m h W r : shows code ci cd m h W → fetch_served ci cd m h r →
  (Req.id r < next_id h)%nat.
Proof.
  intros Hs [[Hc|(? & _)] _]; [|done].
  apply (client_held (H3 := restrict code (L := L)) ci m h r (sh_code _ _ _ _ _ _ Hs) Hc).
Qed.
Lemma tx_served_old ci cd m h W t r : shows code ci cd m h W → tx_served ci cd m h W t →
  tx_req t = Some r → (Req.id r < next_id h)%nat.
Proof.
  intros Hs Ht. destruct t as [|r' a|r' a|v]; cbn in *; try done; intros [= <-].
  - by destruct Ht as (_ & _ & (? & _) & _).
  - destruct Ht as [_ [[Hc _]|(_ & (? & _) & _)]]; [|done].
    apply (client_held cd m h r' (sh_data _ _ _ _ _ _ Hs) Hc).
Qed.

(** ** The fetch port *)

(** a registration checks the alignment first *)
Lemma try_aligned (c : GeneralCache RP) m r h x : Cache.try_register_req c m r h = Ret x →
  Req.get_len r = 1%nat ∨ Req.get_len r = 2%nat ∨ Req.get_len r = 4%nat →
  Req.get_addr r mod Req.get_len r = 0.
Proof.
  unfold Cache.try_register_req. intros E Hl. apply bind_inv in E as (ok & Eok & E).
  apply bind_inv in E as ([] & Hok%assert_inv & _). subst ok. unfold Cache.alignment_check in Eok.
  destruct Hl as [Hl|[Hl|Hl]]; rewrite Hl in *; [apply Z.mod_1_r | ..];
    apply Ret_inj in Eok; by apply Z.eqb_eq.
Qed.

(** a fetch of [n] bytes gets the code, where all of them are code *)
Lemma fetched_code y x n : load_len y = n → code_answers (Load y) V0 x →
  (∀ i, (i < n)%nat → code (load_addr y + i)) → buffer x = view_read V0 (load_addr y) n.
Proof.
  intros <- [_ [Hl Hx]] Hc. symmetry. apply view_read_eq; [done|]. intros i Hi.
  by rewrite list_lookup_total_alt, (Hx i Hi (Hc i Hi)).
Qed.

Lemma fetch_outcome ci cd m h W t r res ci' m' h' : shows code ci cd m h W →
  (∀ x, code x → W x = V0 x) → tx_served ci cd m h W t → fetch_served ci cd m h r →
  (∀ r', tx_req t = Some r' → Req.id r ≠ Req.id r') →
  Req.is_store r = false → Req.get_len r = 4%nat → (4 ≤ bs ci)%nat → 0 ≤ Req.get_addr r →
  Req.get_addr r + 4 ≤ span ci m →
  Cache.try_register_req ci m r h = Ret (res, ci', m', h') →
  shows code ci' cd m' h' W ∧ tx_served ci' cd m' h' W t ∧ fetch_served ci' cd m' h' r ∧
  same_config ci ci' ∧ same_shape m m'.
Proof.
  intros Hs HW Ht Hfe Hap Hld Hl Hb Hlo Hhi E. pose proof Hfe as [Hfree Hdone].
  assert (Hserved : served ci m r).
  { split_and!; [by rewrite Hl | lia | eapply try_aligned; [exact E | lia] | done | lia | by destruct r]. }
  destruct (register_code code ci cd m h W r Hs Hserved Hld) as
    [Er|(ci1 & m1 & h1 & Er & Hidle & Hcl & Hs' & Hst)]; [by apply or_comm | |];
    rewrite Er in E; injection E as <- <- <- <-; [by split_and!|].
  split_and!.
  - done.
  - eapply stepped_tx; [exact Hst|]. by apply accept_code_tx.
  - eapply stepped_fetch; [exact Hst | done |]. split; [by left | done].
  - exact (sp_code_config _ _ _ _ _ _ _ _ _ _ Hst).
  - exact (sp_shape _ _ _ _ _ _ _ _ _ _ Hst).
Qed.

(** ** The data port *)

(** an access that the data cache serves and that leaves the code alone *)
Record usable cd m (a : MemoryAccess) : Prop := {
  us_low : 0 ≤ Access.addr a;
  us_high : Access.addr a + Access.len a ≤ span cd m;
  us_block : (4 ≤ bs cd)%nat;
  us_spares : Access.is_load a = false →
    ∀ x, code x → ¬ Access.addr a ≤ x < Access.addr a + Access.len a;
}.

Lemma asks_served cd m r a h x : usable cd m a → asks r a →
  Cache.try_register_req cd m r h = Ret x → served cd m r.
Proof.
  intros [Hlo Hhi Hb _] (Ea & El & Hwf & _) E.
  assert (Hlen : Access.len a = 1%nat ∨ Access.len a = 2%nat ∨ Access.len a = 4%nat)
    by (destruct a; apply width_cases).
  pose proof (try_aligned _ _ _ _ _ E ltac:(by rewrite El)) as Hal.
  split_and!; [|rewrite El; lia | done | by rewrite Ea | by rewrite Ea, El | done].
  rewrite El. by destruct Hlen as [->|[->| ->]].
Qed.

Lemma asks_spares cd m r a : usable cd m a → asks r a → spares code r.
Proof.
  intros [_ _ _ Hsp] (Ea & El & Hwf & Hk). destruct r as [y|y]; [done|]. cbn in *.
  destruct a as [ad w e|ad w x]; [done|]. intros z Hz. rewrite Ea, Hwf, El. by apply Hsp.
Qed.

(** a store that spares the code does not change it *)
Lemma spares_code r (W : view) x : spares code r → code x → view_apply r W x = W x.
Proof.
  destruct r as [y|y]; [done|]. cbn. intros Hs Hx. unfold view_write. apply decide_False. by apply Hs.
Qed.

(** what MEM is left with *)
Definition rest (st : MemoryTransactionStatus) (t : MemoryTransaction) : MemoryTransaction :=
  match st with Pending => t | Complete _ => TxIdle end.
Definition rest_access (st : MemoryTransactionStatus) (a : MemoryAccess) : option MemoryAccess :=
  match st with Pending => Some a | Complete _ => None end.

(** the outcome of a cycle of the transaction for [a]; [v] is the memory with the access made *)
Record data_outcome ci cd m h (apart : MemoryReqType → Prop) (v : view) a st t cd' m' h' (W' : view)
    : Prop := {
  do_shows : shows code ci cd' m' h' W';
  do_code : ∀ x, code x → W' x = V0 x;
  do_config : same_config cd cd';
  do_shape : same_shape m m';
  do_fetch : ∀ r, fetch_served ci cd m h r → apart r → fetch_served ci cd' m' h' r ∧
    ∀ r', tx_req (rest st t) = Some r' → Req.id r ≠ Req.id r';
  do_tx : tx_served ci cd' m' h' W' (rest st t);
  do_view : ∀ x, settled_view W' (rest st t) (rest_access st a) x = v x;
  do_value : match st with
    | Pending => True
    | Complete lv =>
        if Access.is_load a then ∃ x, lv = Some x ∧ load_value W' a = Ret x else lv = None
    end;
}.

Lemma complete_value ci cd m h W r a st t : data_served ci cd m h W r → asks r a →
  Transaction.complete r a h = Ret (st, t) → ∃ lv, st = Complete lv ∧
    if Access.is_load a then ∃ x, lv = Some x ∧ load_value W a = Ret x else lv = None.
Proof.
  intros (_ & _ & Ha%answers_exact) (Ea & El & _ & Hk) E. unfold Transaction.complete in E.
  destruct a as [ad w e|ad w x]; cbn [Access.is_load] in *; [|by injection E as <- _; eexists].
  apply bind_inv in E as (lv & Ev & [= <- _]). exists lv. split; [done|].
  destruct r as [y|y]; [|done]. apply bind_inv in Ev as (bytes & Eb & Ev).
  apply bind_inv in Ev as (x & Ex & [= <-]). exists x. split; [done|].
  cbn in Eb. apply Ret_inj in Eb. unfold LoadReq.data in Eb. cbn in Ha, Ea, El. rewrite Ha in Eb.
  cbn in Eb. unfold load_value. cbn [Access.addr Access.len]. by rewrite <- Ea, <- El, Eb.
Qed.

Lemma send_outcome ci cd m h W r a st t cd' m' h' : shows code ci cd m h W →
  (∀ x, code x → W x = V0 x) → tx_served ci cd m h W (TxSending r a) → usable cd m a →
  Transaction.send (cd, m) r a h = Ret (st, t, (cd', m'), h') →
  ∃ W', data_outcome ci cd m h (λ r', Req.id r' ≠ Req.id r) (view_apply r W) a st t cd' m' h' W'.
Proof.
  intros Hs HW (Hc & Ha & Hf & Hd) Hu E. unfold Transaction.send in E. cbn in E.
  apply bind_inv in E as ([[res [cd1 m1]] h1] & Et & E).
  apply bind_inv in Et as ([[[res0 cd0] m0] h0] & Et & [= <- <- <- <-]).
  pose proof (asks_spares _ _ _ _ Hu Ha) as Hsp.
  destruct (register_data code ci cd m h W r Hs) as [Er|(cd2 & m2 & h2 & Er & _ & Hcl & Hs' & Hst)];
    [by eapply asks_served | done | done | |]; rewrite Er in Et; injection Et as <- <- <- <-; cbn in E.
  - injection E as <- <- <- <- <-. exists W. constructor; cbn; try done.
    intros r' Hr' Hne. split; [done|]. by intros ? [= <-].
  - exists (view_apply r W).
    assert (Hrest : ∀ st' t', tx_served ci cd2 m2 h2 (view_apply r W) (rest st' t') →
      (∀ r', tx_req (rest st' t') = Some r' → r' = r) →
      (∀ x, settled_view (view_apply r W) (rest st' t') (rest_access st' a) x = view_apply r W x) →
      match st' with
      | Pending => True
      | Complete lv => if Access.is_load a
          then ∃ x, lv = Some x ∧ load_value (view_apply r W) a = Ret x else lv = None
      end →
      data_outcome ci cd m h (λ r', Req.id r' ≠ Req.id r) (view_apply r W) a st' t' cd2 m2 h2
        (view_apply r W)).
    { intros st' t' Htx Hreq Hset Hval. constructor; try done.
      - intros x Hx. rewrite (spares_code r W x) by done. by apply HW.
      - exact (sp_data_config _ _ _ _ _ _ _ _ _ _ Hst).
      - exact (sp_shape _ _ _ _ _ _ _ _ _ _ Hst).
      - intros r' Hr' Hne. split; [|by intros r0 ->%Hreq].
        eapply stepped_fetch; [exact Hst| |by apply accept_data_fetch].
        intros x Hx. rewrite (spares_code r W x) by done. by apply HW. }
    destruct (sp_data _ _ _ _ _ _ _ _ _ _ Hst r Hcl) as [[Hcl' Ecell]|Hserved].
    + assert (Hd' : Req.is_done r h2 = false) by (rewrite is_done_get, Ecell; exact Hd).
      rewrite Hd' in E. injection E as <- <- <- <- <-. apply Hrest; try done.
      * split; [done|]. left. split; [done|]. by rewrite <- is_done_get.
      * by intros ? [= <-].
    + assert (Hd' : Req.is_done r h2 = true).
      { rewrite is_done_get. destruct Hserved as (_ & _ & Han). by eapply answers_done. }
      rewrite Hd' in E. apply bind_inv in E as ([st' t'] & Ec & [= <- <- <- <- <-]).
      destruct (complete_value _ _ _ _ _ _ _ _ _ Hserved Ha Ec) as (lv & -> & Hv).
      apply Hrest; try done. by destruct Hserved.
Qed.

Lemma progress_outcome ci cd m h W t a st t' cd' m' h' : shows code ci cd m h W →
  (∀ x, code x → W x = V0 x) → tx_served ci cd m h W t → usable cd m a →
  match t with TxSending _ b | TxWaiting _ b => b = a | _ => True end →
  Transaction.progress t (cd, m) a h = Ret (st, t', (cd', m'), h') →
  ∃ W', data_outcome ci cd m h (λ r, ∀ r', tx_req t = Some r' → Req.id r ≠ Req.id r')
          (settled_view W t (Some a)) a st t' cd' m' h' W'.
Proof.
  intros Hs HW Ht Hu Hta E. destruct t as [|r b|r b|v]; [| |subst b|done].
  - apply bind_inv in E as ([r h1] & Er & E).
    destruct (request_for_asks _ _ _ _ Er) as (Ha & Eid & En & Hd & Hk).
    destruct (shows_grow code ci cd m h h1 W Hs) as (Hs1 & Hst1 & Hnew); [lia | done |].
    destruct (send_outcome ci cd m h1 W r a st t' cd' m' h') as (W' & Ho); try done.
    { split_and!; [exact Ht | done | apply Hnew; lia | done]. }
    exists W'. destruct Ho as [Hs2 Hc2 Hcf Hsh Hfe Htx Hv Hval]. constructor; try done.
    + intros r0 Hr0 _. apply Hfe; [by eapply stepped_fetch|].
      pose proof (fetch_served_old _ _ _ _ _ _ Hs Hr0). lia.
    + intros x. by rewrite Hv, (asks_apply r a W Ha).
  - cbn in Hta. subst b. destruct (send_outcome ci cd m h W r a st t' cd' m' h') as (W' & Ho); try done.
    exists W'. destruct Ho as [Hs2 Hc2 Hcf Hsh Hfe Htx Hv Hval]. constructor; try done.
    intros r0 Hr0 Hne. apply Hfe; [done|]. by apply Hne.
  - cbn in E. destruct Ht as [Ha Hserved]. rewrite is_done_get in E. exists W.
    destruct (done (Heap.get h (Req.id r))) eqn:Hd.
    + destruct Hserved as [[_ ?]|Hserved]; [congruence|].
      apply bind_inv in E as ([st' t1] & Ec & [= <- <- <- <- <-]).
      destruct (complete_value _ _ _ _ _ _ _ _ _ Hserved Ha Ec) as (lv & -> & Hv).
      constructor; cbn; try done. by destruct Hserved.
    + injection E as <- <- <- <- <-. constructor; cbn; rewrite ?Hd; done.
Qed.
End ports.
