(* ===== verification/Pipe.v ===== *)
(** The five-stage pipeline: [simulator/src/hardware/pipeline_processor/pipe.rs] and
    [statistic.rs].

    A stage is a function of the whole processor, the main memory below the L2 cache and
    the heap of request cells; [tick] composes the stages in the order of the source (WB,
    MEM, EXE, ID, IF, then the caches).  The two L1 caches share the L2: each sees the pair
    of the L2 and the memory as its next level, and hands back the pair it leaves. *)
From S2P Require Import Prelude Word Format Instruction BranchPredictor Uop Execute Decode AbstractMem ReplacementPolicy CacheConfig CacheSet LowerMemory GeneralCache MemoryAccess.
From stdpp Require Import base numbers list strings.
From Stdlib Require Import Lia SpecFloat.
#[local] Open Scope Z_scope.
#[local] Coercion Z.of_nat : nat >-> Z.

(** * Statistics *)

Record PipeStatistic := {
  total_ticked_cycle : nat;
  inst_fetched : nat;
  inst_retire : nat;
  branch_inst_cnt : nat;
  branch_miss_cnt : nat;
  total_flush_cnt : nat;
  actual_flushed_inst_cnt : nat;
  ipc : spec_float;
  branch_miss_rate : spec_float;
}.

Module PipeStat.
Definition default : PipeStatistic := {|
  total_ticked_cycle := 0; inst_fetched := 0; inst_retire := 0; branch_inst_cnt := 0;
  branch_miss_cnt := 0; total_flush_cnt := 0; actual_flushed_inst_cnt := 0;
  ipc := F64.zero; branch_miss_rate := F64.zero |}.

Definition tick (s : PipeStatistic) : PipeStatistic := {|
  total_ticked_cycle := S (total_ticked_cycle s); inst_fetched := inst_fetched s;
  inst_retire := inst_retire s; branch_inst_cnt := branch_inst_cnt s;
  branch_miss_cnt := branch_miss_cnt s; total_flush_cnt := total_flush_cnt s;
  actual_flushed_inst_cnt := actual_flushed_inst_cnt s; ipc := ipc s;
  branch_miss_rate := branch_miss_rate s |}.
Definition inst_fetch (s : PipeStatistic) : PipeStatistic := {|
  total_ticked_cycle := total_ticked_cycle s; inst_fetched := S (inst_fetched s);
  inst_retire := inst_retire s; branch_inst_cnt := branch_inst_cnt s;
  branch_miss_cnt := branch_miss_cnt s; total_flush_cnt := total_flush_cnt s;
  actual_flushed_inst_cnt := actual_flushed_inst_cnt s; ipc := ipc s;
  branch_miss_rate := branch_miss_rate s |}.
Definition inst_ret (s : PipeStatistic) : PipeStatistic := {|
  total_ticked_cycle := total_ticked_cycle s; inst_fetched := inst_fetched s;
  inst_retire := S (inst_retire s); branch_inst_cnt := branch_inst_cnt s;
  branch_miss_cnt := branch_miss_cnt s; total_flush_cnt := total_flush_cnt s;
  actual_flushed_inst_cnt := actual_flushed_inst_cnt s; ipc := ipc s;
  branch_miss_rate := branch_miss_rate s |}.
Definition solve_branch (is_miss : bool) (s : PipeStatistic) : PipeStatistic := {|
  total_ticked_cycle := total_ticked_cycle s; inst_fetched := inst_fetched s;
  inst_retire := inst_retire s; branch_inst_cnt := S (branch_inst_cnt s);
  branch_miss_cnt := if is_miss then S (branch_miss_cnt s) else branch_miss_cnt s;
  total_flush_cnt := total_flush_cnt s;
  actual_flushed_inst_cnt := actual_flushed_inst_cnt s; ipc := ipc s;
  branch_miss_rate := branch_miss_rate s |}.
Definition inst_flush (valid : bool) (s : PipeStatistic) : PipeStatistic := {|
  total_ticked_cycle := total_ticked_cycle s; inst_fetched := inst_fetched s;
  inst_retire := inst_retire s; branch_inst_cnt := branch_inst_cnt s;
  branch_miss_cnt := branch_miss_cnt s; total_flush_cnt := S (total_flush_cnt s);
  actual_flushed_inst_cnt :=
    if valid then S (actual_flushed_inst_cnt s) else actual_flushed_inst_cnt s;
  ipc := ipc s; branch_miss_rate := branch_miss_rate s |}.

Definition safe_ratio (num den : nat) : spec_float :=
  if (den =? 0)%nat then F64.zero else F64.div (F64.of_usize num) (F64.of_usize den).
Definition finalize_rates (s : PipeStatistic) : PipeStatistic := {|
  total_ticked_cycle := total_ticked_cycle s; inst_fetched := inst_fetched s;
  inst_retire := inst_retire s; branch_inst_cnt := branch_inst_cnt s;
  branch_miss_cnt := branch_miss_cnt s; total_flush_cnt := total_flush_cnt s;
  actual_flushed_inst_cnt := actual_flushed_inst_cnt s;
  ipc := safe_ratio (inst_retire s) (total_ticked_cycle s);
  branch_miss_rate := safe_ratio (branch_miss_cnt s) (branch_inst_cnt s) |}.
End PipeStat.

(** * The processor *)

Inductive PipelineMemoryFSM :=
  | FetchIdle
  | SendingReq (req : MemoryReqType)
  | WaitingComplete (req : MemoryReqType).

Record PipelineProcessor (RP P : Type) := {
  halt : bool;
  if_pc : Z;
  if_raw_isnt_buffer : option Z;
  branch_predictor : P;
  id_regs : list Z;
  id_op : option PreDecodeMicroOp;
  exe_op : option PreDecodeMicroOp;
  mem_op : option PreDecodeMicroOp;
  wb_op : option PreDecodeMicroOp;
  if_fsm : PipelineMemoryFSM;
  mem_transaction : MemoryTransaction;
  branch_recover : bool;
  branch_correct_direction : bool;
  branch_destination : Z;
  branch_flushes : nat;
  int_mul_div_stall_countdown : option nat;
  icache : GeneralCache RP;
  dcache : GeneralCache RP;
  l2_cache : GeneralCache RP;
  hpm : PipeStatistic;
}.
Arguments halt {RP P}. Arguments if_pc {RP P}. Arguments if_raw_isnt_buffer {RP P}.
Arguments branch_predictor {RP P}. Arguments id_regs {RP P}. Arguments id_op {RP P}.
Arguments exe_op {RP P}. Arguments mem_op {RP P}. Arguments wb_op {RP P}.
Arguments if_fsm {RP P}. Arguments mem_transaction {RP P}. Arguments branch_recover {RP P}.
Arguments branch_correct_direction {RP P}. Arguments branch_destination {RP P}.
Arguments branch_flushes {RP P}. Arguments int_mul_div_stall_countdown {RP P}.
Arguments icache {RP P}. Arguments dcache {RP P}. Arguments l2_cache {RP P}.
Arguments hpm {RP P}.

Module Cpu.
(** ** Field updates *)
Section update.
Context {RP P : Type}.

Definition with_halt v (p : PipelineProcessor RP P) : PipelineProcessor RP P := {|
  halt := v; if_pc := if_pc p; if_raw_isnt_buffer := if_raw_isnt_buffer p;
  branch_predictor := branch_predictor p; id_regs := id_regs p; id_op := id_op p;
  exe_op := exe_op p; mem_op := mem_op p; wb_op := wb_op p; if_fsm := if_fsm p;
  mem_transaction := mem_transaction p; branch_recover := branch_recover p;
  branch_correct_direction := branch_correct_direction p;
  branch_destination := branch_destination p; branch_flushes := branch_flushes p;
  int_mul_div_stall_countdown := int_mul_div_stall_countdown p; icache := icache p;
  dcache := dcache p; l2_cache := l2_cache p; hpm := hpm p |}.
Definition with_if_pc v (p : PipelineProcessor RP P) : PipelineProcessor RP P := {|
  halt := halt p; if_pc := v; if_raw_isnt_buffer := if_raw_isnt_buffer p;
  branch_predictor := branch_predictor p; id_regs := id_regs p; id_op := id_op p;
  exe_op := exe_op p; mem_op := mem_op p; wb_op := wb_op p; if_fsm := if_fsm p;
  mem_transaction := mem_transaction p; branch_recover := branch_recover p;
  branch_correct_direction := branch_correct_direction p;
  branch_destination := branch_destination p; branch_flushes := branch_flushes p;
  int_mul_div_stall_countdown := int_mul_div_stall_countdown p; icache := icache p;
  dcache := dcache p; l2_cache := l2_cache p; hpm := hpm p |}.
Definition with_buffer v (p : PipelineProcessor RP P) : PipelineProcessor RP P := {|
  halt := halt p; if_pc := if_pc p; if_raw_isnt_buffer := v;
  branch_predictor := branch_predictor p; id_regs := id_regs p; id_op := id_op p;
  exe_op := exe_op p; mem_op := mem_op p; wb_op := wb_op p; if_fsm := if_fsm p;
  mem_transaction := mem_transaction p; branch_recover := branch_recover p;
  branch_correct_direction := branch_correct_direction p;
  branch_destination := branch_destination p; branch_flushes := branch_flushes p;
  int_mul_div_stall_countdown := int_mul_div_stall_countdown p; icache := icache p;
  dcache := dcache p; l2_cache := l2_cache p; hpm := hpm p |}.
Definition with_predictor v (p : PipelineProcessor RP P) : PipelineProcessor RP P := {|
  halt := halt p; if_pc := if_pc p; if_raw_isnt_buffer := if_raw_isnt_buffer p;
  branch_predictor := v; id_regs := id_regs p; id_op := id_op p; exe_op := exe_op p;
  mem_op := mem_op p; wb_op := wb_op p; if_fsm := if_fsm p; mem_transaction := mem_transaction p;
  branch_recover := branch_recover p; branch_correct_direction := branch_correct_direction p;
  branch_destination := branch_destination p; branch_flushes := branch_flushes p;
  int_mul_div_stall_countdown := int_mul_div_stall_countdown p; icache := icache p;
  dcache := dcache p; l2_cache := l2_cache p; hpm := hpm p |}.
Definition with_regs v (p : PipelineProcessor RP P) : PipelineProcessor RP P := {|
  halt := halt p; if_pc := if_pc p; if_raw_isnt_buffer := if_raw_isnt_buffer p;
  branch_predictor := branch_predictor p; id_regs := v; id_op := id_op p; exe_op := exe_op p;
  mem_op := mem_op p; wb_op := wb_op p; if_fsm := if_fsm p; mem_transaction := mem_transaction p;
  branch_recover := branch_recover p; branch_correct_direction := branch_correct_direction p;
  branch_destination := branch_destination p; branch_flushes := branch_flushes p;
  int_mul_div_stall_countdown := int_mul_div_stall_countdown p; icache := icache p;
  dcache := dcache p; l2_cache := l2_cache p; hpm := hpm p |}.
Definition with_id_op v (p : PipelineProcessor RP P) : PipelineProcessor RP P := {|
  halt := halt p; if_pc := if_pc p; if_raw_isnt_buffer := if_raw_isnt_buffer p;
  branch_predictor := branch_predictor p; id_regs := id_regs p; id_op := v; exe_op := exe_op p;
  mem_op := mem_op p; wb_op := wb_op p; if_fsm := if_fsm p; mem_transaction := mem_transaction p;
  branch_recover := branch_recover p; branch_correct_direction := branch_correct_direction p;
  branch_destination := branch_destination p; branch_flushes := branch_flushes p;
  int_mul_div_stall_countdown := int_mul_div_stall_countdown p; icache := icache p;
  dcache := dcache p; l2_cache := l2_cache p; hpm := hpm p |}.
Definition with_exe_op v (p : PipelineProcessor RP P) : PipelineProcessor RP P := {|
  halt := halt p; if_pc := if_pc p; if_raw_isnt_buffer := if_raw_isnt_buffer p;
  branch_predictor := branch_predictor p; id_regs := id_regs p; id_op := id_op p; exe_op := v;
  mem_op := mem_op p; wb_op := wb_op p; if_fsm := if_fsm p; mem_transaction := mem_transaction p;
  branch_recover := branch_recover p; branch_correct_direction := branch_correct_direction p;
  branch_destination := branch_destination p; branch_flushes := branch_flushes p;
  int_mul_div_stall_countdown := int_mul_div_stall_countdown p; icache := icache p;
  dcache := dcache p; l2_cache := l2_cache p; hpm := hpm p |}.
Definition with_mem_op v (p : PipelineProcessor RP P) : PipelineProcessor RP P := {|
  halt := halt p; if_pc := if_pc p; if_raw_isnt_buffer := if_raw_isnt_buffer p;
  branch_predictor := branch_predictor p; id_regs := id_regs p; id_op := id_op p;
  exe_op := exe_op p; mem_op := v; wb_op := wb_op p; if_fsm := if_fsm p;
  mem_transaction := mem_transaction p; branch_recover := branch_recover p;
  branch_correct_direction := branch_correct_direction p;
  branch_destination := branch_destination p; branch_flushes := branch_flushes p;
  int_mul_div_stall_countdown := int_mul_div_stall_countdown p; icache := icache p;
  dcache := dcache p; l2_cache := l2_cache p; hpm := hpm p |}.
Definition with_wb_op v (p : PipelineProcessor RP P) : PipelineProcessor RP P := {|
  halt := halt p; if_pc := if_pc p; if_raw_isnt_buffer := if_raw_isnt_buffer p;
  branch_predictor := branch_predictor p; id_regs := id_regs p; id_op := id_op p;
  exe_op := exe_op p; mem_op := mem_op p; wb_op := v; if_fsm := if_fsm p;
  mem_transaction := mem_transaction p; branch_recover := branch_recover p;
  branch_correct_direction := branch_correct_direction p;
  branch_destination := branch_destination p; branch_flushes := branch_flushes p;
  int_mul_div_stall_countdown := int_mul_div_stall_countdown p; icache := icache p;
  dcache := dcache p; l2_cache := l2_cache p; hpm := hpm p |}.
Definition with_if_fsm v (p : PipelineProcessor RP P) : PipelineProcessor RP P := {|
  halt := halt p; if_pc := if_pc p; if_raw_isnt_buffer := if_raw_isnt_buffer p;
  branch_predictor := branch_predictor p; id_regs := id_regs p; id_op := id_op p;
  exe_op := exe_op p; mem_op := mem_op p; wb_op := wb_op p; if_fsm := v;
  mem_transaction := mem_transaction p; branch_recover := branch_recover p;
  branch_correct_direction := branch_correct_direction p;
  branch_destination := branch_destination p; branch_flushes := branch_flushes p;
  int_mul_div_stall_countdown := int_mul_div_stall_countdown p; icache := icache p;
  dcache := dcache p; l2_cache := l2_cache p; hpm := hpm p |}.
Definition with_transaction v (p : PipelineProcessor RP P) : PipelineProcessor RP P := {|
  halt := halt p; if_pc := if_pc p; if_raw_isnt_buffer := if_raw_isnt_buffer p;
  branch_predictor := branch_predictor p; id_regs := id_regs p; id_op := id_op p;
  exe_op := exe_op p; mem_op := mem_op p; wb_op := wb_op p; if_fsm := if_fsm p;
  mem_transaction := v; branch_recover := branch_recover p;
  branch_correct_direction := branch_correct_direction p;
  branch_destination := branch_destination p; branch_flushes := branch_flushes p;
  int_mul_div_stall_countdown := int_mul_div_stall_countdown p; icache := icache p;
  dcache := dcache p; l2_cache := l2_cache p; hpm := hpm p |}.
Definition with_recovery r d t n (p : PipelineProcessor RP P) : PipelineProcessor RP P := {|
  halt := halt p; if_pc := if_pc p; if_raw_isnt_buffer := if_raw_isnt_buffer p;
  branch_predictor := branch_predictor p; id_regs := id_regs p; id_op := id_op p;
  exe_op := exe_op p; mem_op := mem_op p; wb_op := wb_op p; if_fsm := if_fsm p;
  mem_transaction := mem_transaction p; branch_recover := r; branch_correct_direction := d;
  branch_destination := t; branch_flushes := n;
  int_mul_div_stall_countdown := int_mul_div_stall_countdown p; icache := icache p;
  dcache := dcache p; l2_cache := l2_cache p; hpm := hpm p |}.
Definition with_countdown v (p : PipelineProcessor RP P) : PipelineProcessor RP P := {|
  halt := halt p; if_pc := if_pc p; if_raw_isnt_buffer := if_raw_isnt_buffer p;
  branch_predictor := branch_predictor p; id_regs := id_regs p; id_op := id_op p;
  exe_op := exe_op p; mem_op := mem_op p; wb_op := wb_op p; if_fsm := if_fsm p;
  mem_transaction := mem_transaction p; branch_recover := branch_recover p;
  branch_correct_direction := branch_correct_direction p;
  branch_destination := branch_destination p; branch_flushes := branch_flushes p;
  int_mul_div_stall_countdown := v; icache := icache p; dcache := dcache p;
  l2_cache := l2_cache p; hpm := hpm p |}.
Definition with_icache v (p : PipelineProcessor RP P) : PipelineProcessor RP P := {|
  halt := halt p; if_pc := if_pc p; if_raw_isnt_buffer := if_raw_isnt_buffer p;
  branch_predictor := branch_predictor p; id_regs := id_regs p; id_op := id_op p;
  exe_op := exe_op p; mem_op := mem_op p; wb_op := wb_op p; if_fsm := if_fsm p;
  mem_transaction := mem_transaction p; branch_recover := branch_recover p;
  branch_correct_direction := branch_correct_direction p;
  branch_destination := branch_destination p; branch_flushes := branch_flushes p;
  int_mul_div_stall_countdown := int_mul_div_stall_countdown p; icache := v; dcache := dcache p;
  l2_cache := l2_cache p; hpm := hpm p |}.
Definition with_dcache v (p : PipelineProcessor RP P) : PipelineProcessor RP P := {|
  halt := halt p; if_pc := if_pc p; if_raw_isnt_buffer := if_raw_isnt_buffer p;
  branch_predictor := branch_predictor p; id_regs := id_regs p; id_op := id_op p;
  exe_op := exe_op p; mem_op := mem_op p; wb_op := wb_op p; if_fsm := if_fsm p;
  mem_transaction := mem_transaction p; branch_recover := branch_recover p;
  branch_correct_direction := branch_correct_direction p;
  branch_destination := branch_destination p; branch_flushes := branch_flushes p;
  int_mul_div_stall_countdown := int_mul_div_stall_countdown p; icache := icache p; dcache := v;
  l2_cache := l2_cache p; hpm := hpm p |}.
Definition with_l2_cache v (p : PipelineProcessor RP P) : PipelineProcessor RP P := {|
  halt := halt p; if_pc := if_pc p; if_raw_isnt_buffer := if_raw_isnt_buffer p;
  branch_predictor := branch_predictor p; id_regs := id_regs p; id_op := id_op p;
  exe_op := exe_op p; mem_op := mem_op p; wb_op := wb_op p; if_fsm := if_fsm p;
  mem_transaction := mem_transaction p; branch_recover := branch_recover p;
  branch_correct_direction := branch_correct_direction p;
  branch_destination := branch_destination p; branch_flushes := branch_flushes p;
  int_mul_div_stall_countdown := int_mul_div_stall_countdown p; icache := icache p;
  dcache := dcache p; l2_cache := v; hpm := hpm p |}.
Definition with_hpm v (p : PipelineProcessor RP P) : PipelineProcessor RP P := {|
  halt := halt p; if_pc := if_pc p; if_raw_isnt_buffer := if_raw_isnt_buffer p;
  branch_predictor := branch_predictor p; id_regs := id_regs p; id_op := id_op p;
  exe_op := exe_op p; mem_op := mem_op p; wb_op := wb_op p; if_fsm := if_fsm p;
  mem_transaction := mem_transaction p; branch_recover := branch_recover p;
  branch_correct_direction := branch_correct_direction p;
  branch_destination := branch_destination p; branch_flushes := branch_flushes p;
  int_mul_div_stall_countdown := int_mul_div_stall_countdown p; icache := icache p;
  dcache := dcache p; l2_cache := l2_cache p; hpm := v |}.
End update.

Section cpu.
Context `{Profile} {RP : Type} `{ReplacementPolicy RP} {P : Type} `{BranchPredict P}.
Context {M : Type} `{AbstractMemoryInterface M}.
Implicit Type p : PipelineProcessor RP P.

Definition new_with_predictor (init_pc : Z)
    (l1i_cache_config l1d_cache_config l2_cache_config : GeneralCacheConfig) (predictor : P)
    : exec (PipelineProcessor RP P) :=
  l2 ← Cache.new l2_cache_config;
  l1i ← Cache.new l1i_cache_config;
  l1d ← Cache.new l1d_cache_config;
  mret {| halt := false; if_pc := init_pc; if_raw_isnt_buffer := None;
          branch_predictor := predictor; id_regs := replicate 32 0; id_op := None;
          exe_op := None; mem_op := None; wb_op := None; if_fsm := FetchIdle;
          mem_transaction := Transaction.default; branch_recover := false;
          branch_correct_direction := false; branch_destination := 0; branch_flushes := 0;
          int_mul_div_stall_countdown := None; icache := l1i; dcache := l1d; l2_cache := l2;
          hpm := PipeStat.default |}.

Definition registers p : list Z := id_regs p.

(** ** IF *)

(** [u32::from_le_bytes(load_bytes[0..=3])] *)
Definition fetched_word (req : MemoryReqType) (h : heap) : exec Z :=
  load_bytes ← Req.load_data req h;
  arr ← slice load_bytes 0 4;
  mret (from_le_bytes arr).

(** a request to the instruction cache; the data of a hit is buffered *)
Definition send_fetch p (req : MemoryReqType) (m : M) (h : heap)
    : exec (bool * PipelineProcessor RP P * M * heap) :=
  '(res, (ic, (l2, m)), h) ← try_register_req (icache p, (l2_cache p, m)) req h;
  let p := with_l2_cache l2 (with_icache ic p) in
  match res with
  | Err _ => mret (false, with_if_fsm (SendingReq req) p, m, h)
  | Ok _ =>
      if negb (Req.is_done req h) then mret (false, with_if_fsm (WaitingComplete req) p, m, h)
      else
        w ← fetched_word req h;
        mret (true, with_buffer (Some w) p, m, h)
  end.

(** the [match self.if_fsm]: [false] when IF must wait *)
Definition fetch_request p (m : M) (h : heap) : exec (bool * PipelineProcessor RP P * M * heap) :=
  match if_fsm p with
  | FetchIdle =>
      let '(new_req, h) := Req.load (if_pc p) 4 h in
      send_fetch p new_req m h
  | SendingReq new_req => send_fetch p new_req m h
  | WaitingComplete inflight_req =>
      if negb (Req.is_done inflight_req h) then mret (false, p, m, h)
      else
        w ← fetched_word inflight_req h;
        mret (true, with_buffer (Some w) p, m, h)
  end.

(** [(raw & 0x7f) as u8] as an opcode, [Op] when unknown *)
Definition opcode_or_op (raw : Z) : OpcodeMap.t :=
  match OpcodeMap.try_from (as_u8 (Z.land raw 127)) with Ok o => o | Err _ => OpcodeMap.Op end.

(** the micro-op handed to ID, and the next pc *)
Definition issue p : exec (PipelineProcessor RP P) :=
  raw_inst ← unwrap (if_raw_isnt_buffer p);
  let opcode := opcode_or_op raw_inst in
  let p := with_buffer None p in
  new_inst ← raw_binary_to_inst raw_inst;
  let p := with_hpm (PipeStat.inst_fetch (hpm p)) p in
  let old_pc := if_pc p in
  match opcode with
  | OpcodeMap.Branch | OpcodeMap.Jal | OpcodeMap.Jalr =>
      let '(bp, bpred) := branch_predict (branch_predictor p) old_pc in
      next ← (if direction bp then mret (addr bp) else word_add 32 old_pc 4);
      mret (with_if_fsm FetchIdle
              (with_id_op (Some (Op.fetched_branch raw_inst new_inst old_pc bp))
                 (with_if_pc next (with_predictor bpred p))))
  | _ =>
      next ← word_add 32 old_pc 4;
      mret (with_if_fsm FetchIdle
              (with_id_op (Some (Op.fetched raw_inst new_inst old_pc)) (with_if_pc next p)))
  end.

Definition pipe_stage_fetch p (m : M) (h : heap) : exec (PipelineProcessor RP P * M * heap) :=
  '(ready, p, m, h) ← fetch_request p m h;
  if negb ready then mret (p, m, h)
  else match id_op p with
  | Some _ => mret (p, m, h)
  | None => p ← issue p; mret (p, m, h)
  end.

(** ** ID *)
Definition pipe_stage_decode p (additional_stall : bool) : exec (PipelineProcessor RP P) :=
  match exe_op p, id_op p with
  | Some _, _ | None, None => mret p
  | None, Some current_op =>
      if additional_stall then mret p
      else
        r ← Decode.decode current_op (id_regs p);
        match r with
        | Err _ => Panic PExplicit
        | Ok op => mret (with_exe_op (Some op) (with_id_op None p))
        end
  end.

(** ** EXE *)

(** [transfer exe_op to mem_op] *)
Definition to_mem (op : PreDecodeMicroOp) p : PipelineProcessor RP P :=
  with_mem_op (Some op) (with_exe_op None p).

(** the branch of a control-flow micro-op *)
Definition resolve (op : PreDecodeMicroOp) p : exec (PipelineProcessor RP P) :=
  b ← Op.branch_resolution_inputs op;
  match b with
  | None => mret p
  | Some b =>
      is_taken ← unwrap (Execute.branch_taken (br_inst b) (br_rs1 b) (br_rs2 b));
      let need_recover := Branch.needs_recovery b is_taken in
      p ← (if need_recover then
             destination ← Branch.recovery_destination b is_taken;
             mret (with_recovery true is_taken destination 3%nat p)
           else mret p);
      mret (with_hpm (PipeStat.solve_branch need_recover (hpm p)) p)
  end.

Definition execute_op (op : PreDecodeMicroOp) p : exec (PipelineProcessor RP P) :=
  '(op1, op2) ← Execute.alu_operands op;
  let op := Op.with_alu_result (Execute.alu_result (alu_op_type op) op1 op2) op in
  let p := match Execute.m_extension_stall (inst op) with
           | Some _ => with_countdown None p
           | None => p
           end in
  let op := if alu_result_as_rd_dst_value op then Op.set_writeback_value (alu_result op) op else op in
  p ← resolve op p;
  mret (to_mem op p).

Definition count_down p : PipelineProcessor RP P :=
  match int_mul_div_stall_countdown p with
  | Some cnt => with_countdown (Some (cnt - 1)%nat) p
  | None => p
  end.

Definition pipe_stage_exe p : exec (PipelineProcessor RP P) :=
  let p := count_down p in
  match mem_op p, exe_op p with
  | Some _, _ | None, None => mret p
  | None, Some current_op =>
      match inst current_op with
      | Inst.Ecall _ => mret (to_mem current_op p)
      | _ =>
          match Execute.m_extension_stall (inst current_op), int_mul_div_stall_countdown p with
          | Some stall_cycles, None => mret (with_countdown (Some stall_cycles) p)
          | _, _ => execute_op current_op p
          end
      end
  end.

(** ** MEM *)
Definition finish_mem (op : PreDecodeMicroOp) (load_value : option Z) p : PipelineProcessor RP P :=
  let op := match load_value with Some v => Op.set_writeback_value v op | None => op end in
  match wb_op p with
  | Some _ => with_mem_op (Some op) p
  | None =>
      with_wb_op (Some op) (with_mem_op None
        (with_transaction (Transaction.reset (mem_transaction p)) p))
  end.

Definition pipe_stage_mem p (m : M) (h : heap) : exec (PipelineProcessor RP P * M * heap) :=
  match mem_op p with
  | None => mret (p, m, h)
  | Some op =>
      access ← Op.memory_access op;
      match access with
      | None => mret (finish_mem op None p, m, h)
      | Some access =>
          '(status, t, (dc, (l2, m)), h) ←
            Transaction.progress (mem_transaction p) (dcache p, (l2_cache p, m)) access h;
          let p := with_transaction t (with_l2_cache l2 (with_dcache dc p)) in
          match status with
          | Pending => mret (p, m, h)
          | Complete load_value => mret (finish_mem op load_value p, m, h)
          end
      end
  end.

(** ** WB *)
Definition pipe_stage_wb p : exec (PipelineProcessor RP P) :=
  match wb_op p with
  | None => mret p
  | Some current_op =>
      p ← match inst current_op with
          | Inst.Ecall _ =>
              reg_a0 ← index (id_regs p) 10;
              _ ← index (id_regs p) 11;
              mret (if reg_a0 =? 0 then with_halt true p else p)
          | _ => mret p
          end;
      let p := with_wb_op None p in
      p ← match Op.writeback current_op with
          | Some (rd_index, rd_write_value) =>
              if negb (rd_index =? 0) then
                regs ← set_index (id_regs p) (Z.to_nat rd_index) rd_write_value;
                mret (with_regs regs p)
              else mret p
          | None => mret p
          end;
      mret (if negb (Op.is_placeholder current_op)
            then with_hpm (PipeStat.inst_ret (hpm p)) p else p)
  end.

(** ** Hazards *)

(** a source operand overridden by the value a later stage is about to write *)
Definition forward_reg (src : option (Z * Z)) (later : option (Z * Z)) : option (Z * Z) :=
  match src, later with
  | Some (r, v), Some (rd, rd_write_value) =>
      if negb (r =? 0) && (r =? rd) then Some (r, rd_write_value) else Some (r, v)
  | _, _ => src
  end.
Definition forward (exe : option PreDecodeMicroOp) (later : option PreDecodeMicroOp)
    : option PreDecodeMicroOp :=
  match exe, later with
  | Some e, Some l =>
      Some (Op.with_rs2 (forward_reg (rs2 e) (Op.writeback l))
              (Op.with_rs1 (forward_reg (rs1 e) (Op.writeback l)) e))
  | _, _ => exe
  end.
(** WB to EXE, then MEM to EXE, which has the newer value *)
Definition pipe_normal_data_hazard_resolve p : PipelineProcessor RP P :=
  with_exe_op (forward (forward (exe_op p) (wb_op p)) (mem_op p)) p.

(** does the raw instruction in ID read register [d]? *)
Definition reads (raw : Z) (d : Z) : exec bool :=
  match OpcodeMap.try_from (as_u8 (Z.land raw 127)) with
  | Err _ => Panic PUnwrap
  | Ok OpcodeMap.Jal | Ok OpcodeMap.Lui | Ok OpcodeMap.Auipc | Ok OpcodeMap.MiscMem
  | Ok OpcodeMap.System => mret false
  | Ok _ =>
      let id_rs1 := as_u8 (Z.land (Z.shiftr raw 15) 31) in
      let id_rs2 := as_u8 (Z.land (Z.shiftr raw 20) 31) in
      mret ((negb (id_rs1 =? 0) && (id_rs1 =? d)) || (negb (id_rs2 =? 0) && (id_rs2 =? d)))
  end.

Definition pipe_load_use_hazard_handle p : exec bool :=
  match id_op p, exe_op p, mem_op p with
  | Some id, None, Some as_exe_op =>
      load ← Op.is_load as_exe_op;
      match (if (load : bool) then Op.destination_register as_exe_op else None) with
      | Some destination =>
          if negb (destination =? 0) then reads (raw_inst id) destination else mret false
      | None => mret false
      end
  | _, _, _ => mret false
  end.

(** ** The clock *)

(** one guarded flush of [tick]: counted, then dropped *)
Definition flush (at_least : nat) (get : PipelineProcessor RP P → option PreDecodeMicroOp)
    (drop : PipelineProcessor RP P → PipelineProcessor RP P) p : PipelineProcessor RP P :=
  if (at_least <=? branch_flushes p)%nat then
    drop (with_hpm (PipeStat.inst_flush (bool_decide (is_Some (get p))) (hpm p)) p)
  else p.

(** [if self.branch_recover { .. }] *)
Definition recover p : exec (PipelineProcessor RP P) :=
  if branch_recover p then
    let p := with_buffer None (with_if_fsm FetchIdle (with_if_pc (branch_destination p) p)) in
    let p := flush 2 id_op (with_id_op None) p in
    let p := flush 3 exe_op (with_exe_op None) p in
    let p := flush 4 mem_op
               (λ p, with_transaction (Transaction.reset (mem_transaction p)) (with_mem_op None p)) p in
    let p := flush 5 wb_op (with_wb_op None) p in
    op ← unwrap (mem_op p);
    let bpred := mispredict_recovery (branch_predictor p) (branch_correct_direction p) (pc op)
                   (branch_destination p) in
    mret (with_recovery false (branch_correct_direction p) (branch_destination p)
            (branch_flushes p) (with_predictor bpred p))
  else mret p.

(** the stages of one cycle *)
Definition stages p (m : M) (h : heap) : exec (PipelineProcessor RP P * M * heap) :=
  let p := pipe_normal_data_hazard_resolve p in
  p ← pipe_stage_wb p;
  '(p, m, h) ← pipe_stage_mem p m h;
  p ← pipe_stage_exe p;
  id_load_use_stall ← pipe_load_use_hazard_handle p;
  p ← pipe_stage_decode p id_load_use_stall;
  '(p, m, h) ← pipe_stage_fetch p m h;
  if (id_load_use_stall : bool) then
    _ ← assert_ (bool_decide (exe_op p = None));
    mret (with_exe_op (Some Op.placeholder_nop) p, m, h)
  else mret (p, m, h).

(** the L1 caches, then the L2 *)
Definition tick_caches p (m : M) (h : heap) : exec (PipelineProcessor RP P * M * heap) :=
  '(ic, (l2, m), h) ← Cache.tick (icache p) (l2_cache p, m) h;
  '(dc, (l2, m), h) ← Cache.tick (dcache p) (l2, m) h;
  '(l2, m, h) ← Cache.tick l2 m h;
  mret (with_l2_cache l2 (with_dcache dc (with_icache ic p)), m, h).

Definition tick p (m : M) (h : heap) : exec (PipelineProcessor RP P * M * heap) :=
  let p := with_hpm (PipeStat.tick (hpm p)) p in
  p ← recover p;
  '(p, m, h) ← stages p m h;
  tick_caches p m h.

Definition get_statistic_info p : PipeStatistic := PipeStat.finalize_rates (hpm p).
End cpu.

Definition new {RP} `{ReplacementPolicy RP} (init_pc : Z)
    (l1i_cache_config l1d_cache_config l2_cache_config : GeneralCacheConfig)
    : exec (PipelineProcessor RP Bimodal.Predictor) :=
  new_with_predictor init_pc l1i_cache_config l1d_cache_config l2_cache_config Bimodal.new.
End Cpu.
