(* ===== verification/Runner.v ===== *)
(** The runner: [simulator/src/sim/runner.rs], with the command line's configuration of it
    ([simulator/src/sim/cli.rs] and [simulation_config] of [simulator/src/main.rs]). *)
From S2P Require Import Prelude Word Instruction BranchPredictor AbstractMem SimpleMem Dram ReplacementPolicy CacheConfig CacheSet GeneralCache Pipe.
From stdpp Require Import base numbers list strings.
From Stdlib Require Import Lia.
#[local] Open Scope Z_scope.
#[local] Existing Instance Dummy.predictor.
#[local] Existing Instance Bimodal.predictor.

(** * Configuration *)

Module ReplacementPolicyKind.
Inductive t := Fifo | Random | Plru.
#[global] Instance t_eq_dec : EqDecision t.
Proof. solve_decision. Defined.
End ReplacementPolicyKind.

Module BranchPredictorKind.
Inductive t := Dummy | Bimodal.
End BranchPredictorKind.

Module BackingMemoryKind.
Inductive t := SimpleMem | SimpleDram (timing : DramTiming).
End BackingMemoryKind.

Record CacheLevelConfig := {
  cl_total_size : Z;
  cl_block_size : Z;
  cl_num_of_way : Z;
  cl_miss_penalty : nat;
}.

Inductive SimulationConfigError :=
  | CacheError (level : string) (source : GeneralCacheConfigError)
  | PseudoLruAssociativity (level : string) (num_of_way : Z).

Record SimulationConfig := {
  l1i : CacheLevelConfig;
  l1d : CacheLevelConfig;
  l2 : CacheLevelConfig;
  replacement_policy : ReplacementPolicyKind.t;
  sim_write_policy : WritePolicy;
  sim_prefetcher_kind : PrefetcherKind;
  backing_memory : BackingMemoryKind.t;
  sim_branch_predictor : BranchPredictorKind.t;
}.

Module Level.
Definition new (total_size block_size num_of_way : Z) (miss_penalty : nat) : CacheLevelConfig :=
  {| cl_total_size := total_size; cl_block_size := block_size; cl_num_of_way := num_of_way;
     cl_miss_penalty := miss_penalty |}.

Definition into_general_cache_config (c : CacheLevelConfig) (name : string)
    (write_policy : WritePolicy) (prefetcher_kind : PrefetcherKind)
    : Result GeneralCacheConfig GeneralCacheConfigError :=
  let? g := Config.new name (cl_total_size c) (cl_block_size c) (cl_num_of_way c) in
  Ok (Config.with_prefetcher_kind prefetcher_kind
        (Config.with_write_policy write_policy
           (Config.with_miss_penalty (cl_miss_penalty c) g))).
End Level.

Module Sim.
#[local] Open Scope string_scope.

(** the levels with their names, in the order of the checks *)
Definition levels (c : SimulationConfig) : list (string * CacheLevelConfig) :=
  [("L1-I$", l1i c); ("L1-D$", l1d c); ("L2$", l2 c)].

(** [for (level, ways) in [..] { if !ways.is_power_of_two() { return Err(..) } }] *)
Fixpoint check_ways (ls : list (string * CacheLevelConfig)) : Result unit SimulationConfigError :=
  match ls with
  | [] => Ok tt
  | (level, l) :: ls =>
      if negb (is_power_of_two (cl_num_of_way l)) then
        Err (PseudoLruAssociativity level (cl_num_of_way l))
      else check_ways ls
  end.

Definition validate_replacement_policy (c : SimulationConfig) : Result unit SimulationConfigError :=
  if negb (bool_decide (replacement_policy c = ReplacementPolicyKind.Plru)) then Ok tt
  else check_ways (levels c).

Definition level_config (c : SimulationConfig) (level : string) (l : CacheLevelConfig)
    : Result GeneralCacheConfig SimulationConfigError :=
  map_err (CacheError level)
    (Level.into_general_cache_config l level (sim_write_policy c) (sim_prefetcher_kind c)).

Definition cache_configs (c : SimulationConfig)
    : Result (GeneralCacheConfig * GeneralCacheConfig * GeneralCacheConfig) SimulationConfigError :=
  let? _ := validate_replacement_policy c in
  let? i := level_config c "L1-I$" (l1i c) in
  let? d := level_config c "L1-D$" (l1d c) in
  let? l := level_config c "L2$" (l2 c) in
  Ok (i, d, l).

Definition default : SimulationConfig := {|
  l1i := Level.new 2048 32 4 2;
  l1d := Level.new 256 32 2 2;
  l2 := Level.new 16384 64 4 10;
  replacement_policy := ReplacementPolicyKind.Fifo;
  sim_write_policy := Policy.default;
  sim_prefetcher_kind := Prefetch.default;
  backing_memory := BackingMemoryKind.SimpleMem;
  sim_branch_predictor := BranchPredictorKind.Bimodal |}.
End Sim.

(** * The command line *)

Module ReplacementPolicyArg.
Inductive t := Fifo | Random | Plru.
Definition into (a : t) : ReplacementPolicyKind.t :=
  match a with
  | Fifo => ReplacementPolicyKind.Fifo
  | Random => ReplacementPolicyKind.Random
  | Plru => ReplacementPolicyKind.Plru
  end.
End ReplacementPolicyArg.

Module WritePolicyArg.
Inductive t := WbWa | WbNwa | WtWa | WtNwa.
Definition into (a : t) : WritePolicy :=
  match a with
  | WbWa => WriteBackWriteAllocate
  | WbNwa => WriteBackNoWriteAllocate
  | WtWa => WriteThroughWriteAllocate
  | WtNwa => WriteThroughNoWriteAllocate
  end.
End WritePolicyArg.

Module PrefetcherArg.
Inductive t := Null | NextLine.
Definition into (a : t) : PrefetcherKind :=
  match a with Null => CacheConfig.Null | NextLine => CacheConfig.NextLine end.
End PrefetcherArg.

Module BranchPredictorArg.
Inductive t := Dummy | Bimodal.
Definition into (a : t) : BranchPredictorKind.t :=
  match a with Dummy => BranchPredictorKind.Dummy | Bimodal => BranchPredictorKind.Bimodal end.
End BranchPredictorArg.

Module BackingMemoryArg.
Inductive t := SimpleMem | Dram.
Definition into (a : t) : BackingMemoryKind.t :=
  match a with
  | SimpleMem => BackingMemoryKind.SimpleMem
  | Dram => BackingMemoryKind.SimpleDram Timing.educational_default
  end.
End BackingMemoryArg.

(** paths are strings *)
Record Args := {
  prog : string;
  elf_dir : string;
  l1i_size : Z; l1i_block : Z; l1i_ways : Z; l1i_penalty : nat;
  l1d_size : Z; l1d_block : Z; l1d_ways : Z; l1d_penalty : nat;
  l2_size : Z; l2_block : Z; l2_ways : Z; l2_penalty : nat;
  arg_rp : ReplacementPolicyArg.t;
  arg_wp : WritePolicyArg.t;
  arg_prefetcher : PrefetcherArg.t;
  arg_bp : BranchPredictorArg.t;
  arg_memory : BackingMemoryArg.t;
  stats_out : option string;
}.

Module Cli.
(** the [default_value_t] of every option; the program has none *)
Definition default_args (name : string) : Args := {|
  prog := name; elf_dir := "../target/riscv32im-unknown-none-elf/debug";
  l1i_size := 2048; l1i_block := 32; l1i_ways := 4; l1i_penalty := 2;
  l1d_size := 256; l1d_block := 32; l1d_ways := 2; l1d_penalty := 2;
  l2_size := 16384; l2_block := 64; l2_ways := 4; l2_penalty := 10;
  arg_rp := ReplacementPolicyArg.Fifo; arg_wp := WritePolicyArg.WbWa;
  arg_prefetcher := PrefetcherArg.Null; arg_bp := BranchPredictorArg.Bimodal;
  arg_memory := BackingMemoryArg.SimpleMem; stats_out := None |}.

Definition simulation_config (args : Args) : SimulationConfig := {|
  l1i := Level.new (l1i_size args) (l1i_block args) (l1i_ways args) (l1i_penalty args);
  l1d := Level.new (l1d_size args) (l1d_block args) (l1d_ways args) (l1d_penalty args);
  l2 := Level.new (l2_size args) (l2_block args) (l2_ways args) (l2_penalty args);
  replacement_policy := ReplacementPolicyArg.into (arg_rp args);
  sim_write_policy := WritePolicyArg.into (arg_wp args);
  sim_prefetcher_kind := PrefetcherArg.into (arg_prefetcher args);
  backing_memory := BackingMemoryArg.into (arg_memory args);
  sim_branch_predictor := BranchPredictorArg.into (arg_bp args) |}.
End Cli.

(** * Running *)

Inductive BackingMemoryReport :=
  | SimpleMemReport
  | SimpleDramReport (row_buffer_hit_cnt row_buffer_miss_cnt : nat).

Record SimulationReport := {
  rep_pipeline : PipeStatistic;
  rep_l1i : CacheStatistic;
  rep_l1d : CacheStatistic;
  rep_l2 : CacheStatistic;
  rep_backing_memory : BackingMemoryReport;
  final_registers : list Z;
}.

Module Runner.
Section run.
Context `{Profile}.

Section machine.
Context {RP : Type} `{ReplacementPolicy RP} {P : Type} `{BranchPredict P}.
Context {M : Type} `{AbstractMemoryInterface M}.

(** one iteration of the loop of [run_with_memory] *)
Definition cycle (p : PipelineProcessor RP P) (m : M) (h : heap)
    : exec (PipelineProcessor RP P * M * heap) :=
  '(p, m, h) ← Cpu.tick p m h;
  '(m, h) ← tick m h;
  mret (p, m, h).

(** [while !cpu.halt { .. }]; [None] when [fuel] iterations do not reach the halt *)
Fixpoint run_loop (fuel : nat) (p : PipelineProcessor RP P) (m : M) (h : heap)
    : exec (option (PipelineProcessor RP P * M * heap)) :=
  if halt p then mret (Some (p, m, h))
  else match fuel with
  | O => mret None
  | S fuel => '(p, m, h) ← cycle p m h; run_loop fuel p m h
  end.

Definition report (memory_report : M → BackingMemoryReport) (p : PipelineProcessor RP P) (m : M)
    : SimulationReport := {|
  rep_pipeline := Cpu.get_statistic_info p;
  rep_l1i := Cache.get_statistic_info (icache p);
  rep_l1d := Cache.get_statistic_info (dcache p);
  rep_l2 := Cache.get_statistic_info (l2_cache p);
  rep_backing_memory := memory_report m;
  final_registers := Cpu.registers p |}.

Definition run_with_memory (predictor : P) (entry_pc : Z) (memory : M) (config : SimulationConfig)
    (memory_report : M → BackingMemoryReport) (fuel : nat)
    : exec (option (Result SimulationReport SimulationConfigError)) :=
  match Sim.cache_configs config with
  | Err e => mret (Some (Err e))
  | Ok (l1i_cfg, l1d_cfg, l2_cfg) =>
      cpu ← Cpu.new_with_predictor entry_pc l1i_cfg l1d_cfg l2_cfg predictor;
      r ← run_loop fuel cpu memory Heap.empty;
      mret (match r with
            | Some (cpu, memory, _) => Some (Ok (report memory_report cpu memory))
            | None => None
            end)
  end.
End machine.

(** [config.branch_predictor.build()]: the predictor is a trait object, so the two kinds are
  two instances of the rest *)
Definition run_with_predictor (RP : Type) `{ReplacementPolicy RP} {M : Type}
    `{AbstractMemoryInterface M} (entry_pc : Z) (memory : M) (config : SimulationConfig)
    (memory_report : M → BackingMemoryReport) (fuel : nat)
    : exec (option (Result SimulationReport SimulationConfigError)) :=
  match sim_branch_predictor config with
  | BranchPredictorKind.Dummy =>
      run_with_memory (RP := RP) Dummy.new entry_pc memory config memory_report fuel
  | BranchPredictorKind.Bimodal =>
      run_with_memory (RP := RP) Bimodal.new entry_pc memory config memory_report fuel
  end.

Definition run_with_policy (RP : Type) `{ReplacementPolicy RP} (entry_pc : Z) (prog_body : list Z)
    (config : SimulationConfig) (fuel : nat)
    : exec (option (Result SimulationReport SimulationConfigError)) :=
  match backing_memory config with
  | BackingMemoryKind.SimpleMem =>
      run_with_predictor RP entry_pc (SimpleMemory.new prog_body) config
        (λ _, SimpleMemReport) fuel
  | BackingMemoryKind.SimpleDram timing =>
      dram ← Dram.new prog_body timing;
      run_with_predictor RP entry_pc dram config
        (λ dram, SimpleDramReport (row_buffer_hit_cnt dram) (row_buffer_miss_cnt dram)) fuel
  end.

(** the answers of the generator that the random policy draws from are a parameter *)
Definition run (random_range : list nat → nat → nat)
    (entry_pc : Z) (prog_body : list Z) (config : SimulationConfig) (fuel : nat)
    : exec (option (Result SimulationReport SimulationConfigError)) :=
  match replacement_policy config with
  | ReplacementPolicyKind.Fifo => run_with_policy Fifo.FifoRP entry_pc prog_body config fuel
  | ReplacementPolicyKind.Random =>
      let _ := RandomRP_ReplacementPolicy random_range in
      run_with_policy Random.RandomRP entry_pc prog_body config fuel
  | ReplacementPolicyKind.Plru =>
      run_with_policy PseudoLru.PseudoLruRP entry_pc prog_body config fuel
  end.
End run.
End Runner.
