(* ===== verification/RunnerSpec.v ===== *)
(** What the configuration checks of the runner promise: which configurations are accepted,
    which error the others get, and that a processor can be built from an accepted one. *)
From S2P Require Import Prelude Word BranchPredictor AbstractMem SimpleMem Dram ReplacementPolicy CacheConfig CacheSet LowerMemory GeneralCache Device CacheView CacheRefinement CacheDevice Hierarchy Pipe Runner.
From stdpp Require Import base numbers list strings.
From Stdlib Require Import Lia.
#[local] Open Scope Z_scope.

(** * The specification *)

(** the numbers of a level are machine words *)
Definition level_words (l : CacheLevelConfig) : Prop :=
  is_usize (cl_total_size l) ∧ is_usize (cl_block_size l) ∧ is_usize (cl_num_of_way l).
Definition level_ok (l : CacheLevelConfig) : Prop :=
  geometry_ok (cl_total_size l) (cl_block_size l) (cl_num_of_way l).
Definition power_ways (l : CacheLevelConfig) : Prop := ∃ k, 0 ≤ k ∧ cl_num_of_way l = 2 ^ k.

(** the ways suit the policy *)
Definition ways_ok (c : SimulationConfig) : Prop :=
  replacement_policy c = ReplacementPolicyKind.Plru → Forall (power_ways ∘ snd) (Sim.levels c).

(** the configuration a level stands for *)
Definition built (c : SimulationConfig) (nl : string * CacheLevelConfig) (cfg : GeneralCacheConfig)
    : Prop :=
  name cfg = fst nl ∧
  Geometry.new (cl_total_size (snd nl)) (cl_block_size (snd nl)) (cl_num_of_way (snd nl)) =
    Ok (geometry cfg) ∧
  CacheConfig.miss_penalty cfg = cl_miss_penalty (snd nl) ∧
  CacheConfig.write_policy cfg = sim_write_policy c ∧
  prefetcher_kind cfg = sim_prefetcher_kind c.

(** the error names the first level that fails its check *)
Definition first_failure (c : SimulationConfig) (e : SimulationConfigError) : Prop :=
  ∃ pre level l post, Sim.levels c = pre ++ (level, l) :: post ∧
  match e with
  | PseudoLruAssociativity lv n =>
      lv = level ∧ n = cl_num_of_way l ∧ replacement_policy c = ReplacementPolicyKind.Plru ∧
      ¬ power_ways l ∧ Forall (power_ways ∘ snd) pre
  | CacheError lv g =>
      lv = level ∧ ways_ok c ∧ ¬ level_ok l ∧ Forall (level_ok ∘ snd) pre ∧
      Geometry.new (cl_total_size l) (cl_block_size l) (cl_num_of_way l) = Err g
  end.

(** * The checks *)

Section checks.
Lemma check_ways_spec ls :
  match Sim.check_ways ls with
  | Ok _ => Forall (power_ways ∘ snd) ls
  | Err (PseudoLruAssociativity lv n) => ∃ pre l post, ls = pre ++ (lv, l) :: post ∧
      n = cl_num_of_way l ∧ ¬ power_ways l ∧ Forall (power_ways ∘ snd) pre
  | Err (CacheError _ _) => False
  end.
Proof.
  induction ls as [|[lv l] ls IH]; [by constructor|]. cbn. unfold power_ways at 1 3.
  destruct (is_power_of_two (cl_num_of_way l)) eqn:E; cbn [negb].
  - apply is_power_of_two_spec in E. destruct (Sim.check_ways ls) as [|[]]; [by constructor|done|].
    destruct IH as (pre & l' & post & -> & ? & ? & ?). exists ((lv, l) :: pre), l', post.
    split_and!; try done. by constructor.
  - exists [], l, ls. split_and!; try done. intros Hp. by rewrite (proj2 (is_power_of_two_spec _) Hp) in E.
Qed.

Lemma validate_spec c :
  match Sim.validate_replacement_policy c with
  | Ok _ => ways_ok c
  | Err e => first_failure c e ∧ ∃ lv n, e = PseudoLruAssociativity lv n
  end.
Proof.
  unfold Sim.validate_replacement_policy, ways_ok.
  destruct (decide (replacement_policy c = ReplacementPolicyKind.Plru)) as [Hp|Hp].
  - rewrite bool_decide_true by done. cbn [negb]. pose proof (check_ways_spec (Sim.levels c)) as Hc.
    destruct (Sim.check_ways (Sim.levels c)) as [|[lv g|lv n]]; [done..|].
    destruct Hc as (pre & l & post & Hl & Hn & Hw & Hf). split; [|by exists lv, n].
    exists pre, lv, l, post. by split_and!.
  - rewrite bool_decide_false by done. cbn [negb]. by intros ?.
Qed.

Lemma level_spec c lv l : level_words l →
  match Sim.level_config c lv l with
  | Ok cfg => built c (lv, l) cfg ∧ level_ok l
  | Err e => ∃ g, e = CacheError lv g ∧ ¬ level_ok l ∧
      Geometry.new (cl_total_size l) (cl_block_size l) (cl_num_of_way l) = Err g
  end.
Proof.
  intros ([Ht _] & [Hb _] & [Hw _]). unfold Sim.level_config, Level.into_general_cache_config, Config.new.
  destruct (Geometry.new (cl_total_size l) (cl_block_size l) (cl_num_of_way l)) as [g|e] eqn:E; cbn.
  - split; [by split_and!|]. by eapply geometry_new_ok.
  - exists e. split_and!; try done. intros Hok. apply geometry_ok_new in Hok as [g Hg]. unfold level_ok in *. congruence.
Qed.
End checks.

(** C19: The configuration check is exact and its errors are precise: on machine words a
    configuration is accepted if and only if every level's geometry is valid and, under
    pseudo-LRU, every associativity is a power of two; the accepted levels carry the sizes,
    policies and penalties asked for; and an error is that of the first level that fails,
    associativities before geometries. *)
Theorem cache_configs_exact (c : SimulationConfig) :
  Forall (level_words ∘ snd) (Sim.levels c) →
  ((∃ cfgs, Sim.cache_configs c = Ok cfgs) ↔ ways_ok c ∧ Forall (level_ok ∘ snd) (Sim.levels c)) ∧
  (∀ i d l, Sim.cache_configs c = Ok (i, d, l) → Forall2 (built c) (Sim.levels c) [i; d; l]) ∧
  (∀ e, Sim.cache_configs c = Err e → first_failure c e).
Proof.
  unfold Sim.levels. intros Hw. inversion_clear Hw as [|? ? Hwi Hw1].
  inversion_clear Hw1 as [|? ? Hwd Hw2]. inversion_clear Hw2 as [|? ? Hwl _]. cbn in Hwi, Hwd, Hwl.
  unfold Sim.cache_configs. pose proof (validate_spec c) as Hv.
  destruct (Sim.validate_replacement_policy c) as [[]|e]; cbn [result_bind].
  2: { destruct Hv as [Hf (lv & n & ->)]. split_and!; [|done|by intros ? [= <-]]. split; [by intros [? ?]|].
       intros [Hways _]. destruct Hf as (pre & level & l & post & Hl & _ & _ & Hp & Hn & _).
       specialize (Hways Hp). rewrite Hl, Forall_app, Forall_cons in Hways. by destruct Hways as (_ & ? & _). }
  pose proof (level_spec c "L1-I$" (l1i c) Hwi) as Hi. destruct (Sim.level_config c "L1-I$" (l1i c)) as [i|e]; cbn.
  2: { destruct Hi as (g & -> & Hn & Hg). split_and!; [|done|].
       - split; [by intros [? ?]|]. intros [_ Hf]. by inversion_clear Hf.
       - intros ? [= <-]. exists [], "L1-I$"%string, (l1i c), [("L1-D$"%string, l1d c); ("L2$"%string, l2 c)].
         by split_and!. }
  destruct Hi as [Hbi Hi].
  pose proof (level_spec c "L1-D$" (l1d c) Hwd) as Hd. destruct (Sim.level_config c "L1-D$" (l1d c)) as [d|e]; cbn.
  2: { destruct Hd as (g & -> & Hn & Hg). split_and!; [|done|].
       - split; [by intros [? ?]|]. intros [_ Hf]. inversion_clear Hf as [|? ? _ Hf']. by inversion_clear Hf'.
       - intros ? [= <-]. exists [("L1-I$"%string, l1i c)], "L1-D$"%string, (l1d c), [("L2$"%string, l2 c)].
         split_and!; try done. by rewrite Forall_cons. }
  destruct Hd as [Hbd Hd].
  pose proof (level_spec c "L2$" (l2 c) Hwl) as Hl. destruct (Sim.level_config c "L2$" (l2 c)) as [l|e]; cbn.
  2: { destruct Hl as (g & -> & Hn & Hg). split_and!; [|done|].
       - split; [by intros [? ?]|]. intros [_ Hf]. inversion_clear Hf as [|? ? _ Hf'].
         inversion_clear Hf' as [|? ? _ Hf'']. by inversion_clear Hf''.
       - intros ? [= <-]. exists [("L1-I$"%string, l1i c); ("L1-D$"%string, l1d c)], "L2$"%string, (l2 c), [].
         split_and!; try done. by rewrite !Forall_cons. }
  destruct Hl as [Hbl Hl]. split_and!; [|intros ? ? ? [= <- <- <-]; by rewrite !Forall2_cons | done].
  split; [|eauto]. intros _. split; [done|]. by rewrite !Forall_cons.
Qed.

Lemma cache_configs_exact_witness :
  ¬ (∃ cfgs, Sim.cache_configs {| l1i := Level.new 2048 32 4 2; l1d := Level.new 384 32 3 2;
       l2 := Level.new 16384 64 4 10; replacement_policy := ReplacementPolicyKind.Plru;
       sim_write_policy := Policy.default; sim_prefetcher_kind := Null;
       backing_memory := BackingMemoryKind.SimpleMem;
       sim_branch_predictor := BranchPredictorKind.Dummy |} = Ok cfgs).
Proof.
  match goal with |- context [Sim.cache_configs ?x] => set (c := x) end.
  destruct (cache_configs_exact c) as ((H & _) & _ & _).
  - repeat constructor; cbn; lia.
  - intros Hc. destruct (H Hc) as [Hw _]. specialize (Hw eq_refl).
    inversion_clear Hw as [|? ? _ Hw']. inversion_clear Hw' as [|? ? Hd _].
    pose proof (proj2 (is_power_of_two_spec _) Hd) as Hd'. discriminate Hd'.
Defined.

(** * Building the processor *)

Section build.
Context {RP : Type} `{ReplacementPolicy RP}.

Lemma new_sets_Ret n ways bs : (∃ r : RP, rp_new ways = Ret r) →
  ∃ l : list (GeneralCacheSetUnit RP), Cache.new_sets n ways bs = Ret l.
Proof.
  intros [r Hr]. induction n as [|n [l IH]]; [by exists []|]. cbn. unfold CacheSet.new.
  rewrite Hr, bind_Ret. cbn. rewrite IH. by eexists.
Qed.

Lemma cache_new_Ret cfg : (∃ r : RP, rp_new (Z.to_nat (num_of_way (geometry cfg))) = Ret r) →
  ∃ c : GeneralCache RP, Cache.new cfg = Ret c.
Proof.
  intros Hr. unfold Cache.new.
  destruct (new_sets_Ret (Z.to_nat (num_sets (geometry cfg))) _
    (Z.to_nat (CacheConfig.block_size (geometry cfg))) Hr) as [l ->]. by eexists.
Qed.

(** a processor whose policy accepts the associativity of every level *)
Lemma new_with_predictor_Ret {P} entry_pc i d l (bp : P) :
  Forall (λ cfg, ∃ r : RP, rp_new (Z.to_nat (num_of_way (geometry cfg))) = Ret r) [i; d; l] →
  ∃ p : PipelineProcessor RP P, Cpu.new_with_predictor entry_pc i d l bp = Ret p.
Proof.
  rewrite !Forall_cons. intros (Hi & Hd & Hl & _). unfold Cpu.new_with_predictor.
  destruct (cache_new_Ret l Hl) as [cl ->]. rewrite bind_Ret.
  destruct (cache_new_Ret i Hi) as [ci ->]. rewrite bind_Ret.
  destruct (cache_new_Ret d Hd) as [cd ->]. by eexists.
Qed.
End build.

(** what the policy of a configuration needs to build a processor *)
Definition builds {P : Type} (random_range : list nat → nat → nat)
    (c : SimulationConfig) (entry_pc : Z) (i d l : GeneralCacheConfig) (bp : P) : Prop :=
  match replacement_policy c with
  | ReplacementPolicyKind.Fifo =>
      ∃ p : PipelineProcessor Fifo.FifoRP P, Cpu.new_with_predictor entry_pc i d l bp = Ret p
  | ReplacementPolicyKind.Random =>
      let _ := RandomRP_ReplacementPolicy random_range in
      ∃ p : PipelineProcessor Random.RandomRP P, Cpu.new_with_predictor entry_pc i d l bp = Ret p
  | ReplacementPolicyKind.Plru =>
      ∃ p : PipelineProcessor PseudoLru.PseudoLruRP P, Cpu.new_with_predictor entry_pc i d l bp = Ret p
  end.

(** a level that the theorems on cache hierarchies cover *)
Definition covered (random_range : list nat → nat → nat)
    (random_range_bound : ∀ g n, (0 < n)%nat → (random_range g n < n)%nat)
    (c : SimulationConfig) (cfg : GeneralCacheConfig) : Prop :=
  match replacement_policy c with
  | ReplacementPolicyKind.Fifo => configured Fifo.FifoRP cfg
  | ReplacementPolicyKind.Random =>
      configured Random.RandomRP (H0 := Random_laws random_range random_range_bound) cfg
  | ReplacementPolicyKind.Plru => configured PseudoLru.PseudoLruRP cfg
  end.

Lemma cache_configs_built c i d l : Forall (level_words ∘ snd) (Sim.levels c) →
  Sim.cache_configs c = Ok (i, d, l) →
  ways_ok c ∧ Forall2 (λ nl cfg, built c nl cfg ∧ level_words nl.2) (Sim.levels c) [i; d; l].
Proof.
  unfold Sim.levels. intros Hw. inversion_clear Hw as [|? ? Hwi Hw1].
  inversion_clear Hw1 as [|? ? Hwd Hw2]. inversion_clear Hw2 as [|? ? Hwl _]. cbn in Hwi, Hwd, Hwl.
  unfold Sim.cache_configs. pose proof (validate_spec c) as Hv.
  destruct (Sim.validate_replacement_policy c) as [[]|e]; cbn [result_bind]; [|done].
  pose proof (level_spec c "L1-I$" (l1i c) Hwi) as Hi.
  destruct (Sim.level_config c "L1-I$" (l1i c)) as [i'|]; cbn; [|done].
  pose proof (level_spec c "L1-D$" (l1d c) Hwd) as Hd.
  destruct (Sim.level_config c "L1-D$" (l1d c)) as [d'|]; cbn; [|done].
  pose proof (level_spec c "L2$" (l2 c) Hwl) as Hl.
  destruct (Sim.level_config c "L2$" (l2 c)) as [l'|]; cbn; [|done].
  intros [= <- <- <-]. split; [done|]. rewrite !Forall2_cons. by destruct Hi, Hd, Hl.
Qed.

Lemma built_ways c nl cfg : built c nl cfg → level_words nl.2 →
  num_of_way (geometry cfg) = cl_num_of_way nl.2 ∧ 0 < cl_num_of_way nl.2 ∧ accepted (geometry cfg).
Proof.
  intros (_ & Hg & _) ([Ht _] & [Hb _] & [Hw _]).
  pose proof (geometry_new_inv _ _ _ _ Ht Hb Hw Hg) as (_ & ? & _ & ? & _).
  split_and!; [done..|]. by exists (cl_total_size nl.2), (cl_block_size nl.2), (cl_num_of_way nl.2).
Qed.

(** what the hierarchy theorems ask of an accepted level *)
Lemma built_configured {RP} `{ReplacementLaws RP} c nl cfg : built c nl cfg → level_words nl.2 →
  sim_write_policy c ≠ WriteBackNoWriteAllocate →
  1 ≤ CacheConfig.offset_bit_width (geometry cfg) + CacheConfig.index_bit_width (geometry cfg) ≤ 31 →
  rp_ways (Z.to_nat (cl_num_of_way nl.2)) → configured RP cfg.
Proof.
  intros Hb Hw Hpol Hwid Hrp. destruct (built_ways c nl cfg Hb Hw) as (En & _ & Hacc).
  constructor; [done..| |]; [by rewrite En|]. destruct Hb as (_ & _ & _ & -> & _). done.
Qed.

(** the policy accepts the associativity of an accepted level *)
Lemma accepted_ways c i d l : Forall (level_words ∘ snd) (Sim.levels c) →
  Sim.cache_configs c = Ok (i, d, l) →
  Forall (λ cfg, accepted (geometry cfg) ∧ CacheConfig.write_policy cfg = sim_write_policy c ∧
    (0 < Z.to_nat (num_of_way (geometry cfg)))%nat ∧
    (replacement_policy c = ReplacementPolicyKind.Plru →
       is_power_of_two (Z.of_nat (Z.to_nat (num_of_way (geometry cfg)))) = true)) [i; d; l].
Proof.
  intros Hw Hc. destruct (cache_configs_built c i d l Hw Hc) as [Hways Hb].
  apply Forall_lookup. intros k cfg Hk.
  destruct (Forall2_lookup_r _ _ _ _ _ Hb Hk) as (nl & Hnl & [Hbu Hwo]).
  destruct (built_ways c nl cfg Hbu Hwo) as (-> & Hpos & Hacc).
  split_and!; [done | by destruct Hbu as (_ & _ & _ & -> & _) | lia |].
  intros Hp. specialize (Hways Hp). rewrite Forall_lookup in Hways. specialize (Hways k nl Hnl).
  rewrite Z2Nat.id by lia. by apply is_power_of_two_spec.
Qed.


