(* ===== verification/PipeInvariant.v ===== *)
(** The invariant of the pipeline and its abstraction: which ISA state a processor stands
    for, and what relates the latched micro-ops to it. *)
From S2P Require Import Prelude Word Format Instruction BranchPredictor Uop Execute Decode Datapath AbstractMem ReplacementPolicy MemoryAccess Pipe IsaMachine.
From stdpp Require Import base numbers list.
From Stdlib Require Import Lia.
#[local] Open Scope Z_scope.

(** * Writing back *)

(** the register file once the micro-op in a latch has written back *)
Definition write_back (o : option PreDecodeMicroOp) (rs : list Z) : list Z :=
  match o with
  | Some op => match Op.writeback op with Some (d, v) => set_reg d v rs | None => rs end
  | None => rs
  end.

(** a micro-op past MEM: its destination has its value *)
Definition settled (op : PreDecodeMicroOp) : Prop :=
  ∀ d, rd_index op = Some d → Asm.reg d ∧ ∃ v, rd_write_value op = Some v ∧ is_u32 v.

Definition loads (acc : option MemoryAccess) : bool :=
  match acc with Some a => Access.is_load a | None => false end.

(** a micro-op past EXE: its destination has its value unless it is a load *)
Definition executed_ok (op : PreDecodeMicroOp) : Prop :=
  ∃ acc, Op.memory_access op = Ret acc ∧
    match rd_index op with
    | Some d => Asm.reg d ∧
        if loads acc then rd_write_value op = None
        else ∃ v, rd_write_value op = Some v ∧ is_u32 v
    | None => loads acc = false
    end.

(** * Abstraction *)

Section abstraction.
Context {RP P : Type}.
Implicit Type p : PipelineProcessor RP P.

(** the destination of a load in MEM *)
Definition pending p : option Z :=
  match mem_op p with
  | Some op => match rd_write_value op with Some _ => None | None => rd_index op end
  | None => None
  end.

(** the registers as the micro-op in EXE must see them *)
Definition arch p : list Z := write_back (mem_op p) (write_back (wb_op p) (id_regs p)).

(** the pc of the oldest instruction that has not reached EXE *)
Definition front_pc p : Z := match id_op p with Some d => pc d | None => if_pc p end.

(** the pc of the oldest instruction that has not been executed *)
Definition resume_pc p : Z :=
  if branch_recover p then branch_destination p
  else match exe_op p with
       | Some e => if placeholder e then front_pc p else pc e
       | None => front_pc p
       end.

Definition abs p : IsaState :=
  {| regs := arch p; next_pc := resume_pc p; outstanding := pending p |}.
End abstraction.

(** ** Events *)

(** the load, if any, that entered WB *)
Definition load_event (wb : option PreDecodeMicroOp) : list event :=
  match wb with
  | Some op => match Op.is_load op, rd_write_value op with
               | Ret true, Some v => [Loaded v]
               | _, _ => []
               end
  | None => []
  end.
(** the instruction, if any, that entered MEM *)
Definition exec_event (mem : option PreDecodeMicroOp) : list event :=
  match mem with
  | Some op =>
      if placeholder op then []
      else match Op.memory_access op with
           | Ret acc => [Executed (pc op) (raw_inst op) acc]
           | Panic _ => []
           end
  | None => []
  end.

(** what a cycle from [p] to [p'] did: the load that moved to WB, then the instruction that
    moved to MEM, unless MEM still holds the micro-op it held *)
Definition observe {RP P} (p p' : PipelineProcessor RP P) : list event :=
  load_event (wb_op p') ++
  match mem_op p, wb_op p' with Some _, None => [] | _, _ => exec_event (mem_op p') end.

(** * The invariant *)

(** where IF continued after the instruction at [q] *)
Definition after (q : Z) (bp : option BranchPredictResult) : Z :=
  match bp with Some b => Effect.predicted q b | None => as_u32 (q + 4) end.

(** a micro-op as IF builds it from a fetched word *)
Definition fetched_ok (op : PreDecodeMicroOp) : Prop :=
  ∃ raw i q bp, op = fetched_op raw i q bp ∧ is_u32 raw ∧ raw_binary_to_inst raw = Ret i ∧
    (is_Some bp ↔ is_control_opcode (Cpu.opcode_or_op raw) = true).

Section invariant.
Context `{Profile} {RP P : Type}.
Implicit Type p : PipelineProcessor RP P.

(** the micro-op in EXE is a decoded one whose operands are those of [arch] *)
Definition exact p (e : PreDecodeMicroOp) : Prop :=
  ∃ op, fetched_ok op ∧ Decode.decode op (arch p) = Ret (Ok e).

(** ... once the values of the later stages have been forwarded to it *)
Definition forwardable p (e : PreDecodeMicroOp) : Prop :=
  ∃ e', Cpu.forward (Cpu.forward (Some e) (wb_op p)) (mem_op p) = Some e' ∧ exact p e'.

(** it does not read the destination of a load in MEM *)
Definition hazard_free p (e : PreDecodeMicroOp) : Prop :=
  ∀ d r, pending p = Some d → d ≠ 0 → is_source e r → r ≠ d.

(** the front end follows the predicted path *)
Record front_ok (E : PipelineProcessor RP P → PreDecodeMicroOp → Prop) p : Prop := {
  id_ok : ∀ d, id_op p = Some d → fetched_ok d ∧ after (pc d) (bp_result d) = if_pc p;
  exe_ok : ∀ e, exe_op p = Some e → e = Op.placeholder_nop ∨
    E p e ∧ hazard_free p e ∧ after (pc e) (bp_result e) = front_pc p;
}.

(** a transaction under way is that of the micro-op in MEM *)
Definition transaction_ok p : Prop :=
  match mem_transaction p with
  | TxIdle => True
  | TxSending _ a | TxWaiting _ a =>
      ∃ op, mem_op p = Some op ∧ Op.memory_access op = Ret (Some a)
  | TxComplete _ => False
  end.

Record Inv (E : PipelineProcessor RP P → PreDecodeMicroOp → Prop) p : Prop := {
  inv_len : length (id_regs p) = 32%nat;
  inv_u32 : Forall is_u32 (id_regs p);
  inv_wb : ∀ op, wb_op p = Some op → settled op;
  inv_mem : ∀ op, mem_op p = Some op → executed_ok op;
  inv_tx : transaction_ok p;
  inv_recover : branch_recover p = true → is_Some (mem_op p) ∧ branch_flushes p = 3%nat;
  inv_front : branch_recover p = false → front_ok E p;
}.
End invariant.

(** * Registers *)

Section registers.
Lemma length_set_reg d v rs : length (set_reg d v rs) = length rs.
Proof. unfold set_reg. destruct (_ =? _); [done|]. apply length_insert. Qed.

Lemma set_reg_u32 d v rs : is_u32 v → Forall is_u32 rs → Forall is_u32 (set_reg d v rs).
Proof. intros. unfold set_reg. destruct (_ =? _); [done|]. by apply Forall_insert. Qed.

Lemma reg_set_reg d v rs r : length rs = 32%nat → Asm.reg d → Asm.reg r →
  Effect.reg (set_reg d v rs) r = if negb (r =? 0) && (r =? d) then v else Effect.reg rs r.
Proof.
  unfold Asm.reg, set_reg, Effect.reg. intros.
  destruct (Z.eqb_spec d 0) as [->|]; [by destruct (r =? 0)|].
  destruct (Z.eqb_spec r d) as [->|].
  - rewrite (proj2 (Z.eqb_neq d 0)) by done. by rewrite list_lookup_total_insert_eq by lia.
  - rewrite andb_false_r, list_lookup_total_insert_ne by lia. done.
Qed.

Lemma length_write_back o rs : length (write_back o rs) = length rs.
Proof.
  destruct o as [op|]; [|done]. cbn. destruct (Op.writeback op) as [[d v]|]; [|done].
  apply length_set_reg.
Qed.

(** a latch whose write-back, if any, is that of a register *)
Definition writes_ok (o : option PreDecodeMicroOp) : Prop :=
  ∀ op d v, o = Some op → Op.writeback op = Some (d, v) → Asm.reg d ∧ is_u32 v.

Lemma settled_writes op : settled op → writes_ok (Some op).
Proof.
  intros Hs ? d v [= <-]. unfold Op.writeback.
  destruct (rd_index op) as [d'|] eqn:E; [|done]. destruct (Hs d' E) as (? & v' & -> & ?).
  by intros [= <- <-].
Qed.
Lemma executed_writes op : executed_ok op → writes_ok (Some op).
Proof.
  intros (acc & _ & Ha) ? d v [= <-]. unfold Op.writeback.
  destruct (rd_index op) as [d'|]; [|done]. destruct Ha as [? Ha].
  destruct (loads acc); [by rewrite Ha|]. destruct Ha as (v' & -> & ?). by intros [= <- <-].
Qed.

Lemma write_back_u32 o rs : writes_ok o → Forall is_u32 rs → Forall is_u32 (write_back o rs).
Proof.
  intros Ho. destruct o as [op|]; [|done]. cbn.
  destruct (Op.writeback op) as [[d v]|] eqn:E; [|done].
  destruct (Ho op d v eq_refl E). by apply set_reg_u32.
Qed.

(** the value of register [r] once a latch has written back, from its value [v] before *)
Definition overlay (o : option PreDecodeMicroOp) (r v : Z) : Z :=
  match o with
  | Some op => match Op.writeback op with
               | Some (d, x) => if negb (r =? 0) && (r =? d) then x else v
               | None => v
               end
  | None => v
  end.

Lemma reg_write_back o rs r : length rs = 32%nat → writes_ok o → Asm.reg r →
  Effect.reg (write_back o rs) r = overlay o r (Effect.reg rs r).
Proof.
  intros Hl Ho Hr. destruct o as [op|]; [|done]. cbn.
  destruct (Op.writeback op) as [[d v]|] eqn:E; [|done].
  destruct (Ho op d v eq_refl E). by apply reg_set_reg.
Qed.

Lemma overlay_zero o v : overlay o 0 v = v.
Proof.
  unfold overlay. destruct o as [op|]; [|done]. by destruct (Op.writeback op) as [[d x]|].
Qed.

Lemma overlay_twice o o' r v : overlay o r (overlay o' r (overlay o r (overlay o' r v))) =
  overlay o r (overlay o' r v).
Proof.
  unfold overlay. destruct o as [op|], o' as [op'|]; try done;
    repeat match goal with |- context [Op.writeback ?x] => destruct (Op.writeback x) as [[? ?]|] end;
    repeat match goal with |- context [if ?b then _ else _] => destruct b end; done.
Qed.

Lemma forward_overlay e o :
  Cpu.forward (Some e) o =
    Some (Op.with_rs2 ((λ s, (fst s, overlay o (fst s) (snd s))) <$> rs2 e)
            (Op.with_rs1 ((λ s, (fst s, overlay o (fst s) (snd s))) <$> rs1 e) e)).
Proof.
  destruct e as [??? s1 s2 ??????????], o as [op|]; cbn.
  - destruct (Op.writeback op) as [[d v]|] eqn:E, s1 as [[r1 v1]|], s2 as [[r2 v2]|];
      cbn; rewrite ?E; cbn; repeat (destruct (negb _ && _)); done.
  - by destruct s1 as [[]|], s2 as [[]|].
Qed.
End registers.

(** * Operands and forwarding *)

Section forwarding.
Context `{Profile} {RP P : Type} (p : PipelineProcessor RP P).
Context (Hlen : length (id_regs p) = 32%nat).
Context (Hwb : ∀ op, wb_op p = Some op → settled op).
Context (Hmem : ∀ op, mem_op p = Some op → executed_ok op).

Lemma writes_wb : writes_ok (wb_op p).
Proof using Hwb.
  destruct (wb_op p) as [op|]; [|done]. by apply settled_writes, Hwb.
Qed.
Lemma writes_mem : writes_ok (mem_op p).
Proof using Hmem.
  destruct (mem_op p) as [op|]; [|done]. by apply executed_writes, Hmem.
Qed.

Lemma length_arch : length (arch p) = 32%nat.
Proof using Hlen. unfold arch. by rewrite !length_write_back. Qed.

Lemma arch_u32 : Forall is_u32 (id_regs p) → Forall is_u32 (arch p).
Proof using Hwb Hmem.
  intros. apply write_back_u32; [apply writes_mem|]. apply write_back_u32; [apply writes_wb|done].
Qed.

Lemma reg_arch r : Asm.reg r →
  Effect.reg (arch p) r = overlay (mem_op p) r (overlay (wb_op p) r (Effect.reg (id_regs p) r)).
Proof using All.
  intros. unfold arch. rewrite reg_write_back; [| by rewrite length_write_back | apply writes_mem | done].
  by rewrite reg_write_back by auto using writes_wb.
Qed.

(** forwarding gives the operands of [arch], whether they were read from the register
  file or from [arch] itself *)
Lemma forward_sources e rs : rs = id_regs p ∨ rs = arch p →
  (∀ r, is_source e r → Asm.reg r) →
  Cpu.forward (Cpu.forward (Some (with_sources rs e)) (wb_op p)) (mem_op p) =
    Some (with_sources (arch p) e).
Proof using All.
  intros Hrs Hreg. rewrite !forward_overlay. f_equal.
  assert (Hv : ∀ r, is_source e r →
    overlay (mem_op p) r (overlay (wb_op p) r (Effect.reg rs r)) = Effect.reg (arch p) r).
  { intros r Hr. destruct Hrs as [->| ->]; [by rewrite reg_arch by auto|].
    rewrite reg_arch by auto. by rewrite overlay_twice. }
  destruct e as [??? s1 s2 ??????????].
  destruct s1 as [[r1 v1]|], s2 as [[r2 v2]|]; cbn;
    rewrite ?(Hv r1) by (exists v1; by left); rewrite ?(Hv r2) by (exists v2; by right); done.
Qed.

Lemma is_source_with rs e r : is_source (with_sources rs e) r ↔ is_source e r.
Proof using Type.
  unfold is_source. destruct e as [??? s1 s2 ??????????].
  destruct s1 as [[r1 v1]|], s2 as [[r2 v2]|]; cbn; split; intros [v [E|E]];
    try done; injection E as <- <-; eauto.
Qed.
End forwarding.

(** * Facts about latched micro-ops *)

Section latched.
Context `{Profile}.

Lemma fetched_no_sources op : fetched_ok op → rs1 op = None ∧ rs2 op = None ∧ placeholder op = false.
Proof. intros (? & ? & ? & [b|] & -> & _); done. Qed.

Lemma control_opcode raw i : raw_binary_to_inst raw = Ret i → (∀ z, i ≠ Inst.Illegal z) →
  Cpu.opcode_or_op raw = opcode_of i.
Proof.
  intros Hi Hn. unfold Cpu.opcode_or_op. destruct (raw_opcode _ _ Hi) as [->| ->]; [|done].
  by destruct (Hn raw).
Qed.

Lemma operand_reg raw r : operand_field raw r → Asm.reg r.
Proof. intros [->| ->]; apply acc_reg; lia. Qed.

(** everything about a micro-op decoded from a fetched one *)
Lemma decoded_facts op rs e : fetched_ok op → Decode.decode op rs = Ret (Ok e) →
  ∃ raw i q bp a, op = fetched_op raw i q bp ∧ is_u32 raw ∧ raw_binary_to_inst raw = Ret i ∧
    disassemble i = Ret (Some a) ∧ Asm.valid a ∧ (is_Some bp ↔ Effect.is_control a = true) ∧
    inst e = i ∧ pc e = q ∧ bp_result e = bp ∧ placeholder e = false ∧ raw_inst e = raw ∧
    ∀ r, is_source e r → operand_field raw r ∧ has_operands (opcode_of i) = true ∧
      Cpu.opcode_or_op raw = opcode_of i.
Proof.
  intros Hop Hd. destruct (fetched_no_sources op Hop) as (H1 & H2 & H3).
  destruct (decode_shape op rs e H1 H2 Hd) as [(Er & Ei & Eq & Eb & Ep) Hsrc].
  destruct Hop as (raw & i & q & bp & -> & Hraw & Hi & Hbp).
  assert (Einst : inst (fetched_op raw i q bp) = i) by by destruct bp.
  assert (Hok : (∀ z, i ≠ Inst.Illegal z) ∧ (∀ z, i ≠ Inst.Fence z)).
  { apply decode_inv in Hd as (e0 & Hd & _). unfold Decode.decode_fields in Hd.
    rewrite Einst in Hd. split; intros z ->; discriminate Hd. }
  destruct Hok as [Hill Hfen].
  destruct (disassemble_valid raw i Hraw Hi) as [[z ->] | [[z ->] | (a & Ha & Hv & Hc)]];
    [by destruct (Hill z) | by destruct (Hfen z) |].
  rewrite (control_opcode raw i Hi Hill) in Hbp. rewrite <- Hc in Hbp.
  rewrite Einst in Ei, Hsrc.
  exists raw, i, q, bp, a. split_and!; try done.
  - rewrite Eq. by destruct bp.
  - rewrite Eb. by destruct bp.
  - by rewrite Ep.
  - rewrite Er. by destruct bp.
  - intros r Hr. destruct (Hsrc r Hr) as [? Hf].
    rewrite (raw_binary_to_inst_raw _ _ Hi) in Hf.
    split_and!; [done..|]. by apply control_opcode.
Qed.

Lemma decoded_reg op rs e r : fetched_ok op → Decode.decode op rs = Ret (Ok e) →
  is_source e r → Asm.reg r.
Proof.
  intros Hop Hd Hr. destruct (decoded_facts op rs e Hop Hd) as (raw & i & q & bp & a & Hf).
  do 11 apply proj2 in Hf. destruct (Hf r Hr) as [Hfield _]. by eapply operand_reg.
Qed.
End latched.
