(* ===== verification/PipeRefinement.v ===== *)
(** The pipeline implements the RV32IM machine: every stage preserves the invariant and
    either leaves the abstract state alone or takes a step of the machine; hence every run
    of [tick] from a fresh processor is an execution of the machine. *)
From S2P Require Import Prelude Word Format Instruction BranchPredictor Uop Execute Decode Datapath AbstractMem ReplacementPolicy CacheConfig CacheSet LowerMemory GeneralCache MemoryAccess Pipe IsaMachine PipeInvariant.
From stdpp Require Import base numbers list.
From Stdlib Require Import Lia.
#[local] Open Scope Z_scope.

Section exe_condition.
Context `{Profile} {RP P : Type}.
Implicit Type p : PipelineProcessor RP P.

Lemma exact_sources p e : exact p e → with_sources (arch p) e = e.
Proof.
  intros (op & Hop & Hd). destruct (fetched_no_sources op Hop) as (H1 & H2 & _).
  pose proof (decode_sources _ _ op e eq_refl H1 H2 Hd) as E. rewrite Hd in E. by injection E as <-.
Qed.

Lemma exact_reg p e r : exact p e → is_source e r → Asm.reg r.
Proof.
  intros (op & Hop & Hd) Hr. by eapply decoded_reg.
Qed.

Lemma with_sources_ext rs rs' e :
  (∀ r, is_source e r → Effect.reg rs r = Effect.reg rs' r) →
  with_sources rs e = with_sources rs' e.
Proof.
  intros Hr. unfold with_sources.
  assert (reread rs (rs1 e) = reread rs' (rs1 e)) as ->.
  { destruct (rs1 e) as [[r v]|] eqn:E1; [|done]. cbn. do 2 f_equal. apply Hr. exists v. by left. }
  assert (reread rs (rs2 e) = reread rs' (rs2 e)) as ->; [|done].
  destruct (rs2 e) as [[r v]|] eqn:E2; [|done]. cbn. do 2 f_equal. apply Hr. exists v. by right.
Qed.

(** the decoded micro-op for another register file that agrees on its operands *)
Lemma exact_change p p' e :
  length (arch p) = length (arch p') →
  (∀ r, is_source e r → Effect.reg (arch p') r = Effect.reg (arch p) r) →
  exact p e → exact p' e.
Proof.
  intros Hl Hr He. pose proof (exact_sources p e He) as Hs. destruct He as (op & Hop & Hd).
  exists op. split; [done|]. destruct (fetched_no_sources op Hop) as (H1 & H2 & _).
  rewrite (decode_sources _ _ op e Hl H1 H2 Hd). do 2 f_equal.
  rewrite (with_sources_ext (arch p') (arch p) e) by done. done.
Qed.

Section with_inv.
Context (E : PipelineProcessor RP P → PreDecodeMicroOp → Prop) (p : PipelineProcessor RP P).
Context (Hinv : Inv E p).

Lemma inv_arch : length (arch p) = 32%nat ∧ Forall is_u32 (arch p).
Proof using Hinv.
  split; [by apply length_arch, Hinv | by apply arch_u32; apply Hinv].
Qed.

Lemma exact_forwardable e : exact p e → forwardable p e.
Proof using Hinv.
  intros He. exists e. split; [|done].
  rewrite <- (exact_sources p e He) at 1.
  rewrite forward_sources; try apply Hinv; [by rewrite exact_sources | by right |].
  intros r Hr. by eapply exact_reg.
Qed.

Lemma decoded_forwardable op e : fetched_ok op → Decode.decode op (id_regs p) = Ret (Ok e) →
  forwardable p e.
Proof using Hinv.
  intros Hop Hd. destruct (fetched_no_sources op Hop) as (H1 & H2 & _).
  assert (Hs : with_sources (id_regs p) e = e).
  { pose proof (decode_sources _ _ op e eq_refl H1 H2 Hd) as E'. rewrite Hd in E'. by injection E' as <-. }
  assert (He : exact p (with_sources (arch p) e)).
  { exists op. split; [done|]. eapply decode_sources; [|done..]. by rewrite length_arch, (inv_len _ _ Hinv) by apply Hinv. }
  exists (with_sources (arch p) e). split; [|done].
  rewrite <- Hs at 1. apply forward_sources; try apply Hinv; [by left|].
  intros r Hr. eapply exact_reg; [exact He|]. by apply is_source_with.
Qed.

(** forwarding changes neither the operand registers nor the origin of a micro-op *)
Lemma forwardable_exact e e' :
  Cpu.forward (Cpu.forward (Some e) (wb_op p)) (mem_op p) = Some e' →
  pc e' = pc e ∧ bp_result e' = bp_result e ∧ placeholder e' = placeholder e ∧
  ∀ r, is_source e' r → is_source e r.
Proof using Type.
  clear Hinv. rewrite !forward_overlay. intros [= <-]. split_and!; try done.
  destruct e as [??? s1 s2 ??????????]. intros r [v [Hv|Hv]]; cbn in Hv.
  - destruct s1 as [[r1 v1]|]; [|done]. injection Hv as <- _. exists v1. by left.
  - destruct s2 as [[r2 v2]|]; [|done]. injection Hv as <- _. exists v2. by right.
Qed.
End with_inv.

Lemma nop_forward o o' :
  Cpu.forward (Cpu.forward (Some Op.placeholder_nop) o) o' = Some Op.placeholder_nop.
Proof.
  rewrite !forward_overlay. f_equal. unfold overlay. cbn.
  destruct o as [op|], o' as [op'|]; try (destruct (Op.writeback op) as [[??]|]);
    try (destruct (Op.writeback op') as [[??]|]); done.
Qed.
End exe_condition.

(** * The stages *)

Section stages.
Context `{Profile} {RP : Type} `{ReplacementPolicy RP} {P : Type} `{BranchPredict P}.
Context {M : Type} `{AbstractMemoryInterface M}.
Implicit Types p : PipelineProcessor RP P.
Import Cpu.

(** ** Recovery and forwarding *)

Lemma flush_do n get drop p : (n <= branch_flushes p)%nat →
  flush n get drop p = drop (with_hpm (PipeStat.inst_flush (bool_decide (is_Some (get p))) (hpm p)) p).
Proof. intros. unfold flush. by rewrite (proj2 (Nat.leb_le _ _)). Qed.
Lemma flush_skip n get drop p : (branch_flushes p < n)%nat → flush n get drop p = p.
Proof. intros. unfold flush. by rewrite (proj2 (Nat.leb_gt _ _)). Qed.

(** what recovery leaves: the front end restarts at the branch destination *)
Record recovered p p' : Prop := {
  rec_pc : if_pc p' = branch_destination p;
  rec_regs : id_regs p' = id_regs p;
  rec_id : id_op p' = None;
  rec_exe : exe_op p' = None;
  rec_mem : mem_op p' = mem_op p;
  rec_wb : wb_op p' = wb_op p;
  rec_tx : mem_transaction p' = mem_transaction p;
  rec_flag : branch_recover p' = false;
  rec_halt : halt p' = halt p;
}.

Lemma recover_recovered p p' : branch_recover p = true → branch_flushes p = 3%nat →
  recover p = Ret p' → recovered p p'.
Proof.
  intros Erec Hfl Hr. unfold recover in Hr. rewrite Erec in Hr.
  set (p1 := with_buffer _ _) in Hr. assert (F1 : branch_flushes p1 = 3%nat) by done.
  rewrite (flush_do 2 _ _ p1) in Hr by lia. set (p2 := with_id_op _ _) in Hr.
  assert (F2 : branch_flushes p2 = 3%nat) by done.
  rewrite (flush_do 3 _ _ p2) in Hr by lia. set (p3 := with_exe_op _ _) in Hr.
  assert (F3 : branch_flushes p3 = 3%nat) by done.
  rewrite (flush_skip 4), (flush_skip 5) in Hr by lia.
  apply bind_inv in Hr as (op & _ & [= <-]).
  constructor; reflexivity.
Qed.

(** ... from an empty fetch, and the predictor learns the outcome of the branch in MEM *)
Lemma recover_front p p' op : branch_recover p = true → branch_flushes p = 3%nat →
  mem_op p = Some op → recover p = Ret p' →
  if_fsm p' = FetchIdle ∧ if_raw_isnt_buffer p' = None ∧
  branch_predictor p' = mispredict_recovery (branch_predictor p) (branch_correct_direction p)
    (pc op) (branch_destination p).
Proof.
  intros Erec Hfl Hop Hr. unfold recover in Hr. rewrite Erec in Hr.
  set (p1 := with_buffer _ _) in Hr. rewrite (flush_do 2 _ _ p1) in Hr by (cbn; lia).
  set (p2 := with_id_op _ _) in Hr. rewrite (flush_do 3 _ _ p2) in Hr by (cbn; lia).
  set (p3 := with_exe_op _ _) in Hr. rewrite (flush_skip 4), (flush_skip 5) in Hr by (cbn; lia).
  change (mem_op p3) with (mem_op p) in Hr. rewrite Hop in Hr. by injection Hr as <-.
Qed.

Lemma recover_Ret p op : branch_recover p = true → branch_flushes p = 3%nat → mem_op p = Some op →
  ∃ p', recover p = Ret p'.
Proof.
  intros Erec Hfl Hop. unfold recover. rewrite Erec.
  set (p1 := with_buffer _ _). assert (F1 : branch_flushes p1 = 3%nat) by done.
  rewrite (flush_do 2 _ _ p1) by lia. set (p2 := with_id_op _ _).
  assert (F2 : branch_flushes p2 = 3%nat) by done.
  rewrite (flush_do 3 _ _ p2) by lia. set (p3 := with_exe_op _ _).
  assert (F3 : branch_flushes p3 = 3%nat) by done.
  rewrite (flush_skip 4), (flush_skip 5) by lia.
  change (mem_op p3) with (mem_op p). rewrite Hop. by eexists.
Qed.

Lemma recover_ok p p' : Inv forwardable p → recover p = Ret p' →
  Inv forwardable p' ∧ branch_recover p' = false ∧ abs p' = abs p.
Proof.
  intros Hinv Hr. destruct (branch_recover p) eqn:Erec.
  - pose proof (inv_recover _ _ Hinv Erec) as [[op Hop] Hfl].
    destruct (recover_recovered p p' Erec Hfl Hr) as [Epc Er Eid Ee Em Ew Et Ef _].
    split; [|split; [done|]].
    + constructor; unfold transaction_ok; rewrite ?Er, ?Ew, ?Em, ?Et, ?Ef; try apply Hinv; [done|].
      intros _. constructor; rewrite ?Eid, ?Ee; done.
    + unfold abs, arch, resume_pc, pending, front_pc. by rewrite Er, Ew, Em, Ef, Eid, Ee, Epc, Erec.
  - unfold recover in Hr. rewrite Erec in Hr. by injection Hr as <-.
Qed.

Lemma forward_ok p : Inv forwardable p → branch_recover p = false →
  let p' := pipe_normal_data_hazard_resolve p in
  Inv exact p' ∧ branch_recover p' = false ∧ abs p' = abs p.
Proof.
  intros Hinv Hrec p'. split; [|split; [done|]].
  - constructor; try apply Hinv. intros _. destruct (inv_front _ _ Hinv Hrec) as [Hid Hexe].
    constructor; [done|]. subst p'. cbn. intros e He.
    destruct (exe_op p) as [e0|] eqn:E0; [|discriminate He].
    destruct (Hexe e0 eq_refl) as [->|((e' & Hf & Hx) & Hh & Ha)].
    { left. rewrite nop_forward in He. by injection He as <-. }
    right. destruct (forwardable_exact p e0 e He) as (-> & -> & _ & Hs).
    rewrite Hf in He. injection He as <-. split_and!; [exact Hx | | done].
    intros d r Hd Hz Hr. by apply (Hh d r Hd Hz), Hs.
  - subst p'. unfold abs, arch, resume_pc, pending, front_pc. cbn. f_equal.
    rewrite Hrec. destruct (exe_op p) as [e0|]; [|by destruct (wb_op p), (mem_op p)].
    rewrite !forward_overlay. done.
Qed.
(** ** WB *)

(** the fields that only the front end and the execution stages change *)
Record same_front p p' : Prop := {
  sf_pc : if_pc p' = if_pc p;
  sf_id : id_op p' = id_op p;
  sf_exe : exe_op p' = exe_op p;
  sf_recover : branch_recover p' = branch_recover p;
  sf_dest : branch_destination p' = branch_destination p;
  sf_flushes : branch_flushes p' = branch_flushes p;
}.

Lemma wb_spec p p' : pipe_stage_wb p = Ret p' →
  same_front p p' ∧ id_regs p' = write_back (wb_op p) (id_regs p) ∧ wb_op p' = None ∧
  mem_op p' = mem_op p ∧ mem_transaction p' = mem_transaction p.
Proof.
  unfold pipe_stage_wb. destruct (wb_op p) as [op|] eqn:Ewb.
  2: { intros [= <-]. by split_and!; [constructor|..]. }
  intros Hw. apply bind_inv in Hw as (p1 & E1 & Hw).
  assert (Hp1 : p1 = p ∨ p1 = with_halt true p).
  { destruct (inst op); try (injection E1 as <-; by left).
    apply bind_inv in E1 as (a0 & _ & E1). apply bind_inv in E1 as (a1 & _ & E1).
    injection E1 as <-. destruct (a0 =? 0); auto. }
  clear E1. apply bind_inv in Hw as (p2 & E2 & Hw).
  assert (Hp2 : same_front p p2 ∧ id_regs p2 = write_back (Some op) (id_regs p) ∧ wb_op p2 = None ∧
    mem_op p2 = mem_op p ∧ mem_transaction p2 = mem_transaction p).
  { cbn [write_back]. destruct (Op.writeback op) as [[d v]|].
    - unfold set_reg. destruct (d =? 0); cbn [negb] in E2.
      + injection E2 as <-. destruct Hp1 as [->| ->]; by split_and!; [constructor|..].
      + apply bind_inv in E2 as (rs & E2 & [= <-]). apply set_index_inv in E2 as [_ ->].
        destruct Hp1 as [->| ->]; by split_and!; [constructor|..].
    - injection E2 as <-. destruct Hp1 as [->| ->]; by split_and!; [constructor|..]. }
  injection Hw as <-. destruct Hp2 as ([] & ? & ? & ? & ?).
  destruct (negb _); by split_and!; [constructor|..].
Qed.

(** the simulation halts when an ECALL retires with a zero a0 *)
Lemma wb_halt p p' : pipe_stage_wb p = Ret p' → halt p' = true →
  halt p = true ∨ ∃ op x, wb_op p = Some op ∧ inst op = Inst.Ecall x ∧ Effect.reg (id_regs p) 10 = 0.
Proof.
  unfold pipe_stage_wb. destruct (wb_op p) as [op|]; [|intros [= <-]; by left].
  intros Hw Hh. apply bind_inv in Hw as (p1 & E1 & Hw). apply bind_inv in Hw as (p2 & E2 & Hw).
  assert (halt p2 = halt p1) as Eh.
  { destruct (Op.writeback op) as [[d v]|]; [|by injection E2 as <-].
    destruct (negb (d =? 0)); [|by injection E2 as <-].
    by apply bind_inv in E2 as (rs & _ & [= <-]). }
  assert (halt p' = halt p1) as Eh'.
  { injection Hw as <-. by destruct (negb _). }
  rewrite Hh in Eh'. destruct (inst op) eqn:Ei; try (injection E1 as <-; by left).
  apply bind_inv in E1 as (a0 & Ea0 & E1). apply bind_inv in E1 as (a1 & _ & E1).
  apply index_inv in Ea0. injection E1 as <-. destruct (Z.eqb_spec a0 0) as [->|]; [|by left].
  right. exists op. eexists. split_and!; [done..|].
  unfold Effect.reg. rewrite list_lookup_total_alt. change (Z.to_nat 10) with 10%nat. by rewrite Ea0.
Qed.

Lemma wb_ok p p' : Inv exact p → branch_recover p = false → pipe_stage_wb p = Ret p' →
  Inv exact p' ∧ branch_recover p' = false ∧ wb_op p' = None ∧ abs p' = abs p.
Proof.
  intros Hinv Hrec Hw. destruct (wb_spec p p' Hw) as ([Epc Eid Ee Er Ed Ef] & Eregs & Ewb & Em & Et).
  assert (Ha : arch p' = arch p) by (unfold arch; by rewrite Em, Ewb, Eregs).
  assert (Hpend : pending p' = pending p) by (unfold pending; by rewrite Em).
  split; [|split_and!; [congruence|done|]].
  - constructor; unfold transaction_ok; rewrite ?Er, ?Ewb, ?Em, ?Et, ?Ef; try apply Hinv.
    + rewrite Eregs, length_write_back. apply Hinv.
    + rewrite Eregs. apply write_back_u32; [|apply Hinv]. by apply writes_wb; apply Hinv.
    + done.
    + intros _. destruct (inv_front _ _ Hinv Hrec) as [Hid Hexe].
      constructor; rewrite ?Eid, ?Ee, ?Epc; [done|]. unfold exact, hazard_free, front_pc.
      rewrite Ha, Hpend, Eid, Epc. apply Hexe.
  - unfold abs, resume_pc, front_pc. by rewrite Ha, Hpend, Eid, Ee, Epc, Er, Ed.
Qed.
(** ** MEM *)

Lemma loaded_u32 a bytes v : Access.loaded_value a bytes = Ret v → is_u32 v.
Proof.
  destruct a as [ad w e|]; [|done]. unfold Access.loaded_value. intros Hl.
  apply bind_inv in Hl as (? & _ & Hl). apply bind_inv in Hl as (word & Ew & Hl).
  apply write_slice_inv in Ew as (? & ? & ->).
  assert (is_u32 (from_le_bytes (take 0 (replicate 4 0) ++ bytes ++ drop (0 + length bytes) (replicate 4 0)))).
  { apply from_le_bytes_u32. rewrite length_write_slice by done. done. }
  injection Hl as <-. destruct w, e; try done; by apply wrap_range.
Qed.

(** the answer of a finished access: a word for a load, nothing for a store *)
Definition answers (a : MemoryAccess) (lv : option Z) : Prop :=
  if Access.is_load a then ∃ v, lv = Some v ∧ is_u32 v else lv = None.

Definition progresses (a : MemoryAccess) (st : MemoryTransactionStatus) (t : MemoryTransaction) : Prop :=
  match st with
  | Complete lv => answers a lv
  | Pending => ∃ r, t = TxSending r a ∨ t = TxWaiting r a
  end.

Lemma complete_answers req a h st t :
  Transaction.complete req a h = Ret (st, t) → progresses a st t.
Proof.
  unfold Transaction.complete. intros Hc. apply bind_inv in Hc as (lv & E & [= <- <-]).
  cbn. unfold answers. destruct (Access.is_load a).
  - apply bind_inv in E as (bytes & _ & E). apply bind_inv in E as (v & E & [= <-]).
    exists v. split; [done|]. by eapply loaded_u32.
  - by injection E as <-.
Qed.

Lemma send_progresses {D} `{AbstractMemoryInterface D} (d : D) req a h st t d' h' :
  Transaction.send d req a h = Ret (st, t, d', h') → progresses a st t.
Proof.
  unfold Transaction.send. intros Hs. apply bind_inv in Hs as ([[res d1] h1] & _ & Hs).
  destruct res; [|injection Hs as <- <- _ _; exists req; by left].
  destruct (Req.is_done req h1).
  - apply bind_inv in Hs as ([st1 t1] & E & [= <- <- _ _]). by eapply complete_answers.
  - injection Hs as <- <- _ _. exists req. by right.
Qed.

Lemma progress_progresses {D} `{AbstractMemoryInterface D} t (d : D) a h st t' d' h' :
  match t with TxSending _ b | TxWaiting _ b => b = a | TxComplete _ => False | TxIdle => True end →
  Transaction.progress t d a h = Ret (st, t', d', h') → progresses a st t'.
Proof.
  destruct t as [|r b|r b|]; cbn [Transaction.progress]; intros Hb Hp; [| subst b ..|done].
  - apply bind_inv in Hp as ([req h1] & _ & Hp). by eapply send_progresses.
  - by eapply send_progresses.
  - destruct (Req.is_done r h).
    + apply bind_inv in Hp as ([st1 t1] & E & [= <- <- _ _]). by eapply complete_answers.
    + injection Hp as <- <- _ _. exists r. by right.
Qed.

(** what the MEM stage did: nothing, or it moved its micro-op, with its answer, to WB *)
Definition mem_done p p' : Prop := ∃ op acc lv,
  mem_op p = Some op ∧ Op.memory_access op = Ret acc ∧
  match acc with Some a => answers a lv | None => lv = None end ∧
  mem_op p' = None ∧ mem_transaction p' = TxIdle ∧
  wb_op p' = Some (match lv with Some v => Op.set_writeback_value v op | None => op end).

Definition mem_wait p p' : Prop :=
  wb_op p' = None ∧ mem_op p' = mem_op p ∧
  match mem_op p with
  | None => mem_transaction p' = mem_transaction p
  | Some op => ∃ a r, Op.memory_access op = Ret (Some a) ∧
      (mem_transaction p' = TxSending r a ∨ mem_transaction p' = TxWaiting r a)
  end.

Lemma mem_spec p m h p' m' h' : wb_op p = None → transaction_ok p →
  pipe_stage_mem p m h = Ret (p', m', h') →
  same_front p p' ∧ id_regs p' = id_regs p ∧ (mem_wait p p' ∨ mem_done p p').
Proof.
  intros Hwb Htx. unfold pipe_stage_mem. destruct (mem_op p) as [op|] eqn:Em.
  2: { intros [= <- _ _]. split; [constructor; done|]. split; [done|]. left.
       unfold mem_wait. by rewrite Em. }
  intros Hm. apply bind_inv in Hm as (acc & Ea & Hm). destruct acc as [a|].
  - apply bind_inv in Hm as ([[[st t] [dc [l2 m1]]] h1] & Ep & Hm).
    assert (Hpr : progresses a st t).
    { eapply (progress_progresses (D := (GeneralCache RP * (GeneralCache RP * M))%type)); [|exact Ep]. unfold transaction_ok in Htx.
      destruct (mem_transaction p); try done; destruct Htx as (op' & Eop & Ea');
        rewrite Em in Eop; injection Eop as <-; rewrite Ea in Ea'; by injection Ea'. }
    destruct st as [|lv].
    + injection Hm as <- _ _. split; [constructor; done|]. split; [done|]. left.
      unfold mem_wait. rewrite Em. split_and!; [done..|]. destruct Hpr as [r Hr]. by exists a, r.
    + injection Hm as <- _ _. unfold finish_mem. cbn [wb_op with_transaction with_l2_cache with_dcache].
      rewrite Hwb. split; [constructor; done|]. split; [done|]. right.
      exists op, (Some a), lv. by split_and!.
  - injection Hm as <- _ _. unfold finish_mem. rewrite Hwb.
    split; [constructor; done|]. split; [done|]. right. exists op, None, None. by split_and!.
Qed.
Lemma same_front_resume p p' : same_front p p' → resume_pc p' = resume_pc p.
Proof. intros [Epc Eid Ee Er Ed _]. unfold resume_pc, front_pc. by rewrite Epc, Eid, Ee, Er, Ed. Qed.

(** a front end that is unchanged stays sound when the registers its micro-op reads do *)
Lemma front_exact p p' : same_front p p' → front_ok exact p →
  length (arch p) = length (arch p') → pending p' = None →
  (∀ e r, hazard_free p e → is_source e r → Asm.reg r →
     Effect.reg (arch p') r = Effect.reg (arch p) r) →
  front_ok exact p'.
Proof.
  intros [Epc Eid Ee _ _ _] [Hid Hexe] Hl Hp Hr.
  constructor; rewrite ?Eid, ?Ee, ?Epc; [done|]. intros e He.
  destruct (Hexe e He) as [->|(Hx & Hh & Ha)]; [by left|right].
  split_and!.
  - apply (exact_change p); [done| |done]. intros r Hs. apply (Hr e); [done..|]. by eapply exact_reg.
  - intros d r Hd. by rewrite Hp in Hd.
  - unfold front_pc. by rewrite Eid, Epc.
Qed.

Lemma mem_wait_ok p p' : Inv exact p → branch_recover p = false → wb_op p = None →
  same_front p p' → id_regs p' = id_regs p → mem_wait p p' →
  Inv exact p' ∧ abs p' = abs p.
Proof.
  intros Hinv Hrec Hwb Hsf Eregs (Ewb & Em & Htx).
  assert (Ha : arch p' = arch p) by (unfold arch; by rewrite Em, Ewb, Hwb, Eregs).
  assert (Hpend : pending p' = pending p) by (unfold pending; by rewrite Em).
  split; [|unfold abs; by rewrite Ha, Hpend, (same_front_resume p p')].
  destruct Hsf as [Epc Eid Ee Er Ed Ef].
  constructor; rewrite ?Eregs, ?Er, ?Ewb, ?Em, ?Ef; try apply Hinv; try done.
  - pose proof (inv_tx _ _ Hinv) as Ht. unfold transaction_ok in *. rewrite Em.
    destruct (mem_op p) as [op|]; [|by rewrite Htx].
    destruct Htx as (a & r & Hacc & [->| ->]); by exists op.
  - intros _. destruct (inv_front _ _ Hinv Hrec) as [Hid Hexe].
    constructor; rewrite ?Eid, ?Ee, ?Epc; [done|]. unfold exact, hazard_free, front_pc.
    rewrite Ha, Hpend, Eid, Epc. apply Hexe.
Qed.

(** what moving to WB does to the registers *)
Lemma mem_done_abs p p' : Inv exact p → wb_op p = None → id_regs p' = id_regs p →
  mem_done p p' →
  (∀ op, wb_op p' = Some op → settled op) ∧ pending p' = None ∧
  ((pending p = None ∧ arch p' = arch p) ∨
   ∃ d v, pending p = Some d ∧ Asm.reg d ∧ is_u32 v ∧
     match wb_op p' with Some op => rd_write_value op = Some v | None => False end ∧
     arch p' = set_reg d v (arch p)).
Proof.
  intros Hinv Hwb Eregs (op & acc & lv & Em & Hacc & Hlv & Em' & _ & Ewb).
  destruct (inv_mem _ _ Hinv op Em) as (acc' & Hacc' & Hop). rewrite Hacc in Hacc'.
  injection Hacc' as <-.
  assert (Hp' : pending p' = None) by (unfold pending; by rewrite Em').
  assert (Harch : arch p' = write_back (wb_op p') (id_regs p)) by (unfold arch; by rewrite Em', Eregs).
  assert (Harch0 : arch p = write_back (Some op) (id_regs p)) by (unfold arch; by rewrite Em, Hwb).
  rewrite Ewb, Harch, Harch0. unfold pending at 2 3. rewrite Em, Ewb.
  assert (Hno : loads acc = false → lv = None).
  { destruct acc as [a|]; [|done]. cbn. intros Hl. unfold answers in Hlv. by rewrite Hl in Hlv. }
  destruct (rd_index op) as [d|] eqn:Erd.
  - destruct Hop as [Hd Hop]. destruct (loads acc) eqn:Hl.
    + destruct acc as [a|]; [|done]. cbn in Hl. unfold answers in Hlv. rewrite Hl in Hlv.
      destruct Hlv as (v & -> & Hv). rewrite Hop. split_and!; [|done|].
      * intros o [= <-] d' Hd'. cbn in Hd'. rewrite Erd in Hd'. injection Hd' as <-. split; [done|].
        by exists v.
      * right. exists d, v. split_and!; try done. cbn. unfold Op.writeback. cbn. by rewrite Erd, Hop.
    + rewrite Hno by done. destruct Hop as (v & Hval & Hv). rewrite Hval. split_and!; [|done|by left].
      intros o [= <-] d' Hd'. rewrite Erd in Hd'. injection Hd' as <-. split; [done|]. by exists v.
  - rewrite Hno by done. split_and!; [|done|left].
    + intros o [= <-] d' Hd'. by rewrite Erd in Hd'.
    + by destruct (rd_write_value op).
Qed.

(** the load that moved to WB is the event of the stage *)
Lemma mem_done_event p p' : Inv exact p → mem_done p p' →
  load_event (wb_op p') =
    match pending p with
    | Some _ => match wb_op p' with
                | Some op => match rd_write_value op with Some v => [Loaded v] | None => [] end
                | None => []
                end
    | None => []
    end.
Proof.
  intros Hinv (op & acc & lv & Em & Hacc & Hlv & _ & _ & ->).
  destruct (inv_mem _ _ Hinv op Em) as (acc' & Hacc' & Hop). rewrite Hacc in Hacc'.
  injection Hacc' as <-. unfold load_event, Op.is_load, pending. rewrite Em.
  assert (E : Op.memory_access (match lv with Some v => Op.set_writeback_value v op | None => op end)
    = Ret acc) by by destruct lv.
  rewrite E, bind_Ret. change (match acc with Some a => Access.is_load a | None => false end) with (loads acc).
  destruct (rd_index op) as [d|].
  - destruct Hop as [_ Hop]. destruct (loads acc); [by rewrite Hop|].
    by destruct Hop as (v & -> & _).
  - rewrite Hop. by destruct (rd_write_value op).
Qed.

Lemma mem_ok p m h p' m' h' : Inv exact p → branch_recover p = false → wb_op p = None →
  pipe_stage_mem p m h = Ret (p', m', h') →
  Inv exact p' ∧ branch_recover p' = false ∧
  isa_steps (abs p) (load_event (wb_op p')) (abs p') ∧
  (mem_wait p p' ∧ abs p' = abs p ∨ mem_done p p') ∧ id_regs p' = id_regs p.
Proof.
  intros Hinv Hrec Hwb Hm. destruct (mem_spec p m h p' m' h' Hwb (inv_tx _ _ Hinv) Hm)
    as (Hsf & Eregs & [Hw|Hdone]); [| pose proof Hdone as (op & acc & lv & Em & _ & _ & Em' & Et & Ewb)].
  - destruct (mem_wait_ok p p') as [Hinv' Habs]; try done. split; [done|].
    split; [by rewrite (sf_recover _ _ Hsf)|]. split; [|split; [by left | done]].
    destruct Hw as (-> & _ & _). rewrite Habs. constructor.
  - destruct (mem_done_abs p p' Hinv Hwb Eregs Hdone) as (Hset & Hp' & Hcase).
    assert (Hlen : length (arch p') = length (arch p)).
    { destruct Hcase as [[_ ->]|(d & v & _ & _ & _ & _ & ->)]; [done|]. apply length_set_reg. }
    pose proof (inv_arch _ p Hinv) as [Hl32 _].
    split; [|split; [by rewrite (sf_recover _ _ Hsf)|split; [|split; [by right | done]]]].
    + constructor; rewrite ?Eregs, ?Em', ?(sf_recover _ _ Hsf); try apply Hinv; try done.
      * unfold transaction_ok. by rewrite Et.
      * by rewrite Hrec.
      * intros _. apply (front_exact p); try done; [by apply Hinv|].
        intros e r Hh Hs Hr. destruct Hcase as [[_ ->]|(d & v & Hp & Hd & _ & _ & ->)]; [done|].
        rewrite reg_set_reg by done. destruct (Z.eqb_spec r 0); [done|]. cbn [negb andb].
        destruct (Z.eqb_spec r d) as [->|]; [|done]. by destruct (Hh d d Hp).
    + rewrite (mem_done_event p p' Hinv Hdone). unfold abs. rewrite Hp', (same_front_resume p p') by done.
      destruct Hcase as [[Hp Ha]|(d & v & Hp & Hd & Hv & Hval & Ha)]; rewrite Hp, Ha; [constructor|].
      rewrite Ewb in Hval |- *. rewrite Hval. by apply steps_one, step_loaded.
Qed.

Lemma mem_halt p m h p' m' h' : pipe_stage_mem p m h = Ret (p', m', h') → halt p' = halt p.
Proof.
  unfold pipe_stage_mem. intros Hm. destruct (mem_op p) as [op|]; [|by injection Hm as <- _ _].
  apply bind_inv in Hm as ([a|] & _ & Hm).
  - apply bind_inv in Hm as ([[[st t] [dc [l2 m1]]] h1] & _ & Hm).
    destruct st; injection Hm as <- _ _; [done|]. unfold finish_mem.
    by destruct (wb_op (with_transaction _ _)).
  - injection Hm as <- _ _. unfold finish_mem. by destruct (wb_op p).
Qed.

(** ** EXE *)

(** the micro-op the EXE stage hands to MEM, and its branch resolution *)
Definition exe_done p p' : Prop := ∃ e op,
  exe_op p = Some e ∧ mem_op p = None ∧ exe_op p' = None ∧ mem_op p' = Some op ∧
  ((∃ x, inst e = Inst.Ecall x) ∧ op = e ∧ branch_recover p' = branch_recover p ∨
   (∀ x, inst e ≠ Inst.Ecall x) ∧ Datapath.execute_op e = Ret op ∧ ∃ r, resolve_branch op = Ret r ∧
     match r with
     | Some (_, Some d) =>
         branch_recover p' = true ∧ branch_destination p' = d ∧ branch_flushes p' = 3%nat
     | _ => branch_recover p' = branch_recover p
     end).

(** the fields the EXE stage leaves alone *)
Record same_around p p' : Prop := {
  sa_pc : if_pc p' = if_pc p;
  sa_id : id_op p' = id_op p;
  sa_regs : id_regs p' = id_regs p;
  sa_wb : wb_op p' = wb_op p;
  sa_tx : mem_transaction p' = mem_transaction p;
  sa_halt : halt p' = halt p;
}.

Lemma resolve_spec op p p' : resolve op p = Ret p' →
  same_around p p' ∧ exe_op p' = exe_op p ∧ mem_op p' = mem_op p ∧
  ∃ r, resolve_branch op = Ret r ∧
    match r with
    | Some (_, Some d) =>
        branch_recover p' = true ∧ branch_destination p' = d ∧ branch_flushes p' = 3%nat
    | _ => branch_recover p' = branch_recover p
    end.
Proof.
  unfold resolve, resolve_branch. intros Hr. apply bind_inv in Hr as (b & -> & Hr).
  rewrite bind_Ret. destruct b as [b|].
  2: { injection Hr as <-. do 3 (split; [done|]). by eexists. }
  apply bind_inv in Hr as (t & -> & Hr). rewrite bind_Ret.
  apply bind_inv in Hr as (p1 & E1 & Hr). injection Hr as <-.
  destruct (Branch.needs_recovery b t).
  - apply bind_inv in E1 as (d & -> & E1). injection E1 as <-. rewrite bind_Ret.
    do 3 (split; [done|]). by eexists.
  - injection E1 as <-. do 3 (split; [done|]). by eexists.
Qed.

Lemma execute_op_spec e p p' : Cpu.execute_op e p = Ret p' →
  same_around p p' ∧ exe_op p' = None ∧ ∃ op, mem_op p' = Some op ∧
  Datapath.execute_op e = Ret op ∧ ∃ r, resolve_branch op = Ret r ∧
    match r with
    | Some (_, Some d) =>
        branch_recover p' = true ∧ branch_destination p' = d ∧ branch_flushes p' = 3%nat
    | _ => branch_recover p' = branch_recover p
    end.
Proof.
  unfold Cpu.execute_op, Datapath.execute_op. intros He. apply bind_inv in He as ([y z] & -> & He).
  rewrite bind_Ret. apply bind_inv in He as (p1 & E1 & He). injection He as <-.
  apply resolve_spec in E1 as ([] & ? & ? & r & Er & Hr).
  split; [|split; [done|]].
  { destruct (Execute.m_extension_stall _); by constructor. }
  eexists. split; [reflexivity|]. split; [reflexivity|]. exists r. split; [exact Er|].
  destruct r as [[t [d|]]|]; try done; by destruct (Execute.m_extension_stall _).
Qed.

Lemma exe_spec p p' : pipe_stage_exe p = Ret p' →
  same_around p p' ∧
  (same_front p p' ∧ mem_op p' = mem_op p ∨ exe_done p p').
Proof.
  unfold pipe_stage_exe. set (p0 := count_down p).
  assert (Hp0 : same_around p p0 ∧ same_front p p0 ∧ mem_op p0 = mem_op p).
  { subst p0. unfold count_down. destruct (int_mul_div_stall_countdown p); by split_and!. }
  destruct Hp0 as ([] & Hsf & Em). pose proof Hsf as [].
  clearbody p0. rewrite Em, sf_exe0.
  destruct (mem_op p) as [op|] eqn:Em0.
  { intros [= <-]. split; [by constructor|]. left. by rewrite Em. }
  destruct (exe_op p) as [e|] eqn:Ee.
  2: { intros [= <-]. split; [by constructor|]. left. by rewrite Em. }
  assert (Hrun : Cpu.execute_op e p0 = Ret p' → (∀ x, inst e ≠ Inst.Ecall x) →
    same_around p p' ∧ (same_front p p' ∧ mem_op p' = None ∨ exe_done p p')).
  { intros Hx Hn. destruct (execute_op_spec e p0 p' Hx) as ([] & ? & op & ? & ? & r & ? & Hr).
    split; [constructor; congruence|]. right. exists e, op. split_and!; try done. right.
    split_and!; try done. exists r. split; [done|].
    destruct r as [[t [d|]]|]; try done; congruence. }
  destruct (inst e) eqn:Ei;
    lazymatch type of Ei with
    | _ = Inst.Ecall _ =>
        intros [= <-]; split; [by constructor|]; right; exists e, e; split_and!; try done; left;
        split_and!; [by eexists|done..]
    | _ => intros Hx; destruct (Execute.m_extension_stall _) as [n|];
        [destruct (int_mul_div_stall_countdown p0); [by apply Hrun|];
         injection Hx as <-; split; [by constructor|]; left; (split; [constructor; cbn; congruence | by cbn; congruence])
        | by apply Hrun]
    end.
Qed.
(** the destination and the access of an effect fit together *)
Lemma effect_ok rs q a : Asm.valid a →
  let ef := Effect.simulated rs q a in
  match Effect.rd ef with
  | Some d => Asm.reg d ∧
      if loads (Effect.access ef) then Effect.value ef = None
      else ∃ v, Effect.value ef = Some v ∧ is_u32 v
  | None => loads (Effect.access ef) = false
  end.
Proof.
  assert (Hw : ∀ z, is_u32 (as_u32 z)) by (intros; by apply wrap_range).
  intros Hv. destruct a as [| | | | | |op d imm|d imm|d r imm|]; cbn in *; try tauto;
    try (split; [tauto | eexists; split; [reflexivity | by apply Hw]]).
  destruct Hv. destruct op; cbn; (split; [done | eexists; split; [reflexivity|]]); [split; lia | apply Hw].
Qed.

Lemma outcome_executed rs q a bp op r : Asm.valid a →
  outcome q (Effect.simulated rs q a) bp op r → executed_ok op.
Proof.
  intros Hv (Erd & Eval & Eacc & _). pose proof (effect_ok rs q a Hv) as He. cbv zeta in He.
  exists (Effect.access (Effect.simulated rs q a)). by rewrite Erd, Eval.
Qed.

(** the micro-op in EXE runs: one instruction of the machine *)
Lemma real_outcome p e op a raw i q bp r :
  length (arch p) = 32%nat → Forall is_u32 (arch p) →
  Decode.decode (fetched_op raw i q bp) (arch p) = Ret (Ok e) → inst e = i →
  disassemble i = Ret (Some a) → Asm.valid a → (is_Some bp ↔ Effect.is_control a = true) →
  ((∃ x, i = Inst.Ecall x) ∧ op = e ∧ r = None ∨
   (∀ x, i ≠ Inst.Ecall x) ∧ Datapath.execute_op e = Ret op ∧ resolve_branch op = Ret r) →
  outcome q (Effect.simulated (arch p) q a) bp op r.
Proof.
  intros Hl Hu Hd Hi Ha Hv Hbp [[[x ->] [-> ->]]|(Hn & He & Hr)].
  - injection Ha as <-. destruct bp as [b|].
    { destruct Hbp as [Hbp _]. discriminate Hbp. by eexists. }
    injection Hd as <-. by split_and!.
  - eapply datapath_sound; try done. intros ->.
    destruct i; cbn in Ha; try discriminate Ha; try (apply asm_inv1 in Ha as (? & _ & [=]); fail).
    by eapply Hn.
Qed.
(** a latch-to-latch move of the NOP that fills a load-use bubble *)
Lemma nop_executes op r : Datapath.execute_op Op.placeholder_nop = Ret op →
  resolve_branch op = Ret r → op = Op.placeholder_nop ∧ r = None.
Proof. intros [= <-] [= <-]. done. Qed.

(** the branch resolution [r] as the processor records it *)
Definition records p (r : option (bool * option Z)) p' : Prop :=
  match r with
  | Some (_, Some d) =>
      branch_recover p' = true ∧ branch_destination p' = d ∧ branch_flushes p' = 3%nat
  | _ => branch_recover p' = branch_recover p
  end.

(** an executed micro-op leaves a sound processor *)
Lemma executed_inv p p' op r : Inv exact p → branch_recover p = false → mem_op p = None →
  same_around p p' → exe_op p' = None → mem_op p' = Some op → executed_ok op →
  records p r p' → Inv exact p' ∧ arch p' = write_back (Some op) (arch p).
Proof.
  intros Hinv Hrec Hm [Epc Eid Er Ew Et _] Ee Em Hop Hr.
  assert (Htx : mem_transaction p = TxIdle).
  { pose proof (inv_tx _ _ Hinv) as Ht. unfold transaction_ok in Ht. rewrite Hm in Ht.
    destruct (mem_transaction p); try done; by destruct Ht as (? & [=] & _). }
  split; [|unfold arch; by rewrite Em, Ew, Er, Hm].
  constructor; rewrite ?Er, ?Ew; try apply Hinv.
  - intros o. rewrite Em. by intros [= <-].
  - unfold transaction_ok. by rewrite Et, Htx.
  - intros Hrec'. rewrite Em. split; [by eexists|].
    destruct r as [[t [d|]]|]; cbn in Hr; [by destruct Hr as (_ & _ & ?)|congruence..].
  - intros _. destruct (inv_front _ _ Hinv Hrec) as [Hid _].
    constructor; rewrite ?Eid, ?Ee, ?Epc; done.
Qed.

Lemma execute_origin e op : Datapath.execute_op e = Ret op → same_origin e op.
Proof.
  unfold Datapath.execute_op. intros He. apply bind_inv in He as ([y z] & _ & [= <-]).
  by destruct (alu_result_as_rd_dst_value _).
Qed.

(** an ECALL that enters MEM *)
Definition ecall_entered p p' : Prop := ∀ op x, mem_op p' = Some op → inst op = Inst.Ecall x →
  ∃ q raw, exec_event (mem_op p') = [Executed q raw None] ∧
    raw_binary_to_inst raw = Ret (Inst.Ecall x) ∧
    abs p = {| regs := arch p; next_pc := q; outstanding := None |} ∧
    arch p' = arch p ∧ rd_index op = None.

Lemma exe_done_ok p p' : Inv exact p → branch_recover p = false → same_around p p' →
  exe_done p p' →
  Inv exact p' ∧ isa_steps (abs p) (exec_event (mem_op p')) (abs p') ∧ ecall_entered p p'.
Proof.
  intros Hinv Hrec Hsa (e & op & Ee & Hm & Ee' & Em' & Hcase).
  pose proof (inv_arch _ p Hinv) as [Hl Hu]. pose proof Hsa as [Epc Eid _ _ _ _].
  assert (Hfront : front_pc p' = front_pc p) by (unfold front_pc; by rewrite Eid, Epc).
  assert (Hpend : pending p = None) by (unfold pending; by rewrite Hm).
  assert (Hrun : ∃ r, records p r p' ∧
    ((∃ x, inst e = Inst.Ecall x) ∧ op = e ∧ r = None ∨
     (∀ x, inst e ≠ Inst.Ecall x) ∧ Datapath.execute_op e = Ret op ∧ resolve_branch op = Ret r)).
  { destruct Hcase as [(Hx & -> & Hr)|(Hn & Hx & r & Hr & Hrr)].
    - exists None. split; [done|]. by left.
    - exists r. split; [|by right]. by destruct r as [[t [d|]]|]. }
  destruct Hrun as (r & Hrec' & Hrun).
  assert (Horig : same_origin e op).
  { destruct Hrun as [(_ & -> & _)|(_ & Hx & _)]; [done|by apply execute_origin]. }
  destruct Horig as (Oraw & Oinst & Opc & _ & Oph).
  destruct (inv_front _ _ Hinv Hrec) as [_ Hexe].
  destruct (Hexe e Ee) as [->|((fop & Hf & Hd) & _ & Hafter)].
  - destruct Hrun as [[[x [=]] _]|(_ & Hx & Hres)].
    destruct (nop_executes op r Hx Hres) as [-> ->].
    assert (Hop : executed_ok Op.placeholder_nop) by (exists None; by split).
    destruct (executed_inv p p' _ None Hinv Hrec Hm Hsa Ee' Em' Hop Hrec') as [Hinv' Ha].
    split; [done|]. split; [|intros o x Ho Hi; rewrite Em' in Ho; by injection Ho as <-].
    assert (abs p' = abs p) as ->; [|rewrite Em'; constructor].
    cbn in Hrec'. unfold abs, resume_pc, pending.
    by rewrite Ha, Ee', Em', Ee, Hrec', Hrec, Hm, Hfront.
  - destruct (decoded_facts fop (arch p) e Hf Hd) as (raw & i & q & bp & a & -> & Hraw & Hi & Ha &
      Hv & Hbp & Einst & Epce & Ebp & Eph & Eraw & _).
    rewrite Einst in Hrun.
    pose proof (real_outcome p e op a raw i q bp r Hl Hu Hd Einst Ha Hv Hbp Hrun) as Hout.
    destruct (executed_inv p p' op r Hinv Hrec Hm Hsa Ee' Em') as [Hinv' Harch];
      [by eapply outcome_executed | done |].
    split; [done|]. pose proof Hout as (Erd & Eval & Eacc & Hnext).
    assert (Hev : exec_event (mem_op p') =
      [Executed q raw (Effect.access (Effect.simulated (arch p) q a))]).
    { rewrite Em'. cbn. by rewrite Oph, Eph, Eacc, Opc, Epce, Oraw, Eraw. }
    assert (Habs : abs p = {| regs := arch p; next_pc := q; outstanding := None |}).
    { unfold abs, resume_pc. by rewrite Hpend, Hrec, Ee, Eph, Epce. }
    rewrite Hev. split.
    + assert (abs p' = commit (Effect.simulated (arch p) q a) (arch p)) as ->.
      { unfold abs, commit. rewrite Harch. f_equal.
        - cbn. unfold Op.writeback. rewrite Erd, Eval. by destruct (Effect.rd _), (Effect.value _).
        - rewrite Epce, Ebp in Hafter. unfold resume_pc. rewrite Ee', Hfront, <- Hafter.
          destruct bp as [b|], r as [[t [d|]]|]; cbn in Hrec', Hnext |- *; try done;
            [by destruct Hrec' as (-> & -> & _) | by rewrite Hrec', Hrec | by rewrite Hrec', Hrec].
        - unfold pending. rewrite Em', Erd, Eval. by destruct (Effect.value _). }
      rewrite Habs. apply steps_one. by eapply step_executed.
    + intros o x Ho Hix. rewrite Em' in Ho. injection Ho as <-. rewrite Oinst, Einst in Hix.
      rewrite Hix in Ha, Hi. injection Ha as <-. exists q, raw. rewrite Hev, Harch. split_and!; try done.
      cbn. unfold Op.writeback. by rewrite Erd.
Qed.

Lemma exe_ok_stage p p' : Inv exact p → branch_recover p = false → pipe_stage_exe p = Ret p' →
  Inv exact p' ∧ same_around p p' ∧
  (mem_op p' = mem_op p ∧ abs p' = abs p ∨
   mem_op p = None ∧ is_Some (mem_op p') ∧ isa_steps (abs p) (exec_event (mem_op p')) (abs p') ∧
   ecall_entered p p').
Proof.
  intros Hinv Hrec He. destruct (exe_spec p p' He) as [Hsa [[Hsf Em]|Hdone]].
  2: { destruct (exe_done_ok p p' Hinv Hrec Hsa Hdone) as (? & ? & ?).
       split_and!; [done..|]. right. destruct Hdone as (e & op & _ & ? & _ & Em' & _).
       rewrite Em' in *. by split_and!. }
  pose proof Hsa as [_ _ Er Ew Et _].
  assert (Ha : arch p' = arch p) by (unfold arch; by rewrite Em, Ew, Er).
  assert (Hpend : pending p' = pending p) by (unfold pending; by rewrite Em).
  split_and!; [|done|].
  - pose proof Hsf as [Epc Eid Ee Erec Ed Ef].
    constructor; unfold transaction_ok; rewrite ?Er, ?Ew, ?Em, ?Et, ?Erec, ?Ef; try apply Hinv.
    intros _. destruct (inv_front _ _ Hinv Hrec) as [Hid Hexe].
    constructor; rewrite ?Eid, ?Ee, ?Epc; [done|]. unfold exact, hazard_free, front_pc.
    rewrite Ha, Hpend, Eid, Epc. apply Hexe.
  - left. split; [done|]. unfold abs. by rewrite Ha, Hpend, (same_front_resume p p').
Qed.

(** ** ID *)

Lemma exact_inv p : Inv exact p → Inv forwardable p.
Proof.
  intros Hinv. constructor; try apply Hinv. intros Hrec.
  destruct (inv_front _ _ Hinv Hrec) as [Hid Hexe]. constructor; [done|]. intros e He.
  destruct (Hexe e He) as [->|(Hx & Hh & Ha)]; [by left|right]. split_and!; [|done..].
  by eapply exact_forwardable.
Qed.

(** the load-use check covers every operand of the decoded micro-op *)
Lemma reads_false raw d i r : reads raw d = Ret false → operand_field raw r →
  has_operands (opcode_of i) = true → opcode_or_op raw = opcode_of i → d ≠ 0 → r ≠ d.
Proof.
  unfold reads, opcode_or_op, operand_field. intros Hr Hf Hop Ho Hd ->.
  destruct (OpcodeMap.try_from _) as [o|]; [|done]. subst o.
  assert (Hr' : (negb (as_u8 (Z.land (Z.shiftr raw 15) 31) =? 0) &&
      (as_u8 (Z.land (Z.shiftr raw 15) 31) =? d)) ||
    (negb (as_u8 (Z.land (Z.shiftr raw 20) 31) =? 0) &&
      (as_u8 (Z.land (Z.shiftr raw 20) 31) =? d)) = false).
  { destruct (opcode_of i); first [discriminate Hop | exact (Ret_inj _ _ Hr)]. }
  clear Hr. generalize dependent (as_u8 (Z.land (Z.shiftr raw 15) 31)).
  generalize (as_u8 (Z.land (Z.shiftr raw 20) 31)). intros x2 x1 Hf Hr.
  apply orb_false_iff in Hr as [H3 H4].
  destruct Hf; subst; rewrite ?Z.eqb_refl, ?andb_true_r in *;
    by rewrite (proj2 (Z.eqb_neq _ 0)) in * by done.
Qed.

Lemma load_use_clear p d : Inv exact p → pending p = Some d → d ≠ 0 →
  pipe_load_use_hazard_handle p = Ret false → exe_op p = None →
  ∀ op, id_op p = Some op → reads (raw_inst op) d = Ret false.
Proof.
  intros Hinv Hpend Hd Hh Hexe op Hid. unfold pending in Hpend. unfold pipe_load_use_hazard_handle in Hh.
  rewrite Hid, Hexe in Hh. destruct (mem_op p) as [mop|] eqn:Em; [|done].
  destruct (rd_write_value mop) eqn:Eval; [done|].
  destruct (inv_mem _ _ Hinv mop Em) as (acc & Hacc & Hop). rewrite Hpend in Hop.
  destruct Hop as [_ Hop]. destruct (loads acc) eqn:Hl.
  2: { destruct Hop as (v & Hv & _). by rewrite Eval in Hv. }
  unfold Op.is_load in Hh. rewrite Hacc, !bind_Ret in Hh. unfold loads in Hl. rewrite Hl in Hh.
  unfold Op.destination_register in Hh. rewrite Hpend in Hh. by destruct (Z.eqb_spec d 0).
Qed.

Lemma decode_ok p b p' : Inv exact p → pipe_load_use_hazard_handle p = Ret b →
  pipe_stage_decode p b = Ret p' →
  Inv forwardable p' ∧ abs p' = abs p ∧ (b = true → exe_op p' = None).
Proof.
  intros Hinv Hh Hd. assert (Hb : b = true → exe_op p = None ∧ p' = p).
  { intros ->. unfold pipe_load_use_hazard_handle in Hh. unfold pipe_stage_decode in Hd.
    destruct (id_op p), (exe_op p), (mem_op p); try discriminate Hh; by injection Hd as <-. }
  unfold pipe_stage_decode in Hd.
  assert (Hsame : Ret p = Ret p' → Inv forwardable p' ∧ abs p' = abs p ∧ (b = true → exe_op p' = None)).
  { intros [= <-]. split_and!; [by apply exact_inv | done |]. intros Hb'. by apply Hb. }
  destruct (exe_op p) as [e0|] eqn:Eexe; [by apply Hsame|].
  destruct (id_op p) as [op|] eqn:Eid; [|by apply Hsame].
  destruct b; [by apply Hsame|]. clear Hsame.
  apply bind_inv in Hd as ([e|] & Hdec & Hd); [|done]. injection Hd as <-.
  assert (Hnew : branch_recover p = false → fetched_ok op ∧ after (pc op) (bp_result op) = if_pc p).
  { intros Hrec. by apply (inv_front _ _ Hinv Hrec). }
  assert (Hshape : branch_recover p = false → pc e = pc op ∧ placeholder e = false ∧
    forwardable p e ∧ hazard_free p e ∧ bp_result e = bp_result op).
  { intros Hrec. destruct (Hnew Hrec) as [Hop _].
    pose proof (decoded_forwardable _ p Hinv op e Hop Hdec) as Hfwd.
    destruct (decoded_facts op _ e Hop Hdec) as (raw & i & q & bp & a & -> & _ & _ & _ & _ & _ & _ &
      Eq & Eb & Ep & _ & Hsrc).
    split_and!; try done; [by destruct bp| |by destruct bp].
    intros d r Hpend Hd Hr. destruct (Hsrc r Hr) as (Hf & Ho & Hc).
    eapply reads_false; [|done..].
    pose proof (load_use_clear p d Hinv Hpend Hd Hh Eexe _ Eid) as Hreads. by destruct bp. }
  split_and!; [|unfold abs, resume_pc, front_pc; cbn|done].
  - constructor; try apply Hinv. intros Hrec. destruct (Hshape Hrec) as (Epc & Eph & Hf & Hz & Eb).
    constructor; [done|]. intros e' [= <-]. right. split_and!; [exact Hf | exact Hz |].
    rewrite Epc, Eb. by apply Hnew.
  - rewrite Eexe, Eid. destruct (branch_recover p) eqn:Hrec; [done|].
    destruct (Hshape eq_refl) as (Epc & Eph & _). by rewrite Epc, Eph.
Qed.
(** ** IF *)

(** the fields behind the front end *)
Record same_back p p' : Prop := {
  sb_regs : id_regs p' = id_regs p;
  sb_exe : exe_op p' = exe_op p;
  sb_mem : mem_op p' = mem_op p;
  sb_wb : wb_op p' = wb_op p;
  sb_tx : mem_transaction p' = mem_transaction p;
  sb_recover : branch_recover p' = branch_recover p;
  sb_dest : branch_destination p' = branch_destination p;
  sb_flushes : branch_flushes p' = branch_flushes p;
  sb_halt : halt p' = halt p;
  sb_direction : branch_correct_direction p' = branch_correct_direction p;
}.

(** a request leaves the latches alone; when it is answered, the buffer holds a word *)
Definition requested p (ready : bool) p' : Prop :=
  same_back p p' ∧ id_op p' = id_op p ∧ if_pc p' = if_pc p ∧
  (ready = true → ∃ w, if_raw_isnt_buffer p' = Some w ∧ is_u32 w).

Lemma fetched_word_u32 r h w : fetched_word r h = Ret w → is_u32 w.
Proof.
  unfold fetched_word. intros Hw. apply bind_inv in Hw as (bytes & _ & Hw).
  apply bind_inv in Hw as (arr & E & [= <-]). apply slice_inv in E as [Hl ->].
  apply from_le_bytes_u32. rewrite length_slice by done. lia.
Qed.

Lemma send_requested p r m h b p' m' h' :
  send_fetch p r m h = Ret (b, p', m', h') → requested p b p'.
Proof.
  unfold send_fetch. intros Hs. apply bind_inv in Hs as ([[res [ic [l2 m1]]] h1] & _ & Hs).
  destruct res.
  - destruct (negb _).
    + injection Hs as <- <- _ _. split_and!; done.
    + apply bind_inv in Hs as (w & Ew & Hs). injection Hs as <- <- _ _.
      split_and!; try done. intros _. exists w. split; [done|]. by eapply fetched_word_u32.
  - injection Hs as <- <- _ _. split_and!; done.
Qed.

Lemma fetch_requested p m h b p' m' h' :
  fetch_request p m h = Ret (b, p', m', h') → requested p b p'.
Proof.
  unfold fetch_request. destruct (if_fsm p) as [|r|r].
  - destruct (Req.load _ _ _) as [r h0]. apply send_requested.
  - apply send_requested.
  - destruct (negb _).
    + intros [= <- <- _ _]. split_and!; done.
    + intros Hs. apply bind_inv in Hs as (w & Ew & Hs). injection Hs as <- <- _ _.
      split_and!; try done. intros _. exists w. split; [done|]. by eapply fetched_word_u32.
Qed.

(** an issued micro-op continues at the pc IF moves to *)
Definition issued p p' : Prop := ∃ d,
  id_op p' = Some d ∧ fetched_ok d ∧ pc d = if_pc p ∧ after (pc d) (bp_result d) = if_pc p'.

Lemma issue_spec p p' w : if_raw_isnt_buffer p = Some w → is_u32 w → issue p = Ret p' →
  same_back p p' ∧ issued p p'.
Proof.
  intros Hb Hw Hi. unfold issue in Hi. rewrite Hb in Hi. cbn [unwrap] in Hi. rewrite bind_Ret in Hi.
  apply bind_inv in Hi as (i & Ei & Hi).
  cbn [if_pc branch_predictor with_hpm with_buffer] in Hi.
  assert (Hcontrol : is_control_opcode (opcode_or_op w) = true →
    ∀ bp bpred next, (if direction bp then mret (addr bp) else word_add 32 (if_pc p) 4) = Ret next →
    p' = with_if_fsm FetchIdle (with_id_op (Some (Op.fetched_branch w i (if_pc p) bp))
      (with_if_pc next (with_predictor bpred
        (with_hpm (PipeStat.inst_fetch (hpm p)) (with_buffer None p))))) →
    same_back p p' ∧ issued p p').
  { intros Hc bp bpred next Hn ->. split; [done|]. eexists. split; [reflexivity|]. split_and!.
    - exists w, i, (if_pc p), (Some bp). by split_and!.
    - done.
    - cbn. unfold Effect.predicted. destruct (direction bp); [by injection Hn as <-|].
      by apply narrow_inv in Hn as [-> _]. }
  assert (Hseq : is_control_opcode (opcode_or_op w) = false →
    ∀ next, word_add 32 (if_pc p) 4 = Ret next →
    p' = with_if_fsm FetchIdle (with_id_op (Some (Op.fetched w i (if_pc p)))
      (with_if_pc next (with_hpm (PipeStat.inst_fetch (hpm p)) (with_buffer None p)))) →
    same_back p p' ∧ issued p p').
  { intros Hc next Hn ->. split; [done|]. eexists. split; [reflexivity|]. split_and!.
    - exists w, i, (if_pc p), None. split_and!; try done. rewrite Hc.
      split; [by intros [? ?] | done].
    - done.
    - cbn. by apply narrow_inv in Hn as [-> _]. }
  destruct (opcode_or_op w);
    first [ apply bind_inv in Hi as (next & En & [= <-]); by eapply Hseq
          | destruct (branch_predict _ _) as [bp bpred]; apply bind_inv in Hi as (next & En & [= <-]);
            by eapply Hcontrol ].
Qed.

Lemma fetch_spec p m h p' m' h' : pipe_stage_fetch p m h = Ret (p', m', h') →
  same_back p p' ∧
  (id_op p' = id_op p ∧ if_pc p' = if_pc p ∨ id_op p = None ∧ issued p p').
Proof.
  unfold pipe_stage_fetch. intros Hf.
  apply bind_inv in Hf as ([[[b p1] m1] h1] & Er & Hf).
  destruct (fetch_requested _ _ _ _ _ _ _ Er) as (Hsb & Eid & Epc & Hbuf).
  destruct b; cbn [negb] in Hf; [|injection Hf as <- _ _; split; [done|by left]].
  destruct (id_op p1) as [d|] eqn:Eid1.
  - injection Hf as <- _ _. split; [done|]. left. by rewrite <- Eid.
  - apply bind_inv in Hf as (p2 & Ei & [= <- _ _]). destruct (Hbuf eq_refl) as (w & Hw & Hu).
    destruct (issue_spec p1 p2 w Hw Hu Ei) as [[] Hiss]. destruct Hsb.
    split; [constructor; congruence|]. right. split; [congruence|].
    destruct Hiss as (d & Ed & Hd & Epcd & Hafter). exists d. by rewrite <- Epc.
Qed.

(** the invariant depends on the latches only *)
Lemma back_inv p p' : Inv forwardable p → same_back p p' →
  (branch_recover p = false → front_ok forwardable p') → Inv forwardable p'.
Proof.
  intros Hinv [Er Ee Em Ew Et Erec Ed Ef _ _] Hfront.
  constructor; unfold transaction_ok; rewrite ?Er, ?Ew, ?Em, ?Et, ?Erec, ?Ef; try apply Hinv. done.
Qed.

Lemma back_front p p' : Inv forwardable p → branch_recover p = false → same_back p p' →
  front_pc p' = front_pc p →
  (∀ d, id_op p' = Some d → fetched_ok d ∧ after (pc d) (bp_result d) = if_pc p') →
  front_ok forwardable p'.
Proof.
  intros Hinv Hrec [Er Ee Em Ew Et _ _ _ _ _] Hpc Hid. constructor; [done|].
  rewrite Ee, Hpc. unfold forwardable, exact, hazard_free, arch, pending. rewrite Em, Ew, Er.
  apply (inv_front _ _ Hinv Hrec).
Qed.

Lemma back_abs p p' : same_back p p' → front_pc p' = front_pc p → abs p' = abs p.
Proof.
  intros [Er Ee Em Ew Et Erec Ed Ef _ _] Hpc. unfold abs, arch, pending, resume_pc.
  by rewrite Er, Ee, Em, Ew, Erec, Ed, Hpc.
Qed.

Lemma fetch_ok p m h p' m' h' : Inv forwardable p → pipe_stage_fetch p m h = Ret (p', m', h') →
  Inv forwardable p' ∧ abs p' = abs p ∧ exe_op p' = exe_op p.
Proof.
  intros Hinv Hf. destruct (fetch_spec p m h p' m' h' Hf) as [Hsb Hcase].
  assert (Hpc : front_pc p' = front_pc p).
  { unfold front_pc. destruct Hcase as [[-> ->]|[-> (d & -> & _ & -> & _)]]; done. }
  split_and!; [|by apply back_abs | apply Hsb].
  apply (back_inv p); [done..|]. intros Hrec. apply (back_front p); [done..|].
  destruct Hcase as [[-> ->]|[_ (d & -> & Hd & _ & Ha)]]; [apply (inv_front _ _ Hinv Hrec)|].
  by intros ? [= <-].
Qed.

End stages.
