(* ===== verification/PipeRun.v ===== *)
(** Whole cycles and runs: the trace of a run of the processor is an execution of the RV32IM
    machine, and the registers it reports are those of the machine at the ECALL that halts. *)
From S2P Require Import Prelude Word Format Instruction BranchPredictor Uop Execute Decode Datapath AbstractMem SimpleMem Dram ReplacementPolicy CacheConfig CacheSet LowerMemory GeneralCache MemoryAccess Pipe Runner IsaMachine PipeInvariant PipeRefinement.
From stdpp Require Import base numbers list strings.
From Stdlib Require Import Lia.
#[local] Open Scope Z_scope.

Section marks.
Context `{Profile}.

(** the control transfer [b] of [op], resolved as [taken], went another way than IF did *)
Definition mispredicted (op : PreDecodeMicroOp) (taken : bool) (destination : Z) : Prop :=
  ∃ b, Op.branch_resolution_inputs op = Ret (Some b) ∧
    Execute.branch_taken (br_inst b) (br_rs1 b) (br_rs2 b) = Some taken ∧
    Branch.needs_recovery b taken = true ∧
    Branch.recovery_destination b taken = Ret destination.

(** a pending recovery is that of the control transfer in MEM *)
Definition accounted {RP P} (p : PipelineProcessor RP P) : Prop :=
  branch_recover p = true → branch_flushes p = 3%nat ∧
  ∃ op, mem_op p = Some op ∧ mispredicted op (branch_correct_direction p) (branch_destination p).

(** the trace [evs] from [s0] passes an ECALL with the registers [rs] *)
Definition stopped_at (s0 : IsaState) (evs : list event) (rs : list Z) : Prop :=
  ∃ pre post q raw x, evs = pre ++ Executed q raw None :: post ∧
    raw_binary_to_inst raw = Ret (Inst.Ecall x) ∧
    isa_steps s0 pre {| regs := rs; next_pc := q; outstanding := None |}.

Lemma stopped_later s0 evs evs' rs : stopped_at s0 evs rs → stopped_at s0 (evs ++ evs') rs.
Proof.
  intros (pre & post & q & raw & x & -> & ? & ?). exists pre, (post ++ evs'), q, raw, x.
  split_and!; [|done..]. by rewrite <- app_assoc.
Qed.

Definition is_ecall (op : PreDecodeMicroOp) : Prop := ∃ x, inst op = Inst.Ecall x.

Section processor.
Context {RP P : Type}.
Implicit Type p : PipelineProcessor RP P.

(** the trace so far, and the ECALLs in flight: the registers of the machine at an ECALL are
  those that the older micro-ops are still to write *)
Record marked (s0 : IsaState) (evs : list event) p : Prop := {
  mk_steps : isa_steps s0 evs (abs p);
  mk_mem : ∀ op, mem_op p = Some op → is_ecall op → rd_index op = None ∧ stopped_at s0 evs (arch p);
  mk_wb : ∀ op, wb_op p = Some op → is_ecall op → rd_index op = None ∧ stopped_at s0 evs (id_regs p);
}.

Definition halted (s0 : IsaState) (evs : list event) p : Prop :=
  halt p = true → stopped_at s0 evs (id_regs p) ∧ Effect.reg (id_regs p) 10 = 0.

(** steps that leave the latches behind EXE alone *)
Record kept p p' : Prop := {
  kp_regs : id_regs p' = id_regs p;
  kp_mem : mem_op p' = mem_op p;
  kp_wb : wb_op p' = wb_op p;
  kp_halt : halt p' = halt p;
}.

Lemma kept_marked s0 evs p p' : kept p p' → abs p' = abs p → marked s0 evs p → marked s0 evs p'.
Proof.
  intros [Er Em Ew _] Ha [Hs Hm Hw]. constructor; [by rewrite Ha|..]; rewrite ?Em, ?Ew, ?Er; [|done].
  intros op Ho Hx. unfold arch. rewrite Em, Ew, Er. by apply Hm.
Qed.
Lemma kept_halted s0 evs p p' : kept p p' → halted s0 evs p → halted s0 evs p'.
Proof. intros [Er _ _ Eh]. unfold halted. by rewrite Er, Eh. Qed.
Lemma halted_later s0 evs evs' p : halted s0 evs p → halted s0 (evs ++ evs') p.
Proof. intros Hh Hp. destruct (Hh Hp). split; [by apply stopped_later | done]. Qed.
End processor.
End marks.

Section cycle.
Context `{Profile} {RP : Type} `{ReplacementPolicy RP} {P : Type} `{BranchPredict P}.
Context {M : Type} `{AbstractMemoryInterface M}.
Implicit Types p : PipelineProcessor RP P.
Import Cpu.

(** ** The stages and the marks *)

Lemma no_writeback op : rd_index op = None → Op.writeback op = None.
Proof. intros E. unfold Op.writeback. by rewrite E. Qed.

Lemma wb_marked s0 evs p p' : Inv exact p → branch_recover p = false → halt p = false →
  pipe_stage_wb p = Ret p' → marked s0 evs p → marked s0 evs p' ∧ halted s0 evs p'.
Proof.
  intros Hinv Hrec Hh Hw [Hs Hm Hwb].
  destruct (wb_ok p p' Hinv Hrec Hw) as (_ & _ & _ & Ha).
  destruct (wb_spec p p' Hw) as (_ & Er & Ewb & Em & _).
  assert (Harch : arch p' = arch p) by (unfold arch; by rewrite Em, Ewb, Er).
  split.
  - constructor; [by rewrite Ha | rewrite Em, Harch; apply Hm | by rewrite Ewb].
  - intros Hh'. destruct (wb_halt p p' Hw Hh') as [?|(op & x & Eop & Ex & Ea0)]; [congruence|].
    destruct (Hwb op Eop) as [Erd Hst]; [by exists x|].
    rewrite Er, Eop. cbn. by rewrite (no_writeback op Erd).
Qed.

Lemma ecall_no_load op v : is_ecall op →
  load_event (Some (match v with Some v => Op.set_writeback_value v op | None => op end)) = [].
Proof.
  intros [x Hx]. unfold load_event, Op.is_load, Op.memory_access.
  destruct v; cbn; by rewrite Hx.
Qed.

Lemma mem_marked s0 evs p m h p' m' h' : Inv exact p → branch_recover p = false →
  wb_op p = None → pipe_stage_mem p m h = Ret (p', m', h') →
  marked s0 evs p → marked s0 (evs ++ load_event (wb_op p')) p'.
Proof.
  intros Hinv Hrec Hwb Hm [Hs Hme _].
  destruct (mem_ok p m h p' m' h' Hinv Hrec Hwb Hm) as (_ & _ & Hst & Hcase & Er).
  constructor; [by eapply steps_app|..].
  - intros op Eop Hx. destruct Hcase as [[(Ew & Em & _) _]|(o & _ & _ & _ & _ & _ & Em & _)]; [|congruence].
    assert (arch p' = arch p) as -> by (unfold arch; by rewrite Em, Ew, Er, Hwb).
    rewrite Em in Eop. destruct (Hme op Eop Hx). split; [done|]. by apply stopped_later.
  - intros op' Eop' Hx'. destruct Hcase as [[(Ew & _) _]|Hdone]; [congruence|].
    destruct Hdone as (op & acc & lv & Eop & _ & _ & _ & _ & Ew). rewrite Ew in Eop' |- *.
    injection Eop' as <-.
    assert (Hx : is_ecall op) by (destruct lv; exact Hx').
    rewrite ecall_no_load, app_nil_r by done. destruct (Hme op Eop Hx) as [Erd Hst'].
    split; [by destruct lv|]. unfold arch in Hst'. rewrite Eop, Hwb in Hst'. cbn in Hst'.
    rewrite (no_writeback op Erd) in Hst'. by rewrite Er.
Qed.

Lemma exe_marked s0 evs p p' : Inv exact p → branch_recover p = false → pipe_stage_exe p = Ret p' →
  marked s0 evs p →
  ∃ ev, marked s0 (evs ++ ev) p' ∧
    (mem_op p' = mem_op p ∧ ev = [] ∨ mem_op p = None ∧ ev = exec_event (mem_op p')).
Proof.
  intros Hinv Hrec He [Hs Hme Hwb].
  destruct (exe_ok_stage p p' Hinv Hrec He) as (_ & [_ _ Er Ew _ _] & [[Em Ha]|(Em & _ & Hst & Hec)]).
  - exists []. rewrite app_nil_r. split; [|by left]. constructor; [by rewrite Ha|..].
    + rewrite Em. assert (arch p' = arch p) as -> by (unfold arch; by rewrite Em, Ew, Er). done.
    + by rewrite Ew, Er.
  - exists (exec_event (mem_op p')). split; [|by right]. constructor; [by eapply steps_app|..].
    + intros op Eop [x Hx]. destruct (Hec op x Eop Hx) as (q & raw & Eev & Hraw & Habs & Harch & Erd).
      split; [done|]. exists evs, [], q, raw, x. rewrite Eev, Harch, <- Habs. by split_and!.
    + intros op Eop Hx. rewrite Ew in Eop. destruct (Hwb op Eop Hx). rewrite Er.
      split; [done|]. by apply stopped_later.
Qed.

Lemma back_kept p p' : same_back p p' → kept p p'.
Proof. intros []. by constructor. Qed.

Lemma decode_kept p b p' : pipe_stage_decode p b = Ret p' → kept p p'.
Proof.
  unfold pipe_stage_decode. intros Hd. destruct (exe_op p); [by injection Hd as <-|].
  destruct (id_op p); [|by injection Hd as <-]. destruct b; [by injection Hd as <-|].
  apply bind_inv in Hd as ([e|] & _ & Hd); [|done]. by injection Hd as <-.
Qed.

Lemma kept_trans p p' p'' : kept p p' → kept p' p'' → kept p p''.
Proof. intros [] []. constructor; congruence. Qed.
Lemma kept_refl p : kept p p.
Proof. by constructor. Qed.

(** ** Recoveries *)

Lemma resolve_accounted op p p' : branch_recover p = false → resolve op p = Ret p' →
  branch_recover p' = true → branch_flushes p' = 3%nat ∧
  mispredicted op (branch_correct_direction p') (branch_destination p').
Proof.
  intros Hrec Hr. unfold resolve in Hr. apply bind_inv in Hr as ([b|] & Eb & Hr).
  2: { injection Hr as <-. congruence. }
  apply bind_inv in Hr as (taken & Et & Hr). apply bind_inv in Hr as (p1 & E1 & Hr).
  injection Hr as <-. cbn. destruct (Branch.needs_recovery b taken) eqn:En.
  - apply bind_inv in E1 as (d & Ed & [= <-]). intros _. split; [done|]. exists b.
    split_and!; try done. unfold unwrap in Et. by destruct (Execute.branch_taken _ _ _) as [?|]; [injection Et as ->|].
  - injection E1 as <-. congruence.
Qed.

Lemma exe_accounted p p' : branch_recover p = false → pipe_stage_exe p = Ret p' → accounted p'.
Proof.
  unfold pipe_stage_exe. intros Hrec He. set (p0 := count_down p) in He.
  assert (Hr0 : branch_recover p0 = false).
  { subst p0. unfold count_down. by destruct (int_mul_div_stall_countdown p). }
  clearbody p0. intros Hr'.
  assert (Hrun : ∀ op, Cpu.execute_op op p0 = Ret p' → branch_flushes p' = 3%nat ∧
    ∃ op, mem_op p' = Some op ∧ mispredicted op (branch_correct_direction p') (branch_destination p')).
  { intros op Hx. unfold Cpu.execute_op in Hx. apply bind_inv in Hx as ([op1 op2] & _ & Hx).
    apply bind_inv in Hx as (p1 & E1 & [= <-]). apply resolve_accounted in E1 as [Hf Hm].
    - split; [exact Hf|]. eexists. split; [reflexivity | exact Hm].
    - by destruct (Execute.m_extension_stall _).
    - exact Hr'. }
  destruct (mem_op p0); [injection He as <-; congruence|].
  destruct (exe_op p0) as [e|]; [|injection He as <-; congruence].
  destruct (inst e); try (injection He as <-; cbn in Hr'; congruence);
    destruct (Execute.m_extension_stall _) as [n|]; try (by eapply Hrun);
    destruct (int_mul_div_stall_countdown p0); try (by eapply Hrun);
    injection He as <-; cbn in Hr'; congruence.
Qed.

(** the stages of the front end keep it *)
Lemma accounted_same p p' : mem_op p' = mem_op p → branch_recover p' = branch_recover p →
  branch_correct_direction p' = branch_correct_direction p →
  branch_destination p' = branch_destination p → branch_flushes p' = branch_flushes p →
  accounted p → accounted p'.
Proof. unfold accounted. by intros -> -> -> -> ->. Qed.

Lemma back_accounted p p' : same_back p p' → accounted p → accounted p'.
Proof. intros []. by apply accounted_same. Qed.

Lemma decode_accounted p b p' : pipe_stage_decode p b = Ret p' → accounted p → accounted p'.
Proof.
  unfold pipe_stage_decode. intros Hd. destruct (exe_op p); [by injection Hd as <-|].
  destruct (id_op p); [|by injection Hd as <-]. destruct b; [by injection Hd as <-|].
  apply bind_inv in Hd as ([e|] & _ & Hd); [|done]. injection Hd as <-. by apply accounted_same.
Qed.

(** ** The cycle *)

(** a load-use bubble *)
Lemma nop_ok p : Inv forwardable p → exe_op p = None →
  Inv forwardable (with_exe_op (Some Op.placeholder_nop) p) ∧
  abs (with_exe_op (Some Op.placeholder_nop) p) = abs p.
Proof.
  intros Hinv He. split.
  - constructor; try apply Hinv. intros Hrec. destruct (inv_front _ _ Hinv Hrec) as [Hid _].
    constructor; [done|]. intros e [= <-]. by left.
  - unfold abs, resume_pc. cbn. rewrite He. done.
Qed.

(** from EXE on, a cycle changes nothing behind EXE *)
Lemma front_stages p p' b m h m' h' : Inv exact p → pipe_load_use_hazard_handle p = Ret b →
  (p1 ← pipe_stage_decode p b;
   '(p2, m, h) ← pipe_stage_fetch p1 m h;
   if (b : bool) then
     _ ← assert_ (bool_decide (exe_op p2 = None));
     mret (with_exe_op (Some Op.placeholder_nop) p2, m, h)
   else mret (p2, m, h)) = Ret (p', m', h') →
  Inv forwardable p' ∧ abs p' = abs p ∧ kept p p'.
Proof.
  intros Hinv Eb Hs. apply bind_inv in Hs as (p1 & E1 & Hs).
  destruct (decode_ok p b p1 Hinv Eb E1) as (Hi1 & Ha1 & He1). pose proof (decode_kept p b p1 E1) as Hk1.
  apply bind_inv in Hs as ([[p2 m2] h2] & E2 & Hs).
  destruct (fetch_ok p1 m h p2 m2 h2 Hi1 E2) as (Hi2 & Ha2 & He2).
  pose proof (back_kept _ _ (proj1 (fetch_spec p1 m h p2 m2 h2 E2))) as Hk2.
  assert (Hfin : Inv forwardable p' ∧ abs p' = abs p2 ∧ kept p2 p').
  { destruct b.
    - apply bind_inv in Hs as ([] & _ & [= <- _ _]).
      destruct (nop_ok p2 Hi2) as [??]; [by rewrite He2, He1|]. by split_and!.
    - injection Hs as <- _ _. split_and!; [done..|apply kept_refl]. }
  destruct Hfin as (Hi & Ha & Hk). split_and!; [done|congruence|].
  eapply kept_trans; [exact Hk1|]. by eapply kept_trans.
Qed.

Lemma observe_event p p3 p4 p' ev : wb_op p' = wb_op p4 → mem_op p' = mem_op p4 →
  wb_op p4 = wb_op p3 →
  (wb_op p3 = None ∧ mem_op p3 = mem_op p ∨ is_Some (wb_op p3) ∧ mem_op p3 = None) →
  (mem_op p4 = mem_op p3 ∧ ev = [] ∨ mem_op p3 = None ∧ ev = exec_event (mem_op p4)) →
  observe p p' = load_event (wb_op p3) ++ ev.
Proof.
  intros Ew Em Ew4 H3 H4. unfold observe. rewrite Ew, Em, Ew4. f_equal.
  destruct H3 as [[-> E3]|[[o ->] E3]], H4 as [[E4 ->]|[E4 ->]].
  - rewrite E4, E3. by destruct (mem_op p).
  - rewrite <- E3, E4. done.
  - rewrite E4, E3. by destruct (mem_op p).
  - by destruct (mem_op p).
Qed.

Lemma stages_ok s0 evs p m h p' m' h' : Inv forwardable p → branch_recover p = false →
  halt p = false → marked s0 evs p → stages p m h = Ret (p', m', h') →
  Inv forwardable p' ∧ isa_steps (abs p) (observe p p') (abs p') ∧
  marked s0 (evs ++ observe p p') p' ∧ halted s0 (evs ++ observe p p') p'.
Proof.
  intros Hinv Hrec Hh Hmk Hs. unfold stages in Hs.
  destruct (forward_ok p Hinv Hrec) as (Hi1 & Hr1 & Ha1).
  assert (Hmk1 := kept_marked s0 evs p _ (ltac:(by constructor) : kept p (pipe_normal_data_hazard_resolve p)) Ha1 Hmk).
  set (p1 := pipe_normal_data_hazard_resolve p) in *.
  apply bind_inv in Hs as (p2 & E2 & Hs).
  destruct (wb_ok p1 p2 Hi1 Hr1 E2) as (Hi2 & Hr2 & Hw2 & Ha2).
  destruct (wb_marked s0 evs p1 p2 Hi1 Hr1 Hh E2 Hmk1) as [Hmk2 Hhalt2].
  assert (Em2 : mem_op p2 = mem_op p) by (destruct (wb_spec p1 p2 E2) as (_ & _ & _ & Em & _); exact Em).
  apply bind_inv in Hs as ([[p3 m3] h3] & E3 & Hs).
  destruct (mem_ok p2 m h p3 m3 h3 Hi2 Hr2 Hw2 E3) as (Hi3 & Hr3 & Hst3 & Hcase3 & Er3).
  pose proof (mem_marked s0 evs p2 m h p3 m3 h3 Hi2 Hr2 Hw2 E3 Hmk2) as Hmk3.
  pose proof (mem_halt p2 m h p3 m3 h3 E3) as Hh3.
  apply bind_inv in Hs as (p4 & E4 & Hs).
  destruct (exe_ok_stage p3 p4 Hi3 Hr3 E4) as (Hi4 & Hsa4 & _).
  destruct (exe_marked s0 _ p3 p4 Hi3 Hr3 E4 Hmk3) as (ev & Hmk4 & Hev).
  apply bind_inv in Hs as (b & E5 & Hs).
  destruct (front_stages p4 p' b m3 h3 m' h' Hi4 E5 Hs) as (Hi' & Ha' & Hk').
  assert (Hobs : observe p p' = load_event (wb_op p3) ++ ev).
  { apply (observe_event p p3 p4); [apply Hk' | apply Hk' | apply Hsa4 | | done].
    destruct Hcase3 as [[(? & Em3 & _) _]|(o & acc & lv & _ & _ & _ & Em3 & _ & Ew3)];
      [left; by rewrite Em3, Em2 | right; by rewrite Ew3]. }
  split_and!; [done| | |].
  - rewrite Hobs, Ha'. rewrite <- Ha1, <- Ha2. eapply steps_app; [exact Hst3|].
    destruct (exe_ok_stage p3 p4 Hi3 Hr3 E4) as (_ & _ & [[Em4 Ha4]|(Em3 & Hs4 & Hst4 & _)]).
    + destruct Hev as [[_ ->]|[Em3 ->]]; [rewrite Ha4; constructor|].
      rewrite Em4, Em3, Ha4. constructor.
    + destruct Hev as [[Em4 _]|[_ ->]]; [|done]. rewrite Em4, Em3 in Hs4. by destruct Hs4.
  - rewrite Hobs, app_assoc. by eapply kept_marked.
  - eapply kept_halted; [exact Hk'|]. apply halted_later. unfold halted in *.
    rewrite (sa_halt _ _ Hsa4), Hh3, (sa_regs _ _ Hsa4), Er3. done.
Qed.

Lemma tick_caches_same p m h p' m' h' : tick_caches p m h = Ret (p', m', h') →
  same_back p p' ∧ id_op p' = id_op p ∧ if_pc p' = if_pc p.
Proof.
  unfold tick_caches. intros Ht. apply bind_inv in Ht as ([[ic [l2 m1]] h1] & _ & Ht).
  apply bind_inv in Ht as ([[dc [l2' m2]] h2] & _ & Ht).
  apply bind_inv in Ht as ([[l2'' m3] h3] & _ & [= <- _ _]). by split_and!.
Qed.

Lemma recover_kept p p' : Inv forwardable p → recover p = Ret p' → kept p p'.
Proof.
  intros Hinv Hr. destruct (branch_recover p) eqn:E.
  - destruct (recover_recovered p p' E (proj2 (inv_recover _ _ Hinv E)) Hr). by constructor.
  - unfold recover in Hr. rewrite E in Hr. injection Hr as <-. apply kept_refl.
Qed.

Lemma tick_ok s0 evs p m h p' m' h' : Inv forwardable p → halt p = false → marked s0 evs p →
  Cpu.tick p m h = Ret (p', m', h') →
  Inv forwardable p' ∧ isa_steps (abs p) (observe p p') (abs p') ∧
  marked s0 (evs ++ observe p p') p' ∧ halted s0 (evs ++ observe p p') p'.
Proof.
  intros Hinv Hh Hmk Ht. unfold Cpu.tick in Ht. set (p0 := Cpu.with_hpm _ p) in Ht.
  assert (Hi0 : Inv forwardable p0) by (constructor; try apply Hinv; intros Hr;
    destruct (inv_front _ _ Hinv Hr); by constructor).
  apply bind_inv in Ht as (p1 & E1 & Ht). destruct (recover_ok p0 p1 Hi0 E1) as (Hi1 & Hr1 & Ha1).
  pose proof (recover_kept p0 p1 Hi0 E1) as Hk1.
  assert (Hmk1 : marked s0 evs p1).
  { apply (kept_marked s0 evs p0); [done..|]. by apply (kept_marked s0 evs p). }
  apply bind_inv in Ht as ([[p2 m2] h2] & E2 & Ht).
  assert (Hh1 : halt p1 = false) by by rewrite (kp_halt _ _ Hk1).
  destruct (stages_ok s0 evs p1 m h p2 m2 h2 Hi1 Hr1 Hh1 Hmk1 E2) as (Hi2 & Hst & Hmk2 & Hh2).
  destruct (tick_caches_same _ _ _ _ _ _ Ht) as (Hsb & Eid & Epc).
  pose proof (back_kept p2 p' Hsb) as Hk2.
  assert (Hpc : front_pc p' = front_pc p2) by (unfold front_pc; by rewrite Eid, Epc).
  assert (Ha : abs p' = abs p2) by by apply back_abs.
  assert (Eobs : observe p p' = observe p1 p2).
  { unfold observe. rewrite (kp_wb _ _ Hk2), (kp_mem _ _ Hk2), (kp_mem _ _ Hk1). done. }
  rewrite Eobs. split_and!.
  - apply (back_inv p2); [done..|]. intros Hrec. apply (back_front p2); [done..|].
    rewrite Eid, Epc. apply (inv_front _ _ Hi2 Hrec).
  - rewrite Ha. change (abs p) with (abs p0). by rewrite <- Ha1.
  - by eapply kept_marked.
  - by eapply kept_halted.
Qed.

(** a recovery that a cycle leaves pending is that of the branch it left in MEM *)
Lemma tick_accounted p m h p' m' h' : Inv forwardable p → Cpu.tick p m h = Ret (p', m', h') →
  accounted p'.
Proof.
  intros Hinv Ht. unfold Cpu.tick in Ht. set (p0 := Cpu.with_hpm _ p) in Ht.
  assert (Hi0 : Inv forwardable p0) by (constructor; try apply Hinv; intros Hr;
    destruct (inv_front _ _ Hinv Hr); by constructor).
  apply bind_inv in Ht as (p1 & E1 & Ht). destruct (recover_ok p0 p1 Hi0 E1) as (Hi1 & Hr1 & _).
  apply bind_inv in Ht as ([[p2 m2] h2] & E2 & Ht).
  eapply back_accounted; [by eapply tick_caches_same|]. clear Ht.
  unfold stages in E2. destruct (forward_ok p1 Hi1 Hr1) as (Hi3 & Hr3 & _).
  apply bind_inv in E2 as (p4 & E4 & E2). destruct (wb_ok _ p4 Hi3 Hr3 E4) as (Hi4 & Hr4 & Hw4 & _).
  apply bind_inv in E2 as ([[p5 m5] h5] & E5 & E2).
  destruct (mem_ok p4 m h p5 m5 h5 Hi4 Hr4 Hw4 E5) as (_ & Hr5 & _).
  apply bind_inv in E2 as (p6 & E6 & E2). pose proof (exe_accounted p5 p6 Hr5 E6) as Ha6.
  apply bind_inv in E2 as (b & _ & E2). apply bind_inv in E2 as (p7 & E7 & E2).
  pose proof (decode_accounted p6 b p7 E7 Ha6) as Ha7.
  apply bind_inv in E2 as ([[p8 m8] h8] & E8 & E2).
  pose proof (back_accounted _ _ (proj1 (fetch_spec p7 m5 h5 p8 m8 h8 E8)) Ha7) as Ha8.
  destruct b; [apply bind_inv in E2 as ([] & _ & [= <- _ _]) | by injection E2 as <- _ _].
  revert Ha8. by apply accounted_same.
Qed.
End cycle.

(** * Runs *)

Section run.
Context `{Profile} {RP : Type} `{ReplacementPolicy RP} {P : Type} `{BranchPredict P}.
Context {M : Type} `{AbstractMemoryInterface M}.
Implicit Types p : PipelineProcessor RP P.

(** [n] iterations of the loop of the runner, fewer when the processor halts, with the
  trace of what the pipeline did *)
Fixpoint run_cycles (n : nat) p (m : M) (h : heap)
    : exec (list event * (PipelineProcessor RP P * M * heap)) :=
  match n with
  | O => mret ([], (p, m, h))
  | S n =>
      if halt p then mret ([], (p, m, h))
      else
        '(p1, m1, h1) ← Runner.cycle p m h;
        '(tr, s) ← run_cycles n p1 m1 h1;
        mret (observe p p1 ++ tr, s)
  end.

Definition initial (entry_pc : Z) : IsaState :=
  {| regs := replicate 32 0; next_pc := entry_pc; outstanding := None |}.

Lemma fresh_ok entry_pc i d l bp p : Cpu.new_with_predictor entry_pc i d l bp = Ret p →
  Inv forwardable p ∧ marked (initial entry_pc) [] p ∧ halt p = false.
Proof.
  unfold Cpu.new_with_predictor. intros Hp. apply bind_inv in Hp as (l2 & _ & Hp).
  apply bind_inv in Hp as (ic & _ & Hp). apply bind_inv in Hp as (dc & _ & [= <-]).
  split_and!; [|constructor; try done; constructor|done].
  constructor; try done. by apply (Forall_replicate _ 32 0).
Qed.

Lemma fresh_calm entry_pc i d l bp p : Cpu.new_with_predictor entry_pc i d l bp = Ret p →
  branch_recover p = false.
Proof.
  unfold Cpu.new_with_predictor. intros Hp. apply bind_inv in Hp as (l2 & _ & Hp).
  apply bind_inv in Hp as (ic & _ & Hp). by apply bind_inv in Hp as (dc & _ & [= <-]).
Qed.

Lemma cycle_tick p m h p' m' h' : Runner.cycle p m h = Ret (p', m', h') →
  ∃ m1 h1, Cpu.tick p m h = Ret (p', m1, h1).
Proof.
  unfold Runner.cycle. intros Hc. apply bind_inv in Hc as ([[p1 m1] h1] & E & Hc).
  apply bind_inv in Hc as ([m2 h2] & _ & [= <- _ _]). by exists m1, h1.
Qed.

Lemma run_marked n s0 evs p m h tr p' m' h' : Inv forwardable p → marked s0 evs p → halted s0 evs p →
  run_cycles n p m h = Ret (tr, (p', m', h')) →
  Inv forwardable p' ∧ isa_steps (abs p) tr (abs p') ∧ marked s0 (evs ++ tr) p' ∧
  halted s0 (evs ++ tr) p'.
Proof.
  revert evs p m h tr. induction n as [|n IH]; intros evs p m h tr Hinv Hmk Hha Hr; cbn in Hr.
  { injection Hr as <- <- _ _. rewrite app_nil_r. split_and!; [done|constructor|done..]. }
  destruct (halt p) eqn:Hh.
  { injection Hr as <- <- _ _. rewrite app_nil_r. split_and!; [done|constructor|done..]. }
  apply bind_inv in Hr as ([[p1 m1] h1] & E & Hr). apply bind_inv in Hr as ([tr' s] & E' & Hr).
  injection Hr as <- ->. destruct (cycle_tick _ _ _ _ _ _ E) as (m2 & h2 & Et).
  destruct (tick_ok s0 evs p m h p1 m2 h2 Hinv Hh Hmk Et) as (Hi1 & Hst & Hmk1 & Hha1).
  destruct (IH _ p1 m1 h1 tr' Hi1 Hmk1 Hha1 E') as (Hi' & Hst' & Hmk' & Hha').
  rewrite app_assoc. split_and!; [done| |done..]. by eapply steps_app.
Qed.

Lemma run_loop_cycles n p m h p' m' h' : Runner.run_loop n p m h = Ret (Some (p', m', h')) →
  halt p' = true ∧ ∃ tr, run_cycles n p m h = Ret (tr, (p', m', h')).
Proof.
  revert p m h. induction n as [|n IH]; intros p m h Hr; cbn in Hr |- *.
  - destruct (halt p) eqn:Hh; [|done]. injection Hr as <- <- <-. split; [done|]. by exists [].
  - destruct (halt p) eqn:Hh.
    + injection Hr as <- <- <-. split; [done|]. by exists [].
    + apply bind_inv in Hr as ([[p1 m1] h1] & E & Hr). destruct (IH p1 m1 h1 Hr) as (Hh' & tr & E').
      split; [done|]. exists (observe p p1 ++ tr). by rewrite E, bind_Ret, E'.
Qed.

(** the machine never changes x0 *)
Lemma isa_steps_x0 s tr s' : isa_steps s tr s' → length (regs s) = 32%nat → Effect.reg (regs s) 0 = 0 →
  length (regs s') = 32%nat ∧ Effect.reg (regs s') 0 = 0.
Proof.
  assert (Hset : ∀ d v rs, Asm.reg d → length rs = 32%nat → Effect.reg rs 0 = 0 →
    length (set_reg d v rs) = 32%nat ∧ Effect.reg (set_reg d v rs) 0 = 0).
  { intros d v rs Hd Hl H0'. rewrite length_set_reg, reg_set_reg by (done || unfold Asm.reg; lia). done. }
  induction 1 as [|s ev s1 tr s2 Hst _ IH]; [done|]. intros Hl H0'. apply IH; clear IH;
    destruct Hst as [rs p raw i a Hi Ha Hv|rs p d v Hd Hv]; cbn in *;
    try (by apply Hset); pose proof (effect_ok rs p a Hv) as He; cbv zeta in He;
    destruct (Effect.rd (Effect.simulated rs p a)) as [d|]; try done;
    destruct (Effect.value (Effect.simulated rs p a)) as [v|]; try done; apply Hset; try done; apply He.
Qed.

(** C8: The pipeline implements the RV32IM machine: from a fresh processor, over any caches,
  memory, replacement policy and branch predictor, the trace of any number of cycles - the
  instruction words that went through EXE with their pcs and memory accesses, and the
  values the loads brought - is an execution of the sequential machine from the entry pc:
  forwarding, load-use bubbles, multi-cycle operations, predictions and flushes are
  invisible, no instruction of a wrong path is executed and none is executed twice.  The
  machine's registers are those the latches hold on top of the register file. *)
Theorem pipeline_refines_isa entry_pc l1i_cfg l1d_cfg l2_cfg predictor p0 n (m : M) h tr p' m' h' :
  Cpu.new_with_predictor entry_pc l1i_cfg l1d_cfg l2_cfg predictor = Ret p0 →
  run_cycles n p0 m h = Ret (tr, (p', m', h')) →
  isa_steps (initial entry_pc) tr (abs p').
Proof.
  intros Hn Hr. destruct (fresh_ok _ _ _ _ _ _ Hn) as (Hi & Hmk & Hh).
  assert (Hha : halted (initial entry_pc) [] p0) by (intros Ht; congruence).
  destruct (run_marked n _ [] p0 m h tr p' m' h' Hi Hmk Hha Hr) as (_ & _ & Hmk' & _).
  apply Hmk'.
Qed.

Lemma run_accounted n s0 evs p m h tr p' m' h' : Inv forwardable p → marked s0 evs p → accounted p →
  run_cycles n p m h = Ret (tr, (p', m', h')) → accounted p'.
Proof.
  revert evs p m h tr. induction n as [|n IH]; intros evs p m h tr Hinv Hmk Ha Hr; cbn in Hr.
  { by injection Hr as _ <- _ _. }
  destruct (halt p) eqn:Hh; [by injection Hr as _ <- _ _|].
  apply bind_inv in Hr as ([[p1 m1] h1] & E & Hr). apply bind_inv in Hr as ([tr' s] & E' & Hr).
  injection Hr as _ ->. destruct (cycle_tick _ _ _ _ _ _ E) as (m2 & h2 & Et).
  destruct (tick_ok s0 evs p m h p1 m2 h2 Hinv Hh Hmk Et) as (Hi1 & _ & Hmk1 & _).
  apply (IH _ p1 m1 h1 tr' Hi1 Hmk1); [exact (tick_accounted p m h p1 m2 h2 Hinv Et) | exact E'].
Qed.

(** C16: The processor's own expectations hold in every state it reaches.  The register file
  has 32 words and x0 is zero.  When a recovery is pending, MEM holds the control transfer
  that asked for it: its operands resolve to the recorded direction, IF had gone another way,
  and the recorded destination is where it goes.  The recovery never panics: it empties ID and
  EXE, and nothing else of the pipeline (MEM, WB, the registers and the access under way are
  kept), restarts IF at the destination, shows the predictor the outcome of that branch, and
  is then no longer pending. *)
Theorem pipeline_invariant entry_pc l1i_cfg l1d_cfg l2_cfg predictor p0 n (m : M) h tr p' m' h' :
  Cpu.new_with_predictor entry_pc l1i_cfg l1d_cfg l2_cfg predictor = Ret p0 →
  run_cycles n p0 m h = Ret (tr, (p', m', h')) →
  length (id_regs p') = 32%nat ∧ Forall is_u32 (id_regs p') ∧ Effect.reg (id_regs p') 0 = 0 ∧
  (branch_recover p' = false → Cpu.recover p' = Ret p') ∧
  (branch_recover p' = true → ∃ op p1, mem_op p' = Some op ∧
     mispredicted op (branch_correct_direction p') (branch_destination p') ∧
     Cpu.recover p' = Ret p1 ∧ recovered p' p1 ∧
     if_fsm p1 = FetchIdle ∧ if_raw_isnt_buffer p1 = None ∧
     branch_predictor p1 = mispredict_recovery (branch_predictor p')
       (branch_correct_direction p') (pc op) (branch_destination p')).
Proof.
  intros Hn Hr. destruct (fresh_ok _ _ _ _ _ _ Hn) as (Hi & Hmk & Hh).
  assert (Hha : halted (initial entry_pc) [] p0) by (intros Ht; congruence).
  destruct (run_marked n _ [] p0 m h tr p' m' h' Hi Hmk Hha Hr) as (Hi' & _ & Hmk' & _).
  destruct (isa_steps_x0 _ _ _ (mk_steps _ _ _ Hmk') eq_refl eq_refl) as [_ Hx0].
  split_and!; [apply Hi' | apply Hi' | | |].
  - cbn in Hx0. rewrite reg_arch in Hx0; try apply Hi'; [|by split].
    by rewrite !overlay_zero in Hx0.
  - intros Hf. unfold Cpu.recover. by rewrite Hf.
  - intros Ht. assert (Ha : accounted p').
    { eapply run_accounted; [exact Hi | exact Hmk | | exact Hr]. intros Hf. by rewrite (fresh_calm _ _ _ _ _ _ Hn) in Hf. }
    destruct (Ha Ht) as (Hfl & op & Hop & Hm). destruct (recover_Ret p' op Ht Hfl Hop) as [p1 E1].
    exists op, p1. pose proof (recover_front p' p1 op Ht Hfl Hop E1) as (? & ? & ?).
    split_and!; try done. by apply recover_recovered.
Qed.

(** C9: The report is the architectural state at the halting ECALL: when a simulation ends,
  its trace passes an ECALL at which the machine's registers are exactly the
  [final_registers] of the report, with a0 = 0; instructions younger than the ECALL that
  are already in the pipeline have not reached the register file. *)
Theorem run_final_registers predictor entry_pc (memory : M) config memory_report fuel r :
  Runner.run_with_memory (RP := RP) predictor entry_pc memory config memory_report fuel = Ret (Some (Ok r)) →
  ∃ l1i_cfg l1d_cfg l2_cfg (p0 p' : PipelineProcessor RP P) m' h' tr,
    Sim.cache_configs config = Ok (l1i_cfg, l1d_cfg, l2_cfg) ∧
    Cpu.new_with_predictor entry_pc l1i_cfg l1d_cfg l2_cfg predictor = Ret p0 ∧
    run_cycles fuel p0 memory Heap.empty = Ret (tr, (p', m', h')) ∧
    stopped_at (initial entry_pc) tr (final_registers r) ∧
    Effect.reg (final_registers r) 10 = 0.
Proof.
  unfold Runner.run_with_memory. intros Hr.
  destruct (Sim.cache_configs config) as [[[i d] l]|e]; [|done].
  apply bind_inv in Hr as (p0 & Hn & Hr). apply bind_inv in Hr as ([[[p' m'] h']|] & Hl & Hr); [|done].
  injection Hr as <-. destruct (run_loop_cycles _ _ _ _ _ _ _ Hl) as (Hh' & tr & Htr).
  destruct (fresh_ok _ _ _ _ _ _ Hn) as (Hi & Hmk & Hh).
  assert (Hha : halted (initial entry_pc) [] p0) by (intros Ht; congruence).
  destruct (run_marked _ _ [] p0 memory Heap.empty tr p' m' h' Hi Hmk Hha Htr) as (_ & _ & _ & Hha').
  destruct (Hha' Hh') as [Hst Ha0]. exists i, d, l, p0, p', m', h', tr. by split_and!.
Qed.
End run.

(** * A small program *)

(** x5 counts from 5 to 0, x6 sums, the sum goes through memory and is squared *)
Definition sum_program : list Z := flat_map (λ a, to_le_bytes 4 (Asm.assemble a)) [
  Asm.ArithImm Asm.ADDI 5 0 5;
  Asm.ArithImm Asm.ADDI 6 0 0;
  Asm.Arith Asm.ADD 6 6 5;
  Asm.ArithImm Asm.ADDI 5 5 (-1);
  Asm.Branch Asm.BNE 5 0 (-8);
  Asm.Store Asm.SW 0 6 192;
  Asm.Load Asm.LW 7 0 192;
  Asm.Arith Asm.MUL 8 7 7;
  Asm.ArithImm Asm.ADDI 10 0 0;
  Asm.Ecall ].
(** padded with NOPs, as the pipeline fetches past the ECALL *)
Definition sum_memory : SimpleMem :=
  SimpleMemory.new (sum_program ++ flat_map (λ _, to_le_bytes 4 19) (seq 0 54)).

#[local] Existing Instance Bimodal.predictor.
#[local] Existing Instance dev_profile.

Abbreviation sum_run :=
  (Runner.run_with_memory (RP := Fifo.FifoRP) Bimodal.new 0 sum_memory Sim.default
    (λ _, SimpleMemReport) 200).

(** the registers a run reports *)
Definition reported (r : exec (option (Result SimulationReport SimulationConfigError)))
    : option (list Z) :=
  match r with Ret (Some (Ok r)) => Some (final_registers r) | _ => None end.

Lemma sum_run_reported : (take 11 <$> reported sum_run) = Some [0; 0; 0; 0; 0; 0; 15; 15; 225; 0; 0].
Proof. vm_compute. reflexivity. Qed.

Lemma sum_run_report : ∃ r, sum_run = Ret (Some (Ok r)) ∧
  take 11 (final_registers r) = [0; 0; 0; 0; 0; 0; 15; 15; 225; 0; 0].
Proof.
  pose proof sum_run_reported as Hr. revert Hr. generalize sum_run. intros x Hr.
  destruct x as [[[r|]|]|]; try discriminate Hr. exists r. split; [done|]. by injection Hr.
Qed.

Lemma run_final_registers_witness :
  ∃ r, sum_run = Ret (Some (Ok r)) ∧ take 11 (final_registers r) = [0; 0; 0; 0; 0; 0; 15; 15; 225; 0; 0] ∧
    Effect.reg (final_registers r) 10 = 0.
Proof.
  destruct sum_run_report as (r & E & Hr). exists r. split; [exact E|]. split; [exact Hr|].
  destruct (run_final_registers _ _ _ _ _ _ _ E) as (? & ? & ? & ? & ? & ? & ? & ? & ? & ? & ? & ? & Ha).
  exact Ha.
Defined.

Definition sum_start : exec (PipelineProcessor Fifo.FifoRP Bimodal.Predictor) :=
  match Sim.cache_configs Sim.default with
  | Ok (i, d, l) => Cpu.new_with_predictor 0 i d l Bimodal.new
  | Err _ => Panic PUnwrap
  end.

(** the number of events of the first cycles *)
Definition sum_events (n : nat) : nat :=
  match sum_start with
  | Ret p0 => match run_cycles n p0 sum_memory Heap.empty with Ret (tr, _) => length tr | _ => 0 end
  | _ => 0
  end.

Lemma sum_events_100 : (20 <? sum_events 100)%nat = true.
Proof. vm_compute. reflexivity. Qed.

Lemma sum_cycles k n : (k <? sum_events n)%nat = true →
  ∃ (p0 p' : PipelineProcessor Fifo.FifoRP Bimodal.Predictor) i d l m' h' tr,
    Cpu.new_with_predictor 0 i d l Bimodal.new = Ret p0 ∧
    run_cycles n p0 sum_memory Heap.empty = Ret (tr, (p', m', h')) ∧ (k < length tr)%nat.
Proof.
  intros Hl%Nat.ltb_lt. unfold sum_events, sum_start in Hl.
  destruct (Sim.cache_configs Sim.default) as [[[i d] l]|]; [|lia].
  destruct (Cpu.new_with_predictor 0 i d l Bimodal.new) as [p0|] eqn:En; [|lia].
  destruct (run_cycles n p0 sum_memory Heap.empty) as [[tr [[p' m'] h']]|] eqn:Er; [|lia].
  exists p0, p', i, d, l, m', h', tr. by split_and!.
Qed.

Lemma pipeline_refines_isa_witness :
  ∃ (p' : PipelineProcessor Fifo.FifoRP Bimodal.Predictor) tr,
    (20 < length tr)%nat ∧ isa_steps (initial 0) tr (abs p').
Proof.
  destruct (sum_cycles 20 100 sum_events_100) as (p0 & p' & i & d & l & m' & h' & tr & En & Er & Hl).
  exists p', tr. split; [exact Hl|].
  exact (pipeline_refines_isa _ _ _ _ _ _ _ _ _ _ _ _ _ En Er).
Defined.


(** the state after the first cycles *)
Definition sum_after (n : nat) : option (PipelineProcessor Fifo.FifoRP Bimodal.Predictor) :=
  match sum_start with
  | Ret p0 => match run_cycles n p0 sum_memory Heap.empty with Ret (_, (p, _, _)) => Some p | _ => None end
  | _ => None
  end.

Lemma sum_reaches n p' : sum_after n = Some p' →
  ∃ (p0 : PipelineProcessor Fifo.FifoRP Bimodal.Predictor) i d l m' h' tr,
    Cpu.new_with_predictor 0 i d l Bimodal.new = Ret p0 ∧
    run_cycles n p0 sum_memory Heap.empty = Ret (tr, (p', m', h')).
Proof.
  unfold sum_after, sum_start. destruct (Sim.cache_configs Sim.default) as [[[i d] l]|]; [|done].
  destruct (Cpu.new_with_predictor 0 i d l Bimodal.new) as [p0|] eqn:En; [|done].
  destruct (run_cycles n p0 sum_memory Heap.empty) as [[tr [[q m'] h']]|] eqn:Er; [|done].
  intros [= ->]. by exists p0, i, d, l, m', h', tr.
Qed.

(** after 41 cycles the loop's branch at pc 16 has been found taken, back to pc 8 *)
Lemma sum_pending : match sum_after 41 with
  | Some p => branch_recover p && branch_correct_direction p && (branch_destination p =? 8) &&
              (match mem_op p with Some op => pc op =? 16 | None => false end) &&
              bool_decide (is_Some (id_op p)) && bool_decide (is_Some (exe_op p))
  | None => false
  end = true.
Proof. vm_compute. reflexivity. Qed.

Lemma pipeline_invariant_witness :
  ∃ p' p1 : PipelineProcessor Fifo.FifoRP Bimodal.Predictor, ∃ op,
    branch_recover p' = true ∧ mem_op p' = Some op ∧ pc op = 16 ∧ mispredicted op true 8 ∧
    is_Some (id_op p') ∧ Cpu.recover p' = Ret p1 ∧ id_op p1 = None ∧ if_pc p1 = 8.
Proof.
  pose proof sum_pending as Hp. destruct (sum_after 41) as [p'|] eqn:E; [|discriminate Hp].
  destruct (sum_reaches 41 p' E) as (p0 & i & d & l & m' & h' & tr & En & Er).
  destruct (pipeline_invariant _ _ _ _ _ _ _ _ _ _ _ _ _ En Er) as (_ & _ & _ & _ & Hrec).
  rewrite !andb_true_iff in Hp. destruct Hp as [[[[[Hr Hd] Ht] Hpc] Hid] Hexe].
  destruct (Hrec Hr) as (op & p1 & Em & Hm & E1 & Hrd & _). exists p', p1, op.
  rewrite Em in Hpc. apply Z.eqb_eq in Hpc, Ht. apply bool_decide_eq_true in Hid, Hexe.
  rewrite Hd, Ht in Hm. split_and!; try assumption; [apply (rec_id _ _ Hrd)|].
  rewrite (rec_pc _ _ Hrd). exact Ht.
Defined.
