(* ===== verification/PipeHalt.v ===== *)
(** Where a run ends: the ECALL that halts the processor is the first one of its trace with
    a0 = 0, although younger instructions, which may be ECALLs as well, have already been
    executed when it retires. *)
From S2P Require Import Prelude Word Format Instruction BranchPredictor Uop Execute Decode Datapath AbstractMem ReplacementPolicy GeneralCache MemoryAccess Pipe Runner IsaMachine FlatMachine PipeInvariant PipeRefinement PipeRun.
From stdpp Require Import base numbers list.
From Stdlib Require Import Lia.
#[local] Open Scope Z_scope.

(** * Traces without a halting ECALL *)

Definition ecall_event (e : event) : Prop :=
  match e with
  | Executed _ raw _ => ∃ x, raw_binary_to_inst raw = Ret (Inst.Ecall x)
  | Loaded _ => False
  end.

Section traces.
Context `{Profile}.

(** an event from a state has one outcome *)
Lemma isa_step_det c e c1 c2 : isa_step c e c1 → isa_step c e c2 → c1 = c2.
Proof.
  intros Hs1 Hs2. destruct Hs1 as [rs p raw i a Hi Ha Hv|rs p d v Hd Hv]; inversion Hs2; subst; [|done].
  assert (i0 = i) as -> by congruence. by assert (a0 = a) as -> by congruence.
Qed.
Lemma isa_steps_det c es c1 c2 : isa_steps c es c1 → isa_steps c es c2 → c1 = c2.
Proof.
  intros Hs1. revert c2. induction Hs1 as [c|c e c' es c1 Hst _ IH]; intros c2 Hs2;
    inversion Hs2 as [|? ? c'' ? ? Hst' Hs']; subst; [done|].
  rewrite <- (isa_step_det _ _ _ _ Hst Hst') in Hs'. by apply IH.
Qed.

(** no ECALL of the trace finds a0 = 0 *)
Definition calm (c0 : IsaState) (evs : list event) : Prop := ∀ pre e post c,
  evs = pre ++ e :: post → isa_steps c0 pre c → ecall_event e → Effect.reg (regs c) 10 ≠ 0.

(** the trace reaches an ECALL with the registers [rs], before any halting one *)
Definition at_ecall (c0 : IsaState) (evs : list event) (rs : list Z) : Prop := ∃ pre e post c,
  evs = pre ++ e :: post ∧ isa_steps c0 pre c ∧ regs c = rs ∧ ecall_event e ∧ calm c0 pre.

Lemma calm_nil c0 : calm c0 [].
Proof. intros [] ? ? ? [=]. Qed.

Lemma calm_snoc c0 evs e c : calm c0 evs → isa_steps c0 evs c →
  (ecall_event e → Effect.reg (regs c) 10 ≠ 0) → calm c0 (evs ++ [e]).
Proof.
  intros Hc Hst He pre e' post c' E Hst' He'.
  destruct post as [|x post' _] using rev_ind.
  - apply app_inj_tail in E as [<- <-]. rewrite <- (isa_steps_det _ _ _ _ Hst Hst'). by apply He.
  - rewrite app_comm_cons, app_assoc in E. apply app_inj_tail in E as [-> _]. by eapply Hc.
Qed.

Lemma calm_load c0 evs o c : calm c0 evs → isa_steps c0 evs c → calm c0 (evs ++ load_event o).
Proof.
  intros Hc Hst. unfold load_event. destruct o as [op|]; [|by rewrite app_nil_r].
  destruct (Op.is_load op) as [[]|]; [|by rewrite app_nil_r..].
  destruct (rd_write_value op); [|by rewrite app_nil_r]. by eapply calm_snoc.
Qed.

Lemma at_ecall_later c0 evs evs' rs : at_ecall c0 evs rs → at_ecall c0 (evs ++ evs') rs.
Proof.
  intros (pre & e & post & c & -> & ? & ? & ? & ?). exists pre, e, (post ++ evs'), c.
  split_and!; [|done..]. by rewrite <- app_assoc.
Qed.
End traces.

(** * The flat machine up to its first halting ECALL *)

Section flat.
Context `{Profile}.

(** the machine is at an ECALL that asks to halt *)
Definition at_halt (s : Machine) : bool :=
  match outstanding (core s), raw_binary_to_inst (word_at (memory s) (next_pc (core s))) with
  | None, Ret (Inst.Ecall _) => Effect.reg (regs (core s)) 10 =? 0
  | _, _ => false
  end.

(** the registers at the first halting ECALL *)
Fixpoint flat_final (fuel : nat) (s : Machine) : exec (option (list Z)) :=
  if at_halt s then mret (Some (regs (core s)))
  else match fuel with
  | O => mret None
  | S fuel => '(_, s) ← flat_step s; flat_final fuel s
  end.

Lemma flat_final_more n k s rs : flat_final n s = Ret (Some rs) → flat_final (n + k) s = Ret (Some rs).
Proof.
  revert s. induction n as [|n IH]; intros s E; cbn in E |- *.
  - destruct (at_halt s) eqn:Hh; [|done]. destruct k; cbn; by rewrite Hh.
  - destruct (at_halt s); [done|]. apply bind_inv in E as ([e s1] & -> & E). rewrite bind_Ret. by apply IH.
Qed.

Lemma at_halt_alike s s' : alike s s' → at_halt s = at_halt s'.
Proof.
  intros (Ec & Em & _). unfold at_halt, word_at. by rewrite Ec, (view_read_ext _ _ _ _ Em).
Qed.

Lemma flat_final_alike n s s' rs : alike s s' → flat_final n s = Ret (Some rs) →
  flat_final n s' = Ret (Some rs).
Proof.
  revert s s'. induction n as [|n IH]; intros s s' Ha E; cbn in E |- *;
    rewrite <- (at_halt_alike s s') by done; rewrite <- (proj1 Ha); destruct (at_halt s); try done.
  apply bind_inv in E as ([e s1] & E1 & E). destruct (flat_step_alike _ _ _ _ Ha E1) as (s1' & -> & Ha1).
  rewrite bind_Ret. by eapply IH.
Qed.

Lemma flat_final_unique n k s rs rs' : flat_final n s = Ret (Some rs) → flat_final k s = Ret (Some rs') → rs = rs'.
Proof.
  intros E1%(flat_final_more _ k) E2%(flat_final_more _ n). rewrite Nat.add_comm in E1. congruence.
Qed.

(** the first halting ECALL of the machine is the first one of its trace *)
Lemma flat_final_calm c0 done pre s s1 : isa_steps c0 done (core s) → isa_steps (core s) pre (core s1) →
  calm c0 (done ++ pre) → flat_run (length pre) s = Ret (pre, s1) → at_halt s1 = true →
  flat_final (length pre) s = Ret (Some (regs (core s1))).
Proof.
  revert done s. induction pre as [|e pre IH]; intros done s Hd Hp Hc E Hh; cbn in E.
  { injection E as <-. cbn. by rewrite Hh. }
  apply bind_inv in E as ([e' s2] & E1 & E). apply bind_inv in E as ([es s3] & E2 & [= <- <- <-]).
  inversion Hp as [|? ? c2 ? ? Hst Hp']; subst.
  pose proof (flat_step_agrees _ _ _ _ Hst E1) as Ec. cbn.
  destruct (at_halt s) eqn:Hs.
  - exfalso. unfold at_halt in Hs. destruct (outstanding (core s)) eqn:Ho; [done|].
    destruct (raw_binary_to_inst _) as [i|] eqn:Ei; [|done]. destruct i; try done.
    apply Z.eqb_eq in Hs. apply (Hc done e' es (core s) eq_refl Hd); [|done].
    unfold flat_step in E1. rewrite Ho in E1. cbv zeta in E1. rewrite Ei in E1.
    apply bind_inv in E1 as (i' & [= <-] & E1). apply bind_inv in E1 as (o & _ & E1).
    apply bind_inv in E1 as (a & _ & [= <- _]). by eexists.
  - rewrite E1, bind_Ret. apply (IH (done ++ [e'])); try done.
    + eapply steps_app; [exact Hd|]. rewrite Ec. by apply steps_one.
    + by rewrite Ec.
    + by rewrite <- app_assoc.
Qed.
End flat.

(** * ECALLs in the pipeline *)

Section lined.
Context `{Profile} {RP : Type} `{ReplacementPolicy RP} {P : Type} `{BranchPredict P}.
Context {M : Type} `{AbstractMemoryInterface M}.
Implicit Types p : PipelineProcessor RP P.
Import Cpu.

(** the ECALL in WB, if any, does not halt; nor does the one in MEM *)
Definition passed p : Prop := ∀ op, wb_op p = Some op → is_ecall op → Effect.reg (id_regs p) 10 ≠ 0.
Definition passing p : Prop := ∀ op, mem_op p = Some op → is_ecall op → Effect.reg (arch p) 10 ≠ 0.

(** an ECALL in flight is the first that may halt, if those before it do not *)
Record lined (c0 : IsaState) (evs : list event) p : Prop := {
  ln_wb : ∀ op, wb_op p = Some op → is_ecall op → at_ecall c0 evs (id_regs p);
  ln_mem : ∀ op, mem_op p = Some op → is_ecall op → passed p → at_ecall c0 evs (arch p);
  ln_calm : passed p → passing p → calm c0 evs;
}.

(** still running, or stopped at the first halting ECALL *)
Definition first_halt (c0 : IsaState) (evs : list event) p : Prop :=
  (halt p = false ∧ lined c0 evs p) ∨ (halt p = true ∧ at_ecall c0 evs (id_regs p)).

Lemma kept_lined c0 evs p p' : kept p p' → lined c0 evs p → lined c0 evs p'.
Proof.
  intros [Er Em Ew _] [Hw Hm Hc]. assert (Ea : arch p' = arch p) by (unfold arch; by rewrite Em, Ew, Er).
  assert (Hp : passed p' → passed p) by (unfold passed; by rewrite Ew, Er).
  constructor; [intros op; rewrite Ew, Er; apply Hw | intros op; rewrite Em, Ea; intros Ho He Hpa; apply (Hm op); auto |].
  intros Hpa Hpi. apply Hc; [by apply Hp|].
  intros op Ho He. rewrite <- Ea. by apply (Hpi op); [rewrite Em|].
Qed.

Lemma kept_first_halt c0 evs p p' : kept p p' → first_halt c0 evs p → first_halt c0 evs p'.
Proof.
  intros Hk. unfold first_halt. rewrite (kp_halt _ _ Hk), (kp_regs _ _ Hk).
  intros [[??]|[??]]; [left; split; [done | by eapply kept_lined] | by right].
Qed.

(** ** WB *)

Lemma wb_halts p p' op : pipe_stage_wb p = Ret p' → wb_op p = Some op → is_ecall op →
  Effect.reg (id_regs p) 10 = 0 → halt p' = true.
Proof.
  unfold pipe_stage_wb. intros Hw Ew [x Ex] Ha. rewrite Ew in Hw. apply bind_inv in Hw as (p1 & E1 & Hw).
  rewrite Ex in E1. apply bind_inv in E1 as (a0 & Ea0 & E1). apply bind_inv in E1 as (a1 & _ & E1).
  apply index_inv in Ea0. unfold Effect.reg in Ha. rewrite list_lookup_total_alt in Ha.
  change (Z.to_nat 10) with 10%nat in Ha. rewrite Ea0 in Ha. cbn in Ha. subst a0. injection E1 as <-.
  apply bind_inv in Hw as (p2 & E2 & [= <-]).
  assert (Hh : halt p2 = true).
  { destruct (Op.writeback op) as [[d v]|]; [|by injection E2 as <-].
    destruct (negb (d =? 0)); [|by injection E2 as <-]. by apply bind_inv in E2 as (rs & _ & [= <-]). }
  by destruct (negb _).
Qed.

Lemma wb_lined c0 evs p p' : halt p = false → pipe_stage_wb p = Ret p' → marked c0 evs p →
  lined c0 evs p → first_halt c0 evs p'.
Proof.
  intros Hh Hw [_ _ Hmk] [Hlw Hlm Hlc].
  destruct (wb_spec p p' Hw) as (_ & Er & Ewb & Em & _).
  assert (Harch : arch p' = arch p) by (unfold arch; by rewrite Em, Ewb, Er).
  destruct (halt p') eqn:Hh'.
  - right. split; [done|]. destruct (wb_halt p p' Hw Hh') as [?|(op & x & Eop & Ex & Ea0)]; [congruence|].
    assert (He : is_ecall op) by by exists x. destruct (Hmk op Eop He) as [Erd _].
    rewrite Er, Eop. cbn. rewrite (no_writeback op Erd). by eapply Hlw.
  - left. split; [done|].
    assert (Hp : passed p).
    { intros op Eop He Ha. pose proof (wb_halts p p' op Hw Eop He Ha). congruence. }
    constructor; [by rewrite Ewb | |].
    + intros op Eop He _. rewrite Harch. rewrite Em in Eop. by apply (Hlm op).
    + intros _ Hpi. apply Hlc; [done|]. intros op Eop He. rewrite <- Harch.
      by apply (Hpi op); [rewrite Em|].
Qed.

(** ** MEM *)

Lemma mem_lined c0 evs p m h p' m' h' : Inv exact p → branch_recover p = false → wb_op p = None →
  pipe_stage_mem p m h = Ret (p', m', h') → marked c0 evs p → lined c0 evs p →
  lined c0 (evs ++ load_event (wb_op p')) p'.
Proof.
  intros Hinv Hrec Hwb Hm [Hst Hmk _] [Hlw Hlm Hlc].
  destruct (mem_ok p m h p' m' h' Hinv Hrec Hwb Hm) as (_ & _ & _ & Hcase & Er).
  assert (Hp : passed p) by (intros op Eop; congruence).
  destruct Hcase as [[(Ew & Em & _) _]|(op & acc & lv & Eop & _ & _ & Em & _ & Ew)].
  { rewrite Ew, app_nil_r. apply (kept_lined _ _ p); [|by constructor].
    constructor; [done | done | congruence |]. by apply (mem_halt p m h p' m' h'). }
  assert (Hsame : ∀ op', wb_op p' = Some op' → is_ecall op' → is_ecall op).
  { intros op'. rewrite Ew. intros [= <-]. by destruct lv. }
  assert (Hno : is_ecall op → arch p = id_regs p').
  { intros He. destruct (Hmk op Eop He) as [Erd _]. unfold arch. rewrite Eop, Hwb, Er. cbn.
    by rewrite (no_writeback op Erd). }
  constructor.
  - intros op' Eop' He'. pose proof (Hsame op' Eop' He') as He. rewrite <- (Hno He).
    apply at_ecall_later. by eapply Hlm.
  - rewrite Em. done.
  - intros Hpa _. eapply calm_load; [|exact Hst]. apply Hlc; [done|]. intros op0 Eop0 He.
    rewrite Eop in Eop0. injection Eop0 as <-. rewrite (Hno He).
    eapply (Hpa (match lv with Some v => Op.set_writeback_value v op | None => op end)); [done|].
    by destruct lv.
Qed.

(** ** EXE *)

(** where the micro-op that EXE hands to MEM comes from *)
Lemma exe_done_origin p p' : exe_done p p' → ∃ e op, exe_op p = Some e ∧ mem_op p' = Some op ∧
  exe_op p' = None ∧ same_origin e op.
Proof.
  intros (e & op & Ee & _ & Ee' & Em' & Hc). exists e, op. split_and!; try done.
  destruct Hc as [(_ & -> & _)|(_ & Hx & _)]; [done | by apply execute_origin].
Qed.

(** an instruction that enters MEM with an ECALL word is an ECALL *)
Lemma exec_ecall p p' op : Inv exact p → branch_recover p = false → exe_done p p' →
  mem_op p' = Some op → placeholder op = false →
  (∃ x, raw_binary_to_inst (raw_inst op) = Ret (Inst.Ecall x)) → is_ecall op.
Proof.
  intros Hinv Hrec Hdone Em' Hph [x Hx].
  destruct (exe_done_origin p p' Hdone) as (e & op0 & Ee & Em & _ & Oraw & Oinst & _ & _ & Oph).
  rewrite Em in Em'. injection Em' as ->.
  destruct (inv_front _ _ Hinv Hrec) as [_ Hexe].
  destruct (Hexe e Ee) as [->|((fop & Hf & Hd) & _)]; [by rewrite Oph in Hph|].
  destruct (decoded_facts fop _ e Hf Hd) as (raw & i & q & bp & a & _ & _ & Hi & _ & _ & _ & Ei & _ & _ & _ & Er & _).
  exists x. rewrite Oinst, Ei. rewrite Oraw, Er in Hx. congruence.
Qed.

Lemma exe_lined c0 evs p p' ev : Inv exact p → branch_recover p = false → pipe_stage_exe p = Ret p' →
  marked c0 evs p → lined c0 evs p →
  (mem_op p' = mem_op p ∧ ev = [] ∨ mem_op p = None ∧ ev = exec_event (mem_op p')) →
  lined c0 (evs ++ ev) p'.
Proof.
  intros Hinv Hrec He [Hst _ _] Hl Hev.
  destruct (exe_ok_stage p p' Hinv Hrec He) as (_ & [_ _ Er Ew _ Eh] & Hcase).
  assert (Hsame : mem_op p' = mem_op p → lined c0 evs p') by (intros Em; by apply (kept_lined _ _ p)).
  destruct Hcase as [[Em _]|(Em & [op Eop] & Hstep & Hec)].
  { destruct Hev as [[_ ->]|[Em0 ->]]; [rewrite app_nil_r; by apply Hsame|].
    rewrite Em, Em0, app_nil_r. by apply Hsame. }
  destruct Hev as [[Em0 _]|[_ ->]]; [congruence|]. destruct Hl as [Hlw _ Hlc].
  assert (Hp : passed p' → passed p) by (unfold passed; by rewrite Ew, Er).
  assert (Hcalm : passed p' → calm c0 evs) by (intros Hpa; apply Hlc; [by apply Hp | intros ?; congruence]).
  constructor.
  - intros op' Eop' He'. rewrite Ew in Eop'. rewrite Er. apply at_ecall_later. by eapply Hlw.
  - intros op' Eop' [x Hx] Hpa. destruct (Hec op' x Eop' Hx) as (q & raw & -> & Hraw & Habs & -> & _).
    exists evs, (Executed q raw None), [], (abs p). split_and!; try done; [by exists x | by apply Hcalm].
  - intros Hpa Hpi. rewrite Eop in *. cbn in Hstep |- *. destruct (placeholder op) eqn:Hph.
    { rewrite app_nil_r. by apply Hcalm. }
    destruct (Op.memory_access op) as [acc|]; [|rewrite app_nil_r; by apply Hcalm].
    eapply calm_snoc; [by apply Hcalm | exact Hst |]. intros Hee.
    destruct (exe_spec p p' He) as [_ [[_ Em']|Hdone]]; [congruence|].
    pose proof (exec_ecall p p' op Hinv Hrec Hdone Eop Hph Hee) as Hex.
    pose proof Hex as [x Hx]. destruct (Hec op x Eop Hx) as (q & raw & _ & _ & Habs & Ha & _).
    rewrite Habs. cbn. rewrite <- Ha. by apply (Hpi op).
Qed.

(** ** The cycle *)

Lemma stages_first c0 evs p m h p' m' h' : Inv forwardable p → branch_recover p = false →
  halt p = false → marked c0 evs p → lined c0 evs p → stages p m h = Ret (p', m', h') →
  first_halt c0 (evs ++ observe p p') p'.
Proof.
  intros Hinv Hrec Hh Hmk Hln Hs. unfold stages in Hs.
  destruct (forward_ok p Hinv Hrec) as (Hi1 & Hr1 & Ha1).
  assert (Hk1 : kept p (pipe_normal_data_hazard_resolve p)) by by constructor.
  pose proof (kept_marked c0 evs p _ Hk1 Ha1 Hmk) as Hmk1. pose proof (kept_lined c0 evs p _ Hk1 Hln) as Hln1.
  set (p1 := pipe_normal_data_hazard_resolve p) in *.
  apply bind_inv in Hs as (p2 & E2 & Hs).
  destruct (wb_ok p1 p2 Hi1 Hr1 E2) as (Hi2 & Hr2 & Hw2 & _).
  destruct (wb_marked c0 evs p1 p2 Hi1 Hr1 Hh E2 Hmk1) as [Hmk2 _].
  pose proof (wb_lined c0 evs p1 p2 Hh E2 Hmk1 Hln1) as Hf2.
  assert (Em2 : mem_op p2 = mem_op p) by (destruct (wb_spec p1 p2 E2) as (_ & _ & _ & Em & _); exact Em).
  apply bind_inv in Hs as ([[p3 m3] h3] & E3 & Hs).
  destruct (mem_ok p2 m h p3 m3 h3 Hi2 Hr2 Hw2 E3) as (Hi3 & Hr3 & _ & Hcase3 & Er3).
  pose proof (mem_marked c0 evs p2 m h p3 m3 h3 Hi2 Hr2 Hw2 E3 Hmk2) as Hmk3.
  pose proof (mem_halt p2 m h p3 m3 h3 E3) as Hh3.
  apply bind_inv in Hs as (p4 & E4 & Hs).
  destruct (exe_ok_stage p3 p4 Hi3 Hr3 E4) as (Hi4 & Hsa4 & _).
  destruct (exe_marked c0 _ p3 p4 Hi3 Hr3 E4 Hmk3) as (ev & _ & Hev).
  apply bind_inv in Hs as (b & E5 & Hs).
  destruct (front_stages p4 p' b m3 h3 m' h' Hi4 E5 Hs) as (_ & _ & Hk').
  assert (Hobs : observe p p' = load_event (wb_op p3) ++ ev).
  { apply (observe_event p p3 p4); [apply Hk' | apply Hk' | apply Hsa4 | | done].
    destruct Hcase3 as [[(? & Em3 & _) _]|(o & acc & lv & _ & _ & _ & Em3 & _ & Ew3)];
      [left; by rewrite Em3, Em2 | right; by rewrite Ew3]. }
  apply (kept_first_halt _ _ p4); [done|]. rewrite Hobs, app_assoc.
  destruct Hf2 as [[Hh2 Hln2]|[Hh2 Hat]].
  - left. split; [by rewrite (sa_halt _ _ Hsa4), Hh3|].
    apply (exe_lined c0 _ p3 p4 ev Hi3 Hr3 E4 Hmk3); [|done]. by apply (mem_lined c0 evs p2 m h p3 m3 h3).
  - right. split; [by rewrite (sa_halt _ _ Hsa4), Hh3|].
    rewrite (sa_regs _ _ Hsa4), Er3. by do 2 apply at_ecall_later.
Qed.

Lemma tick_first c0 evs p m h p' m' h' : Inv forwardable p → halt p = false → marked c0 evs p →
  lined c0 evs p → Cpu.tick p m h = Ret (p', m', h') → first_halt c0 (evs ++ observe p p') p'.
Proof.
  intros Hinv Hh Hmk Hln Ht. unfold Cpu.tick in Ht. set (p0 := Cpu.with_hpm _ p) in Ht.
  assert (Hi0 : Inv forwardable p0) by (constructor; try apply Hinv; intros Hr;
    destruct (inv_front _ _ Hinv Hr); by constructor).
  apply bind_inv in Ht as (p1 & E1 & Ht). destruct (recover_ok p0 p1 Hi0 E1) as (Hi1 & Hr1 & Ha1).
  assert (Hk1 : kept p p1) by (eapply (kept_trans _ p0); [by constructor | by apply recover_kept]).
  apply bind_inv in Ht as ([[p2 m2] h2] & E2 & Ht).
  assert (Hh1 : halt p1 = false) by by rewrite (kp_halt _ _ Hk1).
  pose proof (kept_marked c0 evs p p1 Hk1 Ha1 Hmk) as Hmk1.
  pose proof (kept_lined c0 evs p p1 Hk1 Hln) as Hln1.
  pose proof (stages_first c0 evs p1 m h p2 m2 h2 Hi1 Hr1 Hh1 Hmk1 Hln1 E2) as Hf.
  destruct (tick_caches_same _ _ _ _ _ _ Ht) as (Hsb & _ & _). pose proof (back_kept _ _ Hsb) as Hk2.
  assert (Eobs : observe p p' = observe p1 p2).
  { unfold observe. rewrite (kp_wb _ _ Hk2), (kp_mem _ _ Hk2), (kp_mem _ _ Hk1). done. }
  rewrite Eobs. by eapply kept_first_halt.
Qed.

Lemma run_first n c0 evs p m h tr p' m' h' : Inv forwardable p → marked c0 evs p →
  first_halt c0 evs p → run_cycles n p m h = Ret (tr, (p', m', h')) → first_halt c0 (evs ++ tr) p'.
Proof.
  revert evs p m h tr. induction n as [|n IH]; intros evs p m h tr Hinv Hmk Hf Hr; cbn in Hr.
  { injection Hr as <- <- _ _. by rewrite app_nil_r. }
  destruct (halt p) eqn:Hh; [injection Hr as <- <- _ _; by rewrite app_nil_r|].
  destruct Hf as [[_ Hln]|[? _]]; [|congruence].
  apply bind_inv in Hr as ([[p1 m1] h1] & E & Hr). apply bind_inv in Hr as ([tr' s] & E' & Hr).
  injection Hr as <- ->. destruct (cycle_tick _ _ _ _ _ _ E) as (m2 & h2 & Et).
  destruct (tick_ok c0 evs p m h p1 m2 h2 Hinv Hh Hmk Et) as (Hi1 & _ & Hmk1 & _).
  rewrite app_assoc. eapply IH; [exact Hi1 | exact Hmk1 | by eapply tick_first | exact E'].
Qed.

Lemma fresh_first entry_pc i d l bp p : Cpu.new_with_predictor entry_pc i d l bp = Ret p →
  first_halt (initial entry_pc) [] p.
Proof.
  unfold Cpu.new_with_predictor. intros Hp. apply bind_inv in Hp as (l2 & _ & Hp).
  apply bind_inv in Hp as (ic & _ & Hp). apply bind_inv in Hp as (dc & _ & [= <-]).
  left. split; [done|]. constructor; try done. intros _ _. apply calm_nil.
Qed.
End lined.
