(* ===== verification/Discipline.v ===== *)
(** Programs that the pipeline runs without a panic: what the code must look like, what the
    sequential machine must find, and what a branch predictor may predict.

    The processor fetches and decodes instructions that the program does not execute.  A
    wrong path starts at an address that the program has executed or that a predictor has
    learnt from it, and is cut two instructions later, so conditions on the code and on the
    sequential execution are enough. *)
From S2P Require Import Prelude Word Format Instruction BranchPredictor Uop AbstractMem Execute Decode Datapath IsaMachine FlatMachine PipeHalt.
From stdpp Require Import base gmap list numbers.
From Stdlib Require Import Lia.
#[local] Open Scope Z_scope.
#[local] Coercion Z.of_nat : nat >-> Z.

(** * The code *)

(** a word that the processor can execute *)
Definition valid_word (raw : Z) : bool :=
  match raw_binary_to_inst raw with
  | Ret (Inst.Illegal _) | Ret (Inst.Fence _) | Panic _ => false
  | Ret _ => true
  end.

(** an address of the code, with at least [k] bytes of it to follow *)
Definition within (lo hi k q : Z) : Prop := lo ≤ q ∧ q + k ≤ hi ∧ q mod 4 = 0.

(** every aligned word of the code is an instruction *)
Definition valid_code (lo hi : Z) (v : view) : Prop :=
  ∀ q, within lo hi 4 q → valid_word (word_at v q) = true.

(** the same, as a computation *)
Definition code_valid (lo hi : Z) (v : view) : bool :=
  (lo mod 4 =? 0) &&
  forallb (λ k, valid_word (word_at v (lo + 4 * k))) (seqZ 0 ((hi - lo) / 4)).

Lemma code_valid_spec lo hi v : code_valid lo hi v = true → valid_code lo hi v.
Proof.
  unfold code_valid. intros Hc. apply andb_true_iff in Hc as [Hlo%Z.eqb_eq Hall].
  intros q (Hl & Hh & Hm). rewrite forallb_forall in Hall.
  assert (Eq : q = lo + 4 * ((q - lo) / 4)) by (Z.div_mod_to_equations; lia).
  rewrite Eq. apply Hall, list_elem_of_In, elem_of_seqZ. Z.div_mod_to_equations. lia.
Qed.

(** * The sequential execution *)

Section orderly.
Context `{Profile}.

(** the access of an event is aligned, as the caches require *)
Definition access_aligned (a : MemoryAccess) : bool := Access.addr a mod Access.len a =? 0.
Definition event_aligned (e : event) : bool :=
  match e with Executed _ _ (Some a) => access_aligned a | _ => true end.

(** For the first [n] events the machine executes code that is not among its last two words,
  and its accesses are aligned, below [top] and off the code. *)
Fixpoint orderly (lo hi top : Z) (n : nat) (s : Machine) : bool :=
  match n with
  | O => true
  | S n =>
      (lo <=? next_pc (core s)) && (next_pc (core s) + 12 <=? hi) && (next_pc (core s) mod 4 =? 0) &&
      match flat_step s with
      | Ret (e, s) => event_ok lo hi top e && event_aligned e && orderly lo hi top n s
      | Panic _ => false
      end
  end.

Lemma orderly_pc lo hi top n s : orderly lo hi top (S n) s = true → within lo hi 12 (next_pc (core s)).
Proof.
  cbn. intros Ho. apply andb_true_iff in Ho as [Ho _]. apply andb_true_iff in Ho as [Ho Hm%Z.eqb_eq].
  apply andb_true_iff in Ho as [Hl%Z.leb_le Hh%Z.leb_le]. done.
Qed.

Lemma orderly_step lo hi top n s : orderly lo hi top (S n) s = true →
  ∃ e s', flat_step s = Ret (e, s') ∧ event_ok lo hi top e = true ∧ event_aligned e = true ∧
    orderly lo hi top n s' = true.
Proof.
  cbn. intros Ho. apply andb_true_iff in Ho as [_ Ho]. destruct (flat_step s) as [[e s']|]; [|done].
  apply andb_true_iff in Ho as [Ho ?]. apply andb_true_iff in Ho as [? ?]. by exists e, s'.
Qed.

Lemma orderly_well_behaved lo hi top n s : orderly lo hi top n s = true →
  well_behaved lo hi top n s = true.
Proof.
  revert s. induction n as [|n IH]; intros s Ho; [done|].
  destruct (orderly_pc _ _ _ _ _ Ho) as (Hl & Hh & _).
  destruct (orderly_step _ _ _ _ _ Ho) as (e & s' & E & He & _ & Hn). cbn. rewrite E, He, IH by done.
  unfold in_code. rewrite (proj2 (Z.leb_le _ _)), (proj2 (Z.leb_le _ hi)) by lia. by rewrite orb_true_r.
Qed.

Lemma orderly_prefix lo hi top n k s : orderly lo hi top (n + k) s = true → orderly lo hi top n s = true.
Proof.
  revert s. induction n as [|n IH]; intros s Ho; [done|]. cbn in *.
  apply andb_true_iff in Ho as [-> Ho]. destruct (flat_step s) as [[e s']|]; [|done].
  apply andb_true_iff in Ho as [-> Ho]. by apply IH.
Qed.

Lemma orderly_app lo hi top n k s es s' : orderly lo hi top (n + k) s = true →
  flat_run n s = Ret (es, s') → orderly lo hi top k s' = true ∧ Forall (λ e, event_aligned e = true) es.
Proof.
  revert s es. induction n as [|n IH]; intros s es Ho E; cbn [flat_run] in E.
  { injection E as <- <-. by split. }
  destruct (orderly_step _ _ _ _ _ Ho) as (e & s1 & E1 & _ & Ha & Ho1). rewrite E1, bind_Ret in E.
  apply bind_inv in E as ([es2 s2] & E2 & [= <- <-]). destruct (IH s1 es2 Ho1 E2) as [? ?]. by split; [|constructor].
Qed.

(** the machine of such a program never stops *)
Lemma orderly_run lo hi top n s : orderly lo hi top n s = true → ∃ es s', flat_run n s = Ret (es, s').
Proof.
  revert s. induction n as [|n IH]; intros s Ho; [by eexists _, _|].
  destruct (orderly_step _ _ _ _ _ Ho) as (e & s1 & E1 & _ & _ & Ho1).
  destruct (IH s1 Ho1) as (es & s' & E). exists (e :: es), s'. cbn. by rewrite E1, bind_Ret, E.
Qed.
End orderly.

(** * Branch predictors *)

(** a predictor that predicts no address as a branch target that it was not told *)
Class PredictorLaws (P : Type) `{BranchPredict P} := {
  only_targets : (Z → Prop) → P → Prop;
  predict_targets S p pc : only_targets S p →
    only_targets S (branch_predict p pc).2 ∧
    (direction (branch_predict p pc).1 = true → S (addr (branch_predict p pc).1));
  recovery_targets S p taken pc target : only_targets S p → S target →
    only_targets S (mispredict_recovery p taken pc target);
}.

#[local] Existing Instance Dummy.predictor.
#[local] Existing Instance Bimodal.predictor.

#[export] Program Instance dummy_laws : PredictorLaws Dummy.Predictor := {|
  only_targets := λ _ _, True |}.
Next Obligation. done. Qed.
Next Obligation. done. Qed.

(** the table of the bimodal predictor *)
Definition table_targets (S : Z → Prop) (p : Bimodal.Predictor) : Prop :=
  ∀ k e, Bimodal.history_table p !! k = Some e → S (Bimodal.target_pc e).

#[export] Program Instance bimodal_laws : PredictorLaws Bimodal.Predictor := {|
  only_targets := table_targets |}.
Next Obligation.
  intros S p pc Ht. split; [done|]. cbn. destruct (Bimodal.get_direction _); [|done].
  destruct (Bimodal.history_table p !! pc) as [e|] eqn:E; [|done].
  destruct (_ =? _); [|done]. intros _. by apply (Ht pc).
Qed.
Next Obligation.
  intros S p taken pc target Ht Hs k e.
  change (mispredict_recovery p taken pc target) with (Bimodal.recovery p taken pc target).
  rewrite BimodalFacts.recovery_table.
  rewrite lookup_insert_Some. intros [[_ <-]|[_ E]]; [done | by apply (Ht k)].
Qed.
