(* ===== verification/PipeTypes.v ===== *)
(** The types of the pipeline: words are [Z] in the model and [u32] in the source, so every
    state that a run reaches must keep every word of it in 32 bits and every register number
    in 5, whatever the memory answers. *)
From S2P Require Import Prelude Word Format Instruction BranchPredictor Uop Execute Decode AbstractMem ReplacementPolicy GeneralCache MemoryAccess Pipe Runner IsaMachine PipeInvariant PipeRefinement PipeRun Discipline.
From stdpp Require Import base numbers list.
From Stdlib Require Import Lia.
#[local] Open Scope Z_scope.

(** * Typing *)

(** [Option<u32>], and [Option<(u8, u32)>] of a register and its value *)
Definition word_ty (o : option Z) : Prop := match o with Some v => is_u32 v | None => True end.
Definition source_ty (o : option (Z * Z)) : Prop :=
  match o with Some (r, v) => Asm.reg r ∧ is_u32 v | None => True end.
Definition index_ty (o : option Z) : Prop := match o with Some r => Asm.reg r | None => True end.
(** a prediction that is followed *)
Definition prediction_ty (b : BranchPredictResult) : Prop := direction b = true → is_u32 (addr b).

Record op_ty (op : PreDecodeMicroOp) : Prop := {
  ot_raw : is_u32 (raw_inst op);
  ot_pc : is_u32 (pc op);
  ot_rs1 : source_ty (rs1 op);
  ot_rs2 : source_ty (rs2 op);
  ot_imm : is_u32 (immediate_signext op);
  ot_alu : is_u32 (alu_result op);
  ot_rd : index_ty (rd_index op);
  ot_write : word_ty (rd_write_value op);
  ot_bp : ∀ b, bp_result op = Some b → prediction_ty b;
}.
Definition latch_ty (o : option PreDecodeMicroOp) : Prop :=
  match o with Some op => op_ty op | None => True end.

Definition access_ty (a : MemoryAccess) : Prop :=
  is_u32 (Access.addr a) ∧ word_ty (Access.store_value a).
Definition transaction_ty (t : MemoryTransaction) : Prop :=
  match t with
  | TxIdle => True
  | TxSending _ a | TxWaiting _ a => access_ty a
  | TxComplete v => word_ty v
  end.
Definition status_ty (st : MemoryTransactionStatus) : Prop :=
  match st with Pending => True | Complete v => word_ty v end.

Record typed {RP P} `{PredictorLaws P} (p : PipelineProcessor RP P) : Prop := {
  ty_len : length (id_regs p) = 32%nat;
  ty_regs : Forall is_u32 (id_regs p);
  ty_pc : is_u32 (if_pc p);
  ty_buffer : word_ty (if_raw_isnt_buffer p);
  ty_destination : is_u32 (branch_destination p);
  ty_id : latch_ty (id_op p);
  ty_exe : latch_ty (exe_op p);
  ty_mem : latch_ty (mem_op p);
  ty_wb : latch_ty (wb_op p);
  ty_transaction : transaction_ty (mem_transaction p);
  ty_predictor : only_targets is_u32 (branch_predictor p);
}.

Create HintDb types discriminated.
#[export] Hint Constants Opaque : types.
#[export] Hint Resolve ty_len ty_regs ty_pc ty_buffer ty_destination ty_id ty_exe ty_mem ty_wb
  ty_transaction ty_predictor : types.
#[export] Hint Resolve ot_raw ot_pc ot_rs1 ot_rs2 ot_imm ot_alu ot_rd ot_write ot_bp : types.

(** a record whose fields are typed, given the fields that changed *)
Ltac retype := constructor; cbn; eauto with types.

(** * Words *)

Lemma u32_wrap z : is_u32 (as_u32 z).
Proof. by apply wrap_range. Qed.
#[export] Hint Resolve u32_wrap : types.
Lemma u32_add `{Profile} a b r : word_add 32 a b = Ret r → is_u32 r.
Proof. intros E. by apply narrow_inv in E as [_ ?]. Qed.
Lemma u32_shl `{Profile} a n r : word_shl 32 a n = Ret r → is_u32 r.
Proof.
  unfold word_shl. destruct (_ && _); [|destruct overflow_checks; [done|]];
    intros [= <-]; apply u32_wrap.
Qed.
Lemma u32_helper `{Profile} d w r : sign_ext_helper d w = Ret r → is_u32 r.
Proof. unfold sign_ext_helper. intros E. exec_inv. apply u32_wrap. Qed.
Lemma reg_field z k : Asm.reg (as_u8 (Z.land (Z.shiftr z k) 31)).
Proof.
  change 31 with (2 ^ 5 - 1). rewrite land_ones_mod by lia.
  pose proof (Z.mod_pos_bound (Z.shiftr z k) (2 ^ 5) ltac:(lia)).
  unfold Asm.reg. rewrite wrap_id by (unfold in_range; lia). lia.
Qed.
#[export] Hint Resolve u32_add u32_shl u32_helper reg_field : types.

Lemma alu_of_onto ty : ∃ op, Isa.alu_of op = ty.
Proof.
  destruct ty; [exists Asm.ADD | exists Asm.SLL | exists Asm.SLT | exists Asm.SLTU | exists Asm.XOR | exists Asm.SRL | exists Asm.OR | exists Asm.AND | exists Asm.SUB | exists Asm.SRA | exists Asm.MUL | exists Asm.MULH | exists Asm.MULHU | exists Asm.MULHSU | exists Asm.DIV | exists Asm.DIVU | exists Asm.REM | exists Asm.REMU]; reflexivity.
Qed.
Lemma u32_alu ty x y : is_u32 x → is_u32 y → is_u32 (Execute.alu_result ty x y).
Proof.
  intros Hx Hy. destruct (alu_of_onto ty) as [op <-].
  rewrite alu_result_spec by done. apply u32_wrap.
Qed.
#[export] Hint Resolve u32_alu : types.

(** * Micro-ops *)

Section ops.
Context `{Profile}.

Lemma nop_ty : op_ty Op.placeholder_nop.
Proof. constructor; cbn; try done; unfold Asm.reg, in_range; try lia. Qed.

Lemma with_rs1_ty v o : source_ty v → op_ty o → op_ty (Op.with_rs1 v o).
Proof. intros. retype. Qed.
Lemma with_rs2_ty v o : source_ty v → op_ty o → op_ty (Op.with_rs2 v o).
Proof. intros. retype. Qed.
Lemma with_imm_ty v o : is_u32 v → op_ty o → op_ty (Op.with_imm v o).
Proof. intros. retype. Qed.
Lemma with_alu_ty ty s1 s2 o : op_ty o → op_ty (Op.with_alu ty s1 s2 o).
Proof. intros. retype. Qed.
Lemma with_alu_result_ty v o : is_u32 v → op_ty o → op_ty (Op.with_alu_result v o).
Proof. intros. retype. Qed.
Lemma with_alu_as_rd_ty b o : op_ty o → op_ty (Op.with_alu_as_rd b o).
Proof. intros. retype. Qed.
Lemma with_rd_ty v o : index_ty v → op_ty o → op_ty (Op.with_rd v o).
Proof. intros. retype. Qed.
Lemma with_rd_write_ty v o : word_ty v → op_ty o → op_ty (Op.with_rd_write v o).
Proof. intros. retype. Qed.

Lemma imm_I_ty x r : I.imm_sign_ext x = Ret r → is_u32 r.
Proof. apply u32_helper. Qed.
Lemma imm_S_ty x r : S.sign_ext x = Ret r → is_u32 r.
Proof. unfold S.sign_ext. intros E. exec_inv. by eapply u32_helper. Qed.
Lemma imm_B_ty x r : B.sign_ext x = Ret r → is_u32 r.
Proof. unfold B.sign_ext. intros E. exec_inv. by eapply u32_helper. Qed.
Lemma imm_J_ty x r : J.sign_ext x = Ret r → is_u32 r.
Proof. unfold J.sign_ext. intros E. exec_inv. by eapply u32_helper. Qed.
Lemma imm_U_ty x r : U.sign_ext x = Ret r → is_u32 r.
Proof. apply u32_shl. Qed.

Lemma read_ty regs r o : Decode.read regs r = Ret o → Asm.reg r → Forall is_u32 regs → source_ty o.
Proof.
  intros E Ha Hr. unfold Decode.read in E. exec_inv. split; [done|].
  by eapply (Forall_lookup_1 is_u32).
Qed.
End ops.
#[export] Hint Resolve with_rs1_ty with_rs2_ty with_imm_ty with_alu_ty with_alu_result_ty
  with_alu_as_rd_ty with_rd_ty with_rd_write_ty imm_I_ty imm_S_ty imm_B_ty imm_J_ty imm_U_ty
  read_ty : types.
#[export] Hint Extern 1 (index_ty (Some _)) => apply reg_field : types.
#[export] Hint Extern 1 (word_ty (Some _)) => unfold word_ty : types.
#[export] Hint Extern 1 (Asm.reg _) => apply reg_field : types.

Section decode.
Context `{Profile}.

(** splits a run of the decoder into its reads and immediates *)
Ltac parts := intros; repeat match goal with
  | E : (_ ≫= _) = Ret _ |- _ => apply bind_inv in E as (? & ? & E)
  | E : mret _ = Ret _ |- _ => injection E as <-
  end; eauto 10 with types.

Lemma decode_r_ty x op rs e : Forall is_u32 rs → op_ty op → Decode.decode_r x op rs = Ret e → op_ty e.
Proof. unfold Decode.decode_r. parts. Qed.
Lemma decode_imm_ty x op rs e : Forall is_u32 rs → op_ty op → Decode.decode_imm x op rs = Ret e → op_ty e.
Proof. unfold Decode.decode_imm. parts. Qed.
Lemma decode_load_ty x op rs e : Forall is_u32 rs → op_ty op → Decode.decode_load x op rs = Ret e → op_ty e.
Proof. unfold Decode.decode_load. parts. Qed.
Lemma decode_store_ty x op rs e : Forall is_u32 rs → op_ty op → Decode.decode_store x op rs = Ret e → op_ty e.
Proof. unfold Decode.decode_store. parts. Qed.
Lemma decode_branch_ty x op rs e : Forall is_u32 rs → op_ty op → Decode.decode_branch x op rs = Ret e → op_ty e.
Proof. unfold Decode.decode_branch. parts. Qed.
Lemma decode_jal_ty x op e : op_ty op → Decode.decode_jal x op = Ret e → op_ty e.
Proof. unfold Decode.decode_jal. parts. Qed.
Lemma decode_jalr_ty x op rs e : Forall is_u32 rs → op_ty op → Decode.decode_jalr x op rs = Ret e → op_ty e.
Proof. unfold Decode.decode_jalr. parts. Qed.
Lemma decode_upper_ty x sel op e : op_ty op → Decode.decode_upper x sel op = Ret e → op_ty e.
Proof. unfold Decode.decode_upper. parts. Qed.

Ltac decoded := lazymatch goal with
  | E : Decode.decode_r _ _ _ = _ |- _ => eapply decode_r_ty
  | E : Decode.decode_imm _ _ _ = _ |- _ => eapply decode_imm_ty
  | E : Decode.decode_load _ _ _ = _ |- _ => eapply decode_load_ty
  | E : Decode.decode_store _ _ _ = _ |- _ => eapply decode_store_ty
  | E : Decode.decode_branch _ _ _ = _ |- _ => eapply decode_branch_ty
  | E : Decode.decode_jal _ _ = _ |- _ => eapply decode_jal_ty
  | E : Decode.decode_jalr _ _ _ = _ |- _ => eapply decode_jalr_ty
  | E : Decode.decode_upper _ _ _ = _ |- _ => eapply decode_upper_ty
  end; eassumption.

Lemma decode_fields_ty op regs e : Forall is_u32 regs → op_ty op →
  Decode.decode_fields op regs = Ret (Ok e) → op_ty e.
Proof.
  assert (Hmap : ∀ (m : exec PreDecodeMicroOp) r, Ok <$> m = Ret r →
    ∃ e', m = Ret e' ∧ r = Ok (E := DecodeError) e').
  { intros [] r; [|done]. intros [= <-]. eauto. }
  intros Hr Ho. unfold Decode.decode_fields.
  destruct (inst op); intros E;
    first [apply Hmap in E as (e' & E & [= ->]); decoded
          | injection E as <-; done | discriminate E].
Qed.

Lemma decode_ty op regs e : Forall is_u32 regs → op_ty op →
  Decode.decode op regs = Ret (Ok e) → op_ty e.
Proof.
  intros Hr Ho. unfold Decode.decode. intros E. apply bind_inv in E as ([e0|er] & E & Hd); [|done].
  injection Hd as <-. apply decode_fields_ty in E; [|done..].
  destruct (Decode.alu_op_type _); [by apply with_alu_ty | done].
Qed.

Lemma operands_ty op x y : op_ty op → Execute.alu_operands op = Ret (x, y) → is_u32 x ∧ is_u32 y.
Proof.
  intros Ho E. unfold Execute.alu_operands in E. apply bind_inv in E as (v1 & E1 & E).
  apply bind_inv in E as (v2 & E2 & [= <- <-]). split.
  - destruct (alu_op1_sel op).
    + apply bind_inv in E1 as ([r v] & E1 & [= <-]). apply unwrap_inv in E1.
      pose proof (ot_rs1 _ Ho) as Hs. rewrite E1 in Hs. apply Hs.
    + injection E1 as <-. apply Ho.
    + injection E1 as <-. unfold in_range. lia.
  - destruct (alu_op2_sel op).
    + apply bind_inv in E2 as ([r v] & E2 & [= <-]). apply unwrap_inv in E2.
      pose proof (ot_rs2 _ Ho) as Hs. rewrite E2 in Hs. apply Hs.
    + injection E2 as <-. apply Ho.
Qed.

Lemma store_access_ty op w a : op_ty op → Op.store_access op w = Ret (Some a) → access_ty a.
Proof.
  intros Ho E. unfold Op.store_access in E. apply bind_inv in E as ([r v] & Er & [= <-]).
  apply unwrap_inv in Er. pose proof (ot_rs2 _ Ho) as Hs. rewrite Er in Hs.
  split; [apply Ho | apply Hs].
Qed.
Lemma access_of_ty op a : op_ty op → Op.memory_access op = Ret (Some a) → access_ty a.
Proof.
  intros Ho. unfold Op.memory_access.
  destruct (inst op); intros E; try discriminate E; try (by eapply store_access_ty);
    injection E as <-; (split; [apply Ho | done]).
Qed.

(** forwarding *)
Lemma writeback_ty l r v : op_ty l → Op.writeback l = Some (r, v) → Asm.reg r ∧ is_u32 v.
Proof.
  intros Hl. pose proof (ot_rd _ Hl) as Hd. pose proof (ot_write _ Hl) as Hw.
  unfold Op.writeback. destruct (rd_index l), (rd_write_value l); try done. by intros [= <- <-].
Qed.
Lemma forward_reg_ty src l : source_ty src → op_ty l → source_ty (Cpu.forward_reg src (Op.writeback l)).
Proof.
  intros Hs Hl. unfold Cpu.forward_reg. destruct src as [[r v]|]; [|done].
  destruct (Op.writeback l) as [[d w]|] eqn:E; [|done].
  destruct (writeback_ty _ _ _ Hl E). destruct (_ && _); [|done]. split; [apply Hs | done].
Qed.
Lemma forward_ty e l : latch_ty e → latch_ty l → latch_ty (Cpu.forward e l).
Proof.
  intros He Hl. destruct e as [e|], l as [l|]; try done. cbn in *.
  apply with_rs2_ty; [|apply with_rs1_ty; [|done]]; apply forward_reg_ty; try done; apply He.
Qed.
End decode.
#[export] Hint Resolve forward_ty access_of_ty : types.

(** * Memory accesses *)

Section transaction.
Context {M : Type} `{AbstractMemoryInterface M}.

Lemma loaded_ty a bytes v : Access.loaded_value a bytes = Ret v → is_u32 v.
Proof.
  unfold Access.loaded_value. destruct a as [ad w ext|]; [|done]. intros E.
  apply bind_inv in E as (? & _ & E). apply bind_inv in E as (word & Ew & [= <-]).
  assert (is_u32 (from_le_bytes word)).
  { apply from_le_bytes_u32. apply write_slice_inv in Ew as (? & ? & ->).
    rewrite !length_app, length_take, length_drop, length_replicate in *. cbn in *. lia. }
  destruct w, ext; (apply u32_wrap || done).
Qed.

Lemma complete_ty r a h st t : Transaction.complete r a h = Ret (st, t) → status_ty st ∧ transaction_ty t.
Proof.
  unfold Transaction.complete. intros E. apply bind_inv in E as (v & Ev & [= <- <-]).
  assert (word_ty v); [|by split]. destruct (Access.is_load a); [|by injection Ev as <-].
  apply bind_inv in Ev as (bs & _ & Ev). apply bind_inv in Ev as (w & Ew & [= <-]).
  by eapply loaded_ty.
Qed.

Lemma send_ty m r a h st t m' h' : access_ty a → Transaction.send m r a h = Ret (st, t, m', h') →
  status_ty st ∧ transaction_ty t.
Proof.
  intros Ha E. unfold Transaction.send in E. apply bind_inv in E as ([[[|] m1] h1] & _ & E).
  - destruct (Req.is_done r h1); [|injection E as <- <- _ _; by split].
    apply bind_inv in E as ([st1 t1] & E & [= <- <- _ _]). by eapply complete_ty.
  - injection E as <- <- _ _. by split.
Qed.

Lemma progress_ty t m a h st t' m' h' : transaction_ty t → access_ty a →
  Transaction.progress t m a h = Ret (st, t', m', h') → status_ty st ∧ transaction_ty t'.
Proof.
  intros Ht Ha E. unfold Transaction.progress in E. destruct t as [|r b|r b|v].
  - apply bind_inv in E as ([r h1] & _ & E). by eapply send_ty.
  - by eapply (send_ty _ _ b).
  - destruct (Req.is_done r h); [|injection E as <- <- _ _; by split].
    apply bind_inv in E as ([st1 t1] & E & [= <- <- _ _]). by eapply complete_ty.
  - injection E as <- <- _ _. by split.
Qed.
End transaction.

(** * The processor *)

Section processor.
Context `{Profile} {RP : Type} `{ReplacementPolicy RP} {P : Type} `{PredictorLaws P}.
Context {M : Type} `{AbstractMemoryInterface M}.
Implicit Types p : PipelineProcessor RP P.
Import Cpu.

(** ** Updates *)
Lemma with_halt_ty v p : typed p → typed (with_halt v p).
Proof. intros. retype. Qed.
Lemma with_if_pc_ty v p : is_u32 v → typed p → typed (with_if_pc v p).
Proof. intros. retype. Qed.
Lemma with_buffer_ty v p : word_ty v → typed p → typed (with_buffer v p).
Proof. intros. retype. Qed.
Lemma with_predictor_ty v p : only_targets is_u32 v → typed p → typed (with_predictor v p).
Proof. intros. retype. Qed.
Lemma with_regs_ty v p : length v = 32%nat → Forall is_u32 v → typed p → typed (with_regs v p).
Proof. intros. retype. Qed.
Lemma with_id_op_ty o p : latch_ty o → typed p → typed (with_id_op o p).
Proof. intros. retype. Qed.
Lemma with_exe_op_ty o p : latch_ty o → typed p → typed (with_exe_op o p).
Proof. intros. retype. Qed.
Lemma with_mem_op_ty o p : latch_ty o → typed p → typed (with_mem_op o p).
Proof. intros. retype. Qed.
Lemma with_wb_op_ty o p : latch_ty o → typed p → typed (with_wb_op o p).
Proof. intros. retype. Qed.
Lemma with_if_fsm_ty v p : typed p → typed (with_if_fsm v p).
Proof. intros. retype. Qed.
Lemma with_transaction_ty t p : transaction_ty t → typed p → typed (with_transaction t p).
Proof. intros. retype. Qed.
Lemma with_recovery_ty r d t n p : is_u32 t → typed p → typed (with_recovery r d t n p).
Proof. intros. retype. Qed.
Lemma with_countdown_ty v p : typed p → typed (with_countdown v p).
Proof. intros. retype. Qed.
Lemma with_icache_ty v p : typed p → typed (with_icache v p).
Proof. intros. retype. Qed.
Lemma with_dcache_ty v p : typed p → typed (with_dcache v p).
Proof. intros. retype. Qed.
Lemma with_l2_cache_ty v p : typed p → typed (with_l2_cache v p).
Proof. intros. retype. Qed.
Lemma with_hpm_ty v p : typed p → typed (with_hpm v p).
Proof. intros. retype. Qed.
#[local] Hint Resolve with_halt_ty with_if_pc_ty with_buffer_ty with_predictor_ty with_regs_ty with_id_op_ty with_exe_op_ty with_mem_op_ty with_wb_op_ty
  with_if_fsm_ty with_transaction_ty with_recovery_ty with_countdown_ty with_icache_ty with_dcache_ty with_l2_cache_ty with_hpm_ty : types.
#[local] Hint Extern 1 (latch_ty None) => exact I : types.
#[local] Hint Extern 1 (word_ty None) => exact I : types.
#[local] Hint Extern 1 (latch_ty (Some _)) => unfold latch_ty : types.
#[local] Hint Extern 1 (transaction_ty (Transaction.reset _)) => exact I : types.
Ltac update := eauto 12 with types.

(** ** The stages *)

Lemma hazard_ty p : typed p → typed (pipe_normal_data_hazard_resolve p).
Proof. intros Hp. unfold pipe_normal_data_hazard_resolve. update. Qed.

Lemma wb_ty p p' : typed p → pipe_stage_wb p = Ret p' → typed p'.
Proof.
  intros Hp E. unfold pipe_stage_wb in E. destruct (wb_op p) as [op|] eqn:Ew; [|by injection E as <-].
  assert (Hop : op_ty op) by (pose proof (ty_wb _ Hp) as Hw; by rewrite Ew in Hw).
  apply bind_inv in E as (p1 & E1 & E). assert (Hp1 : typed p1).
  { destruct (inst op); try (by injection E1 as <-).
    apply bind_inv in E1 as (a0 & _ & E1). apply bind_inv in E1 as (a1 & _ & [= <-]).
    destruct (a0 =? 0); [update | done]. }
  apply bind_inv in E as (p2 & E2 & [= <-]). assert (Hp2 : typed p2).
  { destruct (Op.writeback op) as [[d v]|] eqn:Ewb; [|injection E2 as <-; update].
    destruct (writeback_ty _ _ _ Hop Ewb) as [_ Hv].
    destruct (negb _); [|injection E2 as <-; update].
    apply bind_inv in E2 as (regs & Er & [= <-]). apply set_index_inv in Er as [? ->].
    apply with_regs_ty; [rewrite length_insert | apply Forall_insert | ]; update. }
  destruct (negb _); update.
Qed.

Lemma mem_ty p m h p' m' h' : typed p → pipe_stage_mem p m h = Ret (p', m', h') → typed p'.
Proof.
  intros Hp E. unfold pipe_stage_mem in E. destruct (mem_op p) as [op|] eqn:Em; [|by injection E as <- _ _].
  assert (Hop : op_ty op) by (pose proof (ty_mem _ Hp) as Hm; by rewrite Em in Hm).
  assert (Hfin : ∀ lv (q : PipelineProcessor RP P), word_ty lv → typed q → typed (finish_mem op lv q)).
  { intros lv q Hv Hq. unfold finish_mem.
    assert (op_ty (match lv with Some v => Op.set_writeback_value v op | None => op end)).
    { destruct lv; [by apply with_rd_write_ty | done]. }
    cbv zeta. destruct (wb_op q); update. }
  apply bind_inv in E as ([a|] & Ea & E); [|injection E as <- _ _; by apply Hfin].
  apply bind_inv in E as ([[[st t] [dc [l2 m1]]] h1] & Et & E).
  apply progress_ty in Et as [Hst Ht]; [|apply Hp|by eapply access_of_ty].
  assert (Hq : typed (with_transaction t (with_l2_cache l2 (with_dcache dc p)))) by update.
  destruct st; injection E as <- _ _; [done | by apply Hfin].
Qed.

Lemma resolve_ty op p p' : op_ty op → typed p → resolve op p = Ret p' → typed p'.
Proof.
  intros Ho Hp E. unfold resolve in E. apply bind_inv in E as ([b|] & Eb & E); [|by injection E as <-].
  assert (Hb : is_u32 (br_target b)).
  { unfold Op.branch_resolution_inputs in Eb. destruct (inst op); try discriminate Eb;
      apply bind_inv in Eb as (bp & _ & [= <-]); apply Ho. }
  apply bind_inv in E as (taken & _ & E). apply bind_inv in E as (p1 & E1 & [= <-]).
  assert (H1' : typed p1); [|update]. destruct (Branch.needs_recovery _ _); [|by injection E1 as <-].
  apply bind_inv in E1 as (d & Ed & [= <-]). assert (is_u32 d); [|update].
  unfold Branch.recovery_destination in Ed. destruct taken; [by injection Ed as <-|].
  by eapply u32_add.
Qed.

Lemma exe_ty p p' : typed p → pipe_stage_exe p = Ret p' → typed p'.
Proof.
  intros Hp E. unfold pipe_stage_exe in E.
  assert (Hc : typed (count_down p)).
  { unfold count_down. destruct (int_mul_div_stall_countdown p); [update | done]. }
  set (q := count_down p) in *. clearbody q.
  assert (Hto : ∀ op (q : PipelineProcessor RP P), op_ty op → typed q → typed (to_mem op q))
    by (intros; unfold to_mem; update).
  destruct (mem_op q); [by injection E as <-|]. destruct (exe_op q) as [op|] eqn:Ee; [|by injection E as <-].
  assert (Hop : op_ty op) by (pose proof (ty_exe _ Hc) as Hx; by rewrite Ee in Hx).
  assert (Hex : execute_op op q = Ret p' → typed p').
  { clear E. intros E. unfold execute_op in E. apply bind_inv in E as ([x y] & Eo & E).
    destruct (operands_ty _ _ _ Hop Eo) as [Hx Hy].
    apply bind_inv in E as (q1 & Er & [= <-]).
    match type of Er with resolve ?o ?q = _ => assert (Ho : op_ty o); [|assert (Hq : typed q)] end.
    - assert (Ho : op_ty (Op.with_alu_result (Execute.alu_result (alu_op_type op) x y) op))
        by update.
      destruct (alu_result_as_rd_dst_value _); [|done]. apply with_rd_write_ty; [apply Ho | done].
    - destruct (Execute.m_extension_stall _); [update | done].
    - apply Hto; [done|]. by eapply resolve_ty. }
  assert (Hst : ∀ v, typed (with_countdown v q)) by (intros; update).
  destruct (match inst op with Inst.Ecall _ => true | _ => false end) eqn:Ei.
  - destruct (inst op); try discriminate Ei. injection E as <-. by apply Hto.
  - assert (E' : match Execute.m_extension_stall (inst op), int_mul_div_stall_countdown q with
      | Some s, None => mret (with_countdown (Some s) q) | _, _ => execute_op op q end = Ret p').
    { destruct (inst op); try exact E. discriminate Ei. }
    clear E. destruct (Execute.m_extension_stall _); [|by apply Hex].
    destruct (int_mul_div_stall_countdown q); [by apply Hex|]. injection E' as <-. apply Hst.
Qed.

Lemma decode_stage_ty p b p' : typed p → pipe_stage_decode p b = Ret p' → typed p'.
Proof.
  intros Hp E. unfold pipe_stage_decode in E. destruct (exe_op p); [by injection E as <-|].
  destruct (id_op p) as [op|] eqn:Ei; [|by injection E as <-]. destruct b; [by injection E as <-|].
  apply bind_inv in E as ([e|] & Ed & E); [|done]. injection E as <-.
  pose proof (ty_id _ Hp) as Hop. rewrite Ei in Hop.
  apply decode_ty in Ed; [update | apply Hp | exact Hop].
Qed.

Lemma fetched_word_ty r h w : fetched_word r h = Ret w → word_ty (Some w).
Proof. apply fetched_word_u32. Qed.
#[local] Hint Resolve fetched_word_ty : types.

Lemma send_fetch_ty p r m h b p' m' h' : typed p → send_fetch p r m h = Ret (b, p', m', h') → typed p'.
Proof.
  intros Hp E. unfold send_fetch in E. apply bind_inv in E as ([[res [ic [l2 m1]]] h1] & _ & E).
  destruct res; [|injection E as _ <- _ _; update].
  destruct (negb _); [injection E as _ <- _ _; update|].
  apply bind_inv in E as (w & Ew & E). injection E as _ <- _ _. update.
Qed.
Lemma fetch_request_ty p m h b p' m' h' : typed p → fetch_request p m h = Ret (b, p', m', h') → typed p'.
Proof.
  intros Hp E. unfold fetch_request in E. destruct (if_fsm p) as [|r|r].
  - destruct (Req.load _ _ _) as [r h0]. by eapply send_fetch_ty.
  - by eapply send_fetch_ty.
  - destruct (negb _); [by injection E as _ <- _ _|].
    apply bind_inv in E as (w & Ew & E). injection E as _ <- _ _. update.
Qed.

Lemma fetched_ty raw i q : is_u32 raw → is_u32 q → op_ty (Op.fetched raw i q).
Proof. intros. constructor; cbn; try done; unfold in_range; lia. Qed.
Lemma fetched_branch_ty raw i q b : is_u32 raw → is_u32 q → prediction_ty b →
  op_ty (Op.fetched_branch raw i q b).
Proof.
  intros. constructor; cbn; try done; try (unfold in_range; lia). by intros ? [= <-].
Qed.

Lemma issue_ty p p' : typed p → issue p = Ret p' → typed p'.
Proof.
  intros Hp E. unfold issue in E. apply bind_inv in E as (raw & Er & E). apply unwrap_inv in Er.
  assert (Hraw : is_u32 raw) by (pose proof (ty_buffer _ Hp) as Hb; by rewrite Er in Hb).
  apply bind_inv in E as (i & _ & E). cbv zeta in E.
  cbn [if_pc branch_predictor with_hpm with_buffer] in E. pose proof (ty_pc _ Hp) as Hpc.
  destruct (opcode_or_op raw);
    first [ apply bind_inv in E as (next & En & [= <-]); apply u32_add in En;
            pose proof (fetched_ty raw i (if_pc p) Hraw Hpc); update
          | destruct (branch_predict _ _) as [bp bpred] eqn:Eb;
            apply bind_inv in E as (next & En & [= <-]);
            destruct (predict_targets is_u32 _ (if_pc p) (ty_predictor _ Hp)) as [Hp2 Hd];
            rewrite Eb in Hp2, Hd;
            assert (is_u32 next) by
              (destruct (direction bp) eqn:Edir; [injection En as <-; by apply Hd | by eapply u32_add]);
            pose proof (fetched_branch_ty raw i (if_pc p) bp Hraw Hpc Hd); update ].
Qed.

Lemma fetch_ty p m h p' m' h' : typed p → pipe_stage_fetch p m h = Ret (p', m', h') → typed p'.
Proof.
  intros Hp E. unfold pipe_stage_fetch in E. apply bind_inv in E as ([[[b p1] m1] h1] & Ef & E).
  apply fetch_request_ty in Ef; [|done]. destruct (negb b); [by injection E as <- _ _|].
  destruct (id_op p1); [by injection E as <- _ _|].
  apply bind_inv in E as (p2 & Ei & E). injection E as <- _ _. by eapply issue_ty.
Qed.

(** ** The cycle *)

Lemma flush_ty n get drop p : (∀ q : PipelineProcessor RP P, typed q → typed (drop q)) → typed p →
  typed (flush n get drop p).
Proof. intros Hd Hp. unfold flush. destruct (_ <=? _)%nat; [|done]. apply Hd. update. Qed.

Lemma recover_ty p p' : typed p → recover p = Ret p' → typed p'.
Proof.
  intros Hp E. unfold recover in E. destruct (branch_recover p); [|by injection E as <-].
  cbv zeta in E. apply bind_inv in E as (op & _ & [= <-]).
  match goal with |- typed (with_recovery _ _ _ _ (with_predictor _ ?q)) => assert (Hq : typed q) end.
  - repeat (apply flush_ty; [intros; update|]). update.
  - apply with_recovery_ty; [apply Hq|]. apply with_predictor_ty; [|done].
    apply recovery_targets; apply Hq.
Qed.

Lemma stages_ty p m h p' m' h' : typed p → stages p m h = Ret (p', m', h') → typed p'.
Proof.
  intros Hp E. unfold stages in E. cbv zeta in E.
  apply bind_inv in E as (p1 & E1 & E). apply wb_ty in E1; [|by apply hazard_ty].
  apply bind_inv in E as ([[p2 m2] h2] & E2 & E). apply mem_ty in E2; [|done].
  apply bind_inv in E as (p3 & E3 & E). apply exe_ty in E3; [|done].
  apply bind_inv in E as (b & _ & E). apply bind_inv in E as (p4 & E4 & E).
  apply decode_stage_ty in E4; [|done].
  apply bind_inv in E as ([[p5 m5] h5] & E5 & E). apply fetch_ty in E5; [|done].
  destruct b; [|by injection E as <- _ _].
  apply bind_inv in E as (? & _ & E). injection E as <- _ _.
  apply with_exe_op_ty; [apply nop_ty | done].
Qed.

Lemma tick_ty p m h p' m' h' : typed p → Cpu.tick p m h = Ret (p', m', h') → typed p'.
Proof.
  intros Hp E. unfold Cpu.tick in E. cbv zeta in E.
  apply bind_inv in E as (p1 & E1 & E). apply recover_ty in E1; [|update].
  apply bind_inv in E as ([[p2 m2] h2] & E2 & E). apply stages_ty in E2; [|done].
  unfold tick_caches in E. apply bind_inv in E as ([[ic [l2 m3]] h3] & _ & E).
  apply bind_inv in E as ([[dc [l3 m4]] h4] & _ & E).
  apply bind_inv in E as ([[l4 m5] h5] & _ & E). injection E as <- _ _. update.
Qed.

Lemma cycles_ty n p m h tr p' m' h' : typed p → run_cycles n p m h = Ret (tr, (p', m', h')) → typed p'.
Proof.
  revert p m h tr. induction n as [|n IH]; intros p m h tr Hp E; cbn in E.
  { by injection E as _ <- _ _. }
  destruct (halt p); [by injection E as _ <- _ _|].
  apply bind_inv in E as ([[p1 m1] h1] & E1 & E). apply bind_inv in E as ([tr1 s] & E2 & E).
  injection E as _ ->. destruct (cycle_tick _ _ _ _ _ _ E1) as (m2 & h2 & Et).
  apply tick_ty in Et; [|done]. by eapply IH.
Qed.

Lemma new_ty entry_pc i d l bp p : Cpu.new_with_predictor (RP := RP) entry_pc i d l bp = Ret p →
  is_u32 entry_pc → only_targets is_u32 bp → typed p.
Proof.
  unfold Cpu.new_with_predictor. intros E He Hb. apply bind_inv in E as (l2 & _ & E).
  apply bind_inv in E as (ic & _ & E). apply bind_inv in E as (dc & _ & [= <-]).
  constructor; cbn; try done.
  repeat constructor; unfold in_range; lia.
Qed.

(** C17: The pipeline keeps its types.  Words are unbounded integers in the model: in every
    state that a run reaches - over any memory, which may answer with any bytes, any caches,
    and any predictor that predicts only targets it was told - the register file holds 32
    words of 32 bits, and every field of the micro-ops in the four latches, the fetch buffer,
    the pc, the branch destination, the access of the MEM stage's transaction and the value
    it brought fits its Rust type: 32 bits for words, 5 for register numbers. *)
Theorem pipeline_typed entry_pc l1i_cfg l1d_cfg l2_cfg predictor (p0 : PipelineProcessor RP P)
    n (m : M) h tr p' m' h' :
  is_u32 entry_pc → only_targets is_u32 predictor →
  Cpu.new_with_predictor entry_pc l1i_cfg l1d_cfg l2_cfg predictor = Ret p0 →
  run_cycles n p0 m h = Ret (tr, (p', m', h')) →
  typed p'.
Proof. intros He Hb Hn Hr. eapply cycles_ty; [|exact Hr]. by eapply new_ty. Qed.
End processor.

#[local] Existing Instance dev_profile.
#[local] Existing Instance Bimodal.predictor.

Lemma pipeline_typed_witness :
  ∃ p' : PipelineProcessor Fifo.FifoRP Bimodal.Predictor, typed p' ∧ Forall is_u32 (id_regs p').
Proof.
  destruct (sum_cycles 20 100 sum_events_100) as (p0 & p' & i & d & l & m' & h' & tr & En & Er & _).
  assert (Hp : only_targets is_u32 Bimodal.new) by (intros k e Hk; discriminate Hk).
  assert (He : is_u32 0) by (unfold in_range; lia).
  pose proof (pipeline_typed _ _ _ _ _ _ _ _ _ _ _ _ _ He Hp En Er) as Ht.
  exists p'. split; [exact Ht | apply Ht].
Defined.
