(* ===== verification/PipeMemory.v ===== *)
(** The pipeline with its caches is the flat machine: the words IF fetches through the
    instruction cache and the values MEM loads through the data cache are those of one flat
    memory, whatever the caches, their shared L2 and the main memory do meanwhile.

    [PipeRun.v] shows that the trace of a run is an execution of the instruction set for some
    words and some loaded values; this file shows which: those of [FlatMachine.v]. *)
From S2P Require Import Prelude Word Format Instruction BranchPredictor Uop Execute Decode Datapath AbstractMem ReplacementPolicy CacheConfig CacheSet LowerMemory GeneralCache CacheAddress Device MemoryDevices CacheView CacheRefinement CacheDevice Hierarchy SharedCache MemoryAccess MemoryPorts SimpleMem Dram Pipe Runner IsaMachine FlatMachine PipeInvariant PipeRefinement PipeRun PipeHalt.
From stdpp Require Import base gmap numbers sets list strings.
From Stdlib Require Import Lia.
#[local] Open Scope Z_scope.
#[local] Coercion Z.of_nat : nat >-> Z.

(** * What the pipeline asks of its memory *)

Section fields.
Context {RP P : Type}.
Implicit Type p : PipelineProcessor RP P.

(** the access of the micro-op in MEM *)
Definition mem_access p : option MemoryAccess :=
  match mem_op p with
  | Some op => match Op.memory_access op with Ret a => a | Panic _ => None end
  | None => None
  end.

(** the request IF waits for *)
Definition fetch_req p : option MemoryReqType :=
  match if_fsm p with SendingReq r | WaitingComplete r => Some r | FetchIdle => None end.

(** where IF fetches in the next cycle *)
Definition fetch_pc p : Z := if branch_recover p then branch_destination p else if_pc p.

(** a step that leaves the memory ports alone, except that it may abandon the fetch *)
Record same_ports p p' : Prop := {
  so_icache : icache p' = icache p;
  so_dcache : dcache p' = dcache p;
  so_l2 : l2_cache p' = l2_cache p;
  so_tx : mem_transaction p' = mem_transaction p;
  so_fetch : fetch_req p' = None ∨ fetch_req p' = fetch_req p ∧ if_pc p' = if_pc p;
}.

Lemma same_ports_refl p : same_ports p p.
Proof. constructor; auto. Qed.

(** the micro-ops in front of EXE carry words of the code [v] between [lo] and [hi] *)
Definition carries_code (lo hi : Z) (v : view) (o : option PreDecodeMicroOp) : Prop :=
  match o with
  | Some op => placeholder op = false → in_code lo hi (pc op) = true → raw_inst op = word_at v (pc op)
  | None => True
  end.

Lemma carries_origin lo hi v op op' : raw_inst op' = raw_inst op → pc op' = pc op →
  placeholder op' = placeholder op → carries_code lo hi v (Some op) → carries_code lo hi v (Some op').
Proof. cbn. by intros -> -> ->. Qed.

Lemma carries_forward lo hi v o o' : carries_code lo hi v o → carries_code lo hi v (Cpu.forward o o').
Proof.
  destruct o as [op|], o' as [op'|]; cbn; try done.
Qed.
End fields.

(** ** The stages that leave the ports alone *)

Section stages.
Context `{Profile} {RP : Type} `{ReplacementPolicy RP} {P : Type} `{BranchPredict P}.
Implicit Type p : PipelineProcessor RP P.
Import Cpu.

Lemma recover_ports p p' : (branch_recover p = true → branch_flushes p = 3%nat) →
  recover p = Ret p' → same_ports p p' ∧ if_pc p' = fetch_pc p.
Proof.
  unfold recover, fetch_pc. intros Hfl. destruct (branch_recover p).
  2: { intros [= <-]. split; [apply same_ports_refl | done]. }
  specialize (Hfl eq_refl). unfold flush. cbn. rewrite Hfl. cbn. rewrite Hfl. cbn. rewrite Hfl. cbn. rewrite Hfl.
  cbn. intros Hr. apply bind_inv in Hr as (op & _ & [= <-]).
  split; [|done]. constructor; try done. by left.
Qed.

Lemma wb_ports p p' : pipe_stage_wb p = Ret p' → same_ports p p'.
Proof.
  unfold pipe_stage_wb. intros Hw. destruct (wb_op p) as [op|]; [|injection Hw as <-; apply same_ports_refl].
  assert (Hh : ∀ b, same_ports p (with_wb_op None (if b : bool then with_halt true p else p)))
    by (intros []; constructor; auto).
  apply bind_inv in Hw as (p1 & E1 & Hw). apply bind_inv in Hw as (p2 & E2 & Hw).
  assert (∃ b : bool, p1 = if b then with_halt true p else p) as [b ->].
  { destruct (inst op); try (injection E1 as <-; by exists false).
    apply bind_inv in E1 as (a0 & _ & E1). apply bind_inv in E1 as (a1 & _ & [= <-]). by eexists. }
  specialize (Hh b). assert (Hp2 : same_ports p p2).
  { destruct (Op.writeback op) as [[d v]|]; [|by injection E2 as <-].
    destruct (negb (d =? 0)); [|by injection E2 as <-].
    apply bind_inv in E2 as (rs & _ & [= <-]). by destruct Hh. }
  injection Hw as <-. destruct (negb _); [by destruct Hp2 | done].
Qed.

Lemma resolve_ports op p p' : resolve op p = Ret p' → same_ports p p'.
Proof.
  unfold resolve. intros Hr. apply bind_inv in Hr as ([b|] & _ & Hr);
    [|injection Hr as <-; apply same_ports_refl].
  apply bind_inv in Hr as (t & _ & Hr). apply bind_inv in Hr as (p1 & E & [= <-]).
  destruct (Branch.needs_recovery b t).
  - apply bind_inv in E as (d & _ & [= <-]). constructor; auto.
  - injection E as <-. constructor; auto.
Qed.

Lemma exe_ports p p' : pipe_stage_exe p = Ret p' → same_ports p p'.
Proof.
  unfold pipe_stage_exe. set (p0 := count_down p).
  assert (Hp0 : same_ports p p0)
    by (subst p0; unfold count_down; destruct (int_mul_div_stall_countdown p); constructor; auto).
  clearbody p0. intros He. destruct (mem_op p0); [by injection He as <-|].
  destruct (exe_op p0) as [e|]; [|by injection He as <-].
  assert (Hrun : execute_op e p0 = Ret p' → same_ports p p').
  { unfold execute_op. intros Hx. apply bind_inv in Hx as ([y z] & _ & Hx).
    apply bind_inv in Hx as (p1 & Hr%resolve_ports & [= <-]).
    destruct Hp0 as [? ? ? ? Hf], Hr as [? ? ? ? Ef].
    destruct (Execute.m_extension_stall _); (constructor; unfold fetch_req in *; cbn in *; [congruence..|]);
      (destruct Ef as [->|[-> ->]]; [by left | done]). }
  destruct (inst e); first
    [ injection He as <-; by destruct Hp0
    | destruct (Execute.m_extension_stall _);
      [destruct (int_mul_div_stall_countdown p0); [by apply Hrun | injection He as <-; by destruct Hp0]
      | by apply Hrun] ].
Qed.

Lemma decode_ports p b p' : pipe_stage_decode p b = Ret p' → same_ports p p'.
Proof.
  unfold pipe_stage_decode. intros Hd. destruct (exe_op p); [injection Hd as <-; apply same_ports_refl|].
  destruct (id_op p); [|injection Hd as <-; apply same_ports_refl].
  destruct b; [injection Hd as <-; apply same_ports_refl|].
  apply bind_inv in Hd as ([e|] & _ & Hd); [|done]. injection Hd as <-. constructor; auto.
Qed.
End stages.

(** the fetches of [n] cycles stay below [top]: a wrong path may lead anywhere *)
Section fetches.
Context `{Profile} {RP : Type} `{ReplacementPolicy RP} {P : Type} `{BranchPredict P}.
Context {M : Type} `{AbstractMemoryInterface M}.

Fixpoint fetches_in (top : Z) (n : nat) (p : PipelineProcessor RP P) (m : M) (h : heap) : bool :=
  match n with
  | O => true
  | S n =>
      if halt p then true
      else (0 <=? fetch_pc p) && (fetch_pc p + 4 <=? top) &&
           match Runner.cycle p m h with
           | Ret (p, m, h) => fetches_in top n p m h
           | Panic _ => true
           end
  end.
End fetches.

(** * The invariant *)

Section memory.
Context `{Profile} {RP : Type} `{ReplacementLaws RP} {P : Type} `{BranchPredict P}.
Context {M : Type} `{Device M} {L : DeviceLaws (RG := everywhere) M}.
Context (Hclock : ∀ (m : M) h, cycle m h = tick m h).
(** the code is between [lo] and [hi], and [V0] there; data are below [top], fetches below
  [ftop] *)
Context (lo hi top ftop : Z) (V0 : view).
#[local] Existing Instance everywhere.
Implicit Types (p q : PipelineProcessor RP P) (m : M) (h : heap) (s : Machine).
Import Cpu.

Definition code : Region := λ a, lo ≤ a < hi.

(** the caches serve what the processor asks for *)
Record reaches (ci cd : GeneralCache RP) (m : GeneralCache RP * M) : Prop := {
  re_fetch : ftop ≤ span ci m;
  re_data : top ≤ span cd m;
  re_fetch_block : (4 ≤ bs ci)%nat;
  re_data_block : (4 ≤ bs cd)%nat;
}.

(** the caches show the memory [W]; the ports know of their requests *)
Record ports p m h (W : view) : Prop := {
  po_shows : shows code (icache p) (dcache p) (l2_cache p, m) h W;
  po_code : ∀ x, code x → W x = V0 x;
  po_fetch : ∀ r, fetch_req p = Some r →
    fetch_served code V0 (icache p) (dcache p) (l2_cache p, m) h r ∧
    r = Load {| load_addr := if_pc p; load_len := 4; load_id := Req.id r |};
  po_tx : tx_served (icache p) (dcache p) (l2_cache p, m) h W (mem_transaction p);
  po_apart : ∀ r r', fetch_req p = Some r → tx_req (mem_transaction p) = Some r' →
    Req.id r ≠ Req.id r';
  po_reaches : reaches (icache p) (dcache p) (l2_cache p, m);
}.

(** the machine [s] is where the pipeline is, once the access in MEM has been made *)
Record in_step p (W : view) s : Prop := {
  is_core : core s = abs p;
  is_memory : ∀ x, memory s x = settled_view W (mem_transaction p) (mem_access p) x;
  is_reading : reading s = load_of (mem_access p);
  is_access : ∀ a, mem_access p = Some a → access_ok lo hi top a = true;
  is_code : ∀ x, code x → memory s x = V0 x;
}.

Definition raw_ok p : Prop := branch_recover p = false →
  carries_code lo hi V0 (id_op p) ∧ carries_code lo hi V0 (exe_op p).

Record synced p m h (W : view) s : Prop := {
  sy_ports : ports p m h W;
  sy_step : in_step p W s;
  sy_raw : raw_ok p;
}.

(** ** Steps that leave the ports alone *)

Lemma ports_same p p' m h W : same_ports p p' → ports p m h W → ports p' m h W.
Proof.
  intros [Ei Ed El Et Ef] [Hs Hc Hf Htx Hap Hr].
  constructor; rewrite ?Ei, ?Ed, ?El, ?Et; try done; destruct Ef as [->|[-> Epc]]; rewrite ?Epc; done.
Qed.

Lemma in_step_same p p' W s : mem_transaction p' = mem_transaction p → mem_op p' = mem_op p →
  abs p' = abs p → in_step p W s → in_step p' W s.
Proof.
  intros Et Em Ea [Hc Hm Hr Ha Hcode].
  assert (Eacc : mem_access p' = mem_access p) by (unfold mem_access; by rewrite Em).
  constructor; rewrite ?Eacc, ?Et; [by rewrite Ea | done..].
Qed.

Lemma synced_same p p' m h W s : same_ports p p' → mem_op p' = mem_op p → abs p' = abs p →
  raw_ok p' → synced p m h W s → synced p' m h W s.
Proof.
  intros Hso Em Ea Hr [Hp Hi _]. constructor; [by eapply ports_same| |done].
  apply (in_step_same p); [apply Hso | done..].
Qed.

Lemma reaches_same (ci cd ci' cd' : GeneralCache RP) (m m' : GeneralCache RP * M) :
  same_config ci ci' → same_config cd cd' → same_shape m m' → reaches ci cd m → reaches ci' cd' m'.
Proof.
  intros Hi Hd Hm []. destruct (same_bounds ci m ci' m' Hi Hm) as (_ & Es & Eb).
  destruct (same_bounds cd m cd' m' Hd Hm) as (_ & Es' & Eb').
  by constructor; rewrite ?Es, ?Es', ?Eb, ?Eb'.
Qed.

Lemma ports_stepped p q m m' h h' W : ports p m h W →
  shows code (icache q) (dcache q) (l2_cache q, m') h' W →
  SharedCache.stepped code W (icache p) (dcache p) (l2_cache p, m) h (icache q) (dcache q) (l2_cache q, m') h' →
  mem_transaction q = mem_transaction p → fetch_req q = fetch_req p → if_pc q = if_pc p →
  ports q m' h' W.
Proof.
  intros [Hs HW Hf Htx Hap Hre] Hs' Hst Et Er Epc. constructor; rewrite ?Et, ?Er, ?Epc; try done.
  - intros r Hr. destruct (Hf r Hr). split; [|done].
    by apply (stepped_fetch code V0 W (icache p) (dcache p) (l2_cache p, m) h).
  - by apply (stepped_tx code W (icache p) (dcache p) (l2_cache p, m) h).
  - eapply reaches_same; [exact (sp_code_config _ _ _ _ _ _ _ _ _ _ Hst) |
      exact (sp_data_config _ _ _ _ _ _ _ _ _ _ Hst) | exact (sp_shape _ _ _ _ _ _ _ _ _ _ Hst) | done].
Qed.

Lemma access_usable (cd : GeneralCache RP) (m : GeneralCache RP * M) a : top ≤ span cd m → (4 ≤ bs cd)%nat → access_ok lo hi top a = true →
  usable code cd m a.
Proof.
  unfold access_ok. intros Hs Hb Ha. apply andb_true_iff in Ha as [Ha Hsp].
  apply andb_true_iff in Ha as [Hlo%Z.leb_le Hhi%Z.leb_le]. constructor; [done | lia | done |].
  intros Hl x Hx. unfold code in Hx. rewrite Hl in Hsp. cbn in Hsp.
  apply orb_true_iff in Hsp as [?%Z.leb_le|?%Z.leb_le]; lia.
Qed.

(** ** Recovery, forwarding, WB and ID *)

Lemma recover_synced p p' m h W s : Inv forwardable p → recover p = Ret p' →
  synced p m h W s → synced p' m h W s ∧ if_pc p' = fetch_pc p.
Proof.
  intros Hinv Hr Hs. destruct (recover_ports p p') as [Hso Epc]; [by apply Hinv | done |].
  destruct (recover_ok p p' Hinv Hr) as (_ & _ & Ha). split; [|done].
  destruct (branch_recover p) eqn:Erec.
  - destruct (recover_recovered p p' Erec (proj2 (inv_recover _ _ Hinv Erec)) Hr) as [_ _ Eid Ee Em _ _ _ _].
    apply (synced_same p); [done..| |done]. intros _. by rewrite Eid, Ee.
  - unfold recover in Hr. rewrite Erec in Hr. by injection Hr as <-.
Qed.

Lemma forward_synced p m h W s : Inv forwardable p → branch_recover p = false →
  synced p m h W s → synced (pipe_normal_data_hazard_resolve p) m h W s.
Proof.
  intros Hinv Hrec Hs. destruct (forward_ok p Hinv Hrec) as (_ & _ & Ha).
  apply (synced_same p); [constructor; auto | done | done | | done].
  intros _. destruct (sy_raw _ _ _ _ _ Hs Hrec) as [Hid He]. split; [done|].
  by do 2 apply carries_forward.
Qed.

Lemma wb_synced p p' m h W s : Inv exact p → branch_recover p = false → pipe_stage_wb p = Ret p' →
  synced p m h W s → synced p' m h W s ∧ if_pc p' = if_pc p.
Proof.
  intros Hinv Hrec Hw Hs. destruct (wb_ok p p' Hinv Hrec Hw) as (_ & _ & _ & Ha).
  destruct (wb_spec p p' Hw) as ([Epc Eid Ee _ _ _] & _ & _ & Em & _). split; [|done].
  apply (synced_same p); [by apply wb_ports | done | done | | done].
  intros _. rewrite Eid, Ee. by apply (sy_raw _ _ _ _ _ Hs).
Qed.

Lemma decode_synced p b p' m h W s : Inv exact p → pipe_load_use_hazard_handle p = Ret b →
  pipe_stage_decode p b = Ret p' → synced p m h W s → synced p' m h W s ∧ if_pc p' = if_pc p.
Proof.
  intros Hinv Hb Hd Hs. destruct (decode_ok p b p' Hinv Hb Hd) as (_ & Ha & _).
  pose proof (decode_kept p b p' Hd) as Hk. pose proof (decode_ports p b p' Hd) as Hso.
  unfold pipe_stage_decode in Hd. destruct (exe_op p) as [e0|] eqn:Ee0; [by injection Hd as <-|].
  destruct (id_op p) as [op|] eqn:Eid; [|by injection Hd as <-]. destruct b; [by injection Hd as <-|].
  apply bind_inv in Hd as ([e|] & Ed & Hd); [|done]. injection Hd as <-. split; [|done].
  apply (synced_same p); [done | apply Hk | done | | done]. intros Hrec.
  destruct (sy_raw _ _ _ _ _ Hs Hrec) as [Hid _]. split; [done|].
  destruct (inv_front _ _ Hinv Hrec) as [Hop _]. destruct (Hop op Eid) as [Hf _].
  destruct (fetched_no_sources op Hf) as (H1' & H2' & _).
  destruct (decode_shape op _ e H1' H2' Ed) as [(Er & _ & Eq & _ & Ep) _].
  rewrite Eid in Hid. by apply (carries_origin _ _ _ op).
Qed.

Lemma nop_synced p m h W s : Inv forwardable p → exe_op p = None →
  synced p m h W s → synced (with_exe_op (Some Op.placeholder_nop) p) m h W s.
Proof.
  intros Hinv He Hs. destruct (nop_ok p Hinv He) as [_ Ha].
  apply (synced_same p); [constructor; auto | done | done | | done].
  intros Hrec. split; [|done]. by apply (sy_raw _ _ _ _ _ Hs).
Qed.

(** ** MEM *)

Lemma idle_tx p : transaction_ok p → mem_access p = None → mem_transaction p = TxIdle.
Proof.
  unfold transaction_ok, mem_access. intros Ht Ha.
  destruct (mem_transaction p) as [|r a|r a|v]; [done | | | done]; destruct Ht as (op & Eop & Ea);
    rewrite Eop, Ea in Ha; done.
Qed.

(** a finished micro-op without a value to bring *)
Lemma no_load_event op a : Op.memory_access op = Ret a → loads a = false → load_event (Some op) = [].
Proof. unfold loads. intros E Hl. cbn. unfold Op.is_load. rewrite E. cbn. by rewrite Hl. Qed.

(** the outcome of the transaction in MEM *)
Abbreviation outcome p m h W a st t dc l2 m' h' W' :=
  (data_outcome code V0 (icache p) (dcache p) (l2_cache p, m) h
     (λ r, ∀ r', tx_req (mem_transaction p) = Some r' → Req.id r ≠ Req.id r')
     (settled_view W (mem_transaction p) (Some a)) a st t dc (l2, m') h' W').

Lemma mem_ports p q m h W a st t dc l2 m' h' W' : ports p m h W → outcome p m h W a st t dc l2 m' h' W' →
  icache q = icache p → dcache q = dc → l2_cache q = l2 → mem_transaction q = rest st t →
  fetch_req q = fetch_req p → if_pc q = if_pc p → ports q m' h' W'.
Proof.
  intros [Hsh HW Hf Htx Hap Hre] [Hsh' HW' Hcd Hss Hfe Htx' _ _] E1 E2 E3 E4 E5 E6.
  constructor; rewrite ?E1, ?E2, ?E3, ?E4, ?E5, ?E6; try done.
  - intros r Hr. destruct (Hf r Hr) as [Hfs ?]. split; [|done]. apply Hfe; [done|].
    intros r' Hr'. by apply Hap.
  - intros r r' Hr Hr'. destruct (Hf r Hr) as [Hfs _].
    destruct (Hfe r Hfs) as [_ Hne]; [intros r0 Hr0; by apply Hap|]. by apply Hne.
  - eapply reaches_same; [apply same_config_refl | exact Hcd | exact Hss | done].
Qed.

Lemma mem_outcome p m h W s op a st t dc l2 m' h' : Inv exact p → synced p m h W s →
  mem_op p = Some op → Op.memory_access op = Ret (Some a) →
  Transaction.progress (mem_transaction p) (dcache p, (l2_cache p, m)) a h = Ret (st, t, (dc, (l2, m')), h') →
  ∃ W', outcome p m h W a st t dc l2 m' h' W'.
Proof.
  intros Hinv [[Hsh HW _ Htx _ [_ Hr2 _ Hr4]] [_ _ _ Hacc _] _] Em Ea Epr.
  apply (progress_outcome code V0 (icache p) (dcache p) (l2_cache p, m) h W); try done.
  { apply access_usable; [done..|]. apply Hacc. unfold mem_access. by rewrite Em, Ea. }
  pose proof (inv_tx _ _ Hinv) as Hok. unfold transaction_ok in Hok.
  destruct (mem_transaction p) as [|r b|r b|v]; try done; destruct Hok as (op' & Eop & Ea');
    rewrite Em in Eop; injection Eop as <-; rewrite Ea in Ea'; by injection Ea'.
Qed.

(** the micro-op that leaves MEM with the value [lv] *)
Definition finished (lv : option Z) (op : PreDecodeMicroOp) : PreDecodeMicroOp :=
  match lv with Some v => Op.set_writeback_value v op | None => op end.

(** the machine takes the step of a load that is complete *)
Lemma completed_step s op a lv c c' : core s = c → reading s = load_of (Some a) →
  Op.memory_access op = Ret (Some a) →
  (if Access.is_load a then ∃ x, lv = Some x ∧ load_value (memory s) a = Ret x else lv = None) →
  isa_steps c (load_event (Some (finished lv op))) c' →
  flat_run (length (load_event (Some (finished lv op)))) s =
    Ret (load_event (Some (finished lv op)),
         {| core := c'; memory := memory s; reading := None |}).
Proof.
  intros Hc Hr Ea Hlv Hst. destruct a as [ad w e|ad w y]; cbn [Access.is_load] in Hlv.
  - destruct Hlv as (x & -> & Hx). cbn [finished] in *.
    assert (El : load_event (Some (Op.set_writeback_value x op)) = [Loaded x]).
    { cbn. unfold Op.is_load. change (Op.memory_access (Op.set_writeback_value x op)) with (Op.memory_access op).
      by rewrite Ea. }
    rewrite El in *. apply isa_steps_single in Hst. rewrite <- Hc in Hst.
    cbn [length flat_run]. rewrite (flat_step_complete s _ _ Hst); [done|]. by exists (LoadAccess ad w e).
  - subst lv. cbn [finished] in *. rewrite (no_load_event op _ Ea eq_refl) in *.
    apply isa_steps_none in Hst as ->. destruct s as [c0 v rd]. cbn in *. by rewrite Hc, Hr.
Qed.

Lemma mem_synced p m h p' m' h' W s : Inv exact p → branch_recover p = false → wb_op p = None →
  pipe_stage_mem p m h = Ret (p', m', h') → synced p m h W s →
  if_pc p' = if_pc p ∧ ∃ W' s',
    flat_run (length (load_event (wb_op p'))) s = Ret (load_event (wb_op p'), s') ∧
    synced p' m' h' W' s'.
Proof.
  intros Hinv Hrec Hwb Hm Hs.
  destruct (mem_ok p m h p' m' h' Hinv Hrec Hwb Hm) as (_ & _ & Hst & _ & _).
  destruct (mem_spec p m h p' m' h' Hwb (inv_tx _ _ Hinv) Hm) as ([Epc Eid Ee Er _ _] & _ & _).
  split; [done|].
  assert (Hraw : raw_ok p') by (intros _; rewrite Eid, Ee; by apply (sy_raw _ _ _ _ _ Hs)).
  pose proof Hs as [Hp [Hcore Hmem Hread Hacc Hcode] _].
  unfold pipe_stage_mem in Hm. destruct (mem_op p) as [op|] eqn:Em.
  2: { injection Hm as <- <- <-. rewrite Hwb. by exists W, s. }
  apply bind_inv in Hm as (acc & Ea & Hm).
  assert (Eacc : mem_access p = acc) by (unfold mem_access; by rewrite Em, Ea).
  rewrite Eacc in *. destruct acc as [a|].
  - apply bind_inv in Hm as ([[[st t] [dc [l2 m1]]] h1] & Epr & Hm).
    destruct (mem_outcome p m h W s op a st t dc l2 m1 h1) as (W' & Ho); [done..|].
    assert (Hmem' : ∀ x, memory s x = settled_view W' (rest st t) (rest_access st a) x)
      by (intros x; by rewrite Hmem, (do_view _ _ _ _ _ _ _ _ _ _ _ _ _ _ _ Ho)).
    pose proof (do_value _ _ _ _ _ _ _ _ _ _ _ _ _ _ _ Ho) as Hval.
    exists W'. destruct st as [|lv]; injection Hm as <- <- <-.
    + cbn [wb_op with_transaction with_l2_cache with_dcache] in *. rewrite Hwb in *.
      apply isa_steps_none in Hst. exists s. split; [done|].
      constructor; [by eapply mem_ports| |done].
      constructor; change (mem_access (with_transaction _ _)) with (mem_access p);
        rewrite ?Eacc; [by rewrite Hst | done..].
    + unfold finish_mem in *. cbn [wb_op with_transaction with_l2_cache with_dcache] in *. rewrite Hwb in *.
      eexists. split.
      { apply (completed_step s op a lv (abs p)); try done. destruct (Access.is_load a); [|done].
        destruct Hval as (x & -> & Hx). exists x. split; [done|]. rewrite <- Hx. by apply load_value_ext. }
      constructor; [by eapply mem_ports| |done]. constructor; done.
  - injection Hm as <- <- <-. unfold finish_mem in *. rewrite Hwb in *. cbn [wb_op with_wb_op] in *.
    pose proof (idle_tx p (inv_tx _ _ Hinv) Eacc) as Et. rewrite Et in *.
    rewrite (no_load_event op None Ea eq_refl) in *. apply isa_steps_none in Hst.
    exists W, s. split; [done|]. constructor; [| |done].
    + apply (ports_same p); [|done]. constructor; auto; by rewrite Et.
    + constructor; try done. by rewrite Hst.
Qed.

(** ** EXE *)

(** the access of an executed instruction leaves the code alone *)
Lemma access_code v acc x : (∀ a, acc = Some a → access_ok lo hi top a = true) → code x →
  mem_after v acc x = v x.
Proof.
  intros Ha [Hx1 Hx2]. destruct acc as [[ad w e|ad w y]|]; [done| |done]. cbn.
  specialize (Ha _ eq_refl). unfold access_ok in Ha. cbn in Ha. unfold view_write.
  apply decide_False. unfold stored_bytes. rewrite length_take, length_to_le_bytes.
  apply andb_true_iff in Ha as [_ Ha]. apply orb_true_iff in Ha as [Ha%Z.leb_le|Ha%Z.leb_le]; lia.
Qed.

Lemma word_at_code v w pc : (∀ x, code x → v x = w x) → in_code lo hi pc = true → word_at v pc = word_at w pc.
Proof.
  unfold in_code, word_at. intros E Hp. apply andb_true_iff in Hp as [H1'%Z.leb_le H2'%Z.leb_le].
  f_equal. apply view_read_eq; [apply length_view_read|]. intros i Hi.
  rewrite list_lookup_total_alt, lookup_view_read by done. cbn. symmetry. apply E. unfold code. lia.
Qed.

Lemma well_behaved_one s e s' : well_behaved lo hi top 1 s = true → outstanding (core s) = None →
  in_code lo hi (next_pc (core s)) = true ∧ (flat_step s = Ret (e, s') → event_ok lo hi top e = true).
Proof.
  cbn. intros Hw Ho. rewrite Ho in Hw. apply andb_true_iff in Hw as [Hc Hw]. split.
  - by rewrite bool_decide_eq_false_2 in Hc by (by intros [? ?]).
  - intros E. rewrite E in Hw. by apply andb_true_iff in Hw as [].
Qed.

(** the machine takes the step of an instruction that EXE hands to MEM *)
Lemma executed_step p s pc raw acc c' W : in_step p W s → mem_op p = None → mem_transaction p = TxIdle →
  isa_step (abs p) (Executed pc raw acc) c' →
  (in_code lo hi pc = true → raw = word_at V0 pc) → well_behaved lo hi top 1 s = true →
  ∃ s', flat_step s = Ret (Executed pc raw acc, s') ∧ core s' = c' ∧
    (∀ x, memory s' x = mem_after W acc x) ∧ reading s' = load_of acc ∧
    (∀ a, acc = Some a → access_ok lo hi top a = true) ∧ ∀ x, code x → memory s' x = V0 x.
Proof.
  intros [Hcore Hmem _ _ Hcode] Em Et Hst Hraw Hw.
  assert (Eacc : mem_access p = None) by (unfold mem_access; by rewrite Em).
  rewrite Et, Eacc in Hmem. cbn in Hmem. rewrite <- Hcore in Hst.
  assert (Epc : outstanding (core s) = None ∧ next_pc (core s) = pc) by by inversion Hst.
  destruct Epc as [Eo Epc]. set (s' := {| core := c'; memory := mem_after (memory s) acc; reading := load_of acc |}).
  destruct (well_behaved_one s (Executed pc raw acc) s' Hw Eo) as [Hin Hev]. rewrite Epc in Hin.
  assert (Hstep : flat_step s = Ret (Executed pc raw acc, s')).
  { apply (flat_step_complete s _ _ Hst). rewrite Hraw by done. symmetry. by apply word_at_code. }
  assert (Hok : ∀ a, acc = Some a → access_ok lo hi top a = true).
  { intros a ->. specialize (Hev Hstep). cbn in Hev. by apply andb_true_iff in Hev as []. }
  exists s'. split_and!; try done.
  - intros x. subst s'. cbn [memory]. destruct acc as [[ad w e|ad w y]|]; cbn; [done| |done].
    unfold view_write. by case_decide.
  - intros x Hx. subst s'. cbn [memory]. rewrite (access_code _ acc) by done. by apply Hcode.
Qed.

Lemma exe_synced p p' m h W s : Inv exact p → branch_recover p = false → pipe_stage_exe p = Ret p' →
  synced p m h W s → if_pc p' = if_pc p ∧ ∃ ev,
    (mem_op p' = mem_op p ∧ ev = [] ∨ mem_op p = None ∧ ev = exec_event (mem_op p')) ∧
    (well_behaved lo hi top (length ev) s = true →
     ∃ s', flat_run (length ev) s = Ret (ev, s') ∧ synced p' m h W s').
Proof.
  intros Hinv Hrec He Hs. destruct (exe_ok_stage p p' Hinv Hrec He) as (Hinv' & [Epc Eid _ _ Et _] & Hcase).
  split; [done|]. pose proof (exe_ports p p' He) as Hso. pose proof Hs as [Hp Hi Hraw].
  destruct (Hraw Hrec) as [Hrid Hre].
  destruct (exe_spec p p' He) as [_ [[Hsf Em]|Hdone]].
  { exists []. split; [by left|]. intros _. exists s. split; [done|].
    destruct Hcase as [[_ Ha]|(Hn & [op Ho] & _)]; [|congruence].
    apply (synced_same p); try done. intros _. by rewrite Eid, (sf_exe _ _ Hsf). }
  destruct (exe_done_origin p p' Hdone) as (e & op & Ee & Em' & Ee' & Oraw & Oinst & Opc & _ & Oph).
  destruct Hcase as [[Em _]|(Em & _ & Hst & _)].
  { destruct Hdone as (? & ? & _ & ? & _). congruence. }
  exists (exec_event (mem_op p')). split; [by right|]. intros Hw.
  assert (Eacc : mem_access p = None) by (unfold mem_access; by rewrite Em).
  pose proof (idle_tx p (inv_tx _ _ Hinv) Eacc) as Etx.
  assert (Hraw' : raw_ok p') by (intros _; by rewrite Eid, Ee').
  destruct (inv_mem _ _ Hinv' op Em') as (acc & Eop & _).
  assert (Eacc' : mem_access p' = acc) by (unfold mem_access; by rewrite Em', Eop).
  destruct (placeholder op) eqn:Eph.
  - assert (Ev : exec_event (mem_op p') = []) by (rewrite Em'; cbn; by rewrite Eph).
    rewrite Ev in *. apply isa_steps_none in Hst. exists s. split; [done|].
    constructor; [by eapply ports_same | | done]. destruct Hi as [Hcore Hmem Hread _ Hcode].
    assert (acc = None) as ->.
    { destruct (inv_front _ _ Hinv Hrec) as [_ Hexe]. destruct (Hexe e Ee) as [->|((fop & Hf & Hd) & _)].
      - unfold Op.memory_access in Eop. rewrite Oinst in Eop. by injection Eop.
      - destruct (decoded_facts fop _ e Hf Hd) as (?&?&?&?&?&?&?&?&?&?&?&?&?&?& Hne & _). congruence. }
    rewrite Eacc, Etx in *. constructor; rewrite ?Eacc', ?Et; by rewrite ?Hst, ?Etx.
  - assert (Ev : exec_event (mem_op p') = [Executed (pc op) (raw_inst op) acc])
      by (rewrite Em'; cbn; by rewrite Eph, Eop).
    rewrite Ev in *. apply isa_steps_single in Hst.
    destruct (executed_step p s _ _ _ _ W Hi Em Etx Hst) as (s' & E & Hc & Hm & Hr & Ha & Hcd); [|done|].
    { rewrite Ee in Hre. rewrite Oraw, Opc. apply Hre. by rewrite <- Oph. }
    exists s'. split; [cbn; by rewrite E|]. constructor; [by eapply ports_same | | done].
    constructor; rewrite ?Eacc', ?Et, ?Etx; done.
Qed.

(** ** IF *)

(** a fetch that is answered brings the word of the code *)
Lemma fetched_word_code r pc h w : r = Load {| load_addr := pc; load_len := 4; load_id := Req.id r |} →
  (done (Heap.get h (Req.id r)) = true → @Device.answers code r V0 (Heap.get h (Req.id r))) →
  Req.is_done r h = true → fetched_word r h = Ret w → in_code lo hi pc = true → w = word_at V0 pc.
Proof.
  intros Er Ha Hd Hw Hin. rewrite is_done_get in Hd. specialize (Ha Hd).
  unfold in_code in Hin. apply andb_true_iff in Hin as [H1'%Z.leb_le H2'%Z.leb_le].
  set (id := Req.id r) in *. clearbody id. subst r.
  pose proof (fetched_code code V0 {| load_addr := pc; load_len := 4; load_id := id |} _ 4 eq_refl Ha) as Hb. cbn [load_addr] in Hb.
  unfold fetched_word in Hw. cbn in Hw. apply bind_inv in Hw as (arr & Earr & Hw). apply Ret_inj in Hw as <-.
  apply slice_inv in Earr as [_ ->]. unfold LoadReq.data. cbn.
  cbn in Hb. rewrite Hb by (intros; unfold code; lia). reflexivity.
Qed.

(** the word IF has, if it has one *)
Definition buffered p (ready : bool) : Prop :=
  ready = true → ∃ w, if_raw_isnt_buffer p = Some w ∧
    (in_code lo hi (if_pc p) = true → w = word_at V0 (if_pc p)).

Lemma send_ports p r m h b p' m' h' W : ports p m h W → fetch_req p = None ∨ fetch_req p = Some r →
  fetch_served code V0 (icache p) (dcache p) (l2_cache p, m) h r →
  r = Load {| load_addr := if_pc p; load_len := 4; load_id := Req.id r |} →
  (∀ r', tx_req (mem_transaction p) = Some r' → Req.id r ≠ Req.id r') →
  0 ≤ if_pc p → if_pc p + 4 ≤ ftop →
  send_fetch p r m h = Ret (b, p', m', h') → ports p' m' h' W ∧ buffered p' b.
Proof.
  intros [Hs HW Hf Htx Hap Hre] Hreq Hfs Er Hne Hlo Hhi E. unfold send_fetch in E. cbn in E.
  apply bind_inv in E as ([[res [ic [l2 m1]]] h1] & Et & E).
  apply bind_inv in Et as ([[[res0 ic0] l0] h0] & Et & [= -> -> -> ->]).
  assert (Hl : Req.is_store r = false ∧ Req.get_len r = 4%nat ∧ Req.get_addr r = if_pc p) by by rewrite Er.
  destruct Hl as (Hld & Hlen & Haddr). pose proof Hre as [R1 R2 R3 R4].
  destruct (fetch_outcome code V0 _ _ _ _ W (mem_transaction p) r res ic (l2, m1) h1 Hs HW Htx Hfs Hne
    Hld Hlen R3) as (Hs' & Htx' & Hfs' & Hic & Hss); [by rewrite Haddr | rewrite Haddr; lia | done |].
  assert (Hports : ∀ q, icache q = ic → dcache q = dcache p → l2_cache q = l2 →
    mem_transaction q = mem_transaction p → fetch_req q = None ∨ fetch_req q = Some r →
    if_pc q = if_pc p → ports q m1 h1 W).
  { intros q E1 E2 E3 E4 E5 E6. constructor; rewrite ?E1, ?E2, ?E3, ?E4; try done.
    - rewrite E6. destruct E5 as [->| ->]; [done|]. by intros ? [= <-].
    - destruct E5 as [->| ->]; [done|]. intros ? r' [= <-]. apply Hne.
    - eapply reaches_same; [exact Hic | apply same_config_refl | exact Hss | done]. }
  destruct res as [[]|[]].
  - destruct (Req.is_done r h1) eqn:Hd; cbn [negb] in E.
    + apply bind_inv in E as (w & Ew & E). injection E as <- <- <- <-.
      assert (Hfin : ports (with_buffer (Some w) (with_l2_cache l2 (with_icache ic p))) m1 h1 W)
        by (apply Hports; done).
      split; [done|]. intros _. exists w. split; [done|]. cbn.
      apply (fetched_word_code r (if_pc p) h1); [done | by destruct Hfs' | done..].
    + injection E as <- <- <- <-. split; [|done]. apply Hports; try done. by right.
  - injection E as <- <- <- <-. split; [|done]. apply Hports; try done. by right.
Qed.

Lemma fetch_request_ports p m h b p' m' h' W : ports p m h W → 0 ≤ if_pc p → if_pc p + 4 ≤ ftop →
  fetch_request p m h = Ret (b, p', m', h') → ports p' m' h' W ∧ buffered p' b.
Proof.
  intros Hp Hlo Hhi E. unfold fetch_request in E. pose proof Hp as [Hs HW Hf Htx Hap Hre].
  destruct (if_fsm p) as [|r|r] eqn:Efsm.
  - destruct (Req.load (if_pc p) 4 h) as [r h0] eqn:El.
    assert (Er : r = Load {| load_addr := if_pc p; load_len := 4; load_id := next_id h |} ∧
      next_id h0 = S (next_id h) ∧ done (Heap.get h0 (next_id h)) = false ∧
      ∀ id, (id < next_id h)%nat → Heap.get h0 id = Heap.get h id).
    { injection El as <- <-. unfold Heap.get. cbn. split_and!; try done; [by rewrite lookup_insert_eq|].
      intros id Hid. by rewrite lookup_insert_ne by lia. }
    destruct Er as (Er & En & Hd & Hk).
    destruct (shows_grow code _ _ _ h h0 W Hs) as (Hs0 & Hst0 & Hnew); [lia | done |].
    assert (Hp0 : ports p m h0 W) by by eapply ports_stepped.
    assert (Eid : Req.id r = next_id h) by by rewrite Er.
    eapply (send_ports p r m h0); try done.
    + left. unfold fetch_req. by rewrite Efsm.
    + split; [right; apply Hnew; lia|]. rewrite Eid. congruence.
    + by rewrite Eid.
    + intros r' Hr'. pose proof (tx_served_old code _ _ _ _ _ _ _ Hs Htx Hr'). lia.
  - assert (Hr : fetch_req p = Some r) by (unfold fetch_req; by rewrite Efsm).
    destruct (Hf r Hr) as [Hfs Er]. eapply (send_ports p r m h); try done; [by right|].
    intros r'. by apply Hap.
  - assert (Hr : fetch_req p = Some r) by (unfold fetch_req; by rewrite Efsm).
    destruct (Hf r Hr) as [Hfs Er]. destruct (Req.is_done r h) eqn:Hd; cbn [negb] in E.
    + apply bind_inv in E as (w & Ew & [= <- <- <- <-]). split.
      { apply (ports_same p); [|done]. constructor; auto. }
      intros _. exists w. split; [done|]. apply (fetched_word_code r (if_pc p) h); [done | apply Hfs | done..].
    + injection E as <- <- <- <-. by split.
Qed.

Lemma issue_ports p p' w : if_raw_isnt_buffer p = Some w → issue p = Ret p' →
  same_ports p p' ∧ ∃ d, id_op p' = Some d ∧ raw_inst d = w ∧ pc d = if_pc p.
Proof.
  unfold issue. intros -> Hi. cbn [unwrap] in Hi. rewrite bind_Ret in Hi.
  apply bind_inv in Hi as (i & _ & Hi). cbn [if_pc branch_predictor with_hpm with_buffer] in Hi.
  destruct (opcode_or_op w);
    first [ apply bind_inv in Hi as (next & _ & [= <-])
          | destruct (branch_predict _ _) as [bp bpred]; apply bind_inv in Hi as (next & _ & [= <-]) ];
    (split; [constructor; auto | by eexists]).
Qed.

Lemma fetch_synced p m h p' m' h' W s : Inv forwardable p → 0 ≤ if_pc p → if_pc p + 4 ≤ ftop →
  pipe_stage_fetch p m h = Ret (p', m', h') → synced p m h W s → synced p' m' h' W s.
Proof.
  intros Hinv Hlo Hhi Hf [Hp Hi Hraw]. destruct (fetch_ok p m h p' m' h' Hinv Hf) as (_ & Ha & Ee).
  destruct (fetch_spec p m h p' m' h' Hf) as [[_ _ Em _ Et Erec _ _ _] _].
  unfold pipe_stage_fetch in Hf. apply bind_inv in Hf as ([[[b p1] m1] h1] & Er & Hf).
  destruct (fetch_request_ports _ _ _ _ _ _ _ _ Hp Hlo Hhi Er) as [Hp1 Hb].
  destruct (fetch_requested _ _ _ _ _ _ _ Er) as (Hsb & Eid & Epc & _).
  assert (Hpr : ports p' m' h' W ∧
    (branch_recover p = false → carries_code lo hi V0 (id_op p'))).
  { assert (Hid : branch_recover p = false → carries_code lo hi V0 (id_op p1))
      by (intros Hr; rewrite Eid; by apply Hraw).
    destruct b; cbn [negb] in Hf; [|by injection Hf as <- <- <-].
    destruct (id_op p1) as [d|] eqn:Ed; [injection Hf as <- <- <-; split; [done|]; by rewrite Ed|].
    apply bind_inv in Hf as (p2 & Ei & [= <- <- <-]). destruct (Hb eq_refl) as (w & Hw & Hwc).
    destruct (issue_ports p1 p2 w Hw Ei) as (Hso & d & -> & <- & Epcd).
    split; [by eapply ports_same|]. intros _ _ Hin. rewrite Epcd in *. by apply Hwc. }
  destruct Hpr as [Hp' Hid']. constructor; [done | by apply (in_step_same p) |].
  intros Hr. rewrite Erec in Hr. rewrite Ee. split; [by apply Hid' | by apply Hraw].
Qed.

(** ** The clock *)

Lemma clock_synced p m h p1 m1 h1 m' h' W s : tick_caches p m h = Ret (p1, m1, h1) →
  AbstractMem.tick m1 h1 = Ret (m', h') → synced p m h W s → synced p1 m' h' W s.
Proof using Hclock.
  intros Ht Hm [Hp Hi Hraw]. pose proof (po_shows _ _ _ _ Hp) as Hs.
  destruct (tick_caches_same _ _ _ _ _ _ Ht) as (Hsb & Eid & Epc).
  destruct (caches_cycle code _ _ _ _ W Hs) as (ci' & l1 & k1 & cd' & l2 & k2 & l3 & k3 & E1 & E2 & E3 & Hs' & Hst).
  unfold tick_caches in Ht. destruct l1 as [c1 n1], l2 as [c2 n2], l3 as [c3 n3].
  apply bind_inv in Ht as ([[ic [a1 b1]] j1] & F1 & Ht). apply bind_inv in Ht as ([[dc [a2 b2]] j2] & F2 & Ht).
  pose proof (eq_trans (eq_sym F1) E1) as [= -> -> -> ->].
  pose proof (eq_trans (eq_sym F2) E2) as [= -> -> -> ->].
  cbn in E3. unfold AbstractMem.tick, Cache_Clocked in E3. cbn [fst snd] in E3.
  apply bind_inv in Ht as ([[c4 n4] k4] & E4 & [= <- <- <-]).
  rewrite E4, bind_Ret in E3. cbn in E3. rewrite Hclock, Hm in E3. cbn in E3. injection E3 as <- <- <-.
  constructor; [|apply (in_step_same p); [done..| |done]|done].
  - by apply (ports_stepped p _ m m' h).
  - by apply back_abs; [|unfold front_pc; rewrite Eid, Epc].
Qed.

(** ** The cycle *)

(** the stages in front of EXE *)
Lemma front_synced p p' b m h m' h' W s : Inv exact p → pipe_load_use_hazard_handle p = Ret b →
  0 ≤ if_pc p → if_pc p + 4 ≤ ftop →
  (p1 ← pipe_stage_decode p b;
   '(p2, m, h) ← pipe_stage_fetch p1 m h;
   if (b : bool) then
     _ ← assert_ (bool_decide (exe_op p2 = None));
     mret (with_exe_op (Some Op.placeholder_nop) p2, m, h)
   else mret (p2, m, h)) = Ret (p', m', h') →
  synced p m h W s → synced p' m' h' W s.
Proof.
  intros Hinv Eb Hlo Hhi Hs Hsy. apply bind_inv in Hs as (p1 & E1 & Hs).
  destruct (decode_ok p b p1 Hinv Eb E1) as (Hi1 & _ & He1).
  destruct (decode_synced p b p1 m h W s Hinv Eb E1 Hsy) as [Hsy1 Epc1].
  apply bind_inv in Hs as ([[p2 m2] h2] & E2 & Hs).
  destruct (fetch_ok p1 m h p2 m2 h2 Hi1 E2) as (Hi2 & _ & He2).
  assert (Hsy2 : synced p2 m2 h2 W s)
    by (eapply fetch_synced; [exact Hi1 | by rewrite Epc1 | by rewrite Epc1 | done..]).
  destruct b; [|by injection Hs as <- <- <-].
  apply bind_inv in Hs as ([] & _ & [= <- <- <-]). apply nop_synced; [done | by rewrite He2, He1 | done].
Qed.

Lemma stages_synced p m h p' m' h' W s k : Inv forwardable p → branch_recover p = false →
  0 ≤ if_pc p → if_pc p + 4 ≤ ftop → stages p m h = Ret (p', m', h') → synced p m h W s →
  well_behaved lo hi top (length (observe p p') + k) s = true →
  ∃ W' s', flat_run (length (observe p p')) s = Ret (observe p p', s') ∧ synced p' m' h' W' s'.
Proof.
  intros Hinv Hrec Hlo Hhi Hs Hsy Hwell. unfold stages in Hs.
  destruct (forward_ok p Hinv Hrec) as (Hi1 & Hr1 & _).
  pose proof (forward_synced p m h W s Hinv Hrec Hsy) as Hsy1.
  set (p1 := pipe_normal_data_hazard_resolve p) in *.
  apply bind_inv in Hs as (p2 & E2 & Hs).
  destruct (wb_ok p1 p2 Hi1 Hr1 E2) as (Hi2 & Hr2 & Hw2 & _).
  destruct (wb_synced p1 p2 m h W s Hi1 Hr1 E2 Hsy1) as [Hsy2 Epc2].
  assert (Em2 : mem_op p2 = mem_op p) by (destruct (wb_spec p1 p2 E2) as (_ & _ & _ & Em & _); exact Em).
  apply bind_inv in Hs as ([[p3 m3] h3] & E3 & Hs).
  destruct (mem_ok p2 m h p3 m3 h3 Hi2 Hr2 Hw2 E3) as (Hi3 & Hr3 & _ & Hcase3 & _).
  destruct (mem_synced p2 m h p3 m3 h3 W s Hi2 Hr2 Hw2 E3 Hsy2) as (Epc3 & W' & s1 & Hrun1 & Hsy3).
  apply bind_inv in Hs as (p4 & E4 & Hs).
  destruct (exe_ok_stage p3 p4 Hi3 Hr3 E4) as (Hi4 & Hsa4 & _).
  destruct (exe_synced p3 p4 m3 h3 W' s1 Hi3 Hr3 E4 Hsy3) as (Epc4 & ev & Hev & Hrun2).
  apply bind_inv in Hs as (b & E5 & Hs).
  destruct (front_stages p4 p' b m3 h3 m' h' Hi4 E5 Hs) as (_ & _ & Hk').
  assert (Hobs : observe p p' = load_event (wb_op p3) ++ ev).
  { apply (observe_event p p3 p4); [apply Hk' | apply Hk' | apply Hsa4 | | done].
    destruct Hcase3 as [[(? & Em3 & _) _]|(o & acc & lv & _ & _ & _ & Em3 & _ & Ew3)];
      [left; by rewrite Em3, Em2 | right; by rewrite Ew3]. }
  rewrite Hobs, length_app, <- Nat.add_assoc in Hwell.
  pose proof (well_behaved_app _ _ _ _ _ _ _ _ Hwell Hrun1) as Hwell1.
  destruct (Hrun2 (well_behaved_prefix _ _ _ _ _ _ Hwell1)) as (s' & Hrun2' & Hsy4).
  exists W', s'. split.
  { rewrite Hobs, length_app, flat_run_app, Hrun1, bind_Ret, Hrun2'. done. }
  eapply front_synced; [exact Hi4 | exact E5 | by rewrite Epc4, Epc3, Epc2 | by rewrite Epc4, Epc3, Epc2 | done..].
Qed.

Lemma cycle_synced p m h p' m' h' W s k : Inv forwardable p → Runner.cycle p m h = Ret (p', m', h') →
  0 ≤ fetch_pc p → fetch_pc p + 4 ≤ ftop → synced p m h W s →
  well_behaved lo hi top (length (observe p p') + k) s = true →
  ∃ W' s', flat_run (length (observe p p')) s = Ret (observe p p', s') ∧ synced p' m' h' W' s'.
Proof using Hclock.
  intros Hinv Hc Hlo Hhi Hsy Hwell. unfold Runner.cycle in Hc.
  apply bind_inv in Hc as ([[p4 m4] h4] & Ht & Hc). apply bind_inv in Hc as ([m5 h5] & Hm & [= <- <- <-]).
  unfold Cpu.tick in Ht. set (p0 := with_hpm _ p) in Ht.
  assert (Hi0 : Inv forwardable p0) by (constructor; try apply Hinv; intros Hr;
    destruct (inv_front _ _ Hinv Hr); by constructor).
  assert (Hsy0 : synced p0 m h W s).
  { apply (synced_same p); try done; [constructor; auto | by apply (sy_raw _ _ _ _ _ Hsy)]. }
  apply bind_inv in Ht as (p1 & E1 & Ht). destruct (recover_ok p0 p1 Hi0 E1) as (Hi1 & Hr1 & _).
  destruct (recover_synced p0 p1 m h W s Hi0 E1 Hsy0) as [Hsy1 Epc1].
  change (fetch_pc p0) with (fetch_pc p) in Epc1. rewrite <- Epc1 in Hlo, Hhi.
  pose proof (recover_kept p0 p1 Hi0 E1) as Hk1.
  apply bind_inv in Ht as ([[p2 m2] h2] & E2 & Ht).
  destruct (tick_caches_same _ _ _ _ _ _ Ht) as (Hsb & _ & _). pose proof (back_kept _ _ Hsb) as Hk2.
  assert (Eobs : observe p p4 = observe p1 p2).
  { unfold observe. rewrite (kp_wb _ _ Hk2), (kp_mem _ _ Hk2), (kp_mem _ _ Hk1). done. }
  rewrite Eobs in *.
  destruct (stages_synced p1 m h p2 m2 h2 W s k Hi1 Hr1 Hlo Hhi E2 Hsy1 Hwell) as (W' & s' & Hrun & Hsy2).
  exists W', s'. split; [done|]. by eapply clock_synced.
Qed.

(** ** Runs *)

Lemma run_synced c0 evs n p m h tr p' m' h' W s : Inv forwardable p → marked c0 evs p →
  synced p m h W s → run_cycles n p m h = Ret (tr, (p', m', h')) →
  fetches_in ftop n p m h = true → well_behaved lo hi top (length tr) s = true →
  ∃ W' s', flat_run (length tr) s = Ret (tr, s') ∧ synced p' m' h' W' s'.
Proof using Hclock.
  revert evs p m h tr W s. induction n as [|n IH]; intros evs p m h tr W s Hinv Hmk Hsy Hr Hf Hw;
    cbn in Hr, Hf; [injection Hr as <- <- <- <-; by exists W, s|].
  destruct (halt p) eqn:Hh; [injection Hr as <- <- <- <-; by exists W, s|].
  apply bind_inv in Hr as ([[p1 m1] h1] & E & Hr). apply bind_inv in Hr as ([tr1 x] & E' & Hr).
  injection Hr as <- ->. rewrite E in Hf. apply andb_true_iff in Hf as [Hb Hf].
  apply andb_true_iff in Hb as [Hlo%Z.leb_le Hhi%Z.leb_le]. rewrite length_app in Hw.
  destruct (cycle_synced p m h p1 m1 h1 W s _ Hinv E Hlo Hhi Hsy Hw) as (W1 & s1 & Hrun1 & Hsy1).
  destruct (cycle_tick _ _ _ _ _ _ E) as (m2 & h2 & Et).
  destruct (tick_ok c0 evs p m h p1 m2 h2 Hinv Hh Hmk Et) as (Hi1 & _ & Hmk1 & _).
  destruct (IH _ p1 m1 h1 tr1 W1 s1 Hi1 Hmk1 Hsy1 E' Hf) as (W2 & s2 & Hrun2 & Hsy2).
  { by eapply well_behaved_app. }
  exists W2, s2. split; [|done]. rewrite length_app, flat_run_app, Hrun1, bind_Ret, Hrun2. done.
Qed.
End memory.
