(* ===== verification/NoPanic.v ===== *)
(** A disciplined program never panics: every stage returns, in every state that a run
    reaches, wrong paths included.

    The invariant [steady] adds to those of [PipeInvariant.v] and [PipeMemory.v] what the
    checks of the stages need: the accesses of MEM are aligned, and predictions lead to code.
    Each stage has a lemma saying that it returns; [cycle_runs] puts them together. *)
From S2P Require Import Prelude Word Format Instruction BranchPredictor Uop Execute Decode Datapath AbstractMem ReplacementPolicy CacheConfig CacheSet LowerMemory GeneralCache CacheAddress Device MemoryDevices CacheView CacheRefinement CacheDevice Hierarchy SharedCache MemoryAccess MemoryPorts SimpleMem Dram Pipe Runner IsaMachine FlatMachine PipeInvariant PipeRefinement PipeRun PipeHalt PipeMemory Discipline.
From stdpp Require Import base gmap numbers sets list strings.
From Stdlib Require Import Lia.
#[local] Open Scope Z_scope.
#[local] Coercion Z.of_nat : nat >-> Z.

(** an operation whose first part returns *)
Lemma bind_to {A B} (m : exec A) (f : A → exec B) a r : m = Ret a → f a = r → (m ≫= f) = r.
Proof. by intros -> <-. Qed.
Lemma bind_runs {A B} (m : exec A) (f : A → exec B) a : m = Ret a → (∃ x, f a = Ret x) → ∃ x, (m ≫= f) = Ret x.
Proof. by intros ->. Qed.

(** * One instruction *)

Section instruction.
Context `{Profile}.

Lemma valid_word_asm raw i : valid_word raw = true → is_u32 raw → raw_binary_to_inst raw = Ret i →
  ∃ a, disassemble i = Ret (Some a) ∧ Asm.valid a ∧
    Effect.is_control a = is_control_opcode (opcode_of i) ∧ Cpu.opcode_or_op raw = opcode_of i.
Proof.
  unfold valid_word. intros Hv Hr Hi. rewrite Hi in Hv.
  destruct (disassemble_valid raw i Hr Hi) as [[z ->]|[[z ->]|(a & ? & ? & ?)]]; [done..|].
  exists a. split_and!; try done. apply control_opcode; [done|]. by intros z ->.
Qed.

Lemma asm_ecall i : disassemble i = Ret (Some Asm.Ecall) → ∃ x, i = Inst.Ecall x.
Proof.
  destruct i; cbn; intros Ha; try discriminate Ha;
    try (apply asm_inv1 in Ha as (? & _ & [=]); fail). by eexists.
Qed.

(** a fetched word of the code decodes *)
Lemma fetched_decodes op rs : fetched_ok op → valid_word (raw_inst op) = true →
  length rs = 32%nat → Forall is_u32 rs → is_u32 (pc op + 4) →
  ∃ e, Decode.decode op rs = Ret (Ok e).
Proof.
  intros (raw & i & q & bp & -> & Hraw & Hi & Hbp) Hv Hl Hu Hq.
  assert (Er : raw_inst (fetched_op raw i q bp) = raw ∧ pc (fetched_op raw i q bp) = q) by by destruct bp.
  destruct Er as [Er Eq]. rewrite Er in Hv. rewrite Eq in Hq.
  destruct (valid_word_asm raw i Hv Hraw Hi) as (a & Ha & Hva & Hc & Ho). rewrite Ho, <- Hc in Hbp.
  assert (a = Asm.Ecall ∨ a ≠ Asm.Ecall) as [->|Hn] by (destruct a; first [by left | by right]).
  { destruct (asm_ecall i Ha) as [x ->]. destruct bp as [b|]; [|by eexists].
    destruct Hbp as [Hbp _]. discriminate Hbp. by eexists. }
  destruct (datapath_simulated rs Hl Hu q (link_Ret q Hq) raw i a bp) as (e & _ & E & _); try done.
  by exists e.
Qed.

(** a decoded one executes, and its branch is resolved *)
Lemma decoded_executes op rs e : fetched_ok op → Decode.decode op rs = Ret (Ok e) →
  length rs = 32%nat → Forall is_u32 rs → is_u32 (pc e + 4) → (∀ x, inst e ≠ Inst.Ecall x) →
  ∃ o r, Datapath.execute_op e = Ret o ∧ resolve_branch o = Ret r.
Proof.
  intros Hf Hd Hl Hu Hq Hn.
  destruct (decoded_facts op rs e Hf Hd) as (raw & i & q & bp & a & -> & Hraw & Hi & Ha & Hv & Hbp &
    Einst & Epc & _ & _ & _ & _). rewrite Epc in Hq. rewrite Einst in Hn.
  destruct (datapath_simulated rs Hl Hu q (link_Ret q Hq) raw i a bp) as (e' & o & E & Eo & _ & _ & _ & Hag);
    try done.
  - intros ->. destruct (asm_ecall i Ha) as [x ->]. by apply (Hn x).
  - rewrite Hd in E. injection E as <-. exists o.
    destruct (Effect.is_control a); [destruct Hag as (b & t & d & _ & Er & _) | destruct Hag as [Er _]];
      rewrite Er; by eexists.
Qed.
End instruction.

(** * The stages that do not touch the memory *)

Section stages.
Context `{Profile} {RP : Type} `{ReplacementPolicy RP} {P : Type} `{BranchPredict P}.
Implicit Types p : PipelineProcessor RP P.
Import Cpu.

Lemma recover_runs p : Inv forwardable p → ∃ p', recover p = Ret p'.
Proof.
  intros Hinv. destruct (branch_recover p) eqn:Hr.
  - destruct (inv_recover _ _ Hinv Hr) as [[op Hop] Hfl]. by apply (recover_Ret p op).
  - unfold recover. rewrite Hr. by eexists.
Qed.

Lemma wb_runs p : Inv exact p → ∃ p', pipe_stage_wb p = Ret p'.
Proof.
  intros Hinv. unfold pipe_stage_wb. destruct (wb_op p) as [op|] eqn:Ew; [|by eexists].
  assert (∃ p1, (match inst op with
      | Inst.Ecall _ => reg_a0 ← index (id_regs p) 10; _ ← index (id_regs p) 11;
          mret (if reg_a0 =? 0 then with_halt true p else p)
      | _ => mret p end) = Ret p1 ∧ id_regs p1 = id_regs p) as (p1 & -> & E1).
  { destruct (inst op); try (by eexists).
    destruct (lookup_lt_is_Some_2 (id_regs p) 10) as [x Hx]; [rewrite (inv_len _ _ Hinv); lia|].
    destruct (lookup_lt_is_Some_2 (id_regs p) 11) as [y Hy]; [rewrite (inv_len _ _ Hinv); lia|].
    rewrite (index_Ret _ _ _ Hx), bind_Ret, (index_Ret _ _ _ Hy), bind_Ret.
    eexists. split; [reflexivity|]. by destruct (x =? 0). }
  rewrite bind_Ret. destruct (Op.writeback op) as [[d v]|] eqn:Ewb; [|by eexists].
  destruct (negb (d =? 0)); [|by eexists].
  unfold Op.writeback in Ewb. destruct (rd_index op) as [d'|] eqn:Erd; [|done].
  destruct (inv_wb _ _ Hinv op Ew d' Erd) as [Hd _]. destruct (rd_write_value op); [|done].
  injection Ewb as <- <-. rewrite set_index_Ret; [by eexists|].
  change (id_regs (with_wb_op None p1)) with (id_regs p1). rewrite E1, (inv_len _ _ Hinv).
  unfold Asm.reg in Hd. lia.
Qed.

Lemma resolve_runs op p r : resolve_branch op = Ret r → ∃ p', resolve op p = Ret p'.
Proof.
  unfold resolve_branch, resolve. intros E. apply bind_inv in E as (b & -> & E). rewrite bind_Ret.
  destruct b as [b|]; [|by eexists]. apply bind_inv in E as (t & -> & E). rewrite bind_Ret.
  destruct (Branch.needs_recovery b t); [|by eexists].
  apply bind_inv in E as (d & -> & _). by eexists.
Qed.

Lemma execute_runs e p o r : Datapath.execute_op e = Ret o → resolve_branch o = Ret r →
  ∃ p', Cpu.execute_op e p = Ret p'.
Proof.
  unfold Datapath.execute_op, Cpu.execute_op. intros Eo Er. apply bind_inv in Eo as ([y z] & -> & Eo).
  rewrite bind_Ret. injection Eo as <-. edestruct resolve_runs as [p' Ep]; [exact Er|].
  rewrite Ep. by eexists.
Qed.

Lemma exe_runs p : Inv exact p → branch_recover p = false →
  (∀ e, exe_op p = Some e → placeholder e = false → is_u32 (pc e + 4)) →
  ∃ p', pipe_stage_exe p = Ret p'.
Proof.
  intros Hinv Hrec Hq. unfold pipe_stage_exe. set (p0 := count_down p).
  assert (Hp0 : mem_op p0 = mem_op p ∧ exe_op p0 = exe_op p)
    by (subst p0; unfold count_down; by destruct (int_mul_div_stall_countdown p)).
  clearbody p0. destruct Hp0 as [-> ->]. destruct (mem_op p); [by eexists|].
  destruct (exe_op p) as [e|] eqn:Ee; [|by eexists].
  assert (Hrun : (∀ x, inst e ≠ Inst.Ecall x) → ∃ p', execute_op e p0 = Ret p').
  { intros Hn. destruct (inv_front _ _ Hinv Hrec) as [_ Hexe].
    destruct (Hexe e Ee) as [->|((op & Hf & Hd) & _)].
    - eapply (execute_runs _ _ Op.placeholder_nop None); reflexivity.
    - destruct (decoded_facts op _ e Hf Hd) as (?&?&?&?&?&?&?&?&?&?&?&?&?&?& Hph & _).
      destruct (inv_arch _ p Hinv) as [Hl Hu].
      destruct (decoded_executes op _ e Hf Hd Hl Hu (Hq e eq_refl Hph) Hn) as (o & r & Eo & Er).
      by apply (execute_runs e p0 o r). }
  destruct (inst e); first
    [ by eexists
    | destruct (Execute.m_extension_stall _);
      [destruct (int_mul_div_stall_countdown p0); [by apply Hrun | by eexists] | by apply Hrun] ].
Qed.

(** the opcode of a valid word is known *)
Lemma reads_runs raw d : valid_word raw = true → ∃ b, reads raw d = Ret b.
Proof.
  unfold valid_word, reads. destruct (raw_binary_to_inst raw) as [i|] eqn:Hi; [|done]. intros Hv.
  destruct (raw_opcode raw i Hi) as [->| ->]; [done|]. destruct (opcode_of i); by eexists.
Qed.

Lemma hazard_runs p : Inv exact p → (∀ d, id_op p = Some d → valid_word (raw_inst d) = true) →
  ∃ b, pipe_load_use_hazard_handle p = Ret b.
Proof.
  intros Hinv Hv. unfold pipe_load_use_hazard_handle.
  destruct (id_op p) as [id|]; [|by eexists]. destruct (exe_op p); [by eexists|].
  destruct (mem_op p) as [op|] eqn:Em; [|by eexists].
  destruct (inv_mem _ _ Hinv op Em) as (acc & Ea & _). unfold Op.is_load. rewrite Ea, !bind_Ret.
  destruct (if match acc with Some a => Access.is_load a | None => false end
    then Op.destination_register op else None) as [d|]; [|by eexists].
  destruct (negb (d =? 0)); [|by eexists]. by apply reads_runs, Hv.
Qed.

(** what ID needs of its micro-op *)
Definition decodable p : Prop := ∀ d, id_op p = Some d →
  fetched_ok d ∧ valid_word (raw_inst d) = true ∧ is_u32 (pc d + 4).

Lemma decode_runs p b : length (id_regs p) = 32%nat → Forall is_u32 (id_regs p) → decodable p →
  ∃ p', pipe_stage_decode p b = Ret p'.
Proof.
  intros Hl Hu Hd. unfold pipe_stage_decode. destruct (exe_op p); [by eexists|].
  destruct (id_op p) as [d|] eqn:Eid; [|by eexists]. destruct b; [by eexists|].
  destruct (Hd d Eid) as (Hf & Hv & Hq). destruct (fetched_decodes d _ Hf Hv Hl Hu Hq) as [e ->]. by eexists.
Qed.

Lemma issue_runs p w : if_raw_isnt_buffer p = Some w → valid_word w = true → is_u32 (if_pc p + 4) →
  ∃ p', issue p = Ret p'.
Proof.
  unfold issue, valid_word. intros -> Hv Hq. cbn [unwrap]. rewrite bind_Ret.
  destruct (raw_binary_to_inst w) as [i|]; [|done]. rewrite bind_Ret.
  cbn [if_pc branch_predictor with_hpm with_buffer].
  destruct (opcode_or_op w); try (rewrite link_Ret by done; by eexists);
    (destruct (branch_predict _ _) as [bp bpred]; destruct (direction bp);
      [by eexists | rewrite link_Ret by done; by eexists]).
Qed.
(** ** The predictor changes in recovery and in IF only *)

Lemma recover_predictor p p' : recover p = Ret p' →
  branch_predictor p' = branch_predictor p ∨
  branch_recover p = true ∧ ∃ taken q,
    branch_predictor p' = mispredict_recovery (branch_predictor p) taken q (branch_destination p).
Proof.
  unfold recover. destruct (branch_recover p) eqn:Hr; [|intros [= <-]; by left].
  intros E. apply bind_inv in E as (op & _ & [= <-]). right. split; [done|]. eexists _, _. cbn.
  unfold flush. by repeat match goal with |- context [if ?b then _ else _] => destruct b end.
Qed.

(** what only IF, recovery and the countdown of EXE change *)
Definition side p := (branch_predictor p, if_fsm p, int_mul_div_stall_countdown p).

Lemma wb_side p p' : pipe_stage_wb p = Ret p' → side p' = side p.
Proof.
  unfold pipe_stage_wb. destruct (wb_op p) as [op|]; [|by intros [= <-]]. intros E.
  apply bind_inv in E as (p1 & E1 & E). apply bind_inv in E as (p2 & E2 & [= <-]).
  assert (H1' : side p1 = side p).
  { destruct (inst op); try (by injection E1 as <-).
    apply bind_inv in E1 as (a0 & _ & E1). apply bind_inv in E1 as (a1 & _ & [= <-]). by destruct (a0 =? 0). }
  assert (H2' : side p2 = side p1).
  { destruct (Op.writeback op) as [[d v]|]; [|by injection E2 as <-].
    destruct (negb (d =? 0)); [|by injection E2 as <-]. by apply bind_inv in E2 as (rs & _ & [= <-]). }
  rewrite <- H1', <- H2'. by destruct (negb _).
Qed.

Lemma resolve_side op p p' : resolve op p = Ret p' → side p' = side p.
Proof.
  unfold resolve. intros E. apply bind_inv in E as ([b|] & _ & E); [|by injection E as <-].
  apply bind_inv in E as (t & _ & E). apply bind_inv in E as (p1 & E1 & [= <-]).
  destruct (Branch.needs_recovery b t); [|by injection E1 as <-].
  by apply bind_inv in E1 as (d & _ & [= <-]).
Qed.

Lemma exe_side p p' : pipe_stage_exe p = Ret p' →
  branch_predictor p' = branch_predictor p ∧ if_fsm p' = if_fsm p.
Proof.
  unfold pipe_stage_exe. set (p0 := count_down p).
  assert (Hp0 : branch_predictor p0 = branch_predictor p ∧ if_fsm p0 = if_fsm p)
    by (subst p0; unfold count_down; by destruct (int_mul_div_stall_countdown p)).
  clearbody p0. intros E. destruct (mem_op p0); [by injection E as <-|].
  destruct (exe_op p0) as [e|]; [|by injection E as <-].
  assert (Hrun : Cpu.execute_op e p0 = Ret p' →
    branch_predictor p' = branch_predictor p ∧ if_fsm p' = if_fsm p).
  { unfold Cpu.execute_op. intros Ex. apply bind_inv in Ex as ([y z] & _ & Ex).
    apply bind_inv in Ex as (p1 & Er%resolve_side & [= <-]). injection Er as E1 E2 _. cbn. rewrite E1, E2.
    by destruct (Execute.m_extension_stall _). }
  destruct (inst e); first
    [ by injection E as <-
    | destruct (Execute.m_extension_stall _);
      [destruct (int_mul_div_stall_countdown p0); [by apply Hrun | by injection E as <-] | by apply Hrun] ].
Qed.

Lemma decode_side p b p' : pipe_stage_decode p b = Ret p' → side p' = side p.
Proof.
  unfold pipe_stage_decode. intros E. destruct (exe_op p); [by injection E as <-|].
  destruct (id_op p); [|by injection E as <-]. destruct b; [by injection E as <-|].
  apply bind_inv in E as ([e|] & _ & E); [by injection E as <- | done].
Qed.
End stages.

(** * The ports *)

Section ports.
Context `{Profile} {RP : Type} `{ReplacementLaws RP} {M : Type} `{Device M}.
Context {L : DeviceLaws (RG := everywhere) M}.
Context (code : Region) (V0 : view).
#[local] Existing Instance everywhere.
Implicit Types (ci cd : GeneralCache RP) (m : M) (h : heap) (r : MemoryReqType).

Lemma request_for_runs a h : ∃ r h', Transaction.request_for a h = Ret (r, h').
Proof.
  unfold Transaction.request_for. destruct a as [ad w e|ad w x]; cbn [Access.store_value]; [by eexists _, _|].
  rewrite slice_Ret; [by eexists _, _|]. rewrite length_to_le_bytes. cbn [Access.len].
  destruct (width_cases w) as [->|[->| ->]]; lia.
Qed.

Lemma loaded_runs ad w e bytes : length bytes = width_len w →
  ∃ v, Access.loaded_value (LoadAccess ad w e) bytes = Ret v.
Proof.
  intros Hl. unfold Access.loaded_value. rewrite bool_decide_eq_true_2 by done. cbn [assert_]. rewrite bind_Ret.
  assert (Hw : ∃ word, write_slice (replicate 4 0) 0 (length bytes) bytes = Ret word).
  { unfold write_slice. rewrite decide_True; [by eexists|]. split; [|done]. rewrite length_replicate, Hl.
    destruct (width_cases w) as [->|[->| ->]]; lia. }
  destruct Hw as [word ->]. by eexists.
Qed.

(** an answered access completes *)
Lemma complete_runs ci cd m h W r a : data_served ci cd m h W r → asks r a →
  ∃ x, Transaction.complete r a h = Ret x.
Proof.
  intros (_ & _ & Ha%answers_exact) (Ea & El & _ & Hk). unfold Transaction.complete.
  destruct a as [ad w e|ad w x]; cbn [Access.is_load]; [|by eexists].
  destruct r as [y|y]; [|done]. cbn [Req.load_data Req.load_req_ref mbind exec_bind mret exec_ret].
  unfold LoadReq.data. cbn in Ha, El. rewrite Ha. cbn [reply buffer].
  destruct (loaded_runs ad w e (view_read W (load_addr y) (load_len y))) as [v Hv];
    [by rewrite length_view_read|].
  rewrite Hv. by eexists.
Qed.

Lemma asks_serves cd m r a : usable code cd m a → asks r a → access_aligned a = true → served cd m r.
Proof.
  intros [Hlo Hhi Hb _] (Ea & El & Hwf & _) Hal%Z.eqb_eq. unfold served.
  assert (Hlen : Access.len a = 1%nat ∨ Access.len a = 2%nat ∨ Access.len a = 4%nat)
    by (destruct a; apply width_cases).
  rewrite Ea, El. split_and!; try done; [|lia]. by destruct Hlen as [->|[->| ->]].
Qed.

Lemma send_runs ci cd m h W r a : shows code ci cd m h W →
  tx_served ci cd m h W (TxSending r a) → usable code cd m a → access_aligned a = true →
  ∃ x, Transaction.send (cd, m) r a h = Ret x.
Proof.
  intros Hs (Hc & Ha & Hf & Hd) Hu Hal. unfold Transaction.send.
  destruct (register_data code ci cd m h W r Hs) as [Er|(cd2 & m2 & h2 & Er & _ & Hcl & Hs' & Hst)];
    [by eapply asks_serves | by eapply (asks_spares code cd m) | done | |]; cbn; rewrite Er; cbn; [by eexists|].
  destruct (sp_data _ _ _ _ _ _ _ _ _ _ Hst r Hcl) as [[_ Ecell]|Hserved].
  - rewrite is_done_get, Ecell, Hd. by eexists.
  - destruct (Req.is_done r h2); [|by eexists].
    destruct (complete_runs _ _ _ _ _ _ _ Hserved Ha) as [[st t] ->]. by eexists.
Qed.

Lemma progress_runs ci cd m h W t a : shows code ci cd m h W → tx_served ci cd m h W t →
  usable code cd m a → access_aligned a = true →
  match t with TxSending _ b | TxWaiting _ b => b = a | _ => True end →
  ∃ x, Transaction.progress t (cd, m) a h = Ret x.
Proof.
  intros Hs Ht Hu Hal Hta. destruct t as [|r b|r b|v]; [|subst b..|done].
  - destruct (request_for_runs a h) as (r & h1 & Er). cbn. rewrite Er, bind_Ret.
    destruct (request_for_asks _ _ _ _ Er) as (Ha & Eid & En & Hd & Hk).
    destruct (shows_grow code ci cd m h h1 W Hs) as (Hs1 & _ & Hnew); [lia | done |].
    apply (send_runs ci cd m h1 W r a); try done. split_and!; [exact Ht | done | apply Hnew; lia | done].
  - by apply (send_runs ci cd m h W).
  - cbn. destruct Ht as [Ha Hserved]. rewrite is_done_get. destruct (done _) eqn:Hd; [|by eexists].
    destruct Hserved as [[_ ?]|Hserved]; [congruence|].
    destruct (complete_runs _ _ _ _ _ _ _ Hserved Ha) as [[st t] ->]. by eexists.
Qed.

(** an answered fetch has a word *)
Lemma fetched_runs ci cd m h r : Req.is_store r = false → Req.get_len r = 4%nat →
  fetch_served code V0 ci cd m h r → Req.is_done r h = true → ∃ w, Cpu.fetched_word r h = Ret w.
Proof.
  intros Hld Hl [_ Ha] Hd. rewrite is_done_get in Hd. destruct (Ha Hd) as [_ Hb]. destruct r as [y|y]; [|done].
  destruct Hb as [Hb _]. cbn in Hl, Hb. unfold Cpu.fetched_word, Req.load_data, LoadReq.data.
  cbn [Req.load_req_ref]. rewrite !bind_Ret, slice_Ret; [by eexists|]. rewrite Hb, Hl. lia.
Qed.
End ports.

(** * The cycle *)

Section memory.
Context `{Profile} {RP : Type} `{ReplacementLaws RP} {P : Type} `{BranchPredict P}.
Context {M : Type} `{Device M} {L : DeviceLaws (RG := everywhere) M}.
Context (Hclock : ∀ (m : M) h, cycle m h = tick m h).
(** the code, between [lo] and [hi], is in the reach of fetches and of 32-bit addresses *)
Context (lo hi top ftop : Z) (V0 : view).
Context (Hlo : 0 ≤ lo) (Hhi : hi ≤ ftop) (Hhi32 : hi < 2 ^ 32) (Hvalid : valid_code lo hi V0).
#[local] Existing Instance everywhere.
Implicit Types (p : PipelineProcessor RP P) (m : M) (h : heap) (s : Machine).
Import Cpu.

Abbreviation ports := (PipeMemory.ports lo hi top ftop V0).
Abbreviation synced := (PipeMemory.synced lo hi top ftop V0).
Abbreviation code := (PipeMemory.code lo hi).

Lemma within_u32 k q : 4 ≤ k → within lo hi k q → is_u32 (q + 4).
Proof using Hlo Hhi32. intros Hk (? & ? & _). split; lia. Qed.
Lemma within_code k q : 4 ≤ k → within lo hi k q → in_code lo hi q = true.
Proof using Type. intros Hk (? & ? & _). unfold in_code. rewrite !(proj2 (Z.leb_le _ _)) by lia. done. Qed.
Lemma within_less k k' q : k' ≤ k → within lo hi k q → within lo hi k' q.
Proof using Type. intros Hk (? & ? & ?). split_and!; [done | lia | done]. Qed.

(** ** MEM *)

Lemma mem_runs p m h W s : Inv exact p → synced p m h W s →
  (∀ a, mem_access p = Some a → access_aligned a = true) →
  ∃ x, pipe_stage_mem p m h = Ret x.
Proof using Type.
  intros Hinv [[Hsh HW _ Htx _ [_ Hr2 _ Hr4]] [_ _ _ Hacc _] _] Hal.
  unfold pipe_stage_mem. destruct (mem_op p) as [op|] eqn:Em; [|by eexists].
  destruct (inv_mem _ _ Hinv op Em) as (acc & Ea & _). rewrite Ea, bind_Ret.
  destruct acc as [a|]; [|by eexists].
  assert (Eacc : mem_access p = Some a) by (unfold mem_access; by rewrite Em, Ea).
  destruct (progress_runs code (icache p) (dcache p) (l2_cache p, m) h W (mem_transaction p) a)
    as [[[[st t] [dc [l2 m1]]] h1] E]; try done.
  - by apply (access_usable lo hi top); auto.
  - by apply Hal.
  - pose proof (inv_tx _ _ Hinv) as Hok. unfold transaction_ok in Hok.
    destruct (mem_transaction p) as [|r b|r b|v]; try done; destruct Hok as (op' & Eop & Ea');
      rewrite Em in Eop; injection Eop as <-; rewrite Ea in Ea'; by injection Ea'.
  - destruct st as [|lv]; eexists; (refine (bind_to _ _ _ _ E _); reflexivity).
Qed.

(** ** IF *)

Lemma send_runs_fetch p r m h W : ports p m h W → within lo hi 4 (if_pc p) →
  fetch_served code V0 (icache p) (dcache p) (l2_cache p, m) h r →
  r = Load {| load_addr := if_pc p; load_len := 4; load_id := Req.id r |} →
  (∀ r', tx_req (mem_transaction p) = Some r' → Req.id r ≠ Req.id r') →
  ∃ x, send_fetch p r m h = Ret x.
Proof using Hlo Hhi.
  intros [Hs HW Hf Htx Hap [R1 R2 R3 R4]] (Hl & Hh & Hm) Hfs Er Hne. unfold send_fetch.
  assert (Hr : Req.is_store r = false ∧ Req.get_len r = 4%nat ∧ Req.get_addr r = if_pc p) by by rewrite Er.
  destruct Hr as (Hld & Hlen & Haddr).
  assert (Hserved : served (icache p) (l2_cache p, m) r).
  { split_and!; [by rewrite Hlen | lia | by rewrite Hlen, Haddr | lia | lia | by rewrite Er]. }
  pose proof Hfs as [Hfree _].
  destruct (register_code code _ _ _ _ W r Hs Hserved Hld) as
    [Ereg|(ci1 & [l1 m1] & h1 & Ereg & _ & Hcl & _ & Hst)]; [by apply or_comm | |];
    (refine (bind_runs _ _ _ (bind_to _ _ _ _ Ereg eq_refl) _)); [by eexists|].
  destruct (Req.is_done r h1) eqn:Hd; cbn [negb]; [|by eexists].
  destruct (fetched_runs code V0 ci1 (dcache p) (l1, m1) h1 r) as [w ->]; try done; [|by eexists].
  eapply stepped_fetch; [exact Hst | done|]. split; [by left | by destruct Hfs].
Qed.

Lemma fetch_request_runs p m h W : ports p m h W → within lo hi 4 (if_pc p) →
  ∃ x, fetch_request p m h = Ret x.
Proof using Hlo Hhi.
  intros Hp Hw. unfold fetch_request. pose proof Hp as [Hs HW Hf Htx Hap Hre].
  destruct (if_fsm p) as [|r|r] eqn:Efsm.
  - destruct (Req.load (if_pc p) 4 h) as [r h0] eqn:El.
    assert (Er : r = Load {| load_addr := if_pc p; load_len := 4; load_id := next_id h |} ∧
      next_id h0 = S (next_id h) ∧ done (Heap.get h0 (next_id h)) = false ∧
      ∀ id, (id < next_id h)%nat → Heap.get h0 id = Heap.get h id).
    { injection El as <- <-. unfold Heap.get. cbn. split_and!; try done; [by rewrite lookup_insert_eq|].
      intros id Hid. by rewrite lookup_insert_ne by lia. }
    destruct Er as (Er & En & Hd & Hk).
    destruct (shows_grow code _ _ _ h h0 W Hs) as (Hs0 & Hst0 & Hnew); [lia | done |].
    assert (Eid : Req.id r = next_id h) by by rewrite Er.
    apply (send_runs_fetch p r m h0 W); try done.
    + by eapply ports_stepped.
    + split; [right; apply Hnew; lia|]. rewrite Eid. congruence.
    + by rewrite Eid.
    + intros r' Hr'. pose proof (tx_served_old code _ _ _ _ _ _ _ Hs Htx Hr'). lia.
  - assert (Hr : fetch_req p = Some r) by (unfold fetch_req; by rewrite Efsm).
    destruct (Hf r Hr) as [Hfs Er]. apply (send_runs_fetch p r m h W); try done. intros r'. by apply Hap.
  - assert (Hr : fetch_req p = Some r) by (unfold fetch_req; by rewrite Efsm).
    destruct (Hf r Hr) as [Hfs Er]. destruct (Req.is_done r h) eqn:Hd; cbn [negb]; [|by eexists].
    destruct (fetched_runs code V0 (icache p) (dcache p) (l2_cache p, m) h r) as [w ->];
      [by rewrite Er | by rewrite Er | done | done | by eexists].
Qed.

Lemma fetch_runs p m h W : ports p m h W → within lo hi 4 (if_pc p) →
  ∃ x, pipe_stage_fetch p m h = Ret x.
Proof using Hlo Hhi Hhi32 Hvalid.
  intros Hp Hw. destruct (fetch_request_runs p m h W Hp Hw) as [[[[b p1] m1] h1] E].
  unfold pipe_stage_fetch. rewrite E, bind_Ret. destruct b; cbn [negb]; [|by eexists].
  pose proof Hw as (? & ? & _).
  destruct (fetch_request_ports lo hi top ftop V0 p m h true p1 m1 h1 W Hp) as [_ Hb]; [lia | lia | done |].
  destruct (fetch_requested _ _ _ _ _ _ _ E) as (_ & _ & Epc & _).
  destruct (id_op p1); [by eexists|]. destruct (Hb eq_refl) as (w & Ew & Hcw). rewrite Epc in Hcw.
  destruct (issue_runs p1 w Ew) as [p2 ->].
  - rewrite Hcw by by apply (within_code 4). by apply Hvalid.
  - rewrite Epc. by apply (within_u32 4).
  - by eexists.
Qed.

(** ** The clock *)

Lemma clock_runs p m h W s : synced p m h W s →
  ∃ p1 m1 h1 m' h', tick_caches p m h = Ret (p1, m1, h1) ∧ AbstractMem.tick m1 h1 = Ret (m', h').
Proof using Hclock.
  intros [Hp _ _]. pose proof (po_shows _ _ _ _ _ _ _ _ _ Hp) as Hs.
  destruct (caches_cycle code _ _ _ _ W Hs) as (ci' & [c1 n1] & k1 & cd' & [c2 n2] & k2 & [c3 n3] & k3 & E1 & E2 & E3 & _).
  cbn in E3. unfold AbstractMem.tick, Cache_Clocked in E3. cbn [fst snd] in E3.
  apply bind_inv in E3 as ([[c4 n4] k4] & E4 & E3). cbn in E3. rewrite Hclock in E3.
  apply bind_inv in E4 as ([[l2 m2] h2] & E4 & [= <- <- <-]). cbn [fst snd] in E3.
  destruct (AbstractMem.tick m2 h2) as [[m' h']|] eqn:Em; [|done].
  eexists _, _, _, m', h'. split; [|exact Em]. unfold tick_caches.
  refine (bind_to _ _ _ _ E1 _). refine (bind_to _ _ _ _ E2 _). refine (bind_to _ _ _ _ E4 _). reflexivity.
Qed.
(** ** What the checks rest on *)

Lemma mem_side p m h p' m' h' : pipe_stage_mem p m h = Ret (p', m', h') → side p' = side p.
Proof using Type.
  unfold pipe_stage_mem. intros E. destruct (mem_op p) as [op|]; [|by injection E as <- _ _].
  apply bind_inv in E as ([a|] & _ & E).
  - apply bind_inv in E as ([[[st t] [dc [l2 m1]]] h1] & _ & E).
    destruct st; injection E as <- _ _; [done|]. unfold finish_mem. by destruct (wb_op _).
  - injection E as <- _ _. unfold finish_mem. by destruct (wb_op p).
Qed.

Lemma request_predictor p m h b p' m' h' : fetch_request p m h = Ret (b, p', m', h') →
  branch_predictor p' = branch_predictor p.
Proof using Type.
  assert (Hsend : ∀ r h0, send_fetch p r m h0 = Ret (b, p', m', h') → branch_predictor p' = branch_predictor p).
  { intros r h0 E. unfold send_fetch in E. apply bind_inv in E as ([[res [ic [l2 m1]]] h1] & _ & E).
    destruct res; [|by injection E as _ <- _ _]. destruct (negb _); [by injection E as _ <- _ _|].
    by apply bind_inv in E as (w & _ & [= _ <- _ _]). }
  unfold fetch_request. destruct (if_fsm p) as [|r|r]; [|by apply Hsend|].
  - destruct (Req.load _ _ _) as [r h0]. by apply Hsend.
  - destruct (negb _); [by intros [= _ <- _ _]|]. intros E. by apply bind_inv in E as (w & _ & [= _ <- _ _]).
Qed.

(** predicted branch targets are in the code *)
Definition targets (o : option PreDecodeMicroOp) : Prop := ∀ op b,
  o = Some op → bp_result op = Some b → direction b = true → within lo hi 12 (addr b).

Context `{!PredictorLaws P}.

Record steady p : Prop := {
  sd_predictor : only_targets (within lo hi 12) (branch_predictor p);
  sd_id : targets (id_op p);
  sd_exe : targets (exe_op p);
  sd_mem : ∀ a, mem_access p = Some a → access_aligned a = true;
}.

Lemma steady_same p p' : branch_predictor p' = branch_predictor p → id_op p' = id_op p →
  exe_op p' = exe_op p → mem_access p' = mem_access p → steady p → steady p'.
Proof using Type. intros E1 E2 E3 E4 []. constructor; by rewrite ?E1, ?E2, ?E3, ?E4. Qed.

Lemma access_same p p' : mem_op p' = mem_op p → mem_access p' = mem_access p.
Proof using Type. unfold mem_access. by intros ->. Qed.

Lemma steady_recover p p' : Inv forwardable p → recover p = Ret p' → within lo hi 12 (resume_pc p) →
  steady p → steady p'.
Proof using Type.
  intros Hinv E Hw [Hp Hid He Hm]. destruct (branch_recover p) eqn:Hr.
  2: { unfold recover in E. rewrite Hr in E. by injection E as <-. }
  destruct (recover_recovered p p' Hr (proj2 (inv_recover _ _ Hinv Hr)) E) as [_ _ Eid Ee Em _ _ _ _].
  constructor; rewrite ?Eid, ?Ee; try done; [|by rewrite (access_same p)].
  destruct (recover_predictor p p' E) as [->|(_ & t & q & ->)]; [done|].
  apply recovery_targets; [done|]. unfold resume_pc in Hw. by rewrite Hr in Hw.
Qed.

Lemma forward_result e o o' : bp_result <$> forward (forward e o) o' = bp_result <$> e.
Proof using Type. destruct e as [e|]; [by rewrite !forward_overlay | by destruct o, o']. Qed.

Lemma targets_same o o' : bp_result <$> o' = bp_result <$> o → targets o → targets o'.
Proof using Type.
  intros E Ht op b -> Hb. cbn in E. destruct o as [op0|]; [|done]. injection E as E.
  apply (Ht op0); [done|]. by rewrite <- E.
Qed.

Lemma steady_forward p : steady p → steady (pipe_normal_data_hazard_resolve p).
Proof using Type.
  intros [Hp Hid He Hm]. constructor; try done. cbn. eapply targets_same; [apply forward_result | done].
Qed.

(** ** Where IF and ID are *)

Lemma after_within k q bp : 8 ≤ k ≤ 12 → within lo hi k q →
  (∀ b, bp = Some b → direction b = true → within lo hi 12 (addr b)) → within lo hi (k - 4) (after q bp).
Proof using Hlo Hhi32.
  intros Hk (Hl & Hh & Hm) Hb. assert (Hn : within lo hi (k - 4) (as_u32 (q + 4))).
  { rewrite wrap_id by (split; lia). split_and!; [lia | lia |]. Z.div_mod_to_equations. lia. }
  destruct bp as [b|]; [|done]. cbn. unfold Effect.predicted. destruct (direction b) eqn:Hd; [|done].
  apply (within_less 12); [lia | by apply Hb].
Qed.

Lemma front_within p (E : PipelineProcessor RP P → PreDecodeMicroOp → Prop) : Inv E p →
  branch_recover p = false → steady p → within lo hi 12 (resume_pc p) →
  (∀ e, exe_op p = Some e → placeholder e = false → within lo hi 12 (pc e)) ∧
  (∀ d, id_op p = Some d → within lo hi 8 (pc d)) ∧ within lo hi 4 (if_pc p).
Proof using Hlo Hhi32.
  intros Hinv Hrec [_ Hti Hte _] Hw. destruct (inv_front _ _ Hinv Hrec) as [Hid Hexe].
  unfold resume_pc in Hw. rewrite Hrec in Hw.
  assert (Hfront : within lo hi 8 (front_pc p)).
  { destruct (exe_op p) as [e|] eqn:Ee; [|by apply (within_less 12)].
    destruct (placeholder e) eqn:Hph; [by apply (within_less 12)|].
    destruct (Hexe e eq_refl) as [->|(_ & _ & <-)]; [done|]. apply (after_within 12); [lia | done|].
    intros b Hb. by apply (Hte e). }
  split_and!.
  - intros e Ee Hph. by rewrite Ee, Hph in Hw.
  - intros d Ed. unfold front_pc in Hfront. by rewrite Ed in Hfront.
  - unfold front_pc in Hfront. destruct (id_op p) as [d|] eqn:Ed; [|by apply (within_less 8)].
    destruct (Hid d eq_refl) as [_ <-]. apply (after_within 8); [lia | done|]. intros b Hb. by apply (Hti d).
Qed.

Lemma id_decodable p m h W s (E : PipelineProcessor RP P → PreDecodeMicroOp → Prop) : Inv E p →
  branch_recover p = false → synced p m h W s → (∀ d, id_op p = Some d → within lo hi 8 (pc d)) →
  decodable p.
Proof using Hlo Hhi32 Hvalid.
  intros Hinv Hrec Hs Hw d Ed. destruct (inv_front _ _ Hinv Hrec) as [Hid _].
  destruct (Hid d Ed) as [Hf _]. pose proof (Hw d Ed) as Hd. split_and!; [done | | by apply (within_u32 8)].
  destruct (fetched_no_sources d Hf) as (_ & _ & Hph).
  destruct (sy_raw _ _ _ _ _ _ _ _ _ _ Hs Hrec) as [Hc _]. rewrite Ed in Hc.
  rewrite (Hc Hph) by by apply (within_code 8). apply Hvalid. by apply (within_less 8).
Qed.

(** ** The invariant, stage by stage *)

(** an instruction that enters MEM has an aligned access when its event says so *)
Lemma entered_aligned p p' a : Inv exact p → branch_recover p = false → pipe_stage_exe p = Ret p' →
  mem_op p = None → Forall (λ e, event_aligned e = true) (exec_event (mem_op p')) →
  mem_access p' = Some a → access_aligned a = true.
Proof using Type.
  intros Hinv Hrec He Em Hev Ha. destruct (exe_ok_stage p p' Hinv Hrec He) as (Hinv' & _).
  destruct (exe_spec p p' He) as [_ [[_ Em']|Hdone]].
  { unfold mem_access in Ha. by rewrite Em', Em in Ha. }
  destruct (exe_done_origin p p' Hdone) as (e & op & Ee & Em' & _ & _ & Oinst & _ & _ & Oph).
  unfold mem_access in Ha. rewrite Em' in *.
  destruct (inv_mem _ _ Hinv' op Em') as (acc & Eop & _). rewrite Eop in Ha. subst acc. cbn in Hev.
  destruct (placeholder op) eqn:Hph.
  - destruct (inv_front _ _ Hinv Hrec) as [_ Hexe]. destruct (Hexe e Ee) as [->|((fop & Hf & Hd) & _)].
    + unfold Op.memory_access in Eop. rewrite Oinst in Eop. by injection Eop.
    + destruct (decoded_facts fop _ e Hf Hd) as (?&?&?&?&?&?&?&?&?&?&?&?&?&?& Hne & _). congruence.
  - rewrite Eop in Hev. by apply Forall_inv in Hev.
Qed.

(** the front end of a processor is safe to decode and to fetch *)
Record front_safe p : Prop := {
  fs_id : decodable p;
  fs_pc : within lo hi 4 (if_pc p);
  fs_predictor : only_targets (within lo hi 12) (branch_predictor p);
  fs_id_targets : targets (id_op p);
  fs_exe_targets : targets (exe_op p);
}.

Lemma decode_safe p b p' : pipe_stage_decode p b = Ret p' → front_safe p → front_safe p'.
Proof using Type.
  intros E Hs. pose proof (f_equal (λ x, x.1.1) (decode_side p b p' E)) as Ep. cbn in Ep. destruct Hs as [Hd Hpc Hp Hti Hte].
  unfold pipe_stage_decode in E. destruct (exe_op p) eqn:Ee; [injection E as <-; constructor; by rewrite ?Ee|].
  destruct (id_op p) as [d|] eqn:Eid; [|injection E as <-; constructor; by rewrite ?Ee, ?Eid].
  destruct b; [injection E as <-; constructor; by rewrite ?Ee, ?Eid|].
  apply bind_inv in E as ([e|] & Ed & E); [|done]. injection E as <-.
  destruct (Hd d Eid) as (Hf & _). destruct (fetched_no_sources d Hf) as (H1' & H2' & _).
  destruct (decode_shape d _ e H1' H2' Ed) as [(_ & _ & _ & Eb & _) _].
  constructor; try done. cbn. intros op b [= <-] Hb. rewrite Eb in Hb. by apply (Hti d).
Qed.

Lemma issue_safe p p' : issue p = Ret p' → front_safe p →
  only_targets (within lo hi 12) (branch_predictor p') ∧ targets (id_op p').
Proof using Type.
  intros E [_ _ Hp _ _]. unfold issue in E. apply bind_inv in E as (w & _ & E).
  apply bind_inv in E as (i & _ & E). cbn [if_pc branch_predictor with_hpm with_buffer] in E.
  destruct (predict_targets _ _ (if_pc p) Hp) as [Hp' Ht].
  destruct (opcode_or_op w);
    first [ apply bind_inv in E as (next & _ & [= <-]); split; [exact Hp | by intros op b [= <-]]
          | destruct (branch_predict _ _) as [bp bpred]; apply bind_inv in E as (next & _ & [= <-]);
            split; [exact Hp' | intros op b [= <-] [= <-]; exact Ht] ].
Qed.

Lemma fetch_safe p m h p' m' h' : pipe_stage_fetch p m h = Ret (p', m', h') → front_safe p →
  only_targets (within lo hi 12) (branch_predictor p') ∧ targets (id_op p') ∧ targets (exe_op p').
Proof using Type.
  intros E Hs. destruct (fetch_spec p m h p' m' h' E) as [[_ Ee _ _ _ _ _ _ _] _]. rewrite Ee.
  pose proof Hs as [Hd Hpc Hp Hti Hte]. unfold pipe_stage_fetch in E.
  apply bind_inv in E as ([[[b p1] m1] h1] & Er & E).
  pose proof (request_predictor _ _ _ _ _ _ _ Er) as Ep. destruct (fetch_requested _ _ _ _ _ _ _ Er) as (Hsb & Eid & Epc & _).
  assert (Hs1 : front_safe p1).
  { constructor; unfold decodable; rewrite ?Ep, ?Eid, ?Epc; try done. by rewrite (sb_exe _ _ Hsb). }
  enough (only_targets (within lo hi 12) (branch_predictor p') ∧ targets (id_op p')) as [? ?] by done.
  destruct b; cbn [negb] in E; [|injection E as <- <- <-; split; apply Hs1].
  destruct (id_op p1) as [d|] eqn:Ed; [injection E as <- <- <-; split; apply Hs1|].
  apply bind_inv in E as (p2 & Ei & [= <- <- <-]). by apply (issue_safe p1).
Qed.

(** ** The cycle *)

Lemma clock_steady p m h p' m' h' : tick_caches p m h = Ret (p', m', h') → steady p → steady p'.
Proof using Type.
  unfold tick_caches. intros E. apply bind_inv in E as ([[ic [a1 b1]] j1] & _ & E).
  apply bind_inv in E as ([[dc [a2 b2]] j2] & _ & E). apply bind_inv in E as ([[c4 n4] k4] & _ & [= <- <- <-]).
  intros []. by constructor.
Qed.

(** the stages in front of EXE *)
Lemma front_runs p m h W s b : Inv exact p → synced p m h W s → front_safe p →
  pipe_load_use_hazard_handle p = Ret b → (∀ a, mem_access p = Some a → access_aligned a = true) →
  ∃ p' m' h', (p1 ← pipe_stage_decode p b;
    '(p2, m, h) ← pipe_stage_fetch p1 m h;
    if (b : bool) then
      _ ← assert_ (bool_decide (exe_op p2 = None));
      mret (with_exe_op (Some Op.placeholder_nop) p2, m, h)
    else mret (p2, m, h)) = Ret (p', m', h') ∧ steady p'.
Proof using Hlo Hhi Hhi32 Hvalid.
  intros Hinv Hs Hsafe Eb Hal. destruct (decode_runs p b) as [p1 E1]; [apply Hinv | apply Hinv | apply Hsafe |].
  destruct (decode_ok p b p1 Hinv Eb E1) as (Hi1 & _ & He1).
  destruct (decode_synced lo hi top ftop V0 p b p1 m h W s Hinv Eb E1 Hs) as [Hs1 Epc1].
  pose proof (decode_safe p b p1 E1 Hsafe) as Hsafe1.
  destruct (fetch_runs p1 m h W) as [[[p2 m2] h2] E2];
    [by apply (sy_ports _ _ _ _ _ _ _ _ _ _ Hs1) | apply Hsafe1 |].
  destruct (fetch_ok p1 m h p2 m2 h2 Hi1 E2) as (_ & _ & He2).
  destruct (fetch_safe p1 m h p2 m2 h2 E2 Hsafe1) as (Hp2 & Hid2 & Hte2).
  destruct (fetch_spec p1 m h p2 m2 h2 E2) as [[_ _ Em2 _ _ _ _ _ _] _].
  pose proof (kp_mem _ _ (decode_kept p b p1 E1)) as Em1.
  assert (Ha2 : mem_access p2 = mem_access p) by (apply access_same; congruence).
  rewrite E1, bind_Ret, E2, bind_Ret. destruct b.
  - rewrite He2, He1, bool_decide_eq_true_2 by done. eexists _, _, _. split; [reflexivity|].
    constructor; try done; [by intros op b [= <-]|]. change (mem_access (with_exe_op _ p2)) with (mem_access p2).
    by rewrite Ha2.
  - eexists _, _, _. split; [reflexivity|]. constructor; try done. by rewrite Ha2.
Qed.

Lemma load_event_short o : (length (load_event o) ≤ 1)%nat.
Proof using Type. unfold load_event. repeat case_match; cbn; lia. Qed.
Lemma exec_event_short o : (length (exec_event o) ≤ 1)%nat.
Proof using Type. unfold exec_event. repeat case_match; cbn; lia. Qed.

Lemma observe_short p p' : (length (observe p p') ≤ 2)%nat.
Proof using Type.
  unfold observe. rewrite length_app. pose proof (load_event_short (wb_op p')).
  pose proof (exec_event_short (mem_op p')). repeat case_match; cbn in *; lia.
Qed.

Lemma stages_run p m h W s : Inv forwardable p → branch_recover p = false → steady p →
  synced p m h W s → orderly lo hi top 3 s = true →
  ∃ p' m' h', stages p m h = Ret (p', m', h') ∧ steady p'.
Proof using Hlo Hhi Hhi32 Hvalid.
  intros Hinv Hrec Hsd Hsy Hord. unfold stages.
  destruct (forward_ok p Hinv Hrec) as (Hi1 & Hr1 & Ha1).
  pose proof (forward_synced lo hi top ftop V0 p m h W s Hinv Hrec Hsy) as Hsy1.
  pose proof (steady_forward p Hsd) as Hsd1. set (p1 := pipe_normal_data_hazard_resolve p) in *.
  assert (Hw1 : within lo hi 12 (resume_pc p1)).
  { pose proof (is_core _ _ _ _ _ _ _ (sy_step _ _ _ _ _ _ _ _ _ _ Hsy1)) as Ec.
    pose proof (orderly_pc _ _ _ _ _ Hord) as Hw. by rewrite Ec in Hw. }
  destruct (front_within p1 exact Hi1 Hr1 Hsd1 Hw1) as (Hwe & Hwd & Hwpc).
  pose proof (id_decodable p1 m h W s exact Hi1 Hr1 Hsy1 Hwd) as Hdec.
  destruct (wb_runs p1 Hi1) as [p2 E2]. rewrite E2, bind_Ret.
  destruct (wb_ok p1 p2 Hi1 Hr1 E2) as (Hi2 & Hr2 & Hw2 & _).
  destruct (wb_synced lo hi top ftop V0 p1 p2 m h W s Hi1 Hr1 E2 Hsy1) as [Hsy2 Epc2].
  destruct (wb_spec p1 p2 E2) as ([_ Eid2 Ee2 _ _ _] & _ & _ & Em2 & _).
  pose proof (f_equal (λ x, x.1.1) (wb_side p1 p2 E2)) as Ep2. cbn in Ep2.
  destruct (mem_runs p2 m h W s Hi2 Hsy2) as [[[p3 m3] h3] E3].
  { rewrite (access_same p1) by done. apply Hsd1. }
  rewrite E3, bind_Ret. destruct (mem_ok p2 m h p3 m3 h3 Hi2 Hr2 Hw2 E3) as (Hi3 & Hr3 & _ & Hcase3 & _).
  destruct (mem_synced lo hi top ftop V0 p2 m h p3 m3 h3 W s Hi2 Hr2 Hw2 E3 Hsy2) as (Epc3 & W' & s1 & Hrun1 & Hsy3).
  destruct (mem_spec p2 m h p3 m3 h3 Hw2 (inv_tx _ _ Hi2) E3) as ([_ Eid3 Ee3 _ _ _] & _ & _).
  pose proof (f_equal (λ x, x.1.1) (mem_side _ _ _ _ _ _ E3)) as Ep3. cbn in Ep3.
  destruct (exe_runs p3 Hi3 Hr3) as [p4 E4].
  { intros e. rewrite Ee3, Ee2. intros He Hph. apply (within_u32 12); [lia | by apply (Hwe e)]. }
  rewrite E4, bind_Ret. destruct (exe_ok_stage p3 p4 Hi3 Hr3 E4) as (Hi4 & [Epc4 Eid4 _ _ _ _] & _).
  destruct (exe_synced lo hi top ftop V0 p3 p4 m3 h3 W' s1 Hi3 Hr3 E4 Hsy3) as (_ & ev & Hev & Hrun2).
  assert (Hlen : (length ev ≤ 1)%nat) by (destruct Hev as [[_ ->]|[_ ->]]; [cbn; lia | apply exec_event_short]).
  pose proof (load_event_short (wb_op p3)) as Hlen1.
  assert (Hord1 : orderly lo hi top (length ev + 1) s1 = true).
  { eapply orderly_app; [|exact Hrun1]. eapply (orderly_prefix _ _ _ _ (1 - length ev + (1 - length (load_event (wb_op p3))))).
    by replace (_ + _ + _)%nat with 3%nat by lia. }
  destruct Hrun2 as (s' & Hrun2 & Hsy4).
  { apply orderly_well_behaved. by eapply orderly_prefix. }
  destruct (orderly_app _ _ _ _ _ _ _ _ Hord1 Hrun2) as [_ Hale].
  destruct (exe_side p3 p4 E4) as [Ep4 _].
  assert (Eexe : exe_op p4 = exe_op p1 ∨ exe_op p4 = None).
  { destruct (exe_spec p3 p4 E4) as [_ [[[_ _ -> _ _ _] _]|(e & op & _ & _ & -> & _)]]; [left; congruence | by right]. }
  assert (Hsafe4 : front_safe p4).
  { constructor; unfold decodable; rewrite ?Eid4, ?Eid3, ?Eid2, ?Epc4, ?Epc3, ?Epc2, ?Ep4, ?Ep3, ?Ep2; try done.
    - apply Hsd1.
    - apply Hsd1.
    - destruct Eexe as [->| ->]; [apply Hsd1 | done]. }
  assert (Hal3 : ∀ a, mem_access p3 = Some a → access_aligned a = true).
  { destruct Hcase3 as [[(_ & Em3 & _) _]|(op & acc & lv & _ & _ & _ & Em3 & _)].
    - rewrite (access_same p1) by congruence. apply Hsd1.
    - unfold mem_access. by rewrite Em3. }
  assert (Hal4 : ∀ a, mem_access p4 = Some a → access_aligned a = true).
  { destruct Hev as [[Em4 _]|[Em3 ->]]; [rewrite (access_same p3) by done; exact Hal3|].
    intros a. by apply (entered_aligned p3 p4). }
  destruct (hazard_runs p4 Hi4) as [b E5]; [intros d Ed; by apply Hsafe4|]. rewrite E5, bind_Ret.
  by apply (front_runs p4 m3 h3 W' s').
Qed.

(** a cycle of a disciplined program returns *)
Lemma cycle_runs p m h W s : Inv forwardable p → steady p → synced p m h W s →
  orderly lo hi top 3 s = true →
  ∃ p' m' h', Runner.cycle p m h = Ret (p', m', h') ∧ steady p'.
Proof using All.
  intros Hinv Hsd Hsy Hord. unfold Runner.cycle, Cpu.tick. set (p0 := with_hpm _ p).
  assert (Hi0 : Inv forwardable p0) by (constructor; try apply Hinv; intros Hr;
    destruct (inv_front _ _ Hinv Hr); by constructor).
  assert (Hsy0 : synced p0 m h W s).
  { apply (synced_same lo hi top ftop V0 p); try done;
      [constructor; auto | by apply (sy_raw _ _ _ _ _ _ _ _ _ _ Hsy)]. }
  destruct (recover_runs p0 Hi0) as [p1 E1]. rewrite E1, bind_Ret.
  destruct (recover_ok p0 p1 Hi0 E1) as (Hi1 & Hr1 & _).
  destruct (recover_synced lo hi top ftop V0 p0 p1 m h W s Hi0 E1 Hsy0) as [Hsy1 _].
  assert (Hsd1 : steady p1).
  { apply (steady_recover p0 p1 Hi0 E1); [|by destruct Hsd].
    pose proof (is_core _ _ _ _ _ _ _ (sy_step _ _ _ _ _ _ _ _ _ _ Hsy0)) as Ec.
    pose proof (orderly_pc _ _ _ _ _ Hord) as Hw. by rewrite Ec in Hw. }
  destruct (stages_run p1 m h W s Hi1 Hr1 Hsd1 Hsy1 Hord) as (p2 & m2 & h2 & E2 & Hsd2).
  rewrite E2, bind_Ret.
  assert (Hsy2 : ∃ W' s', synced p2 m2 h2 W' s').
  { assert (Hpc : within lo hi 4 (if_pc p1)).
    { apply (front_within p1 forwardable); try done.
      pose proof (is_core _ _ _ _ _ _ _ (sy_step _ _ _ _ _ _ _ _ _ _ Hsy1)) as Ec.
      pose proof (orderly_pc _ _ _ _ _ Hord) as Hw. by rewrite Ec in Hw. }
    destruct Hpc as (? & ? & _).
    pose proof (observe_short p1 p2).
    destruct (stages_synced lo hi top ftop V0 p1 m h p2 m2 h2 W s (3 - length (observe p1 p2))) as (W' & s' & _ & ?);
      try done; [lia | lia | |by exists W', s'].
    apply orderly_well_behaved. by replace (_ + _)%nat with 3%nat by lia. }
  destruct Hsy2 as (W' & s' & Hsy2).
  destruct (clock_runs p2 m2 h2 W' s' Hsy2) as (p3 & m3 & h3 & m4 & h4 & E3 & E4).
  rewrite E3, bind_Ret, E4, bind_Ret. eexists _, _, _. split; [reflexivity|]. by eapply clock_steady.
Qed.

(** ** Runs *)

Lemma fetch_pc_within p m h W s n : Inv forwardable p → steady p → synced p m h W s →
  orderly lo hi top (S n) s = true → within lo hi 4 (fetch_pc p).
Proof using Hlo Hhi32.
  intros Hinv Hsd Hsy Hord. pose proof (orderly_pc _ _ _ _ _ Hord) as Hw.
  rewrite (is_core _ _ _ _ _ _ _ (sy_step _ _ _ _ _ _ _ _ _ _ Hsy)) in Hw. change (within lo hi 12 (resume_pc p)) in Hw.
  unfold fetch_pc. destruct (branch_recover p) eqn:Hr.
  - apply (within_less 12); [lia|]. unfold resume_pc in Hw. by rewrite Hr in Hw.
  - by apply (front_within p forwardable).
Qed.

(** everything known of a processor between two cycles; [evs] is its trace so far *)
Record sound c0 evs p m h W s : Prop := {
  sn_inv : Inv forwardable p;
  sn_marked : marked c0 evs p;
  sn_halted : halted c0 evs p;
  sn_steady : steady p;
  sn_synced : synced p m h W s;
}.

Lemma cycle_sound c0 evs p m h W s n : sound c0 evs p m h W s → halt p = false →
  orderly lo hi top (3 + n) s = true →
  ∃ p' m' h' W' s', Runner.cycle p m h = Ret (p', m', h') ∧
    flat_run (length (observe p p')) s = Ret (observe p p', s') ∧
    orderly lo hi top (1 + n) s' = true ∧ sound c0 (evs ++ observe p p') p' m' h' W' s'.
Proof using All.
  intros [Hinv Hmk Hha Hsd Hsy] Hh Hord.
  destruct (cycle_runs p m h W s Hinv Hsd Hsy) as (p' & m' & h' & E & Hsd'); [by eapply orderly_prefix|].
  pose proof (observe_short p p') as Hl.
  destruct (fetch_pc_within p m h W s (2 + n) Hinv Hsd Hsy Hord) as (? & ? & _).
  replace (3 + n)%nat with (length (observe p p') + (1 + n + (2 - length (observe p p'))))%nat in Hord by lia.
  destruct (cycle_synced Hclock lo hi top ftop V0 p m h p' m' h' W s (1 + n + (2 - length (observe p p')))%nat)
    as (W' & s' & Hrun & Hsy'); [done | done | lia | lia | done | by apply orderly_well_behaved |].
  destruct (orderly_app _ _ _ _ _ _ _ _ Hord Hrun) as [Hord' _].
  destruct (cycle_tick _ _ _ _ _ _ E) as (m2 & h2 & Et).
  destruct (tick_ok c0 evs p m h p' m2 h2 Hinv Hh Hmk Et) as (Hi' & _ & Hmk' & Hha').
  exists p', m', h', W', s'. split_and!; [done..| by eapply orderly_prefix | done].
Qed.

Lemma run_sound c0 n evs p m h W s : sound c0 evs p m h W s → orderly lo hi top (2 * n + 1) s = true →
  ∃ tr p' m' h' W' s', run_cycles n p m h = Ret (tr, (p', m', h')) ∧
    flat_run (length tr) s = Ret (tr, s') ∧ sound c0 (evs ++ tr) p' m' h' W' s'.
Proof using All.
  revert evs p m h W s. induction n as [|n IH]; intros evs p m h W s Hso Hord.
  { exists [], p, m, h, W, s. by rewrite app_nil_r. }
  cbn [run_cycles]. destruct (halt p) eqn:Hh; [exists [], p, m, h, W, s; by rewrite app_nil_r|].
  replace (2 * S n + 1)%nat with (3 + 2 * n)%nat in Hord by lia.
  destruct (cycle_sound c0 evs p m h W s _ Hso Hh Hord) as (p1 & m1 & h1 & W1 & s1 & E & Hrun & Hord1 & Hso1).
  rewrite Nat.add_comm in Hord1.
  destruct (IH _ p1 m1 h1 W1 s1 Hso1 Hord1) as (tr & p' & m' & h' & W' & s' & E' & Hrun' & Hso').
  exists (observe p p1 ++ tr), p', m', h', W', s'. rewrite E, bind_Ret, E', bind_Ret, app_assoc.
  split_and!; [done| |done]. by rewrite length_app, flat_run_app, Hrun, bind_Ret, Hrun'.
Qed.
End memory.
