(* ===== verification/PipeWaits.v ===== *)
(** How long the stages of the pipeline wait for their caches.

    IF and MEM each hand a request over, wait for a cache that is busy, and wait for the
    answer.  [due] bounds the cycles a port has still to wait; it decreases in every cycle
    in which the port is not done, since the waits of [CacheWaits.v] do. *)
From S2P Require Import Prelude Word Format Instruction BranchPredictor Uop Execute Decode Datapath AbstractMem ReplacementPolicy CacheConfig CacheSet LowerMemory GeneralCache CacheAddress Device MemoryDevices CacheView CacheRefinement CacheDevice Hierarchy SharedCache CacheWaits MemoryAccess MemoryPorts SimpleMem Dram Pipe Runner IsaMachine FlatMachine PipeInvariant PipeRefinement PipeRun PipeHalt PipeMemory Discipline NoPanic.
From stdpp Require Import base gmap numbers sets list strings.
From Stdlib Require Import Lia.
#[local] Open Scope Z_scope.
#[local] Coercion Z.of_nat : nat >-> Z.

(** * Handing a request to a cache *)

Section registration.
Context `{Profile} {RP : Type} `{ReplacementLaws RP} {M : Type} `{DeviceLaws M}.
Implicit Types (c : GeneralCache RP) (m : M) (h : heap) (r : MemoryReqType).

(** a cache that accepts a request does not use the next level yet *)
Lemma register_moves c m h r c' m' h' : inv c m h → served c m r →
  Cache.try_register_req c m r h = Ret (Ok tt, c', m', h') → fsm c = GeneralCache.Idle ∧ m' = m ∧ unsent c'.
Proof.
  intros Hinv Hs E. destruct (idle_cases c) as [Hf|Hf].
  2:{ destruct (register_busy c m h r Hinv Hf Hs) as [E' _]. by rewrite E' in E. }
  rewrite (try_accept c m h r) in E by done.
  apply bind_inv in E as ([[c1 m1] h1] & E & [= <- <- <-]).
  unfold Cache.tick in E. change (fsm (accept r c)) with (GeneralCache.Lookup r) in E. cbv iota in E.
  apply bind_inv in E as ([c2 h2] & El & [= <- <- <-]). by destruct (lookup_unsent _ _ _ _ _ El) as [Hu _].
Qed.

Lemma register_refused c m h r c' m' h' : inv c m h → served c m r →
  Cache.try_register_req c m r h = Ret (Err tt, c', m', h') → fsm c ≠ GeneralCache.Idle.
Proof.
  intros Hinv Hs E Hf. rewrite (try_accept c m h r) in E by done.
  by apply bind_inv in E as ([[c1 m1] h1] & _ & [=]).
Qed.

End registration.

(** * A port *)

Section port.
Context {RP : Type}.
Implicit Types (c : GeneralCache RP) (t : option (bool * MemoryReqType)).

(** The request of a port, and whether the cache has accepted it.  A port is [poised] when it
  has found the cache busy, or waits for its answer. *)
Definition poised t c : Prop :=
  match t with
  | None => False
  | Some (false, _) => fsm c ≠ GeneralCache.Idle
  | Some (true, r) => client_req c = Some r
  end.

(** a cycle of the port, from [t] to [t'] *)
Definition hands t c t' c' : Prop :=
  poised t' c' ∧
  match t, t' with
  | None, _ => True
  | Some (false, _), Some (false, _) => c' = c
  | Some (false, _), _ => True
  | Some (true, r), _ => t' = t ∧ c' = c
  end.

(** the cycles a port waits, over a cache that is free in [wait] cycles, and always within
  [bound] *)
Definition due (bound wait : nat) t c : nat :=
  match t with
  | None => 2 * bound + 3
  | Some (false, _) => bound + 2 + wait
  | Some (true, r) => if bool_decide (client_req c = Some r) then S wait else 0
  end.

Lemma client_busy c r : client_req c = Some r → fsm c ≠ GeneralCache.Idle.
Proof. unfold client_req, current. intros Hc Hf. rewrite Hf in Hc. by destruct (prefetch_in_flight c). Qed.

Lemma due_hands bound wait wait' t c t' c' : hands t c t' c' → (wait' < bound)%nat →
  (c' = c → wait' ≤ wait)%nat → (due bound wait' t' c' ≤ due bound wait t c)%nat.
Proof.
  intros [Hp Hh] Hb Hw. destruct t as [[[] r]|].
  - destruct Hh as [-> ->]. cbn in *. specialize (Hw eq_refl). case_bool_decide; lia.
  - destruct t' as [[[] r']|]; [|subst c'; specialize (Hw eq_refl)|done]; cbn; [case_bool_decide|]; lia.
  - destruct t' as [[[] r']|]; cbn; [case_bool_decide| |]; lia.
Qed.

(** a cycle of the caches brings a poised port nearer to its answer *)
Lemma due_clock bound wait wait' t c c' : poised t c → (fsm c ≠ GeneralCache.Idle → wait' < wait)%nat →
  (due bound wait' t c' < due bound wait t c)%nat.
Proof.
  intros Hp Hw. destruct t as [[[] r]|]; cbn in *; [|specialize (Hw Hp); lia|done].
  rewrite (bool_decide_eq_true_2 _ Hp). specialize (Hw (client_busy _ _ Hp)). case_bool_decide; lia.
Qed.
End port.

(** the port of MEM, and that of IF *)
Definition data_state (t : MemoryTransaction) : option (bool * MemoryReqType) :=
  match t with TxSending r _ => Some (false, r) | TxWaiting r _ => Some (true, r) | _ => None end.
Definition fetch_state (f : PipelineMemoryFSM) : option (bool * MemoryReqType) :=
  match f with SendingReq r => Some (false, r) | WaitingComplete r => Some (true, r) | FetchIdle => None end.

(** * The two ports *)

Section ports.
Context `{Profile} {RP : Type} `{ReplacementLaws RP} {M : Type} `{Device M}.
Context {L : DeviceLaws (RG := everywhere) M}.
Context (code : Region) (V0 : view).
#[local] Existing Instance everywhere.
Implicit Types (ci cd : GeneralCache RP) (m : M) (h : heap) (r : MemoryReqType).

(** a fetch that the cache has accepted is in progress or answered *)
Definition alive ci cd m h r : Prop :=
  client_req ci = Some r ∨ free ci cd m h (Req.id r) ∧ done (Heap.get h (Req.id r)) = true.

Lemma alive_stepped W ci cd m h ci' cd' m' h' r : SharedCache.stepped code W ci cd m h ci' cd' m' h' →
  alive ci cd m h r → alive ci' cd' m' h' r.
Proof.
  intros Hst [Hc|[Hf Hd]].
  - destruct (sp_code _ _ _ _ _ _ _ _ _ _ Hst r Hc) as [[Hc' _]|[Hf Ha]]; [by left | right].
    split; [done|]. by eapply (answers_done (RG := code)).
  - destruct (sp_free _ _ _ _ _ _ _ _ _ _ Hst _ Hf) as [Hf' E]. right. by rewrite E.
Qed.

Lemma alive_old ci cd m h W r : shows code ci cd m h W → alive ci cd m h r → (Req.id r < next_id h)%nat.
Proof.
  intros Hs [Hc|[(? & _) _]]; [|done].
  apply (client_held (H3 := restrict code (L := L)) ci m h r (sh_code _ _ _ _ _ _ Hs) Hc).
Qed.

Lemma alive_accept ci cd m h r r' : Req.id r' ≠ Req.id r → alive ci cd m h r' → alive ci (accept r cd) m h r'.
Proof. intros Hne [?|[? ?]]; [by left | right]. split; [by apply accept_data_free | done]. Qed.

Lemma send_waits ci cd m h W r a st t cd' m' h' : shows code ci cd m h W →
  tx_served ci cd m h W (TxSending r a) → usable code cd m a →
  Transaction.send (cd, m) r a h = Ret (st, t, (cd', m'), h') →
  m' = m ∧ same_config cd cd' ∧ (∀ r', Req.id r' ≠ Req.id r → alive ci cd m h r' → alive ci cd' m' h' r') ∧
  (st = Pending → hands (data_state (TxSending r a)) cd (data_state t) cd').
Proof.
  intros Hs (Hc & Ha & Hf & Hd) Hu E. unfold Transaction.send in E. cbn in E.
  apply bind_inv in E as ([[res [cd1 m1]] h1] & Et & E).
  apply bind_inv in Et as ([[[res0 cd0] m0] h0] & Et & [= <- <- <- <-]).
  pose proof (asks_served code _ _ _ _ _ _ Hu Ha Et) as Hsv. pose proof (sh_data _ _ _ _ _ _ Hs) as Hinv.
  destruct (register_data code ci cd m h W r Hs) as [Er|(cd2 & m2 & h2 & Er & _ & Hcl & Hs' & Hst)];
    [done | by eapply (asks_spares code cd m) | done | |]; rewrite Er in Et; injection Et as <- <- <- <-; cbn in E.
  - injection E as <- <- <- <- <-. split_and!; [done | apply same_config_refl | done |]. intros _. split; [|done].
    by apply (register_refused cd m h r _ _ _ Hinv Hsv Er).
  - destruct (register_moves cd m h r cd2 m2 h2 Hinv Hsv Er) as (_ & -> & _).
    assert (Hal : ∀ r', Req.id r' ≠ Req.id r → alive ci cd m h r' → alive ci cd2 m h2 r').
    { intros r' Hne Hr. eapply alive_stepped; [exact Hst|]. by apply alive_accept. }
    pose proof (sp_data_config _ _ _ _ _ _ _ _ _ _ Hst : same_config cd cd2) as Hcf.
    destruct (sp_data _ _ _ _ _ _ _ _ _ _ Hst r Hcl) as [[Hcl' Ecell]|Hserved].
    + assert (Hd' : Req.is_done r h2 = false) by (rewrite is_done_get, Ecell; exact Hd).
      rewrite Hd' in E. injection E as <- <- <- <- <-. by split_and!.
    + assert (Hd' : Req.is_done r h2 = true).
      { rewrite is_done_get. destruct Hserved as (_ & _ & Han). by eapply answers_done. }
      rewrite Hd' in E. apply bind_inv in E as ([st' t'] & Ec & [= <- <- <- <- <-]).
      destruct (complete_value _ _ _ _ _ _ _ _ _ Hserved Ha Ec) as (lv & -> & Hv). by split_and!.
Qed.

Lemma progress_waits ci cd m h W t a st t' cd' m' h' : shows code ci cd m h W →
  tx_served ci cd m h W t → usable code cd m a →
  match t with TxSending _ b | TxWaiting _ b => b = a | _ => True end →
  Transaction.progress t (cd, m) a h = Ret (st, t', (cd', m'), h') →
  m' = m ∧ same_config cd cd' ∧
  (∀ r, (∀ r', tx_req t = Some r' → Req.id r ≠ Req.id r') → alive ci cd m h r → alive ci cd' m' h' r) ∧
  (st = Pending → hands (data_state t) cd (data_state t') cd').
Proof.
  intros Hs Ht Hu Hta E. destruct t as [|r b|r b|v]; [| |subst b|done].
  - apply bind_inv in E as ([r h1] & Er & E).
    destruct (request_for_asks _ _ _ _ Er) as (Ha & Eid & En & Hd & Hk).
    destruct (shows_grow code ci cd m h h1 W Hs) as (Hs1 & Hst1 & Hnew); [lia | done |].
    destruct (send_waits ci cd m h1 W r a st t' cd' m' h') as (-> & Hcf & Hal & Hh); try done.
    { split_and!; [exact Ht | done | apply Hnew; lia | done]. }
    split_and!; [done..| |].
    + intros r0 _ Hr0. pose proof (alive_old _ _ _ _ _ _ Hs Hr0). apply Hal; [lia|].
      by eapply alive_stepped.
    + intros Hp. destruct (Hh Hp). by split.
  - cbn in Hta. subst b. destruct (send_waits ci cd m h W r a st t' cd' m' h') as (-> & Hcf & Hal & Hh); try done.
    split_and!; [done..| |done]. intros r0 Hne. apply Hal. by apply Hne.
  - cbn in E. destruct Ht as [Ha Hserved]. rewrite is_done_get in E.
    destruct (done (Heap.get h (Req.id r))) eqn:Hd.
    + destruct Hserved as [[_ ?]|Hserved]; [congruence|].
      apply bind_inv in E as ([st' t1] & Ec & [= <- <- <- <- <-]).
      destruct (complete_value _ _ _ _ _ _ _ _ _ Hserved Ha Ec) as (lv & -> & Hv). split_and!; [done | apply same_config_refl | done..].
    + injection E as <- <- <- <- <-. split_and!; [done | apply same_config_refl | done|]. intros _.
      destruct Hserved as [[Hc _]|(_ & _ & Han)]; [by split|].
      by rewrite (answers_done _ _ _ Han) in Hd.
Qed.
End ports.

(** * The stages *)

Section memory.
Context `{Profile} {RP : Type} `{ReplacementLaws RP} {P : Type} `{BranchPredict P}.
Context {M : Type} `{Device M} {L : DeviceLaws (RG := everywhere) M}.
Context (Hclock : ∀ (m : M) h, cycle m h = tick m h).
Context (lo hi top ftop : Z) (V0 : view).
Context (Hlo : 0 ≤ lo) (Hhi : hi ≤ ftop).
#[local] Existing Instance everywhere.
Implicit Types (p q : PipelineProcessor RP P) (m : M) (h : heap) (s : Machine).
Import Cpu.

Abbreviation ports := (PipeMemory.ports lo hi top ftop V0).
Abbreviation synced := (PipeMemory.synced lo hi top ftop V0).
Abbreviation code := (PipeMemory.code lo hi).

(** how long MEM and IF still wait *)
Definition data_due p m : nat :=
  due (wait_bound (dcache p) (l2_cache p, m)) (data_wait (icache p) (dcache p) (l2_cache p, m))
    (data_state (mem_transaction p)) (dcache p).
Definition fetch_due p m : nat :=
  due (wait_bound (icache p) (l2_cache p, m)) (code_wait (icache p) (l2_cache p, m))
    (fetch_state (if_fsm p)) (icache p).
Definition data_poised p : Prop := poised (data_state (mem_transaction p)) (dcache p).
Definition fetch_poised p : Prop := poised (fetch_state (if_fsm p)) (icache p).

(** the fetch that IF waits for is in the instruction cache or answered *)
Definition connected p m h : Prop := ∀ r, if_fsm p = WaitingComplete r →
  alive (icache p) (dcache p) (l2_cache p, m) h r.

(** a step that leaves both ports alone *)
Definition idle_ports p p' : Prop := same_ports p p' ∧ if_fsm p' = if_fsm p.

Lemma idle_ports_due p p' m h : idle_ports p p' →
  data_due p' m = data_due p m ∧ fetch_due p' m = fetch_due p m ∧
  (data_poised p' ↔ data_poised p) ∧ (fetch_poised p' ↔ fetch_poised p) ∧
  (connected p m h → connected p' m h).
Proof using Type.
  intros [[Ei Ed El Et _] Ef]. unfold data_due, fetch_due, data_poised, fetch_poised, connected.
  rewrite Ei, Ed, El, Et, Ef. by split_and!.
Qed.

Lemma wait_bound_same (c c' : GeneralCache RP) (m m' : GeneralCache RP * M) : same_config c c' →
  same_shape m m' → wait_bound c' m' = wait_bound c m.
Proof using Type.
  intros (_ & _ & _ & Ep & _) (Eb & _). unfold wait_bound, tx_wait_bound. by rewrite Eb, Ep.
Qed.

Lemma waits_bounded p m h W : ports p m h W →
  (data_wait (icache p) (dcache p) (l2_cache p, m) < wait_bound (dcache p) (l2_cache p, m))%nat ∧
  (code_wait (icache p) (l2_cache p, m) < wait_bound (icache p) (l2_cache p, m))%nat.
Proof using Type.
  intros [Hs _ _ _ _ _]. pose proof (sh_lower _ _ _ _ _ _ Hs) as Hi.
  pose proof (late_data_le (icache p) (l2_cache p, m)) as Hl. split; eapply wait_with_bound.
  - exact Hi.
  - lia.
  - exact (stage_bound (M := (GeneralCache RP * M)%type) _ _ _ (sh_data _ _ _ _ _ _ Hs)).
  - exact Hi.
  - unfold late_code. lia.
  - exact (stage_bound (M := (GeneralCache RP * M)%type) (H3 := restrict code) _ _ _ (sh_code _ _ _ _ _ _ Hs)).
Qed.

(** ** MEM *)

Lemma mem_waits p m h p' m' h' W s : Inv exact p → branch_recover p = false → wb_op p = None →
  synced p m h W s → connected p m h → pipe_stage_mem p m h = Ret (p', m', h') →
  connected p' m' h' ∧ fetch_due p' m' = fetch_due p m ∧
  (mem_op p' = None ∨ data_poised p' ∧ (data_due p' m' ≤ data_due p m)%nat).
Proof using Type.
  intros Hinv Hrec Hwb Hsy Hcon E.
  destruct (mem_synced lo hi top ftop V0 p m h p' m' h' W s Hinv Hrec Hwb E Hsy) as (_ & W' & s' & _ & Hsy').
  destruct (waits_bounded p' m' h' W' (sy_ports _ _ _ _ _ _ _ _ _ _ Hsy')) as [Hbd _].
  destruct Hsy as [[Hsh HW Hf Htx Hap [_ Hr2 _ Hr4]] [_ _ _ Hacc _] _].
  pose proof (mem_side p m h p' m' h' E) as Eside. injection Eside as _ Ef _.
  unfold pipe_stage_mem in E. destruct (mem_op p) as [op|] eqn:Em.
  2: { injection E as <- <- <-. split_and!; [done..|]. by left. }
  apply bind_inv in E as (acc & Ea & E). destruct acc as [a|].
  2: { injection E as <- <- <-. unfold finish_mem in *. rewrite Hwb in *. split_and!; [done..|]. by left. }
  apply bind_inv in E as ([[[st t] [dc [l2 m1]]] h1] & E & Efin).
  assert (Eacc : mem_access p = Some a) by (unfold mem_access; by rewrite Em, Ea).
  pose proof (inv_tx _ _ Hinv) as Hok.
  destruct (progress_waits code (icache p) (dcache p) (l2_cache p, m) h W (mem_transaction p) a st t dc (l2, m1) h1)
    as (Elow & Hcf & Hal & Hh); try done.
  { by apply (access_usable lo hi top); auto. }
  { unfold transaction_ok in Hok. destruct (mem_transaction p) as [|r b|r b|v]; try done;
      destruct Hok as (op' & Eop & Ea'); rewrite Em in Eop; injection Eop as <-; rewrite Ea in Ea'; by injection Ea'. }
  injection Elow as -> ->.
  assert (Hcon' : ∀ r, if_fsm p = WaitingComplete r → alive (icache p) dc (l2_cache p, m) h1 r).
  { intros r Hr. apply Hal; [|by apply Hcon]. intros r' Hr'. apply Hap; [|done]. unfold fetch_req. by rewrite Hr. }
  destruct st as [|lv].
  - injection Efin as <- <- <-. split_and!; [done..|]. right. specialize (Hh eq_refl). split; [apply Hh|].
    unfold data_due in *. cbn [dcache icache l2_cache mem_transaction with_transaction with_l2_cache with_dcache] in *.
    rewrite (wait_bound_same (dcache p) dc (l2_cache p, m) (l2_cache p, m)) in * by done.
    eapply due_hands; [exact Hh | exact Hbd |]. by intros ->.
  - injection Efin as <- <- <-. unfold finish_mem in *.
    cbn [wb_op with_transaction with_l2_cache with_dcache] in *. rewrite Hwb in *. split_and!; [done..|]. by left.
Qed.

(** ** IF *)

Lemma yields_unsent (c : GeneralCache RP) (m : GeneralCache RP * M) : unsent c → yields c m = false.
Proof using Type.
  intros Hu. unfold yields. destruct (trans c) as [t|] eqn:Ht; [|done]. by destruct (Hu t Ht) as [r ->].
Qed.

Lemma data_wait_code (ci ci' cd : GeneralCache RP) (m : GeneralCache RP * M) : unsent ci → unsent ci' →
  data_wait ci' cd m = data_wait ci cd m.
Proof using Type. intros H1' H2'. unfold data_wait, late_data. by rewrite !yields_unsent. Qed.

(** what a cycle of IF does to the ports, and its own wait when it is not ready *)
Record fetch_waits p m h (ready : bool) p' m' h' : Prop := {
  fw_connected : connected p' m' h';
  fw_data : data_due p' m' = data_due p m;
  fw_poised : data_poised p → data_poised p';
  fw_due : ready = false → fetch_poised p' ∧ (fetch_due p' m' ≤ fetch_due p m)%nat;
}.

Lemma send_fetch_waits p r m h b p' m' h' W : ports p m h W → within lo hi 4 (if_pc p) →
  fetch_served code V0 (icache p) (dcache p) (l2_cache p, m) h r →
  r = Load {| load_addr := if_pc p; load_len := 4; load_id := Req.id r |} →
  (∀ r', tx_req (mem_transaction p) = Some r' → Req.id r ≠ Req.id r') →
  if_fsm p = FetchIdle ∨ if_fsm p = SendingReq r →
  send_fetch p r m h = Ret (b, p', m', h') → fetch_waits p m h b p' m' h'.
Proof using Hlo Hhi.
  intros Hp (Hl & Hh & Hm) Hfs Er Hne Hfsm E.
  assert (Hb' : ports p' m' h' W).
  { eapply (send_ports lo hi top ftop V0 p r); [exact Hp | | exact Hfs | exact Er | exact Hne | lia | lia | exact E].
    unfold fetch_req. destruct Hfsm as [->| ->]; [by left | by right]. }
  destruct (waits_bounded _ _ _ _ Hb') as [_ Hbd]. destruct Hp as [Hs HW Hf Htx Hap [R1 R2 R3 R4]].
  unfold send_fetch in E.
  assert (Hr : Req.is_store r = false ∧ Req.get_len r = 4%nat ∧ Req.get_addr r = if_pc p) by by rewrite Er.
  destruct Hr as (Hld & Hlen & Haddr).
  assert (Hserved : served (icache p) (l2_cache p, m) r).
  { split_and!; [by rewrite Hlen | lia | by rewrite Hlen, Haddr | lia | lia | by rewrite Er]. }
  pose proof (sh_code _ _ _ _ _ _ Hs) as Hinv. pose proof Hfs as [Hfree _].
  apply bind_inv in E as ([[res [ic [l2 m1]]] h1] & Et & E).
  apply bind_inv in Et as ([[[res0 ic0] l0] h0] & Et & [= -> -> -> ->]).
  assert (Hnone : ∀ r', if_fsm p = WaitingComplete r' → False) by (intros r'; destruct Hfsm as [->| ->]; done).
  destruct (register_code code _ _ _ _ W r Hs Hserved Hld) as
    [Ereg|(ci1 & [l1 n1] & k1 & Ereg & _ & Hcl & _ & Hst)]; [by apply or_comm | |];
    pose proof (eq_trans (eq_sym Et) Ereg) as [= -> -> -> -> ->].
  - pose proof (register_refused (H3 := restrict code) _ _ _ _ _ _ _ Hinv Hserved Ereg) as Hbusy.
    injection E as <- <- <- <-. constructor; try done. intros _. split; [exact Hbusy|].
    unfold fetch_due in *. eapply due_hands; [|exact Hbd | done].
    split; [exact Hbusy|]. by destruct Hfsm as [->| ->].
  - destruct (register_moves (H3 := restrict code) _ _ _ _ _ _ _ Hinv Hserved Ereg) as (Hidle & [= -> ->] & Hu).
    assert (Edw : data_wait ci1 (dcache p) (l2_cache p, m) = data_wait (icache p) (dcache p) (l2_cache p, m)).
    { apply data_wait_code; [|done]. apply unsent_none. unfold trans. by rewrite Hidle. }
    pose proof (sp_code_config _ _ _ _ _ _ _ _ _ _ Hst : same_config (icache p) ci1) as Hcf.
    destruct (Req.is_done r k1) eqn:Hd; cbn [negb] in E.
    + apply bind_inv in E as (w & _ & [= <- <- <- <-]). constructor; try done; [by intros r' ?%Hnone|].
      unfold data_due. cbn. by rewrite Edw.
    + assert (Hcl' : client_req ci1 = Some r).
      { destruct (sp_code _ _ _ _ _ _ _ _ _ _ Hst r Hcl) as [[? _]|[_ Ha]]; [done|].
        rewrite is_done_get in Hd. by rewrite (answers_done (RG := code) _ _ _ Ha) in Hd. }
      injection E as <- <- <- <-. constructor.
      * intros r' [= <-]. by left.
      * unfold data_due. cbn. by rewrite Edw.
      * done.
      * intros _. split; [exact Hcl'|]. unfold fetch_due in *.
        cbn [icache l2_cache if_fsm with_if_fsm with_l2_cache with_icache] in *.
        rewrite (wait_bound_same (icache p) ci1 (l2_cache p, m) (l2_cache p, m)) in * by done.
        eapply (due_hands _ _ _ _ _ (Some (true, r)) ci1); [|exact Hbd | by intros ->].
        split; [exact Hcl'|]. by destruct Hfsm as [->| ->].
Qed.

Lemma fetch_request_waits p m h b p' m' h' W : ports p m h W → within lo hi 4 (if_pc p) →
  connected p m h → fetch_request p m h = Ret (b, p', m', h') → fetch_waits p m h b p' m' h'.
Proof using Hlo Hhi.
  intros Hp Hw Hcon E. pose proof Hp as [Hs HW Hf Htx Hap Hre]. unfold fetch_request in E.
  destruct (if_fsm p) as [|r|r] eqn:Efsm.
  - destruct (Req.load (if_pc p) 4 h) as [r h0] eqn:El.
    assert (Er : r = Load {| load_addr := if_pc p; load_len := 4; load_id := next_id h |} ∧
      next_id h0 = S (next_id h) ∧ done (Heap.get h0 (next_id h)) = false ∧
      ∀ id, (id < next_id h)%nat → Heap.get h0 id = Heap.get h id).
    { injection El as <- <-. unfold Heap.get. cbn. split_and!; try done; [by rewrite lookup_insert_eq|].
      intros id Hid. by rewrite lookup_insert_ne by lia. }
    destruct Er as (Er & En & Hd & Hk).
    destruct (shows_grow code _ _ _ h h0 W Hs) as (Hs0 & Hst0 & Hnew); [lia | done |].
    assert (Eid : Req.id r = next_id h) by by rewrite Er.
    assert (Hfw : fetch_waits p m h0 b p' m' h').
    { apply (send_fetch_waits p r m h0 b p' m' h' W); try done.
      - by eapply ports_stepped.
      - split; [right; apply Hnew; lia|]. rewrite Eid. congruence.
      - by rewrite Eid.
      - intros r' Hr'. pose proof (tx_served_old code _ _ _ _ _ _ _ Hs Htx Hr'). lia.
      - by left. }
    destruct Hfw. by constructor.
  - assert (Hr : fetch_req p = Some r) by (unfold fetch_req; by rewrite Efsm).
    destruct (Hf r Hr) as [Hfs Er]. eapply (send_fetch_waits p r); try done; [|by right]. intros r'. by apply Hap.
  - destruct (Req.is_done r h) eqn:Hd; cbn [negb] in E.
    + apply bind_inv in E as (w & _ & [= <- <- <- <-]). by constructor.
    + injection E as <- <- <- <-. constructor; try done. intros _.
      unfold fetch_poised. split; [|done]. rewrite Efsm. cbn.
      destruct (Hcon r Efsm) as [?|[_ Hd']]; [done|]. rewrite is_done_get in Hd. congruence.
Qed.

Lemma issue_data p p' w : if_raw_isnt_buffer p = Some w → issue p = Ret p' →
  same_ports p p' ∧ if_fsm p' = FetchIdle ∧ is_Some (id_op p').
Proof using Type.
  intros Hw E. destruct (issue_ports p p' w Hw E) as (Hso & d & Ed & _). split_and!; [done| |by exists d].
  unfold issue in E. apply bind_inv in E as (w' & _ & E). apply bind_inv in E as (i & _ & E).
  cbn [if_pc branch_predictor with_hpm with_buffer] in E.
  destruct (opcode_or_op w');
    first [ by apply bind_inv in E as (next & _ & [= <-])
          | destruct (branch_predict _ _) as [bp bpred]; by apply bind_inv in E as (next & _ & [= <-]) ].
Qed.

Lemma if_waits p m h p' m' h' W : ports p m h W → within lo hi 4 (if_pc p) →
  connected p m h → pipe_stage_fetch p m h = Ret (p', m', h') →
  connected p' m' h' ∧ data_due p' m' = data_due p m ∧ (data_poised p → data_poised p') ∧
  (is_Some (id_op p') ∨ fetch_poised p' ∧ (fetch_due p' m' ≤ fetch_due p m)%nat).
Proof using Hlo Hhi.
  intros Hp Hw Hcon E. unfold pipe_stage_fetch in E.
  apply bind_inv in E as ([[[b p1] m1] h1] & Er & E).
  destruct (fetch_request_waits p m h b p1 m1 h1 W Hp Hw Hcon Er) as [F1 F2 F3 F4].
  destruct (fetch_requested _ _ _ _ _ _ _ Er) as (_ & _ & _ & Hbuf).
  destruct b; cbn [negb] in E.
  2: { injection E as <- <- <-. split_and!; [done..|]. right. by apply F4. }
  destruct (id_op p1) as [d|] eqn:Ed.
  { injection E as <- <- <-. split_and!; [done..|]. left. by exists d. }
  apply bind_inv in E as (p2 & Ei & [= <- <- <-]). destruct (Hbuf eq_refl) as (w & Hwb & _).
  destruct (issue_data p1 p2 w Hwb Ei) as ([Ei1 Ed1 El1 Et1 _] & Ef & Hsome). split_and!.
  - intros r Hr. congruence.
  - rewrite <- F2. unfold data_due. by rewrite Ei1, Ed1, El1, Et1.
  - unfold data_poised in *. by rewrite Ed1, Et1.
  - by left.
Qed.

(** ** The clock *)

Lemma clock_waits p m h p1 m1 h1 m' h' W s : tick_caches p m h = Ret (p1, m1, h1) →
  AbstractMem.tick m1 h1 = Ret (m', h') → synced p m h W s → connected p m h →
  connected p1 m' h' ∧ (data_poised p → data_due p1 m' < data_due p m)%nat ∧
  (fetch_poised p → fetch_due p1 m' < fetch_due p m)%nat.
Proof using Hclock.
  intros Ht Hm [Hp _ _] Hcon. pose proof (po_shows _ _ _ _ _ _ _ _ _ Hp) as Hs.
  destruct (caches_wait code _ _ _ _ W Hs) as
    (ci' & l1 & k1 & cd' & l2 & k2 & l3 & k3 & E1 & E2 & E3 & Hs' & Hst & Hwc & Hwd).
  unfold tick_caches in Ht. destruct l1 as [c1 n1], l2 as [c2 n2], l3 as [c3 n3].
  apply bind_inv in Ht as ([[ic [a1 b1]] j1] & F1 & Ht). apply bind_inv in Ht as ([[dc [a2 b2]] j2] & F2 & Ht).
  pose proof (eq_trans (eq_sym F1) E1) as [= -> -> -> ->].
  pose proof (eq_trans (eq_sym F2) E2) as [= -> -> -> ->].
  cbn in E3. unfold AbstractMem.tick, Cache_Clocked in E3. cbn [fst snd] in E3.
  apply bind_inv in Ht as ([[c4 n4] k4] & E4 & [= <- <- <-]).
  rewrite E4, bind_Ret in E3. cbn in E3. rewrite Hclock, Hm in E3. cbn in E3. injection E3 as <- <- <-.
  pose proof (sp_shape _ _ _ _ _ _ _ _ _ _ Hst) as Hsh. split_and!.
  - intros r Hr. exact (alive_stepped code W _ _ _ _ _ _ _ _ r Hst (Hcon r Hr)).
  - intros Hpo. unfold data_due. cbn [icache dcache l2_cache mem_transaction with_l2_cache with_dcache with_icache].
    rewrite (wait_bound_same (dcache p) cd' (l2_cache p, m) (c4, m'));
      [|exact (sp_data_config _ _ _ _ _ _ _ _ _ _ Hst) | done].
    by apply due_clock.
  - intros Hpo. unfold fetch_due. cbn [icache dcache l2_cache if_fsm with_l2_cache with_dcache with_icache].
    rewrite (wait_bound_same (icache p) ci' (l2_cache p, m) (c4, m'));
      [|exact (sp_code_config _ _ _ _ _ _ _ _ _ _ Hst) | done].
    by apply due_clock.
Qed.
End memory.
