(* ===== verification/Liveness.v ===== *)
(** The pipeline never stops making progress: after finitely many cycles it executes an
    instruction, completes a load, or halts.

    [rank] orders the states of the front end by how far they are from executing an
    instruction.  In a cycle without an event the rank decreases, or it stays and the port
    that the pipeline waits for comes nearer to its answer ([stages_progress],
    [cycle_progress]). *)
From S2P Require Import Prelude Word Format Instruction BranchPredictor Uop Execute Decode Datapath AbstractMem ReplacementPolicy CacheConfig CacheSet LowerMemory GeneralCache CacheAddress Device MemoryDevices CacheView CacheRefinement CacheDevice Hierarchy SharedCache CacheWaits MemoryAccess MemoryPorts SimpleMem Dram Pipe Runner IsaMachine FlatMachine PipeInvariant PipeRefinement PipeRun PipeHalt PipeMemory Discipline NoPanic PipeWaits.
From stdpp Require Import base gmap numbers sets list strings.
From Stdlib Require Import Lia.
#[local] Open Scope Z_scope.
#[local] Coercion Z.of_nat : nat >-> Z.

(** * EXE *)

Section exe.
Context `{Profile} {RP : Type} `{ReplacementPolicy RP} {P : Type} `{BranchPredict P}.
Implicit Types p : PipelineProcessor RP P.
Import Cpu.

(** an instruction of the M extension waits one cycle or more in EXE *)
Definition stalls (e : PreDecodeMicroOp) : bool := bool_decide (is_Some (Execute.m_extension_stall (inst e))).

Lemma count_down_side p : if_fsm (count_down p) = if_fsm p ∧ same_ports p (count_down p) ∧
  exe_op (count_down p) = exe_op p ∧ id_op (count_down p) = id_op p ∧ mem_op (count_down p) = mem_op p ∧
  branch_recover (count_down p) = branch_recover p ∧
  (is_Some (int_mul_div_stall_countdown (count_down p)) ↔ is_Some (int_mul_div_stall_countdown p)).
Proof.
  unfold count_down. destruct (int_mul_div_stall_countdown p) eqn:E; split_and!; try done;
    try (constructor; auto); by rewrite E.
Qed.

(** EXE with MEM occupied, or without a micro-op *)
Lemma exe_waits p p' : pipe_stage_exe p = Ret p' → is_Some (mem_op p) ∨ exe_op p = None → p' = count_down p.
Proof.
  destruct (count_down_side p) as (_ & _ & Ee & _ & Em & _). unfold pipe_stage_exe. rewrite Em, Ee.
  intros E [[op Hm]|He]; [rewrite Hm in E; by injection E | rewrite He in E].
  destruct (mem_op p); by injection E.
Qed.

(** EXE with a micro-op that can move on: it starts to stall, or executes *)
Lemma exe_moves p p' e : pipe_stage_exe p = Ret p' → mem_op p = None → exe_op p = Some e →
  (stalls e = true ∧ int_mul_div_stall_countdown p = None ∧
   exe_op p' = Some e ∧ id_op p' = id_op p ∧ mem_op p' = None ∧ branch_recover p' = branch_recover p ∧
   is_Some (int_mul_div_stall_countdown p')) ∨ exe_done p p'.
Proof.
  intros E Em He. destruct (exe_spec p p' E) as [Hsa [[Hsf Em']|?]]; [left | by right].
  pose proof (sf_exe _ _ Hsf) as Ee'. rewrite He in Ee'. rewrite Em in Em'.
  pose proof (sf_id _ _ Hsf) as Eid'. pose proof (sf_recover _ _ Hsf) as Er'. clear Hsa Hsf.
  assert (Hx : ∀ q, Cpu.execute_op e q = Ret p' → False).
  { intros q Ex. destruct (execute_op_spec e q p' Ex) as (_ & Hn & _). congruence. }
  destruct (count_down_side p) as (_ & _ & Ee & Eid & Ecm & Er & Hc). unfold pipe_stage_exe in E.
  rewrite Ecm, Em, Ee, He in E. unfold stalls.
  assert (Hgo : match Execute.m_extension_stall (inst e), int_mul_div_stall_countdown (count_down p) with
    | Some stall_cycles, None => mret (with_countdown (Some stall_cycles) (count_down p))
    | _, _ => Cpu.execute_op e (count_down p) end = Ret p' →
    bool_decide (is_Some (Execute.m_extension_stall (inst e))) = true ∧ int_mul_div_stall_countdown p = None ∧
    is_Some (int_mul_div_stall_countdown p')).
  { destruct (Execute.m_extension_stall (inst e)) as [k|]; [|by intros ?%Hx].
    destruct (int_mul_div_stall_countdown (count_down p)) eqn:Ec; [by intros ?%Hx|].
    intros [= <-]. split_and!; [apply bool_decide_eq_true_2; by eexists | | by eexists].
    destruct (int_mul_div_stall_countdown p) as [x|]; [|done].
    destruct (proj2 Hc (mk_is_Some (Some x) x eq_refl)) as [? [=]]. }
  destruct (inst e) eqn:Ei; (destruct (Hgo E) as (? & ? & ?); [.. | by split_and!])
    || (injection E as <-; by unfold to_mem in Em').
Qed.

(** a placeholder executes without an event *)
Lemma exe_done_nop p p' e : Inv exact p → branch_recover p = false → pipe_stage_exe p = Ret p' →
  exe_done p p' → exe_op p = Some e → placeholder e = true →
  exe_op p' = None ∧ id_op p' = id_op p ∧ branch_recover p' = false ∧
  ∃ op, mem_op p' = Some op ∧ Op.is_load op = Ret false.
Proof.
  intros Hinv Hrec E Hdone He Hph. destruct (exe_spec p p' E) as [[_ Eid _ _ _ _] _].
  destruct (inv_front _ _ Hinv Hrec) as [_ Hexe].
  destruct (Hexe e He) as [->|((fop & Hf & Hd) & _)].
  2: { destruct (decoded_facts fop _ e Hf Hd) as (?&?&?&?&?&?&?&?&?&?&?&?&?&?& Hne & _). congruence. }
  destruct (exe_done_origin p p' Hdone) as (e0 & op & Ee0 & Em & Ee' & _ & Oinst & _ & _ & Oph).
  rewrite He in Ee0. injection Ee0 as <-. split_and!; [done..| |].
  - destruct Hdone as (e1 & op1 & Ee1 & _ & _ & Em1 & Hcase). rewrite He in Ee1. injection Ee1 as <-.
    destruct Hcase as [(_ & _ & ->)|(_ & Eop & r & Er & Hr)]; [done|].
    destruct (nop_executes op1 r Eop Er) as [_ ->]. by rewrite Hr.
  - exists op. split; [done|]. unfold Op.is_load, Op.memory_access. by rewrite Oinst.
Qed.

(** an instruction executes with one *)
Lemma exe_done_event p p' e : Inv exact p → branch_recover p = false → pipe_stage_exe p = Ret p' →
  exe_done p p' → exe_op p = Some e → placeholder e = false → exec_event (mem_op p') ≠ [].
Proof.
  intros Hinv Hrec E Hdone He Hph. destruct (exe_ok_stage p p' Hinv Hrec E) as (Hinv' & _).
  destruct (exe_done_origin p p' Hdone) as (e0 & op & Ee0 & Em & _ & _ & _ & _ & _ & Oph).
  rewrite He in Ee0. injection Ee0 as <-. destruct (inv_mem _ _ Hinv' op Em) as (acc & Ea & _).
  rewrite Em. cbn. by rewrite Oph, Hph, Ea.
Qed.
End exe.

(** * The front end *)

Section memory.
Context `{Profile} {RP : Type} `{ReplacementLaws RP} {P : Type} `{BranchPredict P}.
Context {M : Type} `{Device M} {L : DeviceLaws (RG := everywhere) M}.
Context (Hclock : ∀ (m : M) h, cycle m h = tick m h).
Context (lo hi top ftop : Z) (V0 : view).
Context (Hlo : 0 ≤ lo) (Hhi : hi ≤ ftop).
#[local] Existing Instance everywhere.
Implicit Types (p q : PipelineProcessor RP P) (m : M) (h : heap) (s : Machine).
Import Cpu.

Abbreviation ports := (PipeMemory.ports lo hi top ftop V0).
Abbreviation synced := (PipeMemory.synced lo hi top ftop V0).
Abbreviation connected := (PipeWaits.connected).

(** where the front end is after ID, IF and the insertion of a bubble *)
Definition front_moved p m (b : bool) p' m' : Prop :=
  match exe_op p with
  | Some e => exe_op p' = Some e ∧ (is_Some (id_op p) → is_Some (id_op p')) ∧
      int_mul_div_stall_countdown p' = int_mul_div_stall_countdown p
  | None =>
      match id_op p with
      | Some _ => (∃ e, exe_op p' = Some e ∧ placeholder e = false) ∨
          b = true ∧ exe_op p' = Some Op.placeholder_nop ∧ is_Some (id_op p')
      | None => exe_op p' = None ∧
          (is_Some (id_op p') ∨ fetch_poised p' ∧ (fetch_due p' m' ≤ fetch_due p m)%nat)
      end
  end.

Lemma fetch_countdown p m h p' m' h' : pipe_stage_fetch p m h = Ret (p', m', h') →
  int_mul_div_stall_countdown p' = int_mul_div_stall_countdown p.
Proof using Type.
  unfold pipe_stage_fetch. intros E. apply bind_inv in E as ([[[b p1] m1] h1] & Er & E).
  assert (Hsend : ∀ r h0, send_fetch p r m h0 = Ret (b, p1, m1, h1) →
    int_mul_div_stall_countdown p1 = int_mul_div_stall_countdown p).
  { intros r h0 Es. unfold send_fetch in Es. apply bind_inv in Es as ([[res [ic [l2 m2]]] h2] & _ & Es).
    destruct res; [|by injection Es as _ <- _ _]. destruct (negb (Req.is_done r _)); [by injection Es as _ <- _ _|].
    by apply bind_inv in Es as (w & _ & [= _ <- _ _]). }
  assert (E1 : int_mul_div_stall_countdown p1 = int_mul_div_stall_countdown p).
  { unfold fetch_request in Er. destruct (if_fsm p) as [|r|r]; [|by eapply Hsend|].
    - destruct (Req.load _ _ _) as [r h0]. by eapply Hsend.
    - destruct (negb (Req.is_done r _)); [by injection Er as _ <- _ _|]. by apply bind_inv in Er as (w & _ & [= _ <- _ _]). }
  rewrite <- E1. destruct b; cbn [negb] in E; [|by injection E as <-].
  destruct (id_op p1); [by injection E as <-|]. apply bind_inv in E as (p2 & Ei & [= <- _ _]).
  unfold issue in Ei. apply bind_inv in Ei as (w & _ & Ei). apply bind_inv in Ei as (i & _ & Ei).
  cbn [if_pc branch_predictor with_hpm with_buffer] in Ei.
  destruct (opcode_or_op w);
    first [ by apply bind_inv in Ei as (next & _ & [= <-])
          | destruct (branch_predict _ _) as [bp bpred]; by apply bind_inv in Ei as (next & _ & [= <-]) ].
Qed.

Lemma decode_moves p b p' : Inv exact p → pipe_stage_decode p b = Ret p' →
  branch_recover p' = branch_recover p ∧
  (p' = p ∧ (exe_op p = None → is_Some (id_op p) → b = true) ∨
   exe_op p = None ∧ is_Some (id_op p) ∧ b = false ∧ id_op p' = None ∧
   ∃ e, exe_op p' = Some e ∧ (branch_recover p = false → placeholder e = false)).
Proof using Type.
  intros Hinv E. unfold pipe_stage_decode in E. destruct (exe_op p) eqn:Ee; [injection E as <-; split; [done|]; left; by split|].
  destruct (id_op p) as [d|] eqn:Ed; [|injection E as <-; split; [done|]; left; split; [done|]; intros _ Hs; by apply is_Some_None in Hs].
  destruct b; [injection E as <-; split; [done|]; left; by split|].
  apply bind_inv in E as ([e|] & Edec & E); [|done]. injection E as <-. split; [done|]. right.
  split_and!; [done | by eexists | done..|]. exists e. split; [done|]. intros Hrec.
  destruct (inv_front _ _ Hinv Hrec) as [Hid _]. destruct (Hid d Ed) as [Hf _].
  destruct (fetched_no_sources d Hf) as (H1' & H2' & Hph).
  destruct (decode_shape d _ e H1' H2' Edec) as [(_ & _ & _ & _ & Eph) _]. congruence.
Qed.

Lemma front_waits p b m h p' m' h' W s : Inv exact p →
  pipe_load_use_hazard_handle p = Ret b → within lo hi 4 (if_pc p) → synced p m h W s → connected p m h →
  (p1 ← pipe_stage_decode p b;
   '(p2, m, h) ← pipe_stage_fetch p1 m h;
   if (b : bool) then
     _ ← assert_ (bool_decide (exe_op p2 = None));
     mret (with_exe_op (Some Op.placeholder_nop) p2, m, h)
   else mret (p2, m, h)) = Ret (p', m', h') →
  branch_recover p' = branch_recover p ∧ connected p' m' h' ∧ data_due p' m' = data_due p m ∧
  (data_poised p → data_poised p') ∧ (branch_recover p = false → front_moved p m b p' m').
Proof using Hlo Hhi.
  intros Hinv Eb Hw Hsy Hcon E. apply bind_inv in E as (p1 & E1 & E).
  destruct (decode_synced lo hi top ftop V0 p b p1 m h W s Hinv Eb E1 Hsy) as [Hsy1 Epc1].
  destruct (decode_moves p b p1 Hinv E1) as [Er1 Hd].
  assert (Hip : idle_ports p p1).
  { split; [by eapply decode_ports|]. by pose proof (f_equal (λ x, x.1.2) (decode_side p b p1 E1)). }
  destruct (idle_ports_due p p1 m h Hip) as (Edd1 & Efd1 & Hdp1 & _ & Hc1).
  apply bind_inv in E as ([[p2 m2] h2] & E2 & E).
  destruct (if_waits lo hi top ftop V0 Hlo Hhi p1 m h p2 m2 h2 W) as (Hc2 & Edd2 & Hdp2 & Hf2);
    [apply Hsy1 | by rewrite Epc1 | by apply Hc1 | done |].
  destruct (fetch_spec p1 m h p2 m2 h2 E2) as [[_ Ee2 _ _ _ Er2 _ _ _] Hid2].
  pose proof (fetch_countdown p1 m h p2 m2 h2 E2) as Ec2.
  assert (Hkeep : is_Some (id_op p1) → is_Some (id_op p2)).
  { intros [d Ed]. rewrite Ed in Hid2. destruct Hid2 as [[-> _]|[[=] _]]. by exists d. }
  assert (Hmoved : ∀ q, exe_op q = (if b then Some Op.placeholder_nop else exe_op p2) → id_op q = id_op p2 →
    int_mul_div_stall_countdown q = int_mul_div_stall_countdown p2 →
    (fetch_poised p2 → fetch_poised q) → fetch_due q m2 = fetch_due p2 m2 →
    (b = true → exe_op p2 = None) → branch_recover p = false → front_moved p m b q m2).
  { intros q Eq Edq Ecq Hpq Hdq Hb Hrec. unfold front_moved.
    destruct Hd as [[-> Hd]|(He & [d Ed] & -> & _ & e & Ee & Hph)].
    - destruct (exe_op p) as [e|] eqn:Ee.
      + destruct b; [specialize (Hb eq_refl); congruence|]. split_and!; [congruence | by rewrite Edq | congruence].
      + destruct (id_op p) as [d|] eqn:Ed.
        * specialize (Hd eq_refl (mk_is_Some _ _ eq_refl)) as ->. right. split_and!; [done..|].
          rewrite Edq. by apply Hkeep.
        * assert (b = false) as ->.
          { unfold pipe_load_use_hazard_handle in Eb. rewrite Ed in Eb. by injection Eb. }
          split; [congruence|]. rewrite Edq, Hdq. destruct Hf2 as [?|[? ?]]; [by left | right; auto].
    - rewrite He, Ed. left. exists e. split; [congruence | auto]. }
  destruct b.
  - apply bind_inv in E as ([] & Hn%assert_inv & [= <- <- <-]). apply bool_decide_eq_true in Hn.
    split_and!; [cbn; congruence | exact Hc2 | exact (eq_trans Edd2 Edd1) | | by apply Hmoved].
    intros Hp%Hdp1. exact (Hdp2 Hp).
  - injection E as <- <- <-. split_and!; try done; [congruence.. | | by apply Hmoved].
    intros Hp%Hdp1. by apply Hdp2.
Qed.

(** ** The rank *)

(** how far the front end is from executing an instruction *)
Definition rank p : nat :=
  if branch_recover p then 6 else
  match exe_op p, id_op p with
  | Some e, d =>
      if placeholder e then (if d is Some _ then 2 else 5)
      else if int_mul_div_stall_countdown p is Some _ then 0 else if stalls e then 1 else 0
  | None, Some _ => 3
  | None, None => 4
  end.

(** what it waits for *)
Definition awaited p m : nat := if (rank p =? 4)%nat then fetch_due p m else data_due p m.

(** Nearer to the next event; [near] is for the stages, whose caches have not ticked yet. *)
Definition nearer p m p' m' : Prop :=
  (rank p' < rank p)%nat ∨ rank p' = rank p ∧ (awaited p' m' < awaited p m)%nat.
Definition near p m p' m' : Prop :=
  (rank p' < rank p)%nat ∨
  rank p' = rank p ∧ (awaited p' m' ≤ awaited p m)%nat ∧
    (if (rank p =? 4)%nat then fetch_poised p' else data_poised p').

(** the front end, when EXE has no instruction or MEM is occupied *)
Lemma front_near p4 p b m4 m p' m' : branch_recover p4 = false → branch_recover p = false →
  branch_recover p' = false → exe_op p4 = exe_op p → id_op p4 = id_op p →
  (is_Some (int_mul_div_stall_countdown p) → is_Some (int_mul_div_stall_countdown p4)) →
  fetch_due p4 m4 = fetch_due p m → front_moved p4 m4 b p' m' →
  exe_op p = None ∨ data_poised p' ∧ (data_due p' m' ≤ data_due p m)%nat → near p m p' m'.
Proof using Type.
  intros Hr4 Hr Hr' Ee Ed Hc Hf Hm Hw. unfold front_moved in Hm. rewrite Ee, Ed in Hm.
  unfold near, awaited, rank. rewrite Hr, Hr'. destruct (exe_op p) as [e|].
  - destruct Hm as (-> & Hid & Ec). destruct Hw as [?|[Hp Hw]]; [done|].
    destruct (placeholder e); [destruct (id_op p) as [d|]; [|destruct (id_op p')]|].
    + destruct (Hid (mk_is_Some _ _ eq_refl)) as [d' ->]. right. by split_and!.
    + left. lia.
    + right. by split_and!.
    + rewrite Ec. destruct (int_mul_div_stall_countdown p) as [x|], (int_mul_div_stall_countdown p4) as [y|].
      * right. by split_and!.
      * destruct (Hc (mk_is_Some _ _ eq_refl)) as [? [=]].
      * destruct (stalls e); [left; lia | right; by split_and!].
      * destruct (stalls e); right; by split_and!.
  - destruct (id_op p) as [d|].
    + left. destruct Hm as [(e & -> & ->)|(_ & -> & [d' ->])]; [|cbn; lia].
      destruct (int_mul_div_stall_countdown p'); [lia|]. destruct (stalls e); lia.
    + destruct Hm as [-> [[d' ->]|[Hp Hfd]]]; [left; lia|].
      destruct (id_op p'); [left; lia|]. right. cbn. split_and!; [done | lia | done].
Qed.

Lemma rank_same p p' : branch_recover p' = branch_recover p → exe_op p' = exe_op p → id_op p' = id_op p →
  int_mul_div_stall_countdown p' = int_mul_div_stall_countdown p → rank p' = rank p.
Proof using Type. unfold rank. by intros -> -> -> ->. Qed.

Lemma rank_forward p : rank (pipe_normal_data_hazard_resolve p) = rank p.
Proof using Type.
  unfold rank. cbn. destruct (exe_op p) as [e|]; [|by destruct (wb_op p), (mem_op p)].
  unfold stalls. by destruct (wb_op p), (mem_op p).
Qed.

(** ** The stages *)

(** a cycle of EXE without an event: it waits, starts a stall, or passes a bubble on *)
Definition quiet p p' : Prop :=
  (is_Some (mem_op p) ∨ exe_op p = None) ∧ exe_op p' = exe_op p ∧ id_op p' = id_op p ∧
    (is_Some (int_mul_div_stall_countdown p) → is_Some (int_mul_div_stall_countdown p')) ∨
  mem_op p = None ∧ (∃ e, exe_op p = Some e ∧ placeholder e = false ∧ stalls e = true ∧
    int_mul_div_stall_countdown p = None ∧ exe_op p' = Some e ∧ is_Some (int_mul_div_stall_countdown p')) ∨
  mem_op p = None ∧ (∃ e, exe_op p = Some e ∧ placeholder e = true ∧ exe_op p' = None ∧ id_op p' = id_op p ∧
    ∃ op, mem_op p' = Some op ∧ Op.is_load op = Ret false).

Lemma exe_quiet p p' : Inv exact p → branch_recover p = false → pipe_stage_exe p = Ret p' →
  (mem_op p = None → exec_event (mem_op p') = []) → branch_recover p' = false ∧ quiet p p'.
Proof using Type.
  intros Hinv Hrec E Hev. unfold quiet.
  destruct (count_down_side p) as (_ & _ & Ee & Eid & _ & Er & Hc).
  assert ((is_Some (mem_op p) ∨ exe_op p = None) ∨ mem_op p = None ∧ is_Some (exe_op p)) as [Hw|[Em [e He]]].
  { destruct (mem_op p); [left; left; by eexists|]. destruct (exe_op p); [right; split; [done | by eexists] | by left; right]. }
  { pose proof (exe_waits p p' E Hw) as ->. split; [congruence|]. left. split_and!; [done..|]. apply Hc. }
  destruct (exe_moves p p' e E Em He) as [(Hst & Ec & Ee' & _ & _ & Er' & Hc')|Hdone].
  - split; [congruence|]. right; left. split; [done|]. exists e. split_and!; try done.
    destruct (inv_front _ _ Hinv Hrec) as [_ Hexe]. destruct (Hexe e He) as [->|((fop & Hf & Hd) & _)]; [done|].
    by destruct (decoded_facts fop _ e Hf Hd) as (?&?&?&?&?&?&?&?&?&?&?&?&?&?& Hne & _).
  - destruct (placeholder e) eqn:Hph.
    + destruct (exe_done_nop p p' e Hinv Hrec E Hdone He Hph) as (? & ? & ? & ?). split; [done|].
      right; right. split; [done|]. by exists e.
    + by destruct (exe_done_event p p' e Hinv Hrec E Hdone He Hph); apply Hev.
Qed.

(** no hazard after a bubble *)
Lemma bubble_no_hazard p b op : pipe_load_use_hazard_handle p = Ret b → mem_op p = Some op →
  Op.is_load op = Ret false → b = false.
Proof using Type.
  unfold pipe_load_use_hazard_handle. intros E Em El. destruct (id_op p), (exe_op p); try by injection E.
  rewrite Em, El in E. by injection E.
Qed.

Lemma quiet_near p2 p3 p4 b m m3 p' m' : branch_recover p2 = false → branch_recover p4 = false →
  branch_recover p' = false → pipe_load_use_hazard_handle p4 = Ret b →
  exe_op p3 = exe_op p2 → id_op p3 = id_op p2 →
  int_mul_div_stall_countdown p3 = int_mul_div_stall_countdown p2 → fetch_due p4 m3 = fetch_due p2 m →
  quiet p3 p4 → front_moved p4 m3 b p' m' →
  (mem_op p3 = None ∨ data_poised p' ∧ (data_due p' m' ≤ data_due p2 m)%nat) → near p2 m p' m'.
Proof using Type.
  intros Hr2 Hr4 Hr' E5 Ee3 Eid3 Ec3 Ef Hq Hm Hd3.
  destruct Hq as [(Hwt & Ee & Eid & Hc)|[(_ & e & He & Hph & Hst & Ecd & Ee & Hcd)|
    (Em & e & He & Hph & Ee & Eid & op & Em4 & Hld)]].
  - apply (front_near p4 p2 b m3); try congruence; [by rewrite <- Ec3|].
    destruct Hwt as [Hm3|He]; [right | left; congruence].
    destruct Hd3 as [Hn|?]; [rewrite Hn in Hm3; by apply is_Some_None in Hm3 | done].
  - left. unfold front_moved in Hm. rewrite Ee in Hm. destruct Hm as (Ee' & _ & Ecd').
    unfold rank. rewrite Hr', Hr2, Ee', Hph, Ecd', <- Ee3, He, Hph, <- Ec3, Ecd, Hst.
    destruct Hcd as [x ->]. lia.
  - left. pose proof (bubble_no_hazard p4 b op E5 Em4 Hld) as ->.
    unfold front_moved in Hm. rewrite Ee, Eid, Eid3 in Hm.
    unfold rank. rewrite Hr', Hr2, <- Ee3, He, Hph. destruct (id_op p2) as [d|].
    + destruct Hm as [(e' & -> & ->)|[? _]]; [|done].
      destruct (int_mul_div_stall_countdown p'); [lia|]. destruct (stalls e'); lia.
    + destruct Hm as [-> _]. destruct (id_op p'); lia.
Qed.

Lemma stages_progress p m h p' m' h' W s k : Inv forwardable p → branch_recover p = false →
  synced p m h W s → connected p m h → within lo hi 4 (if_pc p) → stages p m h = Ret (p', m', h') →
  well_behaved lo hi top (length (observe p p') + k) s = true →
  connected p' m' h' ∧ (observe p p' = [] → branch_recover p' = false ∧ near p m p' m').
Proof using Hlo Hhi.
  intros Hinv Hrec Hsy Hcon Hpc Hs Hwell. unfold stages in Hs.
  destruct (forward_ok p Hinv Hrec) as (Hi1 & Hr1 & _).
  pose proof (forward_synced lo hi top ftop V0 p m h W s Hinv Hrec Hsy) as Hsy1.
  pose proof (rank_forward p) as Ek1.
  assert (Hip1 : idle_ports p (pipe_normal_data_hazard_resolve p)) by (split; [constructor; auto | done]).
  set (p1 := pipe_normal_data_hazard_resolve p) in *.
  apply bind_inv in Hs as (p2 & E2 & Hs).
  destruct (wb_ok p1 p2 Hi1 Hr1 E2) as (Hi2 & Hr2 & Hw2 & _).
  destruct (wb_synced lo hi top ftop V0 p1 p2 m h W s Hi1 Hr1 E2 Hsy1) as [Hsy2 Epc2].
  destruct (wb_spec p1 p2 E2) as ([_ Eid2 Ee2 Er2 _ _] & _ & _ & Em2 & _).
  pose proof (wb_side p1 p2 E2) as Es2.
  assert (Hip2 : idle_ports p1 p2) by (split; [by apply wb_ports | by pose proof (f_equal (λ x, x.1.2) Es2)]).
  assert (Ek2 : rank p2 = rank p1) by (apply rank_same; try done; by pose proof (f_equal snd Es2)).
  destruct (idle_ports_due p p1 m h Hip1) as (Ed1 & Ef1 & _ & _ & Hc1).
  destruct (idle_ports_due p1 p2 m h Hip2) as (Ed2 & Ef2 & _ & _ & Hc2).
  apply bind_inv in Hs as ([[p3 m3] h3] & E3 & Hs).
  destruct (mem_ok p2 m h p3 m3 h3 Hi2 Hr2 Hw2 E3) as (Hi3 & Hr3 & _ & Hcase3 & _).
  destruct (mem_synced lo hi top ftop V0 p2 m h p3 m3 h3 W s Hi2 Hr2 Hw2 E3 Hsy2) as (Epc3 & W' & s1 & Hrun1 & Hsy3).
  destruct (mem_waits lo hi top ftop V0 p2 m h p3 m3 h3 W s Hi2 Hr2 Hw2 Hsy2 (Hc2 (Hc1 Hcon)) E3) as (Hc3 & Ef3 & Hd3).
  destruct (mem_spec p2 m h p3 m3 h3 Hw2 (inv_tx _ _ Hi2) E3) as ([_ Eid3 Ee3 _ _ _] & _ & _).
  pose proof (f_equal snd (mem_side p2 m h p3 m3 h3 E3)) as Ec3. cbn in Ec3.
  apply bind_inv in Hs as (p4 & E4 & Hs).
  destruct (exe_ok_stage p3 p4 Hi3 Hr3 E4) as (Hi4 & Hsa4 & _).
  destruct (exe_synced lo hi top ftop V0 p3 p4 m3 h3 W' s1 Hi3 Hr3 E4 Hsy3) as (Epc4 & ev & Hev & Hrun2).
  apply bind_inv in Hs as (b & E5 & Hs).
  destruct (front_stages p4 p' b m3 h3 m' h' Hi4 E5 Hs) as (_ & _ & Hk').
  assert (Eobs : observe p p' = load_event (wb_op p3) ++ ev).
  { apply (observe_event p p3 p4); [apply Hk' | apply Hk' | apply Hsa4 | | done].
    destruct Hcase3 as [[(? & Em3 & _) _]|(o & acc & lv & _ & _ & _ & Em3 & _ & Ew3)];
      [left; by rewrite Em3, Em2 | right; by rewrite Ew3]. }
  rewrite Eobs, length_app, <- Nat.add_assoc in Hwell.
  pose proof (well_behaved_app _ _ _ _ _ _ _ _ Hwell Hrun1) as Hwell1.
  destruct (Hrun2 (well_behaved_prefix _ _ _ _ _ _ Hwell1)) as (s' & _ & Hsy4).
  assert (Hip4 : idle_ports p3 p4) by (split; [by apply exe_ports | by apply exe_side]).
  destruct (idle_ports_due p3 p4 m3 h3 Hip4) as (Ed4 & Ef4 & Hp4 & _ & Hc4).
  destruct (front_waits p4 b m3 h3 p' m' h' W' s' Hi4 E5) as (Hr' & Hc' & Ed' & Hp' & Hm); try done;
    [by rewrite Epc4, Epc3, Epc2 | by apply Hc4 |].
  split; [done|]. intros Hobs. rewrite Hobs in Eobs. symmetry in Eobs. apply app_eq_nil in Eobs as [_ ->].
  destruct (exe_quiet p3 p4 Hi3 Hr3 E4) as [Hr4 Hq].
  { intros Em. destruct Hev as [[-> _]|[_ <-]]; by rewrite ?Em. }
  split; [congruence|].
  assert (Hnear : near p2 m p' m' → near p m p' m').
  { unfold near, awaited. by rewrite Ek2, Ek1, Ed2, Ed1, Ef2, Ef1. }
  apply Hnear. apply (quiet_near p2 p3 p4 b m m3 p' m'); try done; try congruence; [by apply Hm|].
  destruct Hd3 as [?|[Hd3 Hl3]]; [by left | right]. split; [by apply Hp', Hp4 | by rewrite Ed', Ed4].
Qed.

(** ** The cycle *)

Lemma rank_recovered p : branch_recover p = false → (rank p < 6)%nat.
Proof using Type.
  unfold rank. intros ->. destruct (exe_op p) as [e|]; [|destruct (id_op p); lia].
  destruct (placeholder e); [destruct (id_op p); lia|].
  destruct (int_mul_div_stall_countdown p); [lia|]. destruct (stalls e); lia.
Qed.

Lemma recover_idle p p' : recover p = Ret p' → branch_recover p = false → p' = p.
Proof using Type. unfold recover. intros E Hr. rewrite Hr in E. by injection E. Qed.

Lemma recover_abandons p p' : recover p = Ret p' → branch_recover p = true → if_fsm p' = FetchIdle.
Proof using Type.
  unfold recover. intros E Hr. rewrite Hr in E. apply bind_inv in E as (op & _ & [= <-]). cbn.
  unfold flush. by repeat match goal with |- context [if ?b then _ else _] => destruct b end.
Qed.

Lemma clock_near p m h p1 m1 h1 m' h' W s q n : tick_caches p m h = Ret (p1, m1, h1) →
  AbstractMem.tick m1 h1 = Ret (m', h') → synced p m h W s → connected p m h →
  connected p1 m' h' ∧ (near q n p m → nearer q n p1 m').
Proof using Hclock.
  intros Ht Hm Hsy Hcon.
  destruct (clock_waits Hclock lo hi top ftop V0 p m h p1 m1 h1 m' h' W s Ht Hm Hsy Hcon) as (Hc' & Hd & Hf).
  assert (Ek : rank p1 = rank p).
  { unfold tick_caches in Ht. apply bind_inv in Ht as ([[ic [a1 b1]] j1] & _ & Ht).
    apply bind_inv in Ht as ([[dc [a2 b2]] j2] & _ & Ht). apply bind_inv in Ht as ([[c4 n4] k4] & _ & [= <- <- <-]).
    by apply rank_same. }
  split; [done|]. unfold near, nearer, awaited. rewrite Ek. intros [?|(Er & Hl & Hp)]; [by left | right].
  split; [done|]. rewrite Er in *. destruct (rank q =? 4)%nat; [specialize (Hf Hp) | specialize (Hd Hp)]; lia.
Qed.

Lemma cycle_progress p m h p' m' h' W s k : Inv forwardable p → synced p m h W s → connected p m h →
  within lo hi 4 (fetch_pc p) → Runner.cycle p m h = Ret (p', m', h') →
  well_behaved lo hi top (length (observe p p') + k) s = true →
  connected p' m' h' ∧ (observe p p' = [] → nearer p m p' m').
Proof using All.
  intros Hinv Hsy Hcon Hpc Hc Hwell. unfold Runner.cycle in Hc.
  apply bind_inv in Hc as ([[p4 m4] h4] & Ht & Hc). apply bind_inv in Hc as ([m5 h5] & Hm & [= <- <- <-]).
  unfold Cpu.tick in Ht. set (p0 := with_hpm _ p) in Ht.
  assert (Hi0 : Inv forwardable p0) by (constructor; try apply Hinv; intros Hr;
    destruct (inv_front _ _ Hinv Hr); by constructor).
  assert (Hsy0 : synced p0 m h W s).
  { apply (synced_same lo hi top ftop V0 p); try done;
      [constructor; auto | by apply (sy_raw _ _ _ _ _ _ _ _ _ _ Hsy)]. }
  apply bind_inv in Ht as (p1 & E1 & Ht). destruct (recover_ok p0 p1 Hi0 E1) as (Hi1 & Hr1 & _).
  destruct (recover_synced lo hi top ftop V0 p0 p1 m h W s Hi0 E1 Hsy0) as [Hsy1 Epc1].
  change (fetch_pc p0) with (fetch_pc p) in Epc1. rewrite <- Epc1 in Hpc.
  pose proof (recover_kept p0 p1 Hi0 E1) as Hk1.
  apply bind_inv in Ht as ([[p2 m2] h2] & E2 & Ht).
  destruct (tick_caches_same _ _ _ _ _ _ Ht) as (Hsb & _ & _). pose proof (back_kept _ _ Hsb) as Hk2.
  assert (Eobs : observe p p4 = observe p1 p2).
  { unfold observe. rewrite (kp_wb _ _ Hk2), (kp_mem _ _ Hk2), (kp_mem _ _ Hk1). done. }
  rewrite Eobs in *.
  assert (Hr01 : connected p1 m h ∧ ∀ q n, nearer p1 m q n → nearer p m q n).
  { destruct (branch_recover p) eqn:Hr.
    - split; [intros r; by rewrite (recover_abandons p0 p1 E1 Hr)|]. intros q n Hn. left.
      pose proof (rank_recovered p1 Hr1). assert (rank p = 6%nat) as -> by (unfold rank; by rewrite Hr).
      destruct Hn as [?|[? _]]; lia.
    - pose proof (recover_idle p0 p1 E1 Hr) as ->. by split. }
  destruct Hr01 as [Hcon1 Hn1]. pose proof Hpc as (? & ? & _).
  destruct (stages_synced lo hi top ftop V0 p1 m h p2 m2 h2 W s k Hi1 Hr1) as (W' & s' & _ & Hsy2); try done; [lia..|].
  destruct (stages_progress p1 m h p2 m2 h2 W s k Hi1 Hr1 Hsy1 Hcon1 Hpc E2 Hwell) as [Hcon2 Hn2].
  destruct (clock_near p2 m2 h2 p4 m4 h4 m5 h5 W' s' p1 m Ht Hm Hsy2 Hcon2) as [Hcon4 Hn4].
  split; [done|]. intros Ho. apply Hn1, Hn4. by apply Hn2.
Qed.
End memory.
