(* ===== verification/WholeSystem.v ===== *)
(** The whole simulated system: processor, caches and main memory built from a configuration.
    Its simulations report what the flat machine of the program computes, on every
    configuration that fits; and the limits of that: a wrong path can make the simulator panic. *)
From S2P Require Import Prelude Word Format Instruction BranchPredictor Uop Execute Decode Datapath AbstractMem ReplacementPolicy CacheConfig CacheSet LowerMemory GeneralCache CacheAddress Device MemoryDevices CacheView CacheRefinement CacheDevice Hierarchy SharedCache MemoryAccess MemoryPorts SimpleMem Dram Pipe Runner IsaMachine FlatMachine PipeInvariant PipeRefinement PipeRun PipeHalt PipeMemory.
From stdpp Require Import base gmap numbers sets list strings.
From Stdlib Require Import Lia.
#[local] Open Scope Z_scope.
#[local] Coercion Z.of_nat : nat >-> Z.

(** * A whole system *)

Section system.
Context `{Profile} {RP : Type} `{ReplacementLaws RP} {P : Type} `{BranchPredict P}.
Context {M : Type} `{Device M} {L : DeviceLaws (RG := everywhere) M}.
#[local] Existing Instance everywhere.

(** cache configurations and a main memory that fit together: words fit in the blocks of the
  L1 caches, these in the blocks of the L2, and these in requests of the memory *)
Record fits (i d l : GeneralCacheConfig) (m : M) (h : heap) : Prop := {
  ft_icache : configured RP i;
  ft_dcache : configured RP d;
  ft_l2 : configured RP l;
  ft_words : 4 ≤ CacheConfig.block_size (geometry i) ∧ 4 ≤ CacheConfig.block_size (geometry d);
  ft_blocks : CacheConfig.block_size (geometry i) ≤ CacheConfig.block_size (geometry l) ∧
              CacheConfig.block_size (geometry d) ≤ CacheConfig.block_size (geometry l);
  ft_grain : CacheConfig.block_size (geometry l) ≤ d_grain m;
  ft_span : 0 ≤ d_span m ≤ 2 ^ 32;
  ft_inv : d_inv m h;
  ft_free : d_cur m = None;
}.

(** the addresses that fetches and data accesses may touch *)
Definition fetch_top (i l : GeneralCacheConfig) (m : M) : Z := reach i (reach l (d_span m)).
Definition data_top (d l : GeneralCacheConfig) (m : M) : Z := reach d (reach l (d_span m)).

Lemma idle_read_only (c : GeneralCache RP) : fsm c = GeneralCache.Idle →
  (∀ x s w, set c !! x = Some s → ¬ is_dirty s w) → read_only c.
Proof.
  intros Hf Hc. constructor.
  - intros x s Hs w. by eapply Hc.
  - unfold current. by rewrite Hf.
  - unfold trans. by rewrite Hf.
Qed.

Lemma fresh_synced lo hi entry_pc i d l (predictor : P) p0 (m : M) h : fits i d l m h →
  Cpu.new_with_predictor entry_pc i d l predictor = Ret p0 →
  synced lo hi (data_top d l m) (fetch_top i l m) (d_view m) p0 m h (d_view m) (boot entry_pc (d_view m)).
Proof.
  intros [Ci Cd Cl [Wi Wd] [Bi Bd] Hg Hsp Hinv Hcur] Hn.
  destruct (fresh_cache l m h Cl) as (l2 & El & Hi2 & _ & Hv2 & Hs2 & _ & Hg2); [split; [done | lia] | done..|].
  assert (Hle : d_span (l2, m) ≤ 2 ^ 32) by (rewrite Hs2; pose proof (reach_le l (d_span m) Cl); lia).
  assert (Hgi : CacheConfig.block_size (geometry i) ≤ d_grain (l2, m)) by lia.
  destruct (fresh_inv (H3 := restrict (code lo hi)) i (l2, m) h Ci) as (ci & Ei & Hinvi & Hei).
  { split; [exact Hgi | exact Hle]. }
  { done. }
  destruct (fresh_inv d (l2, m) h Cd) as (cd & Ed & Hinvd & Hed); [split; lia | done |].
  unfold Cpu.new_with_predictor in Hn. rewrite El, bind_Ret, Ei, bind_Ret, Ed, bind_Ret in Hn.
  injection Hn as <-.
  pose proof (em_fsm _ _ _ Hei) as Fi. pose proof (em_fsm _ _ _ Hed) as Fd.
  assert (Hcl : client_req cd = None) by (unfold client_req, current; by rewrite Fd, (em_prefetch _ _ _ Hed)).
  pose proof (em_block _ _ _ Hei) as Ebi. pose proof (em_block _ _ _ Hed) as Ebd.
  constructor; [|constructor; try done|by intros _].
  constructor; cbn [icache dcache l2_cache mem_transaction fetch_req if_fsm]; try done.
  - constructor; try done.
    + exact (idle_read_only ci Fi (em_clean _ _ _ Hei)).
    + intros id Ho. by destruct (own_idle ci id Fi).
    + intros a. rewrite (em_view _ _ _ Hed). by apply Hv2.
    + intros a _. exact (eq_trans (em_view _ _ _ Hei a) (Hv2 a I)).
    + intros a _. by apply Hv2.
    + intros r. by rewrite Hcl.
  - constructor; [|rewrite (em_span _ _ _ Hed); unfold data_top; rewrite Hs2; done | lia | lia].
    unfold fetch_top. rewrite <- Hs2. exact (Z.eq_le_incl _ _ (eq_sym (em_span _ _ _ Hei))).
Qed.

Lemma fresh_runs entry_pc i d l (predictor : P) (m : M) h : fits i d l m h →
  ∃ p0, Cpu.new_with_predictor (RP := RP) entry_pc i d l predictor = Ret p0.
Proof.
  intros [Ci Cd Cl [Wi Wd] [Bi Bd] Hg Hsp Hinv Hcur].
  destruct (fresh_cache l m h Cl) as (l2 & El & Hi2 & _ & Hv2 & Hs2 & _ & Hg2); [split; [done | lia] | done..|].
  assert (Hle : d_span (l2, m) ≤ 2 ^ 32) by (rewrite Hs2; pose proof (reach_le l (d_span m) Cl); lia).
  destruct (fresh_inv i (l2, m) h Ci) as (ci & Ei & _); [split; lia | done |].
  destruct (fresh_inv d (l2, m) h Cd) as (cd & Ed & _); [split; lia | done |].
  unfold Cpu.new_with_predictor. rewrite El, bind_Ret, Ei, bind_Ret, Ed, bind_Ret. by eexists.
Qed.

Lemma settled_view_ext (v w : view) t acc a : (∀ x, v x = w x) → settled_view v t acc a = settled_view w t acc a.
Proof.
  intros E. assert (Hw : ∀ b bs, view_write v b bs a = view_write w b bs a)
    by (intros b bs; unfold view_write; case_decide; [done | apply E]).
  destruct t as [|r b|r b|x]; cbn; [|destruct r; cbn; [apply E | apply Hw] | apply E..].
  destruct acc as [[ad wd e|ad wd x]|]; cbn; [apply E | apply Hw | apply E].
Qed.

Context (Hclock : ∀ (m : M) h, cycle m h = AbstractMem.tick m h).

Lemma run_flat lo hi entry_pc i d l (predictor : P) p0 n (m : M) h tr p' m' h' : fits i d l m h →
  Cpu.new_with_predictor entry_pc i d l predictor = Ret p0 →
  run_cycles n p0 m h = Ret (tr, (p', m', h')) →
  fetches_in (fetch_top i l m) n p0 m h = true →
  well_behaved lo hi (data_top d l m) (length tr) (boot entry_pc (d_view m)) = true →
  ∃ W s, flat_run (length tr) (boot entry_pc (d_view m)) = Ret (tr, s) ∧
    synced lo hi (data_top d l m) (fetch_top i l m) (d_view m) p' m' h' W s.
Proof using Hclock.
  intros Hfit Hn Hr Hf Hw. destruct (fresh_ok _ _ _ _ _ _ Hn) as (Hi & Hmk & _).
  eapply run_synced; [exact Hclock | exact Hi | exact Hmk | by eapply fresh_synced | done..].
Qed.

(** C2: The whole processor is the flat RV32IM machine: from a fresh processor over any
  configuration of its caches that fits together ([fits]: all but write-back without
  write-allocate, with L1 blocks no larger than the L2's), any replacement policy, branch predictor and lawful main memory, the trace of any number of cycles - the
  instructions executed, with their words and accesses, and the values loaded - is exactly
  the trace of the sequential machine over the initial memory, the registers in the latches
  are its registers, and the caches and the memory together hold its memory, once the
  access still in MEM is made.  The program must leave its own code alone and keep its
  accesses in the memory, and no fetch, wrong paths included, may leave the memory. *)
Theorem pipeline_is_flat_machine lo hi entry_pc i d l (predictor : P) p0 n (m : M) h tr p' m' h' :
  fits i d l m h →
  Cpu.new_with_predictor entry_pc i d l predictor = Ret p0 →
  run_cycles n p0 m h = Ret (tr, (p', m', h')) →
  fetches_in (fetch_top i l m) n p0 m h = true →
  well_behaved lo hi (data_top d l m) (length tr) (boot entry_pc (d_view m)) = true →
  ∃ s, flat_run (length tr) (boot entry_pc (d_view m)) = Ret (tr, s) ∧ core s = abs p' ∧
    ∀ a, memory s a = settled_view (contents (dcache p') (l2_cache p', m'))
                        (mem_transaction p') (mem_access p') a.
Proof using Hclock.
  intros Hfit Hn Hr Hf Hw.
  destruct (run_flat lo hi entry_pc i d l predictor p0 n m h tr p' m' h') as (W & s & Hrun & Hsy); [done..|].
  destruct Hsy as [[Hs _ _ _ _ _] [Hc Hm _ _ _] _]. exists s. split_and!; [done..|]. intros a.
  rewrite Hm. apply settled_view_ext. intros x. symmetry. apply (sh_contents _ _ _ _ _ _ Hs).
Qed.

(** the hypotheses on a program, as a check of one run of it *)
Definition tame lo hi entry_pc i d l (predictor : P) (m : M) (fuel : nat) : bool :=
  match Cpu.new_with_predictor (RP := RP) entry_pc i d l predictor with
  | Ret p0 =>
      match run_cycles fuel p0 m Heap.empty with
      | Ret (tr, _) =>
          fetches_in (fetch_top i l m) fuel p0 m Heap.empty &&
          well_behaved lo hi (data_top d l m) (length tr) (boot entry_pc (d_view m))
      | Panic _ => true
      end
  | Panic _ => true
  end.

(** a simulation of such a program that ended with the report [r] *)
Inductive simulation lo hi entry_pc (m : M) (r : SimulationReport) : Prop :=
  | Simulation (predictor : P) config memory_report fuel i d l :
      Runner.run_with_memory (RP := RP) predictor entry_pc m config memory_report fuel = Ret (Some (Ok r)) →
      Sim.cache_configs config = Ok (i, d, l) → fits i d l m Heap.empty →
      tame lo hi entry_pc i d l predictor m fuel = true → simulation lo hi entry_pc m r.

(** where a run has halted, the machine has halted with the same registers *)
Lemma halted_final entry_pc (v : view) (p' : PipelineProcessor RP P) tr s' : halt p' = true →
  flat_run (length tr) (boot entry_pc v) = Ret (tr, s') → halted (initial entry_pc) tr p' →
  first_halt (initial entry_pc) tr p' → ∃ n, flat_final n (boot entry_pc v) = Ret (Some (id_regs p')).
Proof using Type.
  intros Hh' Hrun Hha [[? _]|[_ (pre & e & post & c & -> & Hst & Er & He & Hc)]]; [congruence|].
  destruct (Hha Hh') as [_ Ha0]. destruct (flat_run_split _ _ _ _ _ Hrun) as (s1 & s2 & Hpre & Hstep).
  pose proof (flat_run_agrees _ _ _ (boot entry_pc v) _ Hst eq_refl Hpre) as Ec.
  exists (length pre). replace (id_regs p') with (regs (core s1)) by (rewrite Ec; exact Er).
  apply (flat_final_calm (initial entry_pc) []); [constructor | by rewrite Ec | done | done |].
  destruct e as [q raw acc|]; [|done]. destruct He as [x Hx].
  destruct (flat_step_word _ _ _ _ _ Hstep) as (Ho & Eq & Eraw). unfold at_halt.
  rewrite Ho, Eq, <- Eraw, Hx, Ec, Er. by rewrite Ha0.
Qed.

Lemma simulation_final lo hi entry_pc (m : M) r : simulation lo hi entry_pc m r →
  ∃ n, flat_final n (boot entry_pc (d_view m)) = Ret (Some (final_registers r)).
Proof using Hclock.
  intros [predictor config memory_report fuel i d l Hr Hcfg Hfit Ht].
  unfold Runner.run_with_memory in Hr. rewrite Hcfg in Hr.
  apply bind_inv in Hr as (p0 & Hn & Hr). apply bind_inv in Hr as ([[[p' m'] h']|] & Hl & Hr); [|done].
  injection Hr as <-. destruct (run_loop_cycles _ _ _ _ _ _ _ Hl) as (Hh' & tr & Htr).
  unfold tame in Ht. rewrite Hn, Htr in Ht. apply andb_true_iff in Ht as [Hf Hw].
  destruct (run_flat lo hi entry_pc i d l predictor p0 fuel m Heap.empty tr p' m' h') as (W & s' & Hrun & _); [done..|].
  destruct (fresh_ok _ _ _ _ _ _ Hn) as (Hi & Hmk & Hh).
  assert (Hha : halted (initial entry_pc) [] p0) by (intros ?; congruence).
  destruct (run_marked _ _ [] p0 m Heap.empty tr p' m' h' Hi Hmk Hha Htr) as (_ & _ & _ & Hha').
  apply (halted_final entry_pc (d_view m) p' tr s' Hh' Hrun Hha').
  exact (run_first _ _ [] p0 m Heap.empty tr p' m' h' Hi Hmk (fresh_first _ _ _ _ _ _ Hn) Htr).
Qed.

(** C4: The reported registers are the program's.  For a simulation whose caches fit together
  ([fits]: no level is write-back without write-allocate, offsets and indices take 1 to 31
  bits, L1 blocks have at least 4 bytes and are no larger than the L2's, and these no larger
  than a request of the memory), with any branch predictor and any lawful replacement policy
  and main memory, of a program that is tame in that run ([tame]: it leaves its code alone,
  its accesses and all fetches stay in the reach of the caches): when it ends, the sequential
  machine over the initial memory reaches an ECALL with a0 = 0, and the report's
  [final_registers] are its registers at the first such ECALL. *)
Theorem report_is_flat_machine lo hi entry_pc (m : M) r : simulation lo hi entry_pc m r →
  ∃ n, flat_final n (boot entry_pc (d_view m)) = Ret (Some (final_registers r)).
Proof using Hclock. apply simulation_final. Qed.
End system.

#[local] Existing Instance everywhere.

(** C5: Among configurations that fit together, the choice never changes the result: two
  simulations of the same program over memories with the same contents, each with caches that
  fit ([fits]; in particular none is write-back without write-allocate) and each a run in
  which the program is tame ([tame]), report the same registers, however their geometries,
  write policies, prefetchers, replacement policies, branch predictors and memories - and
  their cycle counts - differ. *)
Theorem reports_agree `{Profile}
    {R1} `{ReplacementLaws R1} {P1} `{BranchPredict P1} {M1} `{Device M1} `{!DeviceLaws (RG := everywhere) M1}
    {R2} `{ReplacementLaws R2} {P2} `{BranchPredict P2} {M2} `{Device M2} `{!DeviceLaws (RG := everywhere) M2}
    lo1 hi1 lo2 hi2 entry_pc (m1 : M1) (m2 : M2) r1 r2 :
  (∀ (m : M1) h, cycle m h = AbstractMem.tick m h) → (∀ (m : M2) h, cycle m h = AbstractMem.tick m h) →
  simulation (RP := R1) (P := P1) lo1 hi1 entry_pc m1 r1 →
  simulation (RP := R2) (P := P2) lo2 hi2 entry_pc m2 r2 →
  (∀ a, d_view m1 a = d_view m2 a) → final_registers r1 = final_registers r2.
Proof.
  intros Hc1 Hc2 Hs1 Hs2 Hv. destruct (simulation_final Hc1 _ _ _ _ _ Hs1) as [n Hn].
  destruct (simulation_final Hc2 _ _ _ _ _ Hs2) as [k Hk].
  apply (flat_final_unique n k (boot entry_pc (d_view m2))); [|done].
  by apply (flat_final_alike n (boot entry_pc (d_view m1))).
Qed.

(** * Fuel *)

Section fuel.
Context `{Profile} {RP : Type} `{ReplacementPolicy RP} {P : Type} `{BranchPredict P}.
Context {M : Type} `{AbstractMemoryInterface M}.

Lemma run_loop_more n k (p : PipelineProcessor RP P) (m : M) h :
  Runner.run_loop n p m h ≠ Ret None → Runner.run_loop (n + k) p m h = Runner.run_loop n p m h.
Proof.
  revert p m h. induction n as [|n IH]; intros p m h Hn; cbn in Hn |- *.
  - destruct (halt p) eqn:Hh; [|done]. destruct k; cbn; by rewrite Hh.
  - destruct (halt p); [done|]. destruct (Runner.cycle p m h) as [[[p1 m1] h1]|]; [|done].
    rewrite !bind_Ret in *. by apply IH.
Qed.

(** a simulation that has ended, in a report or a panic, is not changed by more fuel *)
Lemma run_more (predictor : P) entry_pc (m : M) config memory_report n k :
  Runner.run_with_memory (RP := RP) predictor entry_pc m config memory_report n ≠ Ret None →
  Runner.run_with_memory (RP := RP) predictor entry_pc m config memory_report (n + k) =
    Runner.run_with_memory (RP := RP) predictor entry_pc m config memory_report n.
Proof.
  unfold Runner.run_with_memory. destruct (Sim.cache_configs config) as [[[i d] l]|e]; [|done].
  destruct (Cpu.new_with_predictor entry_pc i d l predictor) as [p0|]; [|done].
  rewrite !bind_Ret. intros Hn. rewrite run_loop_more; [done|].
  intros E. by rewrite E in Hn.
Qed.
End fuel.

(** * Programs *)

#[local] Existing Instance Bimodal.predictor.
#[local] Existing Instance dev_profile.

Lemma simple_mem_clock (m : SimpleMem) h : cycle m h = AbstractMem.tick m h.
Proof. reflexivity. Qed.

Lemma dram_clock (m : SimpleDram) h : cycle m h = AbstractMem.tick m h.
Proof. reflexivity. Qed.

(** the caches of a configuration *)
Definition caches (config : SimulationConfig) : GeneralCacheConfig * GeneralCacheConfig * GeneralCacheConfig :=
  match Sim.cache_configs config with
  | Ok c => c
  | Err _ => (l1d_config, l1d_config, l1d_config)
  end.
Definition icache_of config := (caches config).1.1.
Definition dcache_of config := (caches config).1.2.
Definition l2_of config := (caches config).2.

(** a configuration is that of three caches, when a computation says so *)
Lemma configured_check RP `{ReplacementLaws RP} total bs ways cfg : 0 ≤ total ∧ 0 ≤ bs ∧ 0 ≤ ways →
  Geometry.new total bs ways = Ok (geometry cfg) →
  (1 <=? CacheConfig.offset_bit_width (geometry cfg) + CacheConfig.index_bit_width (geometry cfg)) &&
  (CacheConfig.offset_bit_width (geometry cfg) + CacheConfig.index_bit_width (geometry cfg) <=? 31) = true →
  rp_ways (Z.to_nat (num_of_way (geometry cfg))) →
  CacheConfig.write_policy cfg ≠ WriteBackNoWriteAllocate → configured RP cfg.
Proof.
  intros (?&?&?) ? Hw ??. apply andb_true_iff in Hw as [?%Z.leb_le ?%Z.leb_le].
  constructor; try done. by exists total, bs, ways.
Qed.

(** ** One program, two systems *)

Abbreviation sum_i := (icache_of Sim.default).
Abbreviation sum_d := (dcache_of Sim.default).
Abbreviation sum_l := (l2_of Sim.default).

Lemma sum_configs : Sim.cache_configs Sim.default = Ok (sum_i, sum_d, sum_l).
Proof. vm_compute. reflexivity. Qed.

Lemma sum_fits : fits (RP := Fifo.FifoRP) sum_i sum_d sum_l sum_memory Heap.empty.
Proof.
  constructor.
  - by apply (configured_check _ 2048 32 4); try (vm_compute; (reflexivity || lia)).
  - by apply (configured_check _ 256 32 2); try (vm_compute; (reflexivity || lia)).
  - by apply (configured_check _ 16384 64 4); try (vm_compute; (reflexivity || lia)).
  - split; vm_compute; discriminate.
  - split; vm_compute; discriminate.
  - vm_compute. discriminate.
  - split; vm_compute; discriminate.
  - split; [vm_compute; lia | exact I].
  - reflexivity.
Qed.

(** its code and the padding are below 192, where its data are *)
Lemma sum_tame :
  tame (RP := Fifo.FifoRP) 0 192 0 sum_i sum_d sum_l Bimodal.new sum_memory 200 = true.
Proof. vm_compute. reflexivity. Qed.

(** smaller caches with a prefetcher, another policy for replacement and for writes, no
  branch prediction, and the DRAM controller *)
Definition other_config : SimulationConfig := {|
  l1i := Level.new 256 16 2 1; l1d := Level.new 64 16 2 1; l2 := Level.new 512 32 4 5;
  replacement_policy := ReplacementPolicyKind.Plru;
  sim_write_policy := WriteThroughNoWriteAllocate; sim_prefetcher_kind := NextLine;
  backing_memory := BackingMemoryKind.SimpleDram Timing.educational_default;
  sim_branch_predictor := BranchPredictorKind.Dummy |}.
Abbreviation other_i := (icache_of other_config).
Abbreviation other_d := (dcache_of other_config).
Abbreviation other_l := (l2_of other_config).

Definition sum_dram : SimpleDram := {|
  Dram.data := SimpleMem.data sum_memory; timing := Timing.educational_default;
  row_size_bytes := DEFAULT_ROW_SIZE_BYTES; bank := Bank.new; Dram.pending_req := None;
  pending_req_required_activate := false; row_buffer_hit_cnt := 0; row_buffer_miss_cnt := 0 |}.

#[local] Existing Instance Dummy.predictor.

Abbreviation other_run :=
  (Runner.run_with_memory (RP := PseudoLru.PseudoLruRP) Dummy.new 0 sum_dram other_config
    (λ _, SimpleMemReport) 1000).

Lemma other_reported : (take 11 <$> reported other_run) = Some [0; 0; 0; 0; 0; 0; 15; 15; 225; 0; 0].
Proof. vm_compute. reflexivity. Qed.

Lemma other_configs : Sim.cache_configs other_config = Ok (other_i, other_d, other_l).
Proof. vm_compute. reflexivity. Qed.

Lemma other_tame :
  tame (RP := PseudoLru.PseudoLruRP) 0 192 0 other_i other_d other_l Dummy.new sum_dram 1000 = true.
Proof. vm_compute. reflexivity. Qed.

Lemma sum_simulation : ∃ r,
  simulation (RP := Fifo.FifoRP) (P := Bimodal.Predictor) 0 192 0 sum_memory r ∧
  take 11 (final_registers r) = [0; 0; 0; 0; 0; 0; 15; 15; 225; 0; 0].
Proof.
  destruct sum_run_report as (r & E & Hr). exists r. split; [|done].
  eapply Simulation; [exact E | exact sum_configs | exact sum_fits | exact sum_tame].
Qed.

Lemma other_fits : fits (RP := PseudoLru.PseudoLruRP) other_i other_d other_l sum_dram Heap.empty.
Proof.
  constructor.
  - by apply (configured_check _ 256 16 2); try (vm_compute; (reflexivity || lia)).
  - by apply (configured_check _ 64 16 2); try (vm_compute; (reflexivity || lia)).
  - by apply (configured_check _ 512 32 4); try (vm_compute; (reflexivity || lia)).
  - split; vm_compute; discriminate.
  - split; vm_compute; discriminate.
  - vm_compute. discriminate.
  - split; vm_compute; discriminate.
  - split; [|exact I]. constructor; [| |done]; repeat split; vm_compute; (discriminate || reflexivity).
  - reflexivity.
Qed.

Lemma other_simulation : ∃ r,
  simulation (RP := PseudoLru.PseudoLruRP) (P := Dummy.Predictor) 0 192 0 sum_dram r.
Proof.
  pose proof other_reported as Hr. destruct other_run as [[[r|]|]|] eqn:E; try discriminate Hr.
  exists r. eapply Simulation; [exact E | exact other_configs | exact other_fits | exact other_tame].
Qed.

Lemma reports_agree_witness : ∃ r1 r2,
  simulation (RP := Fifo.FifoRP) (P := Bimodal.Predictor) 0 192 0 sum_memory r1 ∧
  simulation (RP := PseudoLru.PseudoLruRP) (P := Dummy.Predictor) 0 192 0 sum_dram r2 ∧
  final_registers r1 = final_registers r2.
Proof.
  destruct sum_simulation as (r1 & Hs1 & _). destruct other_simulation as (r2 & Hs2).
  exists r1, r2. split; [exact Hs1|]. split; [exact Hs2|].
  apply (reports_agree 0 192 0 192 0 sum_memory sum_dram r1 r2 simple_mem_clock dram_clock Hs1 Hs2).
  intros a. reflexivity.
Defined.

Lemma report_is_flat_machine_witness : ∃ n rs,
  flat_final n (boot 0 (d_view sum_memory)) = Ret (Some rs) ∧
  take 11 rs = [0; 0; 0; 0; 0; 0; 15; 15; 225; 0; 0].
Proof.
  destruct sum_simulation as (r & Hs & Hr).
  destruct (report_is_flat_machine simple_mem_clock 0 192 0 sum_memory r Hs) as [n Hn].
  exists n, (final_registers r). split; [exact Hn | exact Hr].
Defined.

(** 100 cycles of it *)
Definition sum_checked (k n : nat) : bool :=
  match Cpu.new_with_predictor (RP := Fifo.FifoRP) 0 sum_i sum_d sum_l Bimodal.new with
  | Ret p0 =>
      match run_cycles n p0 sum_memory Heap.empty with
      | Ret (tr, _) =>
          (k <? length tr)%nat && fetches_in (fetch_top sum_i sum_l sum_memory) n p0 sum_memory Heap.empty &&
          well_behaved 0 192 (data_top sum_d sum_l sum_memory) (length tr) (boot 0 (d_view sum_memory))
      | Panic _ => false
      end
  | Panic _ => false
  end.

Lemma sum_checked_100 : sum_checked 20 100 = true.
Proof. vm_compute. reflexivity. Qed.

Lemma sum_checked_run k n : sum_checked k n = true →
  ∃ (p0 p' : PipelineProcessor Fifo.FifoRP Bimodal.Predictor) m' h' tr,
    Cpu.new_with_predictor 0 sum_i sum_d sum_l Bimodal.new = Ret p0 ∧
    run_cycles n p0 sum_memory Heap.empty = Ret (tr, (p', m', h')) ∧ (k < length tr)%nat ∧
    fetches_in (fetch_top sum_i sum_l sum_memory) n p0 sum_memory Heap.empty = true ∧
    well_behaved 0 192 (data_top sum_d sum_l sum_memory) (length tr) (boot 0 (d_view sum_memory)) = true.
Proof.
  unfold sum_checked. intros Hc.
  destruct (Cpu.new_with_predictor 0 sum_i sum_d sum_l Bimodal.new) as [p0|] eqn:En; [|done].
  destruct (run_cycles n p0 sum_memory Heap.empty) as [[tr [[p' m'] h']]|] eqn:Er; [|done].
  apply andb_true_iff in Hc as [Hc Hw]. apply andb_true_iff in Hc as [Hk%Nat.ltb_lt Hf].
  exists p0, p', m', h', tr. by split_and!.
Qed.

Lemma pipeline_is_flat_machine_witness :
  ∃ (p' : PipelineProcessor Fifo.FifoRP Bimodal.Predictor) tr s, (20 < length tr)%nat ∧
    flat_run (length tr) (boot 0 (d_view sum_memory)) = Ret (tr, s) ∧ core s = abs p'.
Proof.
  destruct (sum_checked_run 20 100 sum_checked_100) as (p0 & p' & m' & h' & tr & En & Er & Hl & Hf & Hw).
  destruct (pipeline_is_flat_machine simple_mem_clock 0 192 0 sum_i sum_d sum_l Bimodal.new p0 100
    sum_memory Heap.empty tr p' m' h' sum_fits En Er Hf Hw) as (s & Hrun & Hc & _).
  exists p', tr, s. split; [exact Hl|]. split; [exact Hrun | exact Hc].
Defined.

(** ** The limits: wrong paths *)

(** a jump over a word that is no instruction *)
Definition jump_program : list Z := flat_map (to_le_bytes 4)
  [Asm.assemble (Asm.Jal 0 8); 0; Asm.assemble (Asm.ArithImm Asm.ADDI 10 0 0); Asm.assemble Asm.Ecall].
Definition jump_memory : SimpleMem :=
  SimpleMemory.new (jump_program ++ flat_map (λ _, to_le_bytes 4 19) (seq 0 60)).

Abbreviation jump_run :=
  (Runner.run_with_memory (RP := Fifo.FifoRP) Bimodal.new 0 jump_memory Sim.default (λ _, SimpleMemReport)).

Definition panics {A} (x : exec A) : option panic :=
  match x with Ret _ => None | Panic e => Some e end.

Lemma jump_run_panics : panics (jump_run 100) = Some PExplicit.
Proof. vm_compute. reflexivity. Qed.

(** C14: A wrong path ends the simulation of a correct program: the sequential machine runs
  three instructions of this program, the last an ECALL that halts it, but the simulator
  panics, however long it runs, because it decodes the word after the jump, which is no
  instruction and is never executed. *)
Theorem wrong_path_panics :
  flat_final 2 (boot 0 (d_view jump_memory)) = Ret (Some (replicate 32 0)) ∧
  ∀ fuel, (100 <= fuel)%nat → jump_run fuel = Panic PExplicit.
Proof.
  split; [vm_compute; reflexivity|]. intros fuel Hf.
  assert (E : jump_run 100 = Panic PExplicit).
  { pose proof jump_run_panics as Hp. revert Hp. generalize (jump_run 100). intros [x|e] Hp; [done|].
    by injection Hp as ->. }
  replace fuel with (100 + (fuel - 100))%nat by lia. rewrite run_more; [done|]. by rewrite E.
Qed.
