(* ===== verification/Total.v ===== *)
(** Total correctness: the simulation of a disciplined program that halts ends, without a
    panic, with a report whose registers are those of the sequential machine.

    [NoPanic.v] shows that every cycle returns and [Liveness.v] that the pipeline comes
    nearer to its next event in every cycle without one.  Here the events are counted: the
    ECALL that halts the machine after [n] events halts the processor at most three cycles
    after it has entered MEM, each with two events at most. *)
From S2P Require Import Prelude Word Format Instruction BranchPredictor Uop Execute Decode Datapath AbstractMem ReplacementPolicy CacheConfig CacheSet LowerMemory GeneralCache CacheAddress Device MemoryDevices CacheView CacheRefinement CacheDevice Hierarchy SharedCache CacheWaits MemoryAccess MemoryPorts SimpleMem Dram Pipe Runner IsaMachine FlatMachine PipeInvariant PipeRefinement PipeRun PipeHalt PipeMemory Discipline NoPanic PipeWaits Liveness WholeSystem.
From stdpp Require Import base gmap numbers sets list strings.
From Stdlib Require Import Lia.
#[local] Open Scope Z_scope.
#[local] Coercion Z.of_nat : nat >-> Z.

(** * Counting events *)

Section count.
Context `{Profile}.

Lemma steps_prefix c pre post c' : isa_steps c (pre ++ post) c' → ∃ c1, isa_steps c pre c1.
Proof.
  revert c. induction pre as [|e pre IH]; intros c Hst; [by exists c; constructor|].
  inversion Hst as [|? ? c2 ? ? He Hp]; subst. destruct (IH _ Hp) as [c1 Hc1]. exists c1. by econstructor.
Qed.

(** where the machine halts *)
Lemma flat_final_at n s rs : flat_final n s = Ret (Some rs) →
  ∃ es s1, (length es ≤ n)%nat ∧ flat_run (length es) s = Ret (es, s1) ∧ at_halt s1 = true.
Proof.
  revert s. induction n as [|n IH]; intros s E; cbn [flat_final] in E;
    (destruct (at_halt s) eqn:Hh; [exists [], s; by split_and!; [cbn; lia|..]|]); [done|].
  apply bind_inv in E as ([e s2] & E1 & E). destruct (IH s2 E) as (es & s1 & Hl & Hr & Hh1).
  exists (e :: es), s1. split_and!; [cbn; lia | | done]. cbn. by rewrite E1, bind_Ret, Hr.
Qed.

Lemma halt_step s e s' : at_halt s = true → flat_step s = Ret (e, s') →
  ecall_event e ∧ Effect.reg (regs (core s)) 10 = 0.
Proof.
  unfold at_halt. destruct (outstanding (core s)) eqn:Ho; [done|].
  destruct (raw_binary_to_inst _) as [i|] eqn:Ei; [|done]. destruct i; try done.
  intros Hs%Z.eqb_eq E. split; [|done]. unfold flat_step in E. rewrite Ho in E. cbv zeta in E. rewrite Ei in E.
  apply bind_inv in E as (i' & [= <-] & E). apply bind_inv in E as (o & _ & E).
  apply bind_inv in E as (a & _ & [= <- _]). by eexists.
Qed.

(** a trace with no halting ECALL is no longer than the run of the machine *)
Lemma calm_length c0 evs n s s1 c rs : core s = c0 → calm c0 evs → isa_steps c0 evs c →
  flat_run (length evs) s = Ret (evs, s1) → flat_final n s = Ret (Some rs) → (length evs ≤ n)%nat.
Proof.
  intros Ec Hc Hst Hr Hf. destruct (flat_final_at n s rs Hf) as (es & s2 & Hl & Hr2 & Hh).
  destruct (le_lt_dec (length evs) (length es)) as [?|Hlt]; [lia|]. exfalso.
  destruct (drop (length es) evs) as [|e post] eqn:Ed.
  { apply (f_equal length) in Ed. rewrite length_drop in Ed. cbn in Ed. lia. }
  pose proof (take_drop (length es) evs) as Et. rewrite Ed in Et.
  set (pre := take (length es) evs) in *. assert (Elen : length pre = length es) by (subst pre; rewrite length_take; lia).
  clearbody pre. subst evs. destruct (flat_run_split pre e post s s1 Hr) as (s3 & s4 & Hr3 & Hs3).
  rewrite Elen, Hr2 in Hr3. injection Hr3 as -> <-. destruct (halt_step s2 e s4 Hh Hs3) as [He Ha].
  destruct (steps_prefix _ _ _ _ Hst) as [c1 Hc1].
  pose proof (flat_run_agrees _ _ _ s s2 Hc1 Ec Hr2) as Ec1.
  apply (Hc pre e post c1 eq_refl Hc1 He). by rewrite <- Ec1.
Qed.
End count.

(** * ECALLs on their way *)

Section ecalls.
Context `{Profile} {RP : Type} `{ReplacementPolicy RP} {P : Type} `{BranchPredict P}.
Context {M : Type} `{AbstractMemoryInterface M}.
Implicit Types p : PipelineProcessor RP P.
Import Cpu.

Lemma kept_passed p p' : kept p p' → (passed p' ↔ passed p) ∧ (passing p' ↔ passing p).
Proof.
  intros [Er Em Ew _]. assert (Ea : arch p' = arch p) by (unfold arch; by rewrite Em, Ew, Er).
  unfold passed, passing. by rewrite Ew, Er, Em, Ea.
Qed.

(** an ECALL in WB halts the processor if it asks to; one in MEM moves to WB *)
Lemma stages_passed c0 evs p m h p' m' h' : Inv forwardable p → branch_recover p = false →
  halt p = false → marked c0 evs p → stages p m h = Ret (p', m', h') → halt p' = false →
  passed p ∧ (passed p' → passing p).
Proof.
  intros Hinv Hrec Hh Hmk Hs Hh'. unfold stages in Hs.
  destruct (forward_ok p Hinv Hrec) as (Hi1 & Hr1 & Ha1).
  assert (Hk1 : kept p (pipe_normal_data_hazard_resolve p)) by by constructor.
  pose proof (kept_marked c0 evs p _ Hk1 Ha1 Hmk) as Hmk1. destruct (kept_passed _ _ Hk1) as [<- <-].
  set (p1 := pipe_normal_data_hazard_resolve p) in *.
  apply bind_inv in Hs as (p2 & E2 & Hs).
  destruct (wb_ok p1 p2 Hi1 Hr1 E2) as (Hi2 & Hr2 & Hw2 & _).
  destruct (wb_marked c0 evs p1 p2 Hi1 Hr1 Hh E2 Hmk1) as [Hmk2 _].
  destruct (wb_spec p1 p2 E2) as (_ & Er2 & Ewb2 & Em2 & _).
  assert (Ea2 : arch p2 = arch p1) by (unfold arch; by rewrite Em2, Ewb2, Er2).
  apply bind_inv in Hs as ([[p3 m3] h3] & E3 & Hs).
  destruct (mem_ok p2 m h p3 m3 h3 Hi2 Hr2 Hw2 E3) as (Hi3 & Hr3 & _ & Hcase3 & Er3).
  pose proof (mem_halt p2 m h p3 m3 h3 E3) as Hh3.
  apply bind_inv in Hs as (p4 & E4 & Hs).
  destruct (exe_ok_stage p3 p4 Hi3 Hr3 E4) as (Hi4 & Hsa4 & _).
  apply bind_inv in Hs as (b & E5 & Hs).
  destruct (front_stages p4 p' b m3 h3 m' h' Hi4 E5 Hs) as (_ & _ & [Ek1 Ek2 Ek3 Ek4]).
  assert (Hh2 : halt p2 = false) by (rewrite <- Hh3, <- (sa_halt _ _ Hsa4), <- Ek4; exact Hh').
  split.
  - intros op Eop He Ha. pose proof (wb_halts p1 p2 op E2 Eop He Ha). congruence.
  - intros Hp op Eop He. rewrite <- Ea2. rewrite <- Em2 in Eop.
    destruct (mk_mem _ _ _ Hmk2 op Eop He) as [Erd _].
    assert (Ea : Op.memory_access op = Ret None) by (destruct He as [x Hx]; unfold Op.memory_access; by rewrite Hx).
    destruct Hcase3 as [[(_ & _ & Hw) _]|(op0 & acc & lv & Eop0 & Ea0 & Hans & _ & _ & Ew)].
    { rewrite Eop in Hw. destruct Hw as (a & r & Ea' & _). congruence. }
    rewrite Eop in Eop0. injection Eop0 as <-. rewrite Ea in Ea0. injection Ea0 as <-. subst lv. cbn in Ew.
    assert (arch p2 = id_regs p') as ->; [|apply (Hp op); [|done]].
    + unfold arch. rewrite Eop, Hw2, Ek1, (sa_regs _ _ Hsa4), Er3. cbn. by rewrite (no_writeback op Erd).
    + by rewrite Ek3, (sa_wb _ _ Hsa4).
Qed.

Lemma cycle_passed c0 evs p m h p' m' h' : Inv forwardable p → halt p = false → marked c0 evs p →
  Runner.cycle p m h = Ret (p', m', h') → halt p' = false → passed p ∧ (passed p' → passing p).
Proof.
  intros Hinv Hh Hmk Hc Hh'. destruct (cycle_tick _ _ _ _ _ _ Hc) as (m5 & h5 & Ht). clear Hc.
  unfold Cpu.tick in Ht. set (p0 := Cpu.with_hpm _ p) in Ht.
  assert (Hi0 : Inv forwardable p0) by (constructor; try apply Hinv; intros Hr;
    destruct (inv_front _ _ Hinv Hr); by constructor).
  apply bind_inv in Ht as (p1 & E1 & Ht). destruct (recover_ok p0 p1 Hi0 E1) as (Hi1 & Hr1 & Ha1).
  assert (Hk1 : kept p p1) by (eapply (kept_trans _ p0); [by constructor | by apply recover_kept]).
  apply bind_inv in Ht as ([[p2 m2] h2] & E2 & Ht).
  destruct (tick_caches_same _ _ _ _ _ _ Ht) as (Hsb & _ & _). pose proof (back_kept _ _ Hsb) as Hk2.
  destruct (kept_passed _ _ Hk1) as [<- <-]. destruct (kept_passed _ _ Hk2) as [-> _].
  eapply (stages_passed c0 evs); [exact Hi1 | exact Hr1 | by rewrite (kp_halt _ _ Hk1) |
    by eapply kept_marked | exact E2 | by rewrite <- (kp_halt _ _ Hk2)].
Qed.

(** the events of a processor that is still running, when the machine halts after [n] *)
Record bounded (n : nat) (evs : list event) p : Prop := {
  bd_calm : passed p → passing p → (length evs ≤ n)%nat;
  bd_passed : passed p → (length evs ≤ n + 2)%nat;
  bd_all : (length evs ≤ n + 4)%nat;
}.

Lemma cycle_bounded n c0 evs p m h p' m' h' : Inv forwardable p → halt p = false → marked c0 evs p →
  Runner.cycle p m h = Ret (p', m', h') → halt p' = false → bounded n evs p →
  (passed p' → passing p' → length (evs ++ observe p p') ≤ n)%nat → bounded n (evs ++ observe p p') p'.
Proof.
  intros Hinv Hh Hmk Hc Hh' [Hb1 Hb2 _] Hcalm.
  destruct (cycle_passed c0 evs p m h p' m' h' Hinv Hh Hmk Hc Hh') as [Hp Hpi].
  pose proof (observe_short p p'). constructor; [exact Hcalm | | ]; rewrite length_app.
  - intros Hp'. specialize (Hb1 Hp (Hpi Hp')). lia.
  - specialize (Hb2 Hp). lia.
Qed.
End ecalls.

(** * Runs *)

Section memory.
Context `{Profile} {RP : Type} `{ReplacementLaws RP} {P : Type} `{BranchPredict P} `{!PredictorLaws P}.
Context {M : Type} `{Device M} {L : DeviceLaws (RG := everywhere) M}.
Context (Hclock : ∀ (m : M) h, cycle m h = tick m h).
Context (lo hi top ftop : Z) (V0 : view).
Context (Hlo : 0 ≤ lo) (Hhi : hi ≤ ftop) (Hhi32 : hi < 2 ^ 32) (Hvalid : valid_code lo hi V0).
#[local] Existing Instance everywhere.
Implicit Types (p : PipelineProcessor RP P) (m : M) (h : heap) (s : Machine).

Abbreviation sound := (NoPanic.sound lo hi top ftop V0).

(** one more cycle in front of a run *)
Lemma run_cycles_cons n p m h p1 m1 h1 tr x : halt p = false → Runner.cycle p m h = Ret (p1, m1, h1) →
  run_cycles n p1 m1 h1 = Ret (tr, x) → run_cycles (S n) p m h = Ret (observe p p1 ++ tr, x).
Proof using Type. intros Hh E Er. cbn. by rewrite Hh, E, bind_Ret, Er. Qed.

(** a cycle of a sound and connected processor *)
Lemma cycle_live c0 evs p m h W s k : sound c0 evs p m h W s → connected p m h → halt p = false →
  orderly lo hi top (3 + k) s = true →
  ∃ p' m' h' W' s', Runner.cycle p m h = Ret (p', m', h') ∧
    flat_run (length (observe p p')) s = Ret (observe p p', s') ∧
    sound c0 (evs ++ observe p p') p' m' h' W' s' ∧ connected p' m' h' ∧
    (observe p p' = [] → nearer p m p' m').
Proof using All.
  intros Hso Hcon Hh Hord.
  destruct (cycle_sound Hclock lo hi top ftop V0 Hlo Hhi Hhi32 Hvalid c0 evs p m h W s k Hso Hh Hord)
    as (p' & m' & h' & W' & s' & E & Hrun & _ & Hso').
  exists p', m', h', W', s'. split; [done|]. split; [done|]. split; [done|]. destruct Hso as [Hinv _ _ Hsd Hsy].
  pose proof (observe_short p p') as Hl.
  eapply (cycle_progress Hclock lo hi top ftop V0 Hlo Hhi p m h p' m' h' W s (2 - length (observe p p')));
    [done..| |done|].
  - by eapply (fetch_pc_within lo hi top ftop V0).
  - apply orderly_well_behaved. eapply (orderly_prefix _ _ _ _ (1 + k)).
    by replace (_ + _)%nat with (3 + k)%nat by lia.
Qed.

(** ** Progress *)

(** a processor that has not halted executes an instruction, completes a load or halts *)
Lemma event_soon c0 evs p m h W s k : sound c0 evs p m h W s → connected p m h →
  orderly lo hi top (3 + k) s = true →
  ∃ n tr p' m' h', run_cycles n p m h = Ret (tr, (p', m', h')) ∧ (tr ≠ [] ∨ halt p' = true).
Proof using All.
  remember (rank p) as r eqn:Er. remember (awaited p m) as a eqn:Ea. revert a evs p m h W s Er Ea.
  induction r as [r IHr] using (well_founded_induction lt_wf). intros a.
  induction a as [a IHa] using (well_founded_induction lt_wf). intros evs p m h W s Er Ea Hso Hcon Hord.
  destruct (halt p) eqn:Hh; [exists 0%nat, [], p, m, h; by split; [|right]|].
  destruct (cycle_live c0 evs p m h W s k Hso Hcon Hh Hord)
    as (p1 & m1 & h1 & W1 & s1 & E & Hrun & Hso1 & Hcon1 & Hn).
  destruct (observe p p1) as [|e tr] eqn:Ho.
  - injection Hrun as <-.
    assert (Hrest : ∃ n tr p' m' h', run_cycles n p1 m1 h1 = Ret (tr, (p', m', h')) ∧ (tr ≠ [] ∨ halt p' = true)).
    { destruct (Hn eq_refl) as [Hlt|[Hr Hlt]].
      - eapply (IHr (rank p1)); [lia | done | done | exact Hso1 | done | done].
      - eapply (IHa (awaited p1 m1)); [lia | lia | done | exact Hso1 | done | done]. }
    destruct Hrest as (n & tr & p' & m' & h' & Er' & Ht). exists (S n), tr, p', m', h'. split; [|done].
    rewrite (run_cycles_cons n p m h p1 m1 h1 tr (p', m', h') Hh E Er'). by rewrite Ho.
  - exists 1%nat, (e :: tr), p1, m1, h1. split; [|by left].
    rewrite (run_cycles_cons 0 p m h p1 m1 h1 [] (p1, m1, h1) Hh E eq_refl). by rewrite Ho, app_nil_r.
Qed.

(** ** Termination *)

(** when the machine halts, the processor does *)
Lemma run_halts c0 s0 n rs evs p m h W s : core s0 = c0 → flat_final n s0 = Ret (Some rs) →
  orderly lo hi top (n + 7) s0 = true →
  flat_run (length evs) s0 = Ret (evs, s) → sound c0 evs p m h W s → connected p m h →
  first_halt c0 evs p → (halt p = false → bounded n evs p) →
  ∃ k tr p' m' h' W' s', run_cycles k p m h = Ret (tr, (p', m', h')) ∧ halt p' = true ∧
    flat_run (length (evs ++ tr)) s0 = Ret (evs ++ tr, s') ∧ sound c0 (evs ++ tr) p' m' h' W' s' ∧
    first_halt c0 (evs ++ tr) p'.
Proof using All.
  intros Ec Hfin Hord. remember (n + 4 - length evs)%nat as b eqn:Eb.
  remember (rank p) as r eqn:Er. remember (awaited p m) as a eqn:Ea. revert r a evs p m h W s Eb Er Ea.
  induction b as [b IHb] using (well_founded_induction lt_wf). intros r.
  induction r as [r IHr] using (well_founded_induction lt_wf). intros a.
  induction a as [a IHa] using (well_founded_induction lt_wf).
  intros evs p m h W s Eb Er Ea Hrun Hso Hcon Hfh Hbd.
  destruct (halt p) eqn:Hh; [exists 0%nat, [], p, m, h, W, s; by rewrite app_nil_r|].
  specialize (Hbd eq_refl). pose proof (bd_all _ _ _ Hbd) as Hall.
  replace (n + 7)%nat with (length evs + (3 + (n + 4 - length evs)))%nat in Hord by lia.
  destruct (orderly_app _ _ _ _ _ _ _ _ Hord Hrun) as [Hord1 _].
  destruct (cycle_live c0 evs p m h W s _ Hso Hcon Hh Hord1)
    as (p1 & m1 & h1 & W1 & s1 & E & Hrun1 & Hso1 & Hcon1 & Hn).
  destruct Hfh as [[_ Hln]|[? _]]; [|congruence].
  destruct (cycle_tick _ _ _ _ _ _ E) as (m2 & h2 & Et).
  pose proof (tick_first c0 evs p m h p1 m2 h2 (sn_inv _ _ _ _ _ _ _ _ _ _ _ _ Hso) Hh
    (sn_marked _ _ _ _ _ _ _ _ _ _ _ _ Hso) Hln Et) as Hfh1.
  assert (Hrun2 : flat_run (length (evs ++ observe p p1)) s0 = Ret (evs ++ observe p p1, s1))
    by (by rewrite length_app, flat_run_app, Hrun, bind_Ret, Hrun1).
  assert (Hbd1 : halt p1 = false → bounded n (evs ++ observe p p1) p1).
  { intros Hh1. apply (cycle_bounded n c0 evs p m h p1 m1 h1); try done; [apply Hso.. |].
    intros Hp Hpi. destruct Hfh1 as [[_ [_ _ Hc]]|[? _]]; [|congruence].
    eapply (calm_length c0 _ n s0 s1); [done | by apply Hc | apply Hso1 | done | done]. }
  assert (Hrest : ∃ k tr p' m' h' W' s', run_cycles k p1 m1 h1 = Ret (tr, (p', m', h')) ∧ halt p' = true ∧
    flat_run (length ((evs ++ observe p p1) ++ tr)) s0 = Ret ((evs ++ observe p p1) ++ tr, s') ∧
    sound c0 ((evs ++ observe p p1) ++ tr) p' m' h' W' s' ∧ first_halt c0 ((evs ++ observe p p1) ++ tr) p').
  { destruct (halt p1) eqn:Hh1; [exists 0%nat, [], p1, m1, h1, W1, s1; by rewrite app_nil_r|].
    destruct (decide (observe p p1 = [])) as [Ho|Ho].
    - rewrite Ho, app_nil_r in *. destruct (Hn eq_refl) as [Hlt|[Hr Hlt]].
      + eapply (IHr (rank p1)); [lia | done | done | done | exact Hrun2 | exact Hso1 | auto..].
      + eapply (IHa (awaited p1 m1)); [lia | done | lia | done | exact Hrun2 | exact Hso1 | auto..].
    - specialize (Hbd1 eq_refl). pose proof (bd_all _ _ _ Hbd1) as Hall1. rewrite length_app in Hall1.
      assert (0 < length (observe p p1))%nat by (destruct (observe p p1); [done | cbn; lia]).
      eapply (IHb (n + 4 - length (evs ++ observe p p1))%nat);
        [rewrite length_app; lia | done | done | done | exact Hrun2 | exact Hso1 | auto..]. }
  destruct Hrest as (k & tr & p' & m' & h' & W' & s' & Ek & Ht).
  exists (S k), (observe p p1 ++ tr), p', m', h', W', s'. rewrite app_assoc.
  split; [by apply (run_cycles_cons k p m h p1 m1 h1) | done].
Qed.

(** any number of cycles *)
Lemma run_live c0 n k evs p m h W s : sound c0 evs p m h W s → connected p m h →
  orderly lo hi top (2 * n + (3 + k)) s = true →
  ∃ tr p' m' h' W' s', run_cycles n p m h = Ret (tr, (p', m', h')) ∧
    flat_run (length tr) s = Ret (tr, s') ∧ sound c0 (evs ++ tr) p' m' h' W' s' ∧ connected p' m' h' ∧
    orderly lo hi top (3 + k) s' = true.
Proof using All.
  revert evs p m h W s. induction n as [|n IH]; intros evs p m h W s Hso Hcon Hord.
  { exists [], p, m, h, W, s. by rewrite app_nil_r. }
  cbn [run_cycles]. destruct (halt p) eqn:Hh.
  { exists [], p, m, h, W, s. rewrite app_nil_r. split_and!; try done.
    eapply (orderly_prefix _ _ _ _ (2 * S n)). by rewrite Nat.add_comm. }
  destruct (cycle_live c0 evs p m h W s (2 * n + (2 + k)) Hso Hcon Hh) as (p1 & m1 & h1 & W1 & s1 & E & Hrun & Hso1 & Hcon1 & _).
  { by replace (3 + (2 * n + (2 + k)))%nat with (2 * S n + (3 + k))%nat by lia. }
  pose proof (observe_short p p1) as Hl.
  replace (2 * S n + (3 + k))%nat with (length (observe p p1) + (2 * n + (3 + k) + (2 - length (observe p p1))))%nat
    in Hord by lia.
  destruct (orderly_app _ _ _ _ _ _ _ _ Hord Hrun) as [Hord1 _].
  destruct (IH _ p1 m1 h1 W1 s1 Hso1 Hcon1) as (tr & p' & m' & h' & W' & s' & E' & Hrun' & Hso' & Hcon' & Hord').
  { by eapply orderly_prefix. }
  exists (observe p p1 ++ tr), p', m', h', W', s'. rewrite E, bind_Ret, E', bind_Ret, app_assoc.
  split_and!; try done. by rewrite length_app, flat_run_app, Hrun, bind_Ret, Hrun'.
Qed.
End memory.

(** * Whole systems *)

Section system.
Context `{Profile} {RP : Type} `{ReplacementLaws RP} {P : Type} `{BranchPredict P} `{!PredictorLaws P}.
Context {M : Type} `{Device M} {L : DeviceLaws (RG := everywhere) M}.
Context (Hclock : ∀ (m : M) h, cycle m h = AbstractMem.tick m h).
#[local] Existing Instance everywhere.

(** A program, and a system for it: [n] events of the sequential machine are in order, every
  aligned word of the code is an instruction, and the code is in the reach of fetches. *)
Record disciplined (lo hi entry_pc : Z) (i d l : GeneralCacheConfig) (m : M) (n : nat) : Prop := {
  di_low : 0 ≤ lo;
  di_reach : hi ≤ fetch_top i l m;
  di_u32 : hi < 2 ^ 32;
  di_code : valid_code lo hi (d_view m);
  di_orderly : orderly lo hi (data_top d l m) n (boot entry_pc (d_view m)) = true;
}.

Lemma fresh_sound lo hi entry_pc i d l (predictor : P) p0 (m : M) h n : fits (RP := RP) i d l m h →
  disciplined lo hi entry_pc i d l m n → only_targets (within lo hi 12) predictor →
  Cpu.new_with_predictor entry_pc i d l predictor = Ret p0 →
  NoPanic.sound lo hi (data_top d l m) (fetch_top i l m) (d_view m) (initial entry_pc) [] p0 m h (d_view m)
    (boot entry_pc (d_view m)) ∧ connected p0 m h ∧ halt p0 = false ∧ bounded n [] p0.
Proof.
  intros Hfit Hdi Hpr Hn. destruct (fresh_ok _ _ _ _ _ _ Hn) as (Hi & Hmk & Hh).
  pose proof (fresh_synced lo hi entry_pc i d l predictor p0 m h Hfit Hn) as Hsy.
  assert (Hf : branch_predictor p0 = predictor ∧ id_op p0 = None ∧ exe_op p0 = None ∧ mem_op p0 = None ∧
    if_fsm p0 = FetchIdle).
  { unfold Cpu.new_with_predictor in Hn. apply bind_inv in Hn as (l2 & _ & Hn).
    apply bind_inv in Hn as (ci & _ & Hn). by apply bind_inv in Hn as (cd & _ & [= <-]). }
  destruct Hf as (Ep & Eid & Ee & Em & Ef). split_and!; [constructor; try done | intros r; by rewrite Ef | done |].
  - intros ?. congruence.
  - constructor; rewrite ?Ep, ?Eid, ?Ee; try done. unfold mem_access. by rewrite Em.
  - constructor; cbn; lia.
Qed.

(** C6: A disciplined program never panics on caches that fit together ([fits]: no level is
  write-back without write-allocate, offsets and indices take 1 to 31 bits, L1 blocks have at
  least 4 bytes and are no larger than the L2's, and these no larger than a request of the
  memory): with any lawful replacement policy and main memory, and a predictor that predicts
  only targets it was told, every number of cycles returns, wrong paths included, and its
  trace is that of the sequential machine - no check of the processor, the caches and the
  memory fails, no index is out of range, no checked arithmetic overflows. *)
Theorem disciplined_never_panics lo hi entry_pc i d l (predictor : P) p0 (m : M) h n :
  fits (RP := RP) i d l m h → disciplined lo hi entry_pc i d l m (2 * n + 3) →
  only_targets (within lo hi 12) predictor →
  Cpu.new_with_predictor entry_pc i d l predictor = Ret p0 →
  ∃ tr p' m' h' s, run_cycles n p0 m h = Ret (tr, (p', m', h')) ∧
    flat_run (length tr) (boot entry_pc (d_view m)) = Ret (tr, s) ∧ core s = abs p'.
Proof using Hclock.
  intros Hfit Hdi Hpr Hn. destruct (fresh_sound _ _ _ _ _ _ _ _ _ _ _ Hfit Hdi Hpr Hn) as (Hso & Hcon & _ & _).
  destruct Hdi as [Hlo Hhi H32 Hcode Hord].
  destruct (run_live Hclock lo hi (data_top d l m) (fetch_top i l m) (d_view m) Hlo Hhi H32 Hcode _ n 0 [] p0 m h _ _ Hso Hcon)
    as (tr & p' & m' & h' & W' & s' & E & Hrun & Hso' & _); [exact Hord|].
  exists tr, p', m', h', s'. split_and!; [done..|].
  apply (is_core _ _ _ _ _ _ _ (sy_step _ _ _ _ _ _ _ _ _ _ (sn_synced _ _ _ _ _ _ _ _ _ _ _ _ Hso'))).
Qed.

(** C7: The pipeline never hangs: over caches that fit together ([fits]) and a predictor that
  predicts only targets it was told, whatever state a disciplined program has brought it to,
  with refills, write-backs, prefetches and a busy main memory under way, there is a number of
  further cycles after which it has executed another instruction, completed a load, or
  halted. *)
Theorem pipeline_makes_progress lo hi entry_pc i d l (predictor : P) p0 (m : M) h n tr p m1 h1 :
  fits (RP := RP) i d l m h → disciplined lo hi entry_pc i d l m (2 * n + 3) →
  only_targets (within lo hi 12) predictor →
  Cpu.new_with_predictor entry_pc i d l predictor = Ret p0 →
  run_cycles n p0 m h = Ret (tr, (p, m1, h1)) →
  ∃ k tr' p' m' h', run_cycles k p m1 h1 = Ret (tr', (p', m', h')) ∧ (tr' ≠ [] ∨ halt p' = true).
Proof using Hclock.
  intros Hfit Hdi Hpr Hn Hr. destruct (fresh_sound _ _ _ _ _ _ _ _ _ _ _ Hfit Hdi Hpr Hn) as (Hso & Hcon & _ & _).
  destruct Hdi as [Hlo Hhi H32 Hcode Hord].
  destruct (run_live Hclock lo hi (data_top d l m) (fetch_top i l m) (d_view m) Hlo Hhi H32 Hcode _ n 0 [] p0 m h _ _ Hso Hcon)
    as (tr1 & p' & m' & h' & W' & s' & E & Hrun & Hso' & Hcon' & Hord'); [exact Hord|].
  rewrite Hr in E. injection E as <- <- <- <-. by eapply event_soon.
Qed.

Lemma run_cycles_loop n p (m : M) h tr p' m' h' : run_cycles (RP := RP) (P := P) n p m h = Ret (tr, (p', m', h')) →
  halt p' = true → Runner.run_loop n p m h = Ret (Some (p', m', h')).
Proof using Type.
  revert p m h tr. induction n as [|n IH]; intros p m h tr Hr Hh'; cbn in Hr |- *.
  - injection Hr as _ <- <- <-. by rewrite Hh'.
  - destruct (halt p) eqn:Hh; [by injection Hr as _ <- <- <-|].
    apply bind_inv in Hr as ([[p1 m1] h1] & E & Hr). apply bind_inv in Hr as ([tr1 x] & E' & Hr).
    injection Hr as _ ->. rewrite E, bind_Ret. by eapply IH.
Qed.

Lemma simulation_ends lo hi entry_pc (predictor : P) config i d l (m : M) memory_report n rs :
  Sim.cache_configs config = Ok (i, d, l) → fits (RP := RP) i d l m Heap.empty →
  only_targets (within lo hi 12) predictor →
  flat_final n (boot entry_pc (d_view m)) = Ret (Some rs) →
  disciplined lo hi entry_pc i d l m (n + 7) →
  ∃ fuel r, Runner.run_with_memory (RP := RP) predictor entry_pc m config memory_report fuel = Ret (Some (Ok r)) ∧
    final_registers r = rs.
Proof using Hclock.
  intros Hcfg Hfit Hpr Hfin Hdi. destruct (fresh_runs entry_pc i d l predictor m Heap.empty Hfit) as [p0 Hn].
  destruct (fresh_sound _ _ _ _ _ _ _ _ _ _ _ Hfit Hdi Hpr Hn) as (Hso & Hcon & Hh & _).
  destruct Hdi as [Hlo Hhi H32 Hcode Hord].
  destruct (run_halts Hclock lo hi (data_top d l m) (fetch_top i l m) (d_view m) Hlo Hhi H32 Hcode
    (initial entry_pc) (boot entry_pc (d_view m)) n rs [] p0 m Heap.empty (d_view m) (boot entry_pc (d_view m)))
    as (fuel & tr & p' & m' & h' & W' & s' & E & Hh' & Hrun & Hso' & Hfh); try done.
  { by apply (fresh_first _ _ _ _ _ _ Hn). }
  { intros _. constructor; cbn; lia. }
  exists fuel. eexists. split.
  - unfold Runner.run_with_memory. rewrite Hcfg, Hn, bind_Ret.
    rewrite (run_cycles_loop fuel p0 m Heap.empty tr p' m' h' E Hh'), bind_Ret. reflexivity.
  - cbn. destruct (halted_final entry_pc (d_view m) p' tr s' Hh' Hrun) as [k Hk]; [apply Hso' | done |].
    exact (flat_final_unique _ _ _ _ _ Hk Hfin).
Qed.

(** C3: Total correctness of the simulator, on configurations that fit together ([fits]: no
  level is write-back without write-allocate, offsets and indices take 1 to 31 bits, L1
  blocks have at least 4 bytes and are no larger than the L2's, and these no larger than a
  request of the memory), with a lawful replacement policy and main memory and a predictor
  that predicts only targets it was told: when the sequential machine over the initial memory
  reaches an ECALL with a0 = 0 and the program is disciplined until shortly after (it leaves
  its code alone, with aligned accesses in the reach of the caches and only instructions in
  its code), the simulation ends - neither a panic nor a wait without end is possible - and
  its report holds the machine's registers.  Configurations that the check accepts and that
  do not fit can lose data or panic. *)
Theorem simulation_total lo hi entry_pc (predictor : P) config i d l (m : M) memory_report n rs :
  Sim.cache_configs config = Ok (i, d, l) → fits (RP := RP) i d l m Heap.empty →
  only_targets (within lo hi 12) predictor →
  flat_final n (boot entry_pc (d_view m)) = Ret (Some rs) →
  disciplined lo hi entry_pc i d l m (n + 7) →
  ∃ fuel r, Runner.run_with_memory (RP := RP) predictor entry_pc m config memory_report fuel = Ret (Some (Ok r)) ∧
    final_registers r = rs.
Proof using Hclock. apply simulation_ends. Qed.
End system.

(** * A program *)

#[local] Existing Instance everywhere.
#[local] Existing Instance Bimodal.predictor.
#[local] Existing Instance Dummy.predictor.
#[local] Existing Instance dev_profile.

Lemma new_predictor_told (S : Z → Prop) : only_targets S Bimodal.new.
Proof. intros k e He. by apply (lookup_empty_Some k e) in He. Qed.

Lemma dummy_told (S : Z → Prop) : only_targets S Dummy.new.
Proof. done. Qed.

Lemma sum_disciplined n : (n <=? 50)%nat = true → disciplined 0 192 0 sum_i sum_d sum_l sum_memory n.
Proof.
  intros Hn%Nat.leb_le. constructor; [done | by vm_compute | done | apply code_valid_spec; by vm_compute |].
  apply (orderly_prefix _ _ _ n (50 - n)). replace (n + (50 - n))%nat with 50%nat by lia. by vm_compute.
Qed.

(** the same program over other caches and a DRAM *)
Lemma other_disciplined n : (n <=? 50)%nat = true →
  disciplined 0 192 0 other_i other_d other_l sum_dram n.
Proof.
  intros Hn%Nat.leb_le. constructor; [done | by vm_compute | done | apply code_valid_spec; by vm_compute |].
  apply (orderly_prefix _ _ _ n (50 - n)). replace (n + (50 - n))%nat with 50%nat by lia. by vm_compute.
Qed.

Lemma sum_halts : ∃ rs, flat_final 22 (boot 0 (d_view sum_dram)) = Ret (Some rs) ∧
  take 11 rs = [0; 0; 0; 0; 0; 0; 15; 15; 225; 0; 0].
Proof. eexists. split; [vm_compute; reflexivity | reflexivity]. Qed.

Lemma disciplined_never_panics_witness :
  ∃ (p0 p' : PipelineProcessor Fifo.FifoRP Bimodal.Predictor) tr m' h',
    Cpu.new_with_predictor 0 sum_i sum_d sum_l Bimodal.new = Ret p0 ∧
    run_cycles 23 p0 sum_memory Heap.empty = Ret (tr, (p', m', h')).
Proof.
  destruct (fresh_runs 0 sum_i sum_d sum_l Bimodal.new sum_memory Heap.empty sum_fits) as [p0 Hn].
  destruct (disciplined_never_panics simple_mem_clock 0 192 0 sum_i sum_d sum_l Bimodal.new p0 sum_memory Heap.empty 23
    sum_fits (sum_disciplined 49 eq_refl) (new_predictor_told (within 0 192 12)) Hn)
    as (tr & p' & m' & h' & s & E & _ & _).
  exists p0, p', tr, m', h'. split; [exact Hn | exact E].
Defined.

(** 23 cycles, with the first refill under way *)
Lemma sum_run_23 : ∃ (p0 p : PipelineProcessor Fifo.FifoRP Bimodal.Predictor) tr m1 h1,
  Cpu.new_with_predictor 0 sum_i sum_d sum_l Bimodal.new = Ret p0 ∧
  run_cycles 23 p0 sum_memory Heap.empty = Ret (tr, (p, m1, h1)).
Proof.
  destruct (fresh_runs 0 sum_i sum_d sum_l Bimodal.new sum_memory Heap.empty sum_fits) as [p0 Hn].
  destruct (fresh_sound 0 192 0 sum_i sum_d sum_l Bimodal.new p0 sum_memory Heap.empty 49 sum_fits
    (sum_disciplined 49 eq_refl) (new_predictor_told _) Hn) as (Hso & Hcon & _).
  destruct (sum_disciplined 49 eq_refl) as [Hlo Hhi H32 Hcode Hord].
  destruct (run_live simple_mem_clock 0 192 _ _ _ Hlo Hhi H32 Hcode _ 23 0 [] p0 _ _ _ _ Hso Hcon Hord)
    as (tr & p & m1 & h1 & _ & _ & E & _).
  exists p0, p, tr, m1, h1. split; [exact Hn | exact E].
Qed.

Lemma pipeline_makes_progress_witness :
  ∃ (p p' : PipelineProcessor Fifo.FifoRP Bimodal.Predictor) m1 h1 k tr' m' h',
    run_cycles k p m1 h1 = Ret (tr', (p', m', h')) ∧ (tr' ≠ [] ∨ halt p' = true).
Proof.
  destruct sum_run_23 as (p0 & p & tr & m1 & h1 & Hn & Hr).
  destruct (pipeline_makes_progress simple_mem_clock 0 192 0 sum_i sum_d sum_l Bimodal.new p0 sum_memory Heap.empty
    23 tr p m1 h1 sum_fits (sum_disciplined 49 eq_refl) (new_predictor_told (within 0 192 12)) Hn Hr)
    as (k & tr' & p' & m' & h' & E & Ht).
  exists p, p', m1, h1, k, tr', m', h'. split; [exact E | exact Ht].
Defined.

Lemma simulation_total_witness : ∃ fuel r,
  Runner.run_with_memory (RP := PseudoLru.PseudoLruRP) Dummy.new 0 sum_dram other_config
    (λ _, SimpleMemReport) fuel = Ret (Some (Ok r)) ∧
  take 11 (final_registers r) = [0; 0; 0; 0; 0; 0; 15; 15; 225; 0; 0].
Proof.
  destruct sum_halts as (rs & Hfin & Hrs).
  destruct (simulation_total dram_clock 0 192 0 Dummy.new other_config other_i other_d other_l sum_dram
    (λ _, SimpleMemReport) 22 rs other_configs other_fits (dummy_told (within 0 192 12)) Hfin (other_disciplined 29 eq_refl))
    as (fuel & r & E & Er).
  exists fuel, r. split; [exact E|]. rewrite Er. exact Hrs.
Defined.
