(* ===== verification/PipeStats.v ===== *)
(** The statistics of the pipeline count what it did: retired instructions against the trace,
    ticks against the cycles. *)
From S2P Require Import Prelude Word Format Instruction BranchPredictor Uop Execute Decode Datapath AbstractMem SimpleMem ReplacementPolicy CacheConfig CacheSet LowerMemory GeneralCache MemoryAccess Pipe Runner IsaMachine PipeInvariant PipeRefinement PipeRun.
From stdpp Require Import base numbers list.
From Stdlib Require Import Lia.
#[local] Open Scope Z_scope.

(** the instructions of a trace *)
Definition executions (tr : list event) : nat :=
  length (List.filter (λ e, match e with Executed _ _ _ => true | Loaded _ => false end) tr).

(** an instruction in a latch, bubbles apart *)
Definition live (o : option PreDecodeMicroOp) : nat :=
  match o with Some op => if placeholder op then 0 else 1 | None => 0 end.

Section stats.
Context `{Profile} {RP : Type} `{ReplacementPolicy RP} {P : Type} `{BranchPredict P}.
Context {M : Type} `{AbstractMemoryInterface M}.
Implicit Types p : PipelineProcessor RP P.
Import Cpu.

Definition retired p : nat := inst_retire (hpm p).
Definition ticked p : nat := total_ticked_cycle (hpm p).
Definition uncounted p p' : Prop := retired p' = retired p ∧ ticked p' = ticked p.

Lemma uncounted_trans p p' p'' : uncounted p p' → uncounted p' p'' → uncounted p p''.
Proof. intros [] []. split; congruence. Qed.

Lemma recover_uncounted p p' : Inv forwardable p → recover p = Ret p' → uncounted p p'.
Proof.
  intros Hinv Hr. destruct (branch_recover p) eqn:E.
  2: { unfold recover in Hr. rewrite E in Hr. by injection Hr as <-. }
  pose proof (proj2 (inv_recover _ _ Hinv E)) as Hfl. unfold recover in Hr. rewrite E in Hr.
  set (p1 := with_buffer _ _) in Hr. assert (F1 : branch_flushes p1 = 3%nat) by done.
  rewrite (flush_do 2 _ _ p1) in Hr by lia. set (p2 := with_id_op _ _) in Hr.
  assert (F2 : branch_flushes p2 = 3%nat) by done.
  rewrite (flush_do 3 _ _ p2) in Hr by lia. set (p3 := with_exe_op _ _) in Hr.
  assert (F3 : branch_flushes p3 = 3%nat) by done.
  rewrite (flush_skip 4), (flush_skip 5) in Hr by lia.
  apply bind_inv in Hr as (op & _ & [= <-]). split; reflexivity.
Qed.

Lemma wb_counted p p' : pipe_stage_wb p = Ret p' →
  retired p' = (retired p + live (wb_op p))%nat ∧ ticked p' = ticked p.
Proof.
  unfold pipe_stage_wb. destruct (wb_op p) as [op|]; [|intros [= <-]; cbn; lia].
  intros Hw. apply bind_inv in Hw as (p1 & E1 & Hw). apply bind_inv in Hw as (p2 & E2 & Hw).
  assert (U1 : uncounted p p1).
  { destruct (inst op); try (by injection E1 as <-).
    apply bind_inv in E1 as (a0 & _ & E1). apply bind_inv in E1 as (a1 & _ & E1).
    injection E1 as <-. by destruct (a0 =? 0). }
  assert (U2 : uncounted p1 p2).
  { destruct (Op.writeback op) as [[d v]|]; [|by injection E2 as <-].
    destruct (negb (d =? 0)); [|by injection E2 as <-].
    by apply bind_inv in E2 as (rs & _ & [= <-]). }
  destruct (uncounted_trans _ _ _ U1 U2) as [<- <-]. injection Hw as <-.
  unfold live, Op.is_placeholder, retired, ticked. destruct (placeholder op); cbn; lia.
Qed.

Lemma mem_uncounted p m h p' m' h' : pipe_stage_mem p m h = Ret (p', m', h') → uncounted p p'.
Proof.
  unfold pipe_stage_mem. intros Hm. destruct (mem_op p) as [op|]; [|by injection Hm as <- _ _].
  apply bind_inv in Hm as ([a|] & _ & Hm).
  - apply bind_inv in Hm as ([[[st t] [dc [l2 m1]]] h1] & _ & Hm).
    destruct st; injection Hm as <- _ _; [done|]. unfold finish_mem.
    by destruct (wb_op (with_transaction _ _)).
  - injection Hm as <- _ _. unfold finish_mem. by destruct (wb_op p).
Qed.

Lemma resolve_uncounted op p p' : resolve op p = Ret p' → uncounted p p'.
Proof.
  unfold resolve. intros Hr. apply bind_inv in Hr as ([b|] & _ & Hr); [|by injection Hr as <-].
  apply bind_inv in Hr as (t & _ & Hr). apply bind_inv in Hr as (p1 & E1 & Hr). injection Hr as <-.
  destruct (Branch.needs_recovery b t); [|by injection E1 as <-].
  by apply bind_inv in E1 as (d & _ & [= <-]).
Qed.

Lemma exe_uncounted p p' : pipe_stage_exe p = Ret p' → uncounted p p'.
Proof.
  unfold pipe_stage_exe. set (p0 := count_down p).
  assert (U0 : uncounted p p0) by (subst p0; unfold count_down; by destruct (int_mul_div_stall_countdown p)).
  clearbody p0. destruct (mem_op p0); [by intros [= <-]|].
  destruct (exe_op p0) as [e|]; [|by intros [= <-]].
  assert (Hrun : Cpu.execute_op e p0 = Ret p' → uncounted p p').
  { intros Hx. unfold Cpu.execute_op in Hx. apply bind_inv in Hx as ([y z] & _ & Hx).
    apply bind_inv in Hx as (p1 & E1 & Hx). injection Hx as <-. apply resolve_uncounted in E1.
    eapply uncounted_trans; [exact U0|]. destruct E1 as [E1 E2]. split; cbn; rewrite ?E1, ?E2;
      by destruct (Execute.m_extension_stall _). }
  destruct (inst e); try (by intros [= <-]); intros Hx;
    (destruct (Execute.m_extension_stall _); [|by apply Hrun]);
    (destruct (int_mul_div_stall_countdown p0); [by apply Hrun | by injection Hx as <-]).
Qed.

Lemma decode_uncounted p b p' : pipe_stage_decode p b = Ret p' → uncounted p p'.
Proof.
  unfold pipe_stage_decode. intros Hd. destruct (exe_op p); [by injection Hd as <-|].
  destruct (id_op p); [|by injection Hd as <-]. destruct b; [by injection Hd as <-|].
  apply bind_inv in Hd as ([e|] & _ & Hd); [|done]. by injection Hd as <-.
Qed.

Lemma send_uncounted p r m h b p' m' h' :
  send_fetch p r m h = Ret (b, p', m', h') → uncounted p p'.
Proof.
  unfold send_fetch. intros Hs. apply bind_inv in Hs as ([[res [ic [l2 m1]]] h1] & _ & Hs).
  destruct res; [|by injection Hs as _ <- _ _].
  destruct (negb _); [by injection Hs as _ <- _ _|].
  by apply bind_inv in Hs as (w & _ & [= _ <- _ _]).
Qed.

Lemma issue_uncounted p p' : issue p = Ret p' → uncounted p p'.
Proof.
  unfold issue. intros Hi. apply bind_inv in Hi as (w & _ & Hi). apply bind_inv in Hi as (i & _ & Hi).
  destruct (opcode_or_op w);
    first [ by apply bind_inv in Hi as (next & _ & [= <-])
          | destruct (branch_predict _ _); by apply bind_inv in Hi as (next & _ & [= <-]) ].
Qed.

Lemma fetch_uncounted p m h p' m' h' : pipe_stage_fetch p m h = Ret (p', m', h') → uncounted p p'.
Proof.
  unfold pipe_stage_fetch. intros Hf. apply bind_inv in Hf as ([[[b p1] m1] h1] & Er & Hf).
  assert (U1 : uncounted p p1).
  { unfold fetch_request in Er. destruct (if_fsm p) as [|r|r].
    - destruct (Req.load _ _ _). by eapply send_uncounted.
    - by eapply send_uncounted.
    - destruct (negb _); [by injection Er as _ <- _ _|].
      by apply bind_inv in Er as (w & _ & [= _ <- _ _]). }
  destruct (negb b); [by injection Hf as <- _ _|].
  destruct (id_op p1); [by injection Hf as <- _ _|].
  apply bind_inv in Hf as (p2 & Ei & [= <- _ _]). eapply uncounted_trans; [exact U1|].
  by apply issue_uncounted.
Qed.

(** ** The events of a cycle *)

Lemma executions_app tr tr' : executions (tr ++ tr') = (executions tr + executions tr')%nat.
Proof. unfold executions. by rewrite List.filter_app, length_app. Qed.

Lemma executions_load o : executions (load_event o) = 0%nat.
Proof.
  destruct o as [op|]; [|done]. unfold load_event.
  destruct (Op.is_load op) as [[|]|]; try done. by destruct (rd_write_value op).
Qed.

Lemma executions_exec op : executed_ok op → executions (exec_event (Some op)) = live (Some op).
Proof.
  intros (acc & Hacc & _). unfold exec_event, live. rewrite Hacc. by destruct (placeholder op).
Qed.

(** ** A cycle *)

(** the instructions the processor has executed, as its counters and latches tell *)
Definition counted p : nat := (retired p + live (mem_op p) + live (wb_op p))%nat.

Lemma counted_kept p p' : kept p p' → uncounted p p' → counted p' = counted p ∧ ticked p' = ticked p.
Proof. intros [_ Em Ew _] [Er Et]. unfold counted. by rewrite Em, Ew, Er. Qed.

Lemma count_wb p p' : pipe_stage_wb p = Ret p' → counted p' = counted p ∧ ticked p' = ticked p.
Proof.
  intros Hw. destruct (wb_counted p p' Hw) as [Er Et]. destruct (wb_spec p p' Hw) as (_ & _ & Ew & Em & _).
  unfold counted. rewrite Ew, Em, Er. cbn. split; [lia | done].
Qed.

Lemma count_mem p m h p' m' h' : Inv exact p → branch_recover p = false → wb_op p = None →
  pipe_stage_mem p m h = Ret (p', m', h') → counted p' = counted p ∧ ticked p' = ticked p.
Proof.
  intros Hinv Hrec Hwb Hm. destruct (mem_uncounted _ _ _ _ _ _ Hm) as [Er Et]. split; [|done].
  destruct (mem_ok p m h p' m' h' Hinv Hrec Hwb Hm) as (_ & _ & _ & Hcase & _).
  unfold counted. rewrite Er, Hwb.
  destruct Hcase as [[(Ew & Em & _) _]|(op & acc & lv & Eop & _ & _ & Em & _ & Ew)]; rewrite Ew, Em; [done|].
  rewrite Eop. destruct lv; cbn; lia.
Qed.

Lemma count_exe p p' : Inv exact p → branch_recover p = false → pipe_stage_exe p = Ret p' →
  ticked p' = ticked p ∧
  ∃ ev, counted p' = (counted p + executions ev)%nat ∧ (executions ev <= 1)%nat ∧
    (mem_op p' = mem_op p ∧ ev = [] ∨ mem_op p = None ∧ ev = exec_event (mem_op p')).
Proof.
  intros Hinv Hrec He. destruct (exe_uncounted p p' He) as [Er Et]. split; [done|].
  destruct (exe_ok_stage p p' Hinv Hrec He) as (Hinv' & [_ _ _ Ew _ _] & [[Em _]|(Em & [op Eop] & _)]).
  - exists []. unfold counted. rewrite Er, Ew, Em. cbn. split_and!; [lia..|by left].
  - exists (exec_event (mem_op p')). unfold counted. rewrite Er, Ew, Em, Eop.
    rewrite executions_exec by (by apply (inv_mem _ _ Hinv')). cbn.
    split_and!; [lia| |by right]. by destruct (placeholder op); cbn; lia.
Qed.

Lemma count_front p b m h p' m' h' : 
  (p1 ← pipe_stage_decode p b;
   '(p2, m, h) ← pipe_stage_fetch p1 m h;
   if (b : bool) then
     _ ← assert_ (bool_decide (exe_op p2 = None));
     mret (with_exe_op (Some Op.placeholder_nop) p2, m, h)
   else mret (p2, m, h)) = Ret (p', m', h') → uncounted p p'.
Proof.
  intros Hs. apply bind_inv in Hs as (p1 & E1 & Hs). apply bind_inv in Hs as ([[p2 m2] h2] & E2 & Hs).
  apply decode_uncounted in E1. apply fetch_uncounted in E2.
  assert (U : uncounted p2 p').
  { destruct b; [by apply bind_inv in Hs as ([] & _ & [= <- _ _]) | by injection Hs as <- _ _]. }
  eapply uncounted_trans; [exact E1|]. by eapply uncounted_trans.
Qed.

Lemma count_stages p m h p' m' h' : Inv forwardable p → branch_recover p = false →
  stages p m h = Ret (p', m', h') →
  counted p' = (counted p + executions (observe p p'))%nat ∧ ticked p' = ticked p ∧
  (executions (observe p p') <= 1)%nat.
Proof.
  intros Hinv Hrec Hs. unfold stages in Hs. destruct (forward_ok p Hinv Hrec) as (Hi1 & Hr1 & _).
  assert (Hc1 : counted (pipe_normal_data_hazard_resolve p) = counted p) by done.
  assert (Ht1 : ticked (pipe_normal_data_hazard_resolve p) = ticked p) by done.
  assert (Hm1 : mem_op (pipe_normal_data_hazard_resolve p) = mem_op p) by done.
  set (p1 := pipe_normal_data_hazard_resolve p) in *. clearbody p1.
  apply bind_inv in Hs as (p2 & E2 & Hs).
  destruct (wb_ok p1 p2 Hi1 Hr1 E2) as (Hi2 & Hr2 & Hw2 & _).
  destruct (count_wb p1 p2 E2) as [Hc2 Ht2].
  destruct (wb_spec p1 p2 E2) as (_ & _ & _ & Em2 & _).
  apply bind_inv in Hs as ([[p3 m3] h3] & E3 & Hs).
  destruct (mem_ok p2 m h p3 m3 h3 Hi2 Hr2 Hw2 E3) as (Hi3 & Hr3 & _ & Hcase3 & _).
  destruct (count_mem p2 m h p3 m3 h3 Hi2 Hr2 Hw2 E3) as [Hc3 Ht3].
  apply bind_inv in Hs as (p4 & E4 & Hs).
  destruct (count_exe p3 p4 Hi3 Hr3 E4) as (Ht4 & ev & Hc4 & Hle & Hev).
  destruct (exe_ok_stage p3 p4 Hi3 Hr3 E4) as (Hi4 & Hsa4 & _).
  apply bind_inv in Hs as (b & E5 & Hs).
  destruct (count_front p4 b m3 h3 p' m' h' Hs) as [Er' Et'].
  destruct (front_stages p4 p' b m3 h3 m' h' Hi4 E5 Hs) as (_ & _ & Hk').
  assert (Hobs : observe p p' = load_event (wb_op p3) ++ ev).
  { apply (observe_event p p3 p4); [apply Hk' | apply Hk' | apply Hsa4 | | done].
    destruct Hcase3 as [[(? & Em3 & _) _]|(o & acc & lv & _ & _ & _ & Em3 & _ & Ew3)];
      [left; by rewrite Em3, Em2 | right; by rewrite Ew3]. }
  destruct (counted_kept p4 p' Hk' (conj Er' Et')) as [Hc' Ht'].
  rewrite Hobs, executions_app, executions_load. cbn. split_and!; [lia | congruence | done].
Qed.

Lemma count_caches p m h p' m' h' : tick_caches p m h = Ret (p', m', h') → uncounted p p'.
Proof.
  unfold tick_caches. intros Ht. apply bind_inv in Ht as ([[ic [l2 m1]] h1] & _ & Ht).
  apply bind_inv in Ht as ([[dc [l2' m2]] h2] & _ & Ht).
  by apply bind_inv in Ht as ([[l2'' m3] h3] & _ & [= <- _ _]).
Qed.

Lemma count_tick p m h p' m' h' : Inv forwardable p → Cpu.tick p m h = Ret (p', m', h') →
  counted p' = (counted p + executions (observe p p'))%nat ∧ ticked p' = S (ticked p) ∧
  (executions (observe p p') <= 1)%nat.
Proof.
  intros Hinv Ht. unfold Cpu.tick in Ht.
  assert (Hc0 : counted (with_hpm (PipeStat.tick (hpm p)) p) = counted p) by done.
  assert (Ht0 : ticked (with_hpm (PipeStat.tick (hpm p)) p) = S (ticked p)) by done.
  assert (Hm0 : mem_op (with_hpm (PipeStat.tick (hpm p)) p) = mem_op p) by done.
  assert (Hi0 : Inv forwardable (with_hpm (PipeStat.tick (hpm p)) p)) by (constructor; try apply Hinv;
    intros Hr; destruct (inv_front _ _ Hinv Hr); by constructor).
  set (p0 := with_hpm _ p) in *. clearbody p0.
  apply bind_inv in Ht as (p1 & E1 & Ht). destruct (recover_ok p0 p1 Hi0 E1) as (Hi1 & Hr1 & _).
  pose proof (recover_kept p0 p1 Hi0 E1) as Hk1.
  destruct (counted_kept p0 p1 Hk1 (recover_uncounted p0 p1 Hi0 E1)) as [Hc1 Ht1].
  apply bind_inv in Ht as ([[p2 m2] h2] & E2 & Ht).
  destruct (count_stages p1 m h p2 m2 h2 Hi1 Hr1 E2) as (Hc2 & Ht2 & Hle).
  destruct (tick_caches_same _ _ _ _ _ _ Ht) as (Hsb & _). pose proof (back_kept p2 p' Hsb) as Hk2.
  destruct (counted_kept p2 p' Hk2 (count_caches _ _ _ _ _ _ Ht)) as [Hc3 Ht3].
  assert (Eobs : observe p p' = observe p1 p2).
  { unfold observe. rewrite (kp_wb _ _ Hk2), (kp_mem _ _ Hk2), (kp_mem _ _ Hk1), Hm0. done. }
  rewrite Eobs. split_and!; [lia | lia | done].
Qed.

(** ** A run *)

Lemma count_run n s0 evs p m h tr p' m' h' : Inv forwardable p → marked s0 evs p → halted s0 evs p →
  run_cycles n p m h = Ret (tr, (p', m', h')) →
  counted p' = (counted p + executions tr)%nat ∧
  (ticked p + executions tr <= ticked p' <= ticked p + n)%nat ∧
  (halt p' = false → ticked p' = ticked p + n)%nat.
Proof.
  revert evs p m h tr. induction n as [|n IH]; intros evs p m h tr Hinv Hmk Hha Hr; cbn in Hr.
  { injection Hr as <- <- _ _. cbn. split_and!; lia. }
  destruct (halt p) eqn:Hh.
  { injection Hr as <- <- _ _. cbn. split_and!; [lia.. | congruence]. }
  apply bind_inv in Hr as ([[p1 m1] h1] & E & Hr). apply bind_inv in Hr as ([tr' s] & E' & Hr).
  injection Hr as <- ->. destruct (cycle_tick _ _ _ _ _ _ E) as (m2 & h2 & Et).
  destruct (tick_ok s0 evs p m h p1 m2 h2 Hinv Hh Hmk Et) as (Hi1 & _ & Hmk1 & Hha1).
  destruct (count_tick p m h p1 m2 h2 Hinv Et) as (Hc & Ht & Hle).
  destruct (IH _ p1 m1 h1 tr' Hi1 Hmk1 Hha1 E') as (Hc' & Ht' & Hh').
  rewrite executions_app. split_and!; [lia.. |]. intros Hp. specialize (Hh' Hp). lia.
Qed.

(** C22: The counters of the report mean what they say: after [n] cycles from a fresh
    processor the retired counter is the number of instructions of the trace that have left
    WB - all of them but those still in MEM and WB, bubbles and flushed instructions not
    counted; the tick counter is the number of cycles; and no more than one instruction per
    cycle is retired, so the reported IPC is at most one. *)
Theorem retire_count entry_pc l1i_cfg l1d_cfg l2_cfg predictor p0 n (m : M) h tr p' m' h' :
  Cpu.new_with_predictor entry_pc l1i_cfg l1d_cfg l2_cfg predictor = Ret p0 →
  run_cycles n p0 m h = Ret (tr, (p', m', h')) →
  executions tr = (inst_retire (hpm p') + live (mem_op p') + live (wb_op p'))%nat ∧
  (inst_retire (hpm p') <= total_ticked_cycle (hpm p') <= n)%nat ∧
  (halt p' = false → total_ticked_cycle (hpm p') = n).
Proof.
  intros Hn Hr. destruct (fresh_ok _ _ _ _ _ _ Hn) as (Hi & Hmk & Hh).
  assert (Hha : halted (initial entry_pc) [] p0) by (intros Ht; congruence).
  destruct (count_run n _ [] p0 m h tr p' m' h' Hi Hmk Hha Hr) as (Hc & Ht & Hf).
  assert (Hz : counted p0 = 0%nat ∧ ticked p0 = 0%nat).
  { unfold Cpu.new_with_predictor in Hn. apply bind_inv in Hn as (l2 & _ & Hn).
    apply bind_inv in Hn as (ic & _ & Hn). by apply bind_inv in Hn as (dc & _ & [= <-]). }
  destruct Hz as [Hz1 Hz2]. rewrite Hz1 in Hc. rewrite Hz2 in Ht, Hf.
  unfold counted, retired, ticked in *. split_and!; [lia..|]. intros Hp. by apply Hf in Hp.
Qed.

(** ** Multi-cycle instructions *)

Lemma resolve_countdown op p p' : resolve op p = Ret p' →
  int_mul_div_stall_countdown p' = int_mul_div_stall_countdown p.
Proof.
  unfold resolve. intros Hr. apply bind_inv in Hr as ([b|] & _ & Hr); [|by injection Hr as <-].
  apply bind_inv in Hr as (t & _ & Hr). apply bind_inv in Hr as (p1 & E1 & Hr). injection Hr as <-.
  destruct (Branch.needs_recovery b t); [|by injection E1 as <-].
  by apply bind_inv in E1 as (d & _ & [= <-]).
Qed.

(** C37: A multiplication or division stalls EXE for a single cycle, whatever its stall
    count: the cycle that finds it in EXE starts a countdown from that count, and the next
    one, finding a countdown under way, executes it and moves it to MEM although the count
    has not run out. *)
Theorem m_extension_single_stall p e n p1 :
  Execute.m_extension_stall (inst e) = Some n →
  exe_op p = Some e → mem_op p = None → int_mul_div_stall_countdown p = None →
  pipe_stage_exe p = Ret p1 →
  (exe_op p1 = Some e ∧ mem_op p1 = None ∧ int_mul_div_stall_countdown p1 = Some n) ∧
  ∀ q q' : PipelineProcessor RP P, exe_op q = Some e → mem_op q = None → is_Some (int_mul_div_stall_countdown q) →
    pipe_stage_exe q = Ret q' →
    exe_op q' = None ∧ is_Some (mem_op q') ∧ int_mul_div_stall_countdown q' = None.
Proof.
  intros Hn He Hm Hc Hp. assert (Hx : ∀ x, inst e ≠ Inst.Ecall x) by (intros x E; by rewrite E in Hn).
  split.
  - unfold pipe_stage_exe, count_down in Hp. rewrite Hc, Hm, He, Hn, Hc in Hp.
    destruct (inst e); first [by destruct (Hx _ eq_refl) | injection Hp as <-; split_and!; [exact He | exact Hm | reflexivity]].
  - intros q q' Heq Hmq [k Hk] Hq. unfold pipe_stage_exe in Hq.
    assert (Hcd : count_down q = with_countdown (Some (k - 1)%nat) q) by (unfold count_down; by rewrite Hk).
    rewrite Hcd in Hq. set (q0 := with_countdown _ q) in Hq.
    assert (E0 : mem_op q0 = None ∧ exe_op q0 = Some e ∧ is_Some (int_mul_div_stall_countdown q0))
      by (split_and!; [done..|by eexists]).
    clearbody q0. destruct E0 as (E1 & E2 & [c E3]). rewrite E1, E2, Hn, E3 in Hq.
    assert (Hrun : Cpu.execute_op e q0 = Ret q') by (by destruct (inst e); first [by destruct (Hx _ eq_refl) | exact Hq]).
    unfold Cpu.execute_op in Hrun. apply bind_inv in Hrun as ([y z] & _ & Hrun).
    apply bind_inv in Hrun as (q1 & Er & [= <-]). cbn [inst Op.with_alu_result] in Er. rewrite Hn in Er.
    apply resolve_countdown in Er. cbn. split_and!; [done | by eexists | exact Er].
Qed.
End stats.

#[local] Existing Instance Bimodal.predictor.
#[local] Existing Instance dev_profile.
Import Cpu.

Lemma retire_count_witness :
  ∃ (p' : PipelineProcessor Fifo.FifoRP Bimodal.Predictor) tr,
    (20 < length tr)%nat ∧
    executions tr = (inst_retire (hpm p') + live (mem_op p') + live (wb_op p'))%nat.
Proof.
  destruct (sum_cycles 20 100 sum_events_100) as (p0 & p' & i & d & l & m' & h' & tr & En & Er & Hl).
  exists p', tr. split; [exact Hl|].
  destruct (retire_count _ _ _ _ _ _ _ _ _ _ _ _ _ En Er) as [Hc _]. exact Hc.
Defined.

(** a multiplication waiting in EXE *)
Definition mul_waiting : exec (PipelineProcessor Fifo.FifoRP Bimodal.Predictor) :=
  match sum_start with
  | Ret p0 =>
      match raw_binary_to_inst (Asm.assemble (Asm.Arith Asm.MUL 8 7 7)) with
      | Ret i =>
          r ← Decode.decode (Op.fetched (Asm.assemble (Asm.Arith Asm.MUL 8 7 7)) i 0) (id_regs p0);
          match r with Ok e => mret (with_exe_op (Some e) p0) | Err _ => Panic PExplicit end
      | Panic k => Panic k
      end
  | Panic k => Panic k
  end.

Lemma mul_waiting_ok : match mul_waiting with
  | Ret p => match exe_op p, mem_op p, int_mul_div_stall_countdown p with
             | Some e, None, None => Execute.m_extension_stall (inst e) = Some 8%nat
             | _, _, _ => False
             end ∧ is_ret (pipe_stage_exe p) = true
  | Panic _ => False
  end.
Proof. vm_compute. by split. Qed.

Lemma m_extension_single_stall_witness : ∃ (p p1 : PipelineProcessor Fifo.FifoRP Bimodal.Predictor),
  pipe_stage_exe p = Ret p1 ∧ mem_op p1 = None ∧ int_mul_div_stall_countdown p1 = Some 8%nat.
Proof.
  pose proof mul_waiting_ok as Hw. destruct mul_waiting as [p|]; [|destruct Hw].
  destruct Hw as [Hw Hr]. destruct (exe_op p) as [e|] eqn:He; [|destruct Hw].
  destruct (mem_op p) eqn:Hm; [destruct Hw|].
  destruct (int_mul_div_stall_countdown p) eqn:Hc; [destruct Hw|].
  destruct (pipe_stage_exe p) as [p1|] eqn:Hp; [|discriminate Hr].
  exists p, p1. split; [exact eq_refl || exact Hp|].
  destruct (m_extension_single_stall p e 8 p1 Hw He Hm Hc Hp) as [(_ & H1 & H2) _].
  split; [exact H1 | exact H2].
Defined.
