(* ===== verification/Elf.v ===== *)
(** Loading a program: [simulator/src/sim/elf.rs].

    The [object] crate that parses the file is not part of the sources: [parse] is a
    parameter, and an [ObjectFile] holds what the crate's accessors answer about a file. *)
From S2P Require Import Prelude Word AbstractMem SimpleMem.
From stdpp Require Import base gmap numbers list.
From Stdlib Require Import Lia.
#[local] Open Scope Z_scope.
#[local] Coercion Z.of_nat : nat >-> Z.

(** [object::File], [object::Architecture] and [object::ObjectKind], as far as the loader
    tells their values apart *)
Inductive FileFormat := Elf32 | OtherFormat.
Inductive Architecture := Riscv32 | OtherArchitecture.
Inductive ObjectKind := Executable | OtherKind.

(** [seg.address()], [seg.size()] and [seg.data()] *)
Record Segment := { address : Z; size : Z; seg_data : option (list Z) }.

Record ObjectFile := {
  format : FileFormat;
  architecture : Architecture;
  kind : ObjectKind;
  is_little_endian : bool;
  segments : list Segment;
  entry : Z;
}.

Record ProgramInfo := { entry_pc : Z; prog_body : list Z }.

Module Elf.
Section loader.
Context `{Profile} (parse : list Z → option ObjectFile).

Definition MEM_SIZE : Z := 262144.

(** [prog[s..e].copy_from_slice(d)] *)
Definition copy (prog : list Z) (s e : Z) (d : list Z) : exec (list Z) :=
  if (s <=? e) && (e <=? length prog) && (length d =? e - s)
  then Ret (take (Z.to_nat s) prog ++ d ++ drop (Z.to_nat e) prog) else Panic PIndex.

(** one iteration of the loop over the segments *)
Definition load_segment (prog : list Z) (seg : Segment) : exec (list Z) :=
  bound ← word_add 64 (address seg) (size seg);
  _ ← assert_ (bound <? MEM_SIZE);
  let start_addr := address seg in
  end_addr ← word_add 64 (address seg) (size seg);
  data ← unwrap (seg_data seg);
  let seg_data_len := length data in
  len ← word_sub 64 end_addr start_addr;
  len_diff ← word_sub 64 len seg_data_len;
  if 0 <? len_diff then
    if (seg_data_len =? 0)%nat then
      copy prog start_addr end_addr (replicate (Z.to_nat (size seg)) 0)
    else
      mid ← word_add 64 start_addr seg_data_len;
      prog ← copy prog start_addr mid data;
      copy prog mid end_addr (replicate (Z.to_nat len_diff) 0)
  else copy prog start_addr end_addr data.

Fixpoint load_segments (prog : list Z) (segs : list Segment) : exec (list Z) :=
  match segs with
  | [] => mret prog
  | seg :: segs => prog ← load_segment prog seg; load_segments prog segs
  end.

(** [file] is the content of the file, [None] when it cannot be read *)
Definition elf_loader (file : option (list Z)) : exec ProgramInfo :=
  bytes ← unwrap file;
  object_parse ← unwrap (parse bytes);
  _ ← match format object_parse with Elf32 => Ret tt | _ => Panic PExplicit end;
  _ ← match architecture object_parse with Riscv32 => Ret tt | _ => Panic PExplicit end;
  _ ← match kind object_parse with Executable => Ret tt | _ => Panic PExplicit end;
  _ ← assert_ (is_little_endian object_parse);
  prog ← load_segments (replicate (Z.to_nat MEM_SIZE) 0) (segments object_parse);
  mret {| entry_pc := as_u32 (entry object_parse); prog_body := prog |}.
End loader.
End Elf.

(** * Specification *)

(** a segment that fits the memory, with no more data than its size *)
Definition segment_ok (seg : Segment) : Prop :=
  address seg + size seg < Elf.MEM_SIZE ∧ ∃ d, seg_data seg = Some d ∧ length d ≤ size seg.

(** a RISC-V executable as the loader wants it *)
Definition loadable (o : ObjectFile) : Prop :=
  format o = Elf32 ∧ architecture o = Riscv32 ∧ kind o = Executable ∧ is_little_endian o = true ∧
  Forall segment_ok (segments o).

(** the data of a segment, zero padded to its size *)
Definition padded (seg : Segment) : list Z :=
  let d := default [] (seg_data seg) in d ++ replicate (Z.to_nat (size seg) - length d) 0.
(** the segments laid over zeros, the later ones on top *)
Definition layout (segs : list Segment) : view :=
  foldl (λ v seg, view_write v (address seg) (padded seg)) (λ _, 0) segs.

(** the numbers of a file are those of 64-bit fields *)
Definition words (o : ObjectFile) : Prop :=
  Forall (λ seg, in_range 64 (address seg) ∧ in_range 64 (size seg) ∧
    ∀ d, seg_data seg = Some d → length d < 2 ^ 64) (segments o).

(** * Facts *)

Section facts.
Context `{Profile}.
Implicit Types (prog : list Z) (seg : Segment).

Lemma copy_inv prog s e d p : 0 ≤ s → Elf.copy prog s e d = Ret p →
  s ≤ e ≤ length prog ∧ length d = e - s :> Z ∧
  p = take (Z.to_nat s) prog ++ d ++ drop (Z.to_nat s + length d) prog.
Proof.
  intros Hs. unfold Elf.copy. destruct (Z.leb_spec s e), (Z.leb_spec e (length prog)),
    (Z.eqb_spec (length d) (e - s)); cbn; try done. intros [= <-]. split_and!; try done.
  do 3 f_equal. lia.
Qed.

Lemma copy_Ret prog s e d : 0 ≤ s → s ≤ e ≤ length prog → length d = e - s :> Z →
  Elf.copy prog s e d = Ret (take (Z.to_nat s) prog ++ d ++ drop (Z.to_nat s + length d) prog).
Proof.
  intros Hs He Hd. unfold Elf.copy.
  rewrite !(proj2 (Z.leb_le _ _)), (proj2 (Z.eqb_eq _ _)) by lia. cbn. do 4 f_equal. lia.
Qed.

Lemma length_padded seg d : seg_data seg = Some d → length d ≤ size seg →
  length (padded seg) = size seg :> Z.
Proof. intros E Hd. unfold padded. rewrite E. cbn. rewrite length_app, length_replicate. lia. Qed.

(** writing a segment over an image *)
Definition over prog seg : list Z :=
  take (Z.to_nat (address seg)) prog ++ padded seg ++
  drop (Z.to_nat (address seg) + length (padded seg)) prog.

(** two writes in a row are one *)
Lemma write_write {A} (l d1 d2 : list A) (a : nat) : (a + length d1 + length d2 <= length l)%nat →
  let l1 := take a l ++ d1 ++ drop (a + length d1) l in
  take (a + length d1) l1 ++ d2 ++ drop (a + length d1 + length d2) l1 =
    take a l ++ (d1 ++ d2) ++ drop (a + length (d1 ++ d2)) l.
Proof.
  intros Hl l1. subst l1. rewrite !(app_assoc (take a l)).
  assert (E : length (take a l ++ d1) = (a + length d1)%nat) by (rewrite length_app, length_take; lia).
  rewrite take_app_length' by done. rewrite drop_app_ge by lia.
  rewrite drop_drop, E, length_app, <- !app_assoc. do 4 f_equal. lia.
Qed.

Lemma load_segment_Ret prog seg : length prog = Elf.MEM_SIZE :> Z → 0 ≤ address seg → 0 ≤ size seg →
  segment_ok seg → Elf.load_segment prog seg = Ret (over prog seg).
Proof.
  intros Hl Ha Hs (Hb & d & Ed & Hd). pose proof (length_padded seg d Ed Hd) as Hp.
  assert (Hm : Elf.MEM_SIZE < 2 ^ 64) by done. unfold Elf.load_segment, word_add, word_sub.
  rewrite (narrow_Ret 64 (address seg + size seg)), !bind_Ret by (unfold in_range; lia).
  rewrite (proj2 (Z.ltb_lt _ _)) by done. cbn [assert_]. rewrite !bind_Ret, Ed. cbn [unwrap].
  rewrite bind_Ret, (narrow_Ret 64 (address seg + size seg - address seg)), bind_Ret by (unfold in_range; lia).
  rewrite (narrow_Ret 64 (_ - _ - length d)), bind_Ret by (unfold in_range; lia).
  unfold over, padded in *. rewrite Ed in *. cbn [from_option id] in *.
  replace (address seg + size seg - address seg - length d) with (size seg - length d) by lia.
  replace (Z.to_nat (size seg - length d)) with (Z.to_nat (size seg) - length d)%nat by lia.
  destruct (Z.ltb_spec 0 (size seg - length d)).
  - destruct (Nat.eqb_spec (length d) 0) as [E|E].
    + apply nil_length_inv in E as ->. cbn [length]. rewrite Nat.sub_0_r, app_nil_l.
      apply copy_Ret; rewrite ?length_replicate; lia.
    + rewrite narrow_Ret, bind_Ret by (unfold in_range; lia).
      rewrite copy_Ret, bind_Ret by lia.
      rewrite copy_Ret by (rewrite ?length_replicate, ?length_app, ?length_take, ?length_drop; lia).
      replace (Z.to_nat (address seg + length d)) with (Z.to_nat (address seg) + length d)%nat by lia.
      f_equal. rewrite <- (write_write prog d) by (rewrite length_replicate; lia). by rewrite length_replicate.
  - assert (Hz : (Z.to_nat (size seg) - length d)%nat = 0%nat) by lia.
    rewrite Hz. cbn [replicate]. rewrite app_nil_r. apply copy_Ret; lia.
Qed.

Lemma load_segment_inv prog seg p : length prog = Elf.MEM_SIZE :> Z →
  in_range 64 (address seg) → in_range 64 (size seg) →
  (∀ d, seg_data seg = Some d → length d < 2 ^ 64) →
  Elf.load_segment prog seg = Ret p → segment_ok seg.
Proof.
  intros Hl [Ha Ha'] [Hs Hs'] Hd Hp. unfold Elf.load_segment in Hp.
  apply bind_inv in Hp as (e & He & Hp). apply bind_inv in Hp as ([] & Hb%assert_inv & Hp).
  apply Z.ltb_lt in Hb. apply bind_inv in Hp as (e' & He' & Hp). rewrite He in He'. injection He' as <-.
  apply bind_inv in Hp as (d & Ed%unwrap_inv & Hp). specialize (Hd d Ed).
  apply bind_inv in Hp as (n & Hn & Hp). apply bind_inv in Hp as (diff & Hdiff & Hp).
  apply narrow_inv in He as [He [He0 _]]; [|lia]. apply narrow_inv in Hn as [Hn _]; [|lia].
  apply narrow_inv in Hdiff as [Hdiff [Hdiff0 _]]; [|lia].
  assert (Hsum : address seg ≤ e ∧ (0 < diff → address seg + length d ≤ e) ∧ length d < 2 ^ 64).
  { destruct (Z.ltb_spec 0 diff).
    - destruct (Nat.eqb_spec (length d) 0) as [E|E].
      + apply copy_inv in Hp as (? & _); [lia|done].
      + apply bind_inv in Hp as (mid & Hmid & Hp). apply narrow_inv in Hmid as [Hmid [? ?]]; [|lia].
        apply bind_inv in Hp as (prog' & E1 & Hp). apply copy_inv in E1 as (? & ? & ->); [|done].
        apply copy_inv in Hp as (? & _); [|lia]. lia.
    - apply copy_inv in Hp as (? & _); [lia|done]. }
  destruct Hsum as (Hae & Hpos & _).
  assert (He2 : e = address seg + size seg).
  { unfold wrap in He. destruct (Z_lt_ge_dec (address seg + size seg) (2 ^ 64)).
    - rewrite Z.mod_small in He by lia. done.
    - rewrite <- (Z_mod_plus_full _ (-1)), Z.mod_small in He by lia. lia. }
  clear He Hp. subst e. split; [lia|]. exists d. split; [done|].
  assert (Hn' : n = size seg) by (rewrite Hn; unfold wrap; rewrite Z.mod_small; lia).
  destruct (Z_lt_ge_dec 0 diff); [lia|]. assert (Hz : diff = 0) by lia.
  rewrite Hz, Hn' in Hdiff. symmetry in Hdiff. apply Z.mod_divide in Hdiff as [q Hq]; [|lia].
  assert (q = 0) by nia. lia.
Qed.

(** ** The image *)

Lemma length_over prog seg : length prog = Elf.MEM_SIZE :> Z → 0 ≤ address seg → segment_ok seg →
  length (over prog seg) = Elf.MEM_SIZE :> Z.
Proof.
  intros Hl Ha (Hb & d & Ed & Hd). pose proof (length_padded seg d Ed Hd).
  unfold over. rewrite length_write_slice; lia.
Qed.

(** an image with the contents [v] *)
Definition shows prog (v : view) : Prop := ∀ a, 0 ≤ a < Elf.MEM_SIZE → view_of prog a = v a.

Lemma over_view prog seg v : length prog = Elf.MEM_SIZE :> Z → 0 ≤ address seg → segment_ok seg →
  shows prog v → shows (over prog seg) (view_write v (address seg) (padded seg)).
Proof.
  intros Hl Ha (Hb & d & Ed & Hd) Hv a Hr. pose proof (length_padded seg d Ed Hd). unfold over.
  rewrite view_write_of by lia. rewrite Z2Nat.id by done. unfold view_write. by rewrite Hv.
Qed.

Lemma view_read_of_all prog v : length prog = Elf.MEM_SIZE :> Z → shows prog v →
  prog = view_read v 0 (length prog).
Proof.
  intros Hl Hv. symmetry. apply view_read_eq; [done|]. intros i Hi. rewrite <- Hv by lia. unfold view_of.
  rewrite (proj2 (Z.ltb_ge _ _)) by lia. f_equal. lia.
Qed.

(** the loop loads every segment, or panics *)
Lemma load_segments_spec segs prog v : length prog = Elf.MEM_SIZE :> Z →
  Forall (λ seg, in_range 64 (address seg) ∧ in_range 64 (size seg) ∧
    ∀ d, seg_data seg = Some d → length d < 2 ^ 64) segs →
  shows prog v →
  match Elf.load_segments prog segs with
  | Ret p => Forall segment_ok segs ∧ length p = Elf.MEM_SIZE :> Z ∧
      shows p (foldl (λ v seg, view_write v (address seg) (padded seg)) v segs)
  | Panic _ => ¬ Forall segment_ok segs
  end.
Proof.
  revert prog v. induction segs as [|seg segs IH]; intros prog v Hl Hw Hv; cbn; [by split_and!|].
  inversion_clear Hw as [|? ? (Ha & Hs & Hd) Hws].
  destruct (Elf.load_segment prog seg) as [p|] eqn:E.
  - pose proof (load_segment_inv prog seg p Hl Ha Hs Hd E) as Hok.
    rewrite (load_segment_Ret prog seg Hl ltac:(apply Ha) ltac:(apply Hs) Hok) in E. injection E as <-.
    rewrite bind_Ret. assert (Ha0 : 0 ≤ address seg) by apply Ha.
    specialize (IH (over prog seg) (view_write v (address seg) (padded seg))
      (length_over prog seg Hl Ha0 Hok) Hws (over_view prog seg v Hl Ha0 Hok Hv)).
    destruct (Elf.load_segments _ segs); [|by rewrite Forall_cons; intros [_ ?]].
    destruct IH as (? & ? & ?). split_and!; [by constructor | done..].
  - cbn. intros Hf. inversion_clear Hf as [|? ? Hok _].
    rewrite (load_segment_Ret prog seg Hl ltac:(apply Ha) ltac:(apply Hs) Hok) in E. done.
Qed.
(** the memory before the first segment *)
Lemma zeros_spec : length (replicate (Z.to_nat Elf.MEM_SIZE) 0) = Elf.MEM_SIZE :> Z ∧
  shows (replicate (Z.to_nat Elf.MEM_SIZE) 0) (λ _, 0).
Proof.
  assert (Hm : 0 ≤ Elf.MEM_SIZE) by (unfold Elf.MEM_SIZE; lia). unfold shows. generalize dependent Elf.MEM_SIZE.
  intros n Hn. split; [rewrite length_replicate; lia|]. intros a Ha. unfold view_of.
  rewrite (proj2 (Z.ltb_ge _ _)) by lia. apply lookup_total_replicate_2. lia.
Qed.
End facts.

(** the image of a file *)
Definition image (o : ObjectFile) : list Z := view_read (layout (segments o)) 0 (Z.to_nat Elf.MEM_SIZE).

Lemma elf_loader_spec `{Profile} (parse : list Z → option ObjectFile) (bytes : list Z) :
  (∀ o, parse bytes = Some o → words o) →
  match Elf.elf_loader parse (Some bytes) with
  | Ret info => ∃ o, parse bytes = Some o ∧ loadable o ∧
      entry_pc info = as_u32 (entry o) ∧
      prog_body info = image o
  | Panic _ => ∀ o, parse bytes = Some o → ¬ loadable o
  end.
Proof.
  intros Hw. unfold Elf.elf_loader. cbn [unwrap]. rewrite bind_Ret.
  destruct (parse bytes) as [o|] eqn:E; cbn [unwrap]; [|done]. rewrite bind_Ret.
  specialize (Hw o eq_refl). unfold loadable.
  destruct (format o) eqn:Ef; [rewrite bind_Ret | intros ? [= <-] (? & _); congruence].
  destruct (architecture o) eqn:Ea; [rewrite bind_Ret | intros ? [= <-] (_ & ? & _); congruence].
  destruct (kind o) eqn:Ek; [rewrite bind_Ret | intros ? [= <-] (_ & _ & ? & _); congruence].
  destruct (is_little_endian o) eqn:El; [cbn [assert_]; rewrite bind_Ret | intros ? [= <-] (_ & _ & _ & ? & _); congruence].
  destruct zeros_spec as [Hlz Hz].
  pose proof (load_segments_spec (segments o) _ (λ _, 0) Hlz Hw Hz) as Hs.
  clear Hlz Hz. revert Hs. generalize (Elf.load_segments (replicate (Z.to_nat Elf.MEM_SIZE) 0) (segments o)).
  intros loaded Hs. destruct loaded as [p|]; [rewrite bind_Ret | by intros ? [= <-] (_ & _ & _ & _ & ?)].
  destruct Hs as (Hok & Hlp & Hv). exists o. split_and!; [done..|]. cbn [prog_body].
  rewrite (view_read_of_all p _ Hlp Hv). unfold image, layout. f_equal. lia.
Qed.

Lemma elf_loader_Ret `{Profile} (parse : list Z → option ObjectFile) (bytes : list Z) o :
  (∀ o, parse bytes = Some o → words o) → parse bytes = Some o → loadable o →
  Elf.elf_loader parse (Some bytes) = Ret {| entry_pc := as_u32 (entry o); prog_body := image o |}.
Proof.
  intros Hw E Hl. pose proof (elf_loader_spec parse bytes Hw) as Hs.
  destruct (Elf.elf_loader _ _) as [[pc body]|]; [|by destruct (Hs o E)].
  destruct Hs as (o' & E' & _ & Epc & Eb). rewrite E in E'. injection E' as <-.
  cbn [entry_pc prog_body] in Epc, Eb. subst pc body. reflexivity.
Qed.

(** C21: Loading is exact, with or without overflow checks: the loader returns if and only
    if the file parses as a little-endian 32-bit RISC-V executable all of whose segments end
    below the memory size with no more data than their size, and panics otherwise; the image
    it returns has exactly the memory size and holds, over zeros, every segment's data
    followed by zeros up to its size, later segments on top of earlier ones; the entry point
    is truncated to 32 bits. *)
Theorem elf_loader_exact `{Profile} (parse : list Z → option ObjectFile) (bytes : list Z) :
  (∀ o, parse bytes = Some o → words o) →
  match Elf.elf_loader parse (Some bytes) with
  | Ret info => ∃ o, parse bytes = Some o ∧ loadable o ∧
      entry_pc info = as_u32 (entry o) ∧
      prog_body info = view_read (layout (segments o)) 0 (Z.to_nat Elf.MEM_SIZE)
  | Panic _ => ∀ o, parse bytes = Some o → ¬ loadable o
  end.
Proof.
  intros Hw. generalize (elf_loader_spec parse bytes Hw). unfold image.
  generalize (Elf.elf_loader parse (Some bytes)). intros r Hr. exact Hr.
Qed.

(** a program with a text segment and a zero-initialised segment *)
Definition small_object : ObjectFile := {|
  format := Elf32; architecture := Riscv32; kind := Executable; is_little_endian := true;
  segments := [{| address := 0; size := 4; seg_data := Some [115; 0; 0; 0] |};
               {| address := 8; size := 16; seg_data := Some [] |}];
  entry := 4294967296 |}.

#[local] Existing Instance dev_profile.

Lemma elf_loader_exact_witness :
  match Elf.elf_loader (λ _, Some small_object) (Some []) with
  | Ret info => ∃ o, Some small_object = Some o ∧ loadable o ∧
      entry_pc info = as_u32 (entry o) ∧
      prog_body info = view_read (layout (segments o)) 0 (Z.to_nat Elf.MEM_SIZE)
  | Panic _ => ∀ o, Some small_object = Some o → ¬ loadable o
  end.
Proof.
  apply (elf_loader_exact (λ _, Some small_object) []). intros o [= <-].
  repeat constructor; cbn; try lia; intros d [= <-]; cbn; lia.
Defined.
