(* ===== verification/Allocator.v ===== *)
(** The heap allocators of the guest runtime: [runtime/src/allocator.rs].

    An allocator is a record of [Cell]s, so an operation maps its state to the next one.
    Pointers and [usize] are 32 bits wide on the target. *)
From S2P Require Import Prelude Word.
From stdpp Require Import base numbers list relations.
From Stdlib Require Import Lia.
#[local] Open Scope Z_scope.
#[local] Coercion Z.of_nat : nat >-> Z.

(** [core::alloc::Layout] *)
Record Layout := { layout_size : Z; layout_align : Z }.

(** [null_mut()] *)
Definition null : Z := 0.

(** the allocator that never allocates *)
Module Dummp.
Definition init : unit := tt.
Definition alloc (_layout : Layout) : exec Z := mret null.
Definition dealloc (_ptr : Z) (_layout : Layout) : exec unit := Panic PExplicit.
End Dummp.

Record Allocator := { heap_start : Z; heap_end : Z; next : Z; num_alloc : Z }.

Module Bump.
Definition new : Allocator := {| heap_start := 0; heap_end := 0; next := 0; num_alloc := 0 |}.

Definition init (start end_ : Z) (a : Allocator) : Allocator :=
  {| heap_start := start; heap_end := end_; next := start; num_alloc := num_alloc a |}.

Section bump.
Context `{Profile}.

(** [next], or [next] rounded up *)
Definition alloc_start (a : Allocator) (layout : Layout) : exec Z :=
  let align := as_u32 (layout_align layout) in
  if align =? 0 then Panic PDivZero
  else if next a mod align =? 0 then mret (next a)
  else
    low ← word_sub 32 (next a) (next a mod align);
    word_add 32 low align.

Definition checked_add (w a b : Z) : option Z := if a + b <? 2 ^ w then Some (a + b) else None.

Definition alloc (a : Allocator) (layout : Layout) : exec (Z * Allocator) :=
  start ← alloc_start a layout;
  match checked_add 32 start (as_u32 (layout_size layout)) with
  | None => mret (null, a)
  | Some alloc_end =>
      if heap_end a <? alloc_end then mret (null, a)
      else
        n ← word_add 32 (num_alloc a) 1;
        mret (start, {| heap_start := heap_start a; heap_end := heap_end a; next := alloc_end;
                        num_alloc := n |})
  end.

Definition dealloc (a : Allocator) (_ptr : Z) (_layout : Layout) : exec Allocator :=
  if num_alloc a =? 0 then Panic PExplicit
  else
    n ← word_sub 32 (num_alloc a) 1;
    mret {| heap_start := heap_start a; heap_end := heap_end a;
            next := if n =? 0 then heap_start a else next a; num_alloc := n |}.
End bump.
End Bump.

(** * What the allocator promises *)

(** the documented contract of [Layout] and of [GlobalAlloc::alloc]: a power of two that the
    address space holds, and a size that is not zero *)
Definition layout_ok (l : Layout) : Prop :=
  (∃ k, 0 ≤ k ≤ 31 ∧ layout_align l = 2 ^ k) ∧ 0 < layout_size l < 2 ^ 31.

(** a block handed out: its address and its layout *)
Definition block : Type := Z * Layout.
Definition block_end (b : block) : Z := fst b + layout_size (snd b).
Definition disjoint_blocks (b c : block) : Prop := block_end b ≤ fst c ∨ block_end c ≤ fst b.
Definition aligned (b : block) : Prop := fst b mod layout_align (snd b) = 0.
Fixpoint apart (live : list block) : Prop :=
  match live with [] => True | b :: live => Forall (disjoint_blocks b) live ∧ apart live end.

(** a client of the allocator, with the blocks it holds: it gives back only those *)
Inductive client_step `{Profile} : Allocator * list block → Allocator * list block → Prop :=
  | step_alloc a live l ptr a' : layout_ok l → Bump.alloc a l = Ret (ptr, a') → ptr ≠ null →
      client_step (a, live) (a', (ptr, l) :: live)
  | step_null a live l a' : layout_ok l → Bump.alloc a l = Ret (null, a') →
      client_step (a, live) (a', live)
  | step_dealloc a pre b post a' : Bump.dealloc a (fst b) (snd b) = Ret a' →
      client_step (a, pre ++ b :: post) (a', pre ++ post).

(** * The invariant *)

Fixpoint total (live : list block) : Z :=
  match live with [] => 0 | b :: live => layout_size (snd b) + total live end.

Record heap_ok (start end_ : Z) (a : Allocator) (live : list block) : Prop := {
  ho_start : heap_start a = start;
  ho_end : heap_end a = end_;
  ho_next : start ≤ next a ≤ end_;
  ho_count : num_alloc a = length live;
  ho_blocks : Forall (λ b, layout_ok (snd b) ∧ aligned b ∧ start ≤ fst b ∧ block_end b ≤ next a) live;
  ho_apart : apart live;
  ho_total : total live ≤ next a - start;
}.

Section facts.
Context `{Profile}.

(** rounding up gives the next multiple *)
Definition round_up (n align : Z) : Z := if n mod align =? 0 then n else n - n mod align + align.

Lemma round_up_spec n k : 0 ≤ n → 0 ≤ k → let r := round_up n (2 ^ k) in
  r mod 2 ^ k = 0 ∧ n ≤ r < n + 2 ^ k.
Proof.
  intros Hn Hk r. assert (Hp : 0 < 2 ^ k) by (by apply Z.pow_pos_nonneg). subst r. unfold round_up.
  pose proof (Z.mod_pos_bound n (2 ^ k) Hp). destruct (Z.eqb_spec (n mod 2 ^ k) 0) as [E|E]; [lia|].
  split; [|lia]. pose proof (Z.div_mod n (2 ^ k)).
  replace (n - n mod 2 ^ k + 2 ^ k) with ((n / 2 ^ k + 1) * 2 ^ k) by lia. apply Z.mod_mul. lia.
Qed.

Lemma alloc_start_Ret a l k : 0 ≤ k ≤ 31 → layout_align l = 2 ^ k → 0 ≤ next a ≤ 2 ^ 31 →
  Bump.alloc_start a l = Ret (round_up (next a) (2 ^ k)).
Proof.
  intros Hk El Hn. assert (Hp : 0 < 2 ^ k) by (apply Z.pow_pos_nonneg; lia).
  assert (Hp' : 2 ^ k ≤ 2 ^ 31) by (apply Z.pow_le_mono_r; lia).
  unfold Bump.alloc_start. rewrite El, wrap_id by (unfold in_range; lia).
  rewrite (proj2 (Z.eqb_neq _ _)) by lia. unfold round_up.
  pose proof (Z.mod_pos_bound (next a) (2 ^ k) Hp). pose proof (Z.mod_le (next a) (2 ^ k)).
  destruct (Z.eqb_spec (next a mod 2 ^ k) 0); [done|]. unfold word_sub, word_add.
  rewrite narrow_Ret, bind_Ret by (unfold in_range; lia). apply narrow_Ret. unfold in_range. lia.
Qed.

Lemma total_nonneg live : Forall (λ b : block, 0 < layout_size b.2) live → length live ≤ total live.
Proof. induction 1 as [|b live Hb _ IH]; [done|]. cbn in *. lia. Qed.

Lemma apart_remove pre b post : apart (pre ++ b :: post) → apart (pre ++ post).
Proof.
  induction pre as [|c pre IH]; cbn; [by intros [_ ?]|].
  intros [Hc Hp]. split; [|by apply IH]. rewrite Forall_app, Forall_cons in Hc.
  rewrite Forall_app. tauto.
Qed.
Lemma total_app pre post : total (pre ++ post) = total pre + total post.
Proof. induction pre; cbn; lia. Qed.

Section inv.
Context (start end_ : Z) (Hse : 0 < start ≤ end_) (Hend : end_ ≤ 2 ^ 31).

Lemma count_bound a live : heap_ok start end_ a live → num_alloc a ≤ 2 ^ 31.
Proof using Hse Hend.
  intros [_ _ Hn Hc Hb _ Ht]. assert (length live ≤ total live); [|lia].
  apply total_nonneg. eapply Forall_impl; [exact Hb|]. intros b ([_ ?] & _). lia.
Qed.

(** what an allocation does: it fails when the rounded block does not fit, and otherwise
    hands out the rounded block *)
Lemma alloc_spec a live l k : heap_ok start end_ a live → 0 ≤ k ≤ 31 → layout_align l = 2 ^ k →
  0 < layout_size l < 2 ^ 31 →
  let s := round_up (next a) (2 ^ k) in
  Bump.alloc a l =
    if end_ <? s + layout_size l then Ret (null, a)
    else Ret (s, {| heap_start := start; heap_end := end_; next := s + layout_size l;
                    num_alloc := num_alloc a + 1 |}).
Proof using Hse Hend.
  intros Hok Hk El Hs s. destruct (Hok) as [Es Ee Hn Hc _ _ _]. unfold Bump.alloc.
  rewrite (alloc_start_Ret a l k) by (done || lia). rewrite bind_Ret. fold s.
  rewrite wrap_id by (unfold in_range; lia). unfold Bump.checked_add. rewrite Ee.
  destruct (Z.ltb_spec (s + layout_size l) (2 ^ 32)).
  - destruct (Z.ltb_spec end_ (s + layout_size l)); [done|]. unfold word_add.
    pose proof (count_bound a live Hok). rewrite narrow_Ret, bind_Ret by (unfold in_range; lia).
    by rewrite Es.
  - by rewrite (proj2 (Z.ltb_lt _ _)) by lia.
Qed.

Lemma step_ok a live a' live' : heap_ok start end_ a live → client_step (a, live) (a', live') →
  heap_ok start end_ a' live'.
Proof using Hse Hend.
  intros Hok Hst. inversion Hst as [? ? l ptr ? Hl Ha Hp|? ? l ? Hl Ha|? pre b post ? Hd]; subst.
  - destruct Hl as [(k & Hk & El) Hs]. pose proof (alloc_spec a live l k Hok Hk El Hs) as E.
    cbv zeta in E. rewrite Ha in E. destruct Hok as [Es Ee Hn Hc Hb Hap Ht].
    pose proof (round_up_spec (next a) k ltac:(lia) ltac:(lia)) as [Hm Hr].
    destruct (Z.ltb_spec end_ (round_up (next a) (2 ^ k) + layout_size l));
      [by injection E as -> ->|]. injection E as -> ->.
    constructor; cbn; try lia.
    + constructor; [|eapply Forall_impl; [exact Hb|]; intros b; cbn; intros (? & ? & ? & ?); split_and!; [done..|lia]].
      cbn. unfold block_end, aligned. cbn. rewrite El. split_and!; try lia. split; [by exists k|done].
    + split; [|done]. eapply Forall_impl; [exact Hb|]. intros b; cbn. intros (_ & _ & _ & ?).
      unfold disjoint_blocks. cbn. lia.
  - destruct Hl as [(k & Hk & El) Hs]. pose proof (alloc_spec a live' l k Hok Hk El Hs) as E.
    cbv zeta in E. rewrite Ha in E. destruct Hok as [Es Ee Hn Hc Hb Hap Ht].
    pose proof (round_up_spec (next a) k ltac:(lia) ltac:(lia)) as [Hm Hr].
    destruct (Z.ltb_spec end_ (round_up (next a) (2 ^ k) + layout_size l)); [by injection E as ->|].
    injection E as E _. unfold null in E. lia.
  - pose proof (count_bound a _ Hok) as Hcb. destruct Hok as [Es Ee Hn Hc Hb Hap Ht].
    unfold Bump.dealloc in Hd. rewrite length_app in Hc. cbn in Hc.
    rewrite (proj2 (Z.eqb_neq _ _)) in Hd by lia. unfold word_sub in Hd.
    rewrite narrow_Ret, bind_Ret in Hd by (unfold in_range; lia). injection Hd as <-.
    rewrite Forall_app, Forall_cons in Hb. destruct Hb as (Hb1 & ([_ Hsz] & _) & Hb2).
    rewrite total_app in Ht. cbn in Ht.
    destruct (Z.eqb_spec (num_alloc a - 1) 0) as [E|E].
    + assert (pre = [] ∧ post = []) as [-> ->] by (split; apply nil_length_inv; lia).
      constructor; cbn; try lia; done || by constructor.
    + constructor; cbn; try lia; [rewrite length_app; lia | by rewrite Forall_app | by eapply apart_remove |].
      rewrite total_app. lia.
Qed.

Lemma steps_ok s s' : rtc client_step s s' → heap_ok start end_ (fst s) (snd s) →
  heap_ok start end_ (fst s') (snd s').
Proof using Hse Hend.
  induction 1 as [|[a live] [a1 live1] [a2 live2] Hst _ IH]; [done|]. intros Hok. apply IH.
  by eapply step_ok.
Qed.
End inv.
End facts.

(** C23: The bump allocator is safe for every client that keeps to the contract of
    [GlobalAlloc]: from [init] on any heap in the lower half of the address space, after any
    sequence of allocations, failed allocations and deallocations the live blocks are
    aligned, inside the heap and pairwise disjoint, they are as many as the counter says -
    so giving one back never panics -, and a further allocation returns without a panic:
    null exactly when the next aligned block would pass the end of the heap. *)
Theorem bump_safe `{Profile} (start end_ : Z) (a : Allocator) (live : list block) :
  0 < start ≤ end_ → end_ ≤ 2 ^ 31 →
  rtc client_step (Bump.init start end_ Bump.new, []) (a, live) →
  Forall (λ b, aligned b ∧ start ≤ fst b ∧ block_end b ≤ end_) live ∧ apart live ∧
  (∀ b, b ∈ live → ∃ a', Bump.dealloc a (fst b) (snd b) = Ret a') ∧
  (∀ l, layout_ok l → ∃ ptr a', Bump.alloc a l = Ret (ptr, a') ∧
     (ptr = null ↔ end_ < round_up (next a) (layout_align l) + layout_size l)).
Proof.
  intros Hse Hend Hr. assert (Hok : heap_ok start end_ a live).
  { apply (steps_ok start end_ Hse Hend _ _ Hr). constructor; cbn; try lia; by constructor. }
  destruct (Hok) as [Es Ee Hn Hc Hb Hap Ht]. split_and!.
  - eapply Forall_impl; [exact Hb|]. intros b; cbn. intros (? & ? & ? & ?). split_and!; [done..|lia].
  - done.
  - intros b Hin. pose proof (count_bound start end_ Hse Hend a live Hok).
    apply list_elem_of_split in Hin as (pre & post & ->). rewrite length_app in Hc. cbn in Hc.
    unfold Bump.dealloc. rewrite (proj2 (Z.eqb_neq _ _)) by lia. unfold word_sub.
    rewrite narrow_Ret, bind_Ret by (unfold in_range; lia). by eexists.
  - intros l [(k & Hk & El) Hs]. rewrite El.
    rewrite (alloc_spec start end_ Hse Hend a live l k Hok Hk El Hs).
    pose proof (round_up_spec (next a) k ltac:(lia) ltac:(lia)) as [Hm Hr'].
    destruct (Z.ltb_spec end_ (round_up (next a) (2 ^ k) + layout_size l)).
    + by exists null, a.
    + eexists _, _. split; [done|]. unfold null. lia.
Qed.

#[local] Existing Instance dev_profile.

Lemma bump_safe_witness : ∃ a live, length live = 2%nat ∧
  rtc client_step (Bump.init 4096 20480 Bump.new, []) (a, live) ∧ apart live.
Proof.
  set (l1 := {| layout_size := 10; layout_align := 1 |}).
  set (l2 := {| layout_size := 16; layout_align := 8 |}).
  eexists _, [(4112, l2); (4096, l1)].
  assert (Hr : rtc client_step (Bump.init 4096 20480 Bump.new, [])
    ({| heap_start := 4096; heap_end := 20480; next := 4128; num_alloc := 2 |}, [(4112, l2); (4096, l1)])).
  { eapply rtc_l; [apply (step_alloc _ _ l1 4096); [|vm_compute; reflexivity|done]|].
    { split; [by exists 0 | cbn; lia]. }
    eapply rtc_l; [apply (step_alloc _ _ l2 4112); [|vm_compute; reflexivity|done]|].
    { split; [exists 3; cbn; lia | cbn; lia]. }
    apply rtc_refl. }
  split_and!; [done | exact Hr |].
  destruct (bump_safe 4096 20480 _ _ ltac:(lia) ltac:(lia) Hr) as (_ & Hap & _). exact Hap.
Defined.
