(* ===== verification/Sorting.v ===== *)
(** The sorting workloads of the guest: [runtime/bin/msort.rs] and [runtime/bin/qsort.rs].

    A vector is a list that the functions thread and update by index; [usize] is 32 bits
    wide on the target.  [T: Ord] is a type with a decidable total preorder. *)
From S2P Require Import Prelude Word.
From stdpp Require Import base numbers list sorting relations.
From Stdlib Require Import Lia.
#[local] Open Scope nat_scope.

Module Usize.
Section usize.
Context `{Profile}.

Definition add (a b : nat) : exec nat := r ← word_add 32 (Z.of_nat a) (Z.of_nat b); mret (Z.to_nat r).
Definition sub (a b : nat) : exec nat := r ← word_sub 32 (Z.of_nat a) (Z.of_nat b); mret (Z.to_nat r).

Lemma add_Ret a b : (Z.of_nat (a + b) < 2 ^ 32)%Z → add a b = Ret (a + b).
Proof.
  intros. unfold add, word_add. rewrite narrow_Ret, bind_Ret by (unfold in_range; lia).
  cbn. f_equal. lia.
Qed.
Lemma sub_Ret a b : b ≤ a → (Z.of_nat a < 2 ^ 32)%Z → sub a b = Ret (a - b).
Proof.
  intros. unfold sub, word_sub. rewrite narrow_Ret, bind_Ret by (unfold in_range; lia).
  cbn. f_equal. lia.
Qed.
End usize.
End Usize.

(** [vec[a..b].to_vec()] *)
Definition sub_vec {A} (vec : list A) (a b : nat) : exec (list A) :=
  if decide (a ≤ b ≤ length vec) then Ret (take (b - a) (drop a vec)) else Panic PIndex.
(** [vec.swap(i, j)] *)
Definition swap {A} (vec : list A) (i j : nat) : exec (list A) :=
  x ← index vec i; y ← index vec j; mret (<[j:=x]> (<[i:=y]> vec)).

(** * Merge sort *)

Module Msort.
Section msort.
Context `{Profile} {T : Type} (R : relation T) `{∀ x y, Decision (R x y)}.

(** [while i < left.len() && j < right.len() { .. }], which runs at most
    [left.len() + right.len()] times *)
Fixpoint merge_loop (fuel : nat) (left right : list T) (i j k : nat) (vec : list T)
    : exec (nat * nat * nat * list T) :=
  match fuel with
  | O => mret (i, j, k, vec)
  | S fuel =>
      if (i <? length left) && (j <? length right) then
        x ← index left i;
        y ← index right j;
        '(i, j, vec) ← (if decide (R x y)
                        then vec ← set_index vec k x; i ← Usize.add i 1; mret (i, j, vec)
                        else vec ← set_index vec k y; j ← Usize.add j 1; mret (i, j, vec));
        k ← Usize.add k 1;
        merge_loop fuel left right i j k vec
      else mret (i, j, k, vec)
  end.

(** [while i < left.len() { .. }], and the same for [right] *)
Fixpoint copy_loop (fuel : nat) (src : list T) (i k : nat) (vec : list T) : exec (nat * list T) :=
  match fuel with
  | O => mret (k, vec)
  | S fuel =>
      if i <? length src then
        x ← index src i;
        vec ← set_index vec k x;
        i ← Usize.add i 1;
        k ← Usize.add k 1;
        copy_loop fuel src i k vec
      else mret (k, vec)
  end.

Definition merge (vec : list T) (start mid end_ : nat) : exec (list T) :=
  left ← sub_vec vec start mid;
  right ← sub_vec vec mid end_;
  '(i, j, k, vec) ← merge_loop (length left + length right) left right 0 0 start vec;
  '(k, vec) ← copy_loop (length left) left i k vec;
  '(_, vec) ← copy_loop (length right) right j k vec;
  mret vec.

(** the range halves, so that its length is fuel enough *)
Fixpoint merge_sort_range (fuel : nat) (vec : list T) (start end_ : nat) : exec (list T) :=
  n ← Usize.sub end_ start;
  if n <=? 1 then mret vec
  else match fuel with
  | O => mret vec
  | S fuel =>
      mid ← Usize.add start (n / 2);
      vec ← merge_sort_range fuel vec start mid;
      vec ← merge_sort_range fuel vec mid end_;
      merge vec start mid end_
  end.

Definition merge_sort (vec : list T) : exec (list T) :=
  if length vec <=? 1 then mret vec
  else merge_sort_range (length vec) vec 0 (length vec).
End msort.
End Msort.

(** * Quick sort *)

Module Qsort.
Section qsort.
Context `{Profile} {T : Type} (R : relation T) `{∀ x y, Decision (R x y)}.

(** [for j in low..high { .. }] *)
Fixpoint partition_loop (js : list nat) (pivot : T) (i : nat) (vec : list T)
    : exec (nat * list T) :=
  match js with
  | [] => mret (i, vec)
  | j :: js =>
      x ← index vec j;
      if decide (R x pivot) then
        vec ← swap vec i j;
        i ← Usize.add i 1;
        partition_loop js pivot i vec
      else partition_loop js pivot i vec
  end.

Definition partition (vec : list T) (low high : nat) : exec (nat * list T) :=
  pivot ← index vec high;
  '(i, vec) ← partition_loop (seq low (high - low)) pivot low vec;
  vec ← swap vec i high;
  mret (i, vec).

(** both parts are shorter than the range, so that its length is fuel enough *)
Fixpoint quick_sort_range (fuel : nat) (vec : list T) (low high : nat) : exec (list T) :=
  if low <? high then
    match fuel with
    | O => mret vec
    | S fuel =>
        '(pivot_index, vec) ← partition vec low high;
        vec ← (if 0 <? pivot_index
               then p ← Usize.sub pivot_index 1; quick_sort_range fuel vec low p
               else mret vec);
        if pivot_index <? high
        then p ← Usize.add pivot_index 1; quick_sort_range fuel vec p high
        else mret vec
    end
  else mret vec.

Definition quick_sort (vec : list T) : exec (list T) :=
  if length vec <=? 1 then mret vec
  else high ← Usize.sub (length vec) 1; quick_sort_range (length vec) vec 0 high.
End qsort.
End Qsort.

(** * Lists in three parts *)

Section parts.
Context {A : Type}.
Implicit Types (P Q U : list A).

Lemma index_middle P Q x k : k = length P → index (P ++ x :: Q) k = Ret x.
Proof. intros ->. apply index_Ret. by rewrite lookup_app_r, Nat.sub_diag by lia. Qed.
Lemma index_app_l P Q k x : P !! k = Some x → index (P ++ Q) k = Ret x.
Proof. intros E. apply index_Ret. by apply lookup_app_l_Some. Qed.
Lemma set_middle P Q x y k : k = length P → set_index (P ++ x :: Q) k y = Ret (P ++ y :: Q).
Proof.
  intros ->. rewrite set_index_Ret by (rewrite length_app; cbn; lia).
  by rewrite <- (Nat.add_0_r (length P)), insert_app_r.
Qed.
Lemma insert_middle P Q x y k : k = length P → <[k:=y]> (P ++ x :: Q) = P ++ y :: Q.
Proof. intros ->. by rewrite <- (Nat.add_0_r (length P)), insert_app_r. Qed.
Lemma sub_vec_middle P Q U a b : a = length P → b = length P + length Q →
  sub_vec (P ++ Q ++ U) a b = Ret Q.
Proof.
  intros -> ->. unfold sub_vec. rewrite decide_True by (rewrite !length_app; lia).
  f_equal. rewrite drop_app_length' by done. apply take_app_length'. lia.
Qed.

(** swapping two places of a list *)
Lemma swap_parts P x Q y U i j : i = length P → j = length P + S (length Q) →
  swap (P ++ x :: Q ++ y :: U) i j = Ret (P ++ y :: Q ++ x :: U).
Proof.
  intros -> ->. unfold swap. rewrite (index_middle P (Q ++ y :: U) x (length P) eq_refl), bind_Ret.
  rewrite (app_comm_cons Q), (app_assoc P (x :: Q)).
  rewrite (index_middle (P ++ x :: Q) U y), bind_Ret by (rewrite length_app; cbn; lia).
  rewrite <- app_assoc, <- app_comm_cons, (insert_middle P (Q ++ y :: U)) by done.
  rewrite (app_comm_cons Q), (app_assoc P (y :: Q)).
  rewrite (insert_middle (P ++ y :: Q) U) by (rewrite length_app; cbn; lia).
  by rewrite <- app_assoc, <- app_comm_cons.
Qed.
Lemma swap_same P x U i : i = length P → swap (P ++ x :: U) i i = Ret (P ++ x :: U).
Proof.
  intros ->. unfold swap. rewrite index_middle, !bind_Ret by done. by rewrite !insert_middle.
Qed.
End parts.

(** * Merge sort sorts *)

Section merge_sort.
Context `{Profile} {T : Type} (R : relation T) `{∀ x y, Decision (R x y)}.
Implicit Types (l r P Q V : list T).

Lemma copy_loop_spec fuel src i P Q V : i ≤ length src → length src - i ≤ fuel →
  length Q = length src - i → (Z.of_nat (length src) < 2 ^ 32)%Z →
  (Z.of_nat (length (P ++ Q ++ V)) < 2 ^ 32)%Z →
  Msort.copy_loop fuel src i (length P) (P ++ Q ++ V) =
    Ret (length P + (length src - i), P ++ drop i src ++ V).
Proof.
  revert i P Q. induction fuel as [|fuel IH]; intros i P Q Hi Hf HQ Hs Hb; cbn [Msort.copy_loop].
  { assert (Q = []) as -> by (apply nil_length_inv; lia).
    rewrite drop_ge by lia. do 2 f_equal. lia. }
  destruct (Nat.ltb_spec i (length src)) as [Hlt|Hge].
  - destruct (lookup_lt_is_Some_2 src i Hlt) as [x Hx]. rewrite (index_Ret _ _ _ Hx), bind_Ret.
    destruct Q as [|q Q]; [cbn in HQ; lia|]. cbn in HQ. rewrite length_app in Hb. cbn in Hb.
    rewrite (set_middle P (Q ++ V) q), bind_Ret by done.
    rewrite !Usize.add_Ret, !bind_Ret by lia. rewrite cons_middle, (app_assoc P).
    replace (length P + 1) with (length (P ++ [x])) by (by rewrite length_app).
    rewrite IH by (rewrite ?length_app in *; cbn [length] in *; lia).
    rewrite (drop_S _ _ _ Hx), <- app_assoc, Nat.add_1_r, length_app. cbn [length]. do 2 f_equal. lia.
  - assert (Q = []) as -> by (apply nil_length_inv; lia).
    rewrite drop_ge by lia. do 2 f_equal. lia.
Qed.

(** the loop writes a prefix of the merge and leaves one of its lists used up *)
Lemma merge_loop_spec fuel l r i j P Q V :
  i ≤ length l → j ≤ length r → (length l - i) + (length r - j) ≤ fuel →
  length Q = (length l - i) + (length r - j) →
  (Z.of_nat (length l + length r) < 2 ^ 32)%Z → (Z.of_nat (length (P ++ Q ++ V)) < 2 ^ 32)%Z →
  ∃ i' j' M Q', Msort.merge_loop R fuel l r i j (length P) (P ++ Q ++ V) =
      Ret (i', j', length (P ++ M), (P ++ M) ++ Q' ++ V) ∧
    i' ≤ length l ∧ j' ≤ length r ∧ length Q' = (length l - i') + (length r - j') ∧
    length (M ++ Q') = length Q ∧
    list_merge R (drop i l) (drop j r) = M ++ drop i' l ++ drop j' r ∧
    (i' = length l ∨ j' = length r).
Proof.
  revert i j P Q. induction fuel as [|fuel IH]; intros i j P Q Hi Hj Hf HQ Hs Hb; cbn [Msort.merge_loop].
  { exists i, j, [], Q. rewrite app_nil_r. split_and!; try done; [|lia].
    rewrite !drop_ge by lia. done. }
  destruct (Nat.ltb_spec i (length l)) as [Hil|Hil].
  2: { exists i, j, [], Q. rewrite app_nil_r. split_and!; try done; [|lia].
       rewrite (drop_ge l) by lia. apply list_merge_nil_l. }
  destruct (Nat.ltb_spec j (length r)) as [Hjr|Hjr]; cbn [andb].
  2: { exists i, j, [], Q. rewrite app_nil_r. split_and!; try done; [|lia].
       rewrite (drop_ge r), app_nil_r by lia. apply list_merge_nil_r. }
  destruct (lookup_lt_is_Some_2 l i Hil) as [x Hx], (lookup_lt_is_Some_2 r j Hjr) as [y Hy].
  rewrite (index_Ret _ _ _ Hx), bind_Ret, (index_Ret _ _ _ Hy), bind_Ret.
  destruct Q as [|q Q]; [cbn in HQ; lia|]. cbn in HQ. rewrite length_app in Hb. cbn in Hb.
  rewrite (drop_S _ _ _ Hx), (drop_S _ _ _ Hy), list_merge_cons.
  assert (Hnext : ∀ i1 j1 z, i1 ≤ length l → j1 ≤ length r →
    i1 + j1 = i + j + 1 → ∃ i' j' M Q',
    Msort.merge_loop R fuel l r i1 j1 (length (P ++ [z])) ((P ++ [z]) ++ Q ++ V) =
      Ret (i', j', length (P ++ z :: M), (P ++ z :: M) ++ Q' ++ V) ∧
    i' ≤ length l ∧ j' ≤ length r ∧ length Q' = (length l - i') + (length r - j') ∧
    length ((z :: M) ++ Q') = S (length Q) ∧
    list_merge R (drop i1 l) (drop j1 r) = M ++ drop i' l ++ drop j' r ∧
    (i' = length l ∨ j' = length r)).
  { intros i1 j1 z H1 H2 H3.
    destruct (IH i1 j1 (P ++ [z]) Q) as (i' & j' & M & Q' & E & ? & ? & ? & Hl & ? & ?);
      [lia.. | rewrite !length_app in *; cbn [length] in *; lia |].
    exists i', j', M, Q'. rewrite <- (app_assoc P [z] M) in E.
    split_and!; [exact E | done.. | | done | done]. rewrite <- Hl. done. }
  assert (Hone : ∀ z, set_index (P ++ (q :: Q) ++ V) (length P) z = Ret ((P ++ [z]) ++ Q ++ V)).
  { intros z. rewrite <- app_comm_cons, set_middle by done. by rewrite cons_middle, app_assoc. }
  assert (Hk : Usize.add (length P) 1 = Ret (length (P ++ [x])) ∧
    Usize.add (length P) 1 = Ret (length (P ++ [y]))).
  { rewrite Usize.add_Ret by lia. by rewrite !length_app. }
  destruct Hk as [Hkx Hky]. rewrite (Hone x), (Hone y). destruct (decide (R x y)).
  - rewrite bind_Ret, (Usize.add_Ret i 1), !bind_Ret by lia. rewrite Hkx, bind_Ret.
    destruct (Hnext (i + 1) j x) as (i' & j' & M & Q' & ? & ? & ? & ? & ? & Em & ?); [lia..|].
    rewrite Nat.add_1_r, (drop_S r y j Hy) in Em.
    exists i', j', (x :: M), Q'. rewrite Em. by split_and!.
  - rewrite bind_Ret, (Usize.add_Ret j 1), !bind_Ret by lia. rewrite Hky, bind_Ret.
    destruct (Hnext i (j + 1) y) as (i' & j' & M & Q' & ? & ? & ? & ? & ? & Em & ?); [lia..|].
    rewrite Nat.add_1_r, (drop_S l x i Hx) in Em.
    exists i', j', (y :: M), Q'. rewrite Em. by split_and!.
Qed.

Lemma merge_spec P l r V : (Z.of_nat (length (P ++ l ++ r ++ V)) < 2 ^ 32)%Z →
  Msort.merge R (P ++ l ++ r ++ V) (length P) (length P + length l)
    (length P + length l + length r) = Ret (P ++ list_merge R l r ++ V).
Proof.
  intros Hb. rewrite !length_app in Hb. unfold Msort.merge.
  rewrite (sub_vec_middle P l (r ++ V) (length P) (length P + length l)), bind_Ret by done.
  rewrite (app_assoc P l), (sub_vec_middle (P ++ l) r V (length P + length l)), bind_Ret
    by (rewrite length_app; lia).
  rewrite <- app_assoc, (app_assoc l r).
  destruct (merge_loop_spec (length l + length r) l r 0 0 P (l ++ r) V)
    as (i & j & M & Q & E & Hi & Hj & HQ & HM & Em & Hend); [rewrite ?length_app; lia..|].
  rewrite E, bind_Ret. rewrite !drop_0 in Em. rewrite Em. rewrite !length_app in HM.
  destruct Hend as [-> | ->].
  - change (Q ++ V) with ([] ++ Q ++ V).
    rewrite (copy_loop_spec (length l) l (length l) (P ++ M) [] (Q ++ V)), bind_Ret by
      (rewrite ?length_app; cbn [length]; lia).
    rewrite Nat.sub_diag, Nat.add_0_r, drop_all, !app_nil_l.
    rewrite copy_loop_spec by (rewrite ?length_app; lia). rewrite bind_Ret.
    by rewrite <- !app_assoc.
  - rewrite (copy_loop_spec (length l) l i (P ++ M) Q V), bind_Ret by (rewrite ?length_app; lia).
    rewrite drop_all, app_nil_r. rewrite (app_assoc (P ++ M)).
    replace (length (P ++ M) + (length l - i)) with (length ((P ++ M) ++ drop i l))
      by (by rewrite length_app, length_drop).
    change (((P ++ M) ++ drop i l) ++ V) with (((P ++ M) ++ drop i l) ++ [] ++ V).
    rewrite (copy_loop_spec (length r) r (length r) ((P ++ M) ++ drop i l) [] V), bind_Ret by
      (rewrite ?length_app, ?length_drop; cbn [length]; lia).
    by rewrite drop_all, app_nil_l, <- !app_assoc.
Qed.

Lemma merge_sort_range_spec `{!Total R} fuel P Q V : length Q ≤ fuel →
  (Z.of_nat (length (P ++ Q ++ V)) < 2 ^ 32)%Z →
  ∃ Q', Msort.merge_sort_range R fuel (P ++ Q ++ V) (length P) (length P + length Q) =
      Ret (P ++ Q' ++ V) ∧ Sorted R Q' ∧ Q' ≡ₚ Q.
Proof.
  revert P Q V. induction fuel as [|fuel IH]; intros P Q V Hf Hb; cbn [Msort.merge_sort_range];
    rewrite !length_app in Hb; rewrite Usize.sub_Ret, bind_Ret by lia;
    replace (length P + length Q - length P) with (length Q) by lia.
  { destruct Q as [|x Q]; [|cbn in Hf; lia]. by exists []. }
  destruct (Nat.leb_spec (length Q) 1) as [Hs|Hs].
  { exists Q. split; [done|]. destruct Q as [|x [|y Q]]; [| |cbn in Hs; lia]; (split; [|done]); repeat constructor. }
  pose proof (Nat.div_lt (length Q) 2 ltac:(lia) ltac:(lia)) as Hd.
  pose proof (Nat.div_str_pos (length Q) 2 ltac:(lia)) as Hd'.
  rewrite Usize.add_Ret, bind_Ret by lia. set (n := length Q / 2) in *.
  assert (Hl : length (take n Q) = n) by (rewrite length_take; lia).
  assert (Hr : length (drop n Q) = length Q - n) by (rewrite length_drop; lia).
  replace (P ++ Q ++ V) with (P ++ take n Q ++ drop n Q ++ V)
    by (by rewrite (app_assoc (take n Q)), take_drop).
  destruct (IH P (take n Q) (drop n Q ++ V)) as (L & E1 & HL & HpL);
    [lia | rewrite !length_app; lia |].
  rewrite Hl in E1. rewrite E1, bind_Ret. pose proof (Permutation_length HpL) as HlL.
  destruct (IH (P ++ L) (drop n Q) V) as (Rr & E2 & HR & HpR);
    [lia | rewrite !length_app; lia |].
  rewrite length_app, HlL, Hl in E2. rewrite <- app_assoc in E2.
  replace (length P + n + length (drop n Q)) with (length P + length Q) in E2 by lia.
  rewrite E2, bind_Ret. pose proof (Permutation_length HpR) as HlR.
  rewrite <- app_assoc.
  replace (length P + n) with (length P + length L) by lia.
  replace (length P + length Q) with (length P + length L + length Rr) by lia.
  rewrite merge_spec by (rewrite !length_app; lia).
  exists (list_merge R L Rr). split_and!; [done | by apply Sorted_list_merge |].
  rewrite merge_Permutation, HpL, HpR. by rewrite take_drop.
Qed.
End merge_sort.

(** C34: Merge sort sorts: for every total order, every vector the address space can hold
    and either build profile, the in-place, index-based merge sort terminates without a panic
    and leaves a sorted permutation of the vector. *)
Theorem merge_sort_sorts `{Profile} {T} (R : relation T) `{∀ x y, Decision (R x y)} `{!Total R}
    (vec : list T) :
  (Z.of_nat (length vec) < 2 ^ 32)%Z →
  ∃ vec', Msort.merge_sort R vec = Ret vec' ∧ Sorted R vec' ∧ vec' ≡ₚ vec.
Proof.
  intros Hb. unfold Msort.merge_sort. destruct (Nat.leb_spec (length vec) 1) as [Hs|Hs].
  - exists vec. split; [done|]. destruct vec as [|x [|y l]]; [| |cbn in Hs; lia]; (split; [|done]); repeat constructor.
  - destruct (merge_sort_range_spec R (length vec) [] vec []) as (v & E & HS & HP);
      [done | by rewrite app_nil_r |].
    rewrite !app_nil_l, !app_nil_r in E. by exists v.
Qed.

(** * Quick sort sorts *)

Section quick_sort.
Context `{Profile} {T : Type} (R : relation T) `{∀ x y, Decision (R x y)}.
Implicit Types (L G P Q M V : list T).

(** the part [L] below the pivot, then the part [G] above it, then what is to be scanned *)
Lemma partition_loop_spec pivot P L G M V :
  (Z.of_nat (length (P ++ L ++ G ++ M ++ V)) < 2 ^ 32 - 1)%Z →
  Forall (λ x, R x pivot) L → Forall (λ x, ¬ R x pivot) G →
  ∃ L' G', Qsort.partition_loop R (seq (length P + length L + length G) (length M)) pivot
      (length P + length L) (P ++ L ++ G ++ M ++ V) = Ret (length P + length L', P ++ L' ++ G' ++ V) ∧
    L' ++ G' ≡ₚ L ++ G ++ M ∧ Forall (λ x, R x pivot) L' ∧ Forall (λ x, ¬ R x pivot) G'.
Proof.
  revert L G. induction M as [|x M IH]; intros L G Hb HL HG.
  { exists L, G. cbn. split_and!; try done. by rewrite app_nil_r. }
  rewrite !length_app in Hb. cbn [length] in Hb.
  cbn [length seq Qsort.partition_loop].
  replace (P ++ L ++ G ++ (x :: M) ++ V) with ((P ++ L ++ G) ++ x :: M ++ V)
    by (by rewrite <- !app_assoc).
  rewrite index_middle, bind_Ret by (rewrite !length_app; lia).
  destruct (decide (R x pivot)) as [Hx|Hx].
  - assert (Hsw : ∃ G', swap ((P ++ L ++ G) ++ x :: M ++ V) (length P + length L)
        (length P + length L + length G) = Ret (P ++ (L ++ [x]) ++ G' ++ M ++ V) ∧ G' ≡ₚ G).
    { destruct G as [|g G].
      - exists []. split; [|done]. cbn [length]. rewrite Nat.add_0_r, app_nil_r.
        rewrite swap_same by (by rewrite length_app). by rewrite <- !app_assoc.
      - exists (G ++ [g]). split; [|by rewrite Permutation_app_comm].
        rewrite (app_assoc P L), <- (app_assoc (P ++ L)), <- app_comm_cons.
        rewrite swap_parts by (rewrite length_app; cbn [length]; lia).
        by rewrite <- !app_assoc. }
    destruct Hsw as (G' & -> & HpG). rewrite bind_Ret, Usize.add_Ret, bind_Ret by lia.
    pose proof (Permutation_length HpG) as HlG.
    destruct (IH (L ++ [x]) G') as (L1 & G1 & E & Hp & H1 & H2).
    + rewrite !length_app. cbn [length]. lia.
    + rewrite Forall_app. split; [done|]. by constructor.
    + by rewrite HpG.
    + rewrite length_app, HlG in E. cbn [length] in E.
      replace (length P + (length L + 1) + length G) with (S (length P + length L + length G)) in E by lia.
      rewrite Nat.add_assoc in E. exists L1, G1. split_and!; [exact E| |done..].
      rewrite Hp, HpG, <- !app_assoc. cbn. by rewrite (Permutation_middle G M x).
  - destruct (IH L (G ++ [x])) as (L1 & G1 & E & Hp & H1 & H2).
    + rewrite !length_app. cbn [length]. lia.
    + done.
    + rewrite Forall_app. split; [done|]. by constructor.
    + rewrite length_app in E. cbn [length] in E. rewrite Nat.add_assoc, Nat.add_1_r in E.
      replace ((P ++ L ++ G) ++ x :: M ++ V) with (P ++ L ++ (G ++ [x]) ++ M ++ V)
        by (by rewrite <- !app_assoc).
      exists L1, G1. split_and!; [exact E| |done..]. rewrite Hp, <- !app_assoc. done.
Qed.

Lemma partition_spec P Q pivot V : (Z.of_nat (length (P ++ Q ++ pivot :: V)) < 2 ^ 32 - 1)%Z →
  ∃ L G, Qsort.partition R (P ++ Q ++ pivot :: V) (length P) (length P + length Q) =
      Ret (length P + length L, P ++ L ++ pivot :: G ++ V) ∧
    L ++ G ≡ₚ Q ∧ Forall (λ x, R x pivot) L ∧ Forall (λ x, ¬ R x pivot) G.
Proof.
  intros Hb. unfold Qsort.partition.
  rewrite (app_assoc P Q), index_middle, bind_Ret, <- app_assoc by (by rewrite length_app).
  replace (length P + length Q - length P) with (length Q) by lia.
  destruct (partition_loop_spec pivot P [] [] Q (pivot :: V)) as (L & G & E & Hp & HL & HG); [done..|].
  cbn [length app] in E. rewrite !Nat.add_0_r in E. rewrite E, bind_Ret.
  pose proof (Permutation_length Hp) as Hl. rewrite !length_app in Hl. cbn [length] in Hl.
  assert (Hsw : ∃ G', swap (P ++ L ++ G ++ pivot :: V) (length P + length L) (length P + length Q) =
      Ret (P ++ L ++ pivot :: G' ++ V) ∧ G' ≡ₚ G).
  { destruct G as [|g G].
    - exists []. split; [|done]. cbn [length] in Hl. replace (length Q) with (length L) by lia.
      cbn [app]. rewrite (app_assoc P L), swap_same by (by rewrite length_app). by rewrite <- app_assoc.
    - exists (G ++ [g]). split; [|by rewrite Permutation_app_comm]. cbn [length] in Hl.
      rewrite (app_assoc P L), <- app_comm_cons.
      rewrite swap_parts by (rewrite length_app; lia). by rewrite <- !app_assoc. }
  destruct Hsw as (G' & -> & HpG). rewrite bind_Ret. exists L, G'.
  split_and!; [done | by rewrite HpG, Hp | done | by rewrite HpG].
Qed.

Lemma quick_sort_noop fuel vec low high : high ≤ low → Qsort.quick_sort_range R fuel vec low high = Ret vec.
Proof.
  intros Hle. destruct fuel; cbn [Qsort.quick_sort_range]; by rewrite (proj2 (Nat.ltb_ge _ _)).
Qed.

Lemma sorted_around `{!Total R} `{!Transitive R} L pivot G : Sorted R L → Sorted R G →
  Forall (λ x, R x pivot) L → Forall (λ x, ¬ R x pivot) G → Sorted R (L ++ pivot :: G).
Proof.
  intros HL%Sorted_StronglySorted HG%Sorted_StronglySorted HLp HGp; [|done..].
  assert (Hpg : Forall (R pivot) G).
  { eapply Forall_impl; [exact HGp|]. intros x Hx. by destruct (total R pivot x). }
  apply StronglySorted_Sorted, StronglySorted_app_2; [|done|by constructor].
  rewrite Forall_forall in HLp, Hpg. intros x y Hx [->|Hy]%elem_of_cons; [by apply HLp|].
  transitivity pivot; [by apply HLp | by apply Hpg].
Qed.

Lemma quick_sort_range_spec `{!Total R} `{!Transitive R} fuel P Q V : length Q ≤ fuel → Q ≠ [] →
  (Z.of_nat (length (P ++ Q ++ V)) < 2 ^ 32 - 1)%Z →
  ∃ Q', Qsort.quick_sort_range R fuel (P ++ Q ++ V) (length P) (length P + length Q - 1) =
      Ret (P ++ Q' ++ V) ∧ Sorted R Q' ∧ Q' ≡ₚ Q.
Proof.
  revert P Q V. induction fuel as [|fuel IH]; intros P Q V Hf HQ Hb.
  { destruct Q; [done|]. cbn in Hf. lia. }
  destruct (decide (length Q = 1)) as [H1|H1].
  { exists Q. rewrite quick_sort_noop by lia. destruct Q as [|x [|]]; try done. split_and!; [done| |done]. repeat constructor. }
  destruct Q as [|pivot Q _] using rev_ind; [done|]. clear HQ.
  rewrite !length_app in *. cbn [length] in *.
  replace (length P + (length Q + 1) - 1) with (length P + length Q) by lia.
  cbn [Qsort.quick_sort_range]. rewrite (proj2 (Nat.ltb_lt _ _)) by lia.
  rewrite <- app_assoc. cbn [app].
  destruct (partition_spec P Q pivot V) as (L & G & E & Hp & HL & HG);
    [rewrite !length_app; cbn [length]; lia|].
  rewrite E, bind_Ret. pose proof (Permutation_length Hp) as Hl. rewrite length_app in Hl.
  assert (Hleft : ∃ L', (if 0 <? length P + length L
      then p ← Usize.sub (length P + length L) 1;
           Qsort.quick_sort_range R fuel (P ++ L ++ pivot :: G ++ V) (length P) p
      else mret (P ++ L ++ pivot :: G ++ V)) = Ret (P ++ L' ++ pivot :: G ++ V) ∧
    Sorted R L' ∧ L' ≡ₚ L).
  { destruct (Nat.ltb_spec 0 (length P + length L)) as [Hpos|Hpos].
    - rewrite Usize.sub_Ret, bind_Ret by lia. destruct L as [|x L].
      + exists []. cbn [length]. rewrite quick_sort_noop by lia. split_and!; [done|constructor|done].
      + destruct (IH P (x :: L) (pivot :: G ++ V)) as (L' & ? & ? & ?); [lia | done | | by exists L'].
        rewrite !length_app. cbn [length] in *. rewrite length_app. lia.
    - exists []. destruct L; [|cbn in Hpos; lia]. split_and!; [done|constructor|done]. }
  destruct Hleft as (L' & -> & HsL & HpL). rewrite bind_Ret.
  pose proof (Permutation_length HpL) as HlL.
  assert (Hright : ∃ G', (if length P + length L <? length P + length Q
      then p ← Usize.add (length P + length L) 1;
           Qsort.quick_sort_range R fuel (P ++ L' ++ pivot :: G ++ V) p (length P + length Q)
      else mret (P ++ L' ++ pivot :: G ++ V)) = Ret (P ++ L' ++ pivot :: G' ++ V) ∧
    Sorted R G' ∧ G' ≡ₚ G).
  { destruct (Nat.ltb_spec (length P + length L) (length P + length Q)) as [Hlt|Hge].
    - rewrite Usize.add_Ret, bind_Ret by lia.
      destruct (IH (P ++ L' ++ [pivot]) G V) as (G' & EG & ? & ?);
        [lia | intros ->; cbn in Hl; lia | rewrite !length_app; cbn [length]; lia |].
      rewrite !length_app in EG. cbn [length] in EG.
      replace (length P + (length L' + 1)) with (length P + length L + 1) in EG by lia.
      replace (length P + length L + 1 + length G - 1) with (length P + length Q) in EG by lia.
      rewrite <- !app_assoc in EG. by exists G'.
    - exists []. destruct G; [|cbn in Hl; lia]. split_and!; [done|constructor|done]. }
  destruct Hright as (G' & -> & HsG & HpG). exists (L' ++ pivot :: G'). split_and!.
  - by rewrite <- app_assoc.
  - apply sorted_around; [done..| |]; [by rewrite HpL | by rewrite HpG].
  - rewrite HpL, HpG, <- Hp. by rewrite <- Permutation_middle, <- Permutation_cons_append.
Qed.
End quick_sort.

(** C35: Quick sort sorts: for every total preorder and every vector the address space can
    hold, the in-place quick sort with the last element as the pivot terminates without a
    panic (no index underflows when the pivot lands at either end) and leaves a sorted
    permutation of the vector. *)
Theorem quick_sort_sorts `{Profile} {T} (R : relation T) `{∀ x y, Decision (R x y)} `{!Total R}
    `{!Transitive R} (vec : list T) :
  (Z.of_nat (length vec) < 2 ^ 32 - 1)%Z →
  ∃ vec', Qsort.quick_sort R vec = Ret vec' ∧ Sorted R vec' ∧ vec' ≡ₚ vec.
Proof.
  intros Hb. unfold Qsort.quick_sort. destruct (Nat.leb_spec (length vec) 1) as [Hs|Hs].
  - exists vec. split; [done|]. destruct vec as [|x [|y l]]; [| |cbn in Hs; lia]; (split; [|done]); repeat constructor.
  - rewrite Usize.sub_Ret, bind_Ret by lia.
    destruct (quick_sort_range_spec R (length vec) [] vec []) as (v & E & HS & HP);
      [done | intros ->; cbn in Hs; lia | by rewrite app_nil_r |].
    rewrite !app_nil_l, !app_nil_r in E. by exists v.
Qed.

#[local] Existing Instance dev_profile.

(** the numbers that the programs sort *)
Definition msort_numbers : list nat := [64; 34; 25; 12; 22; 11; 90; 88; 76; 50; 42].

Lemma merge_sort_sorts_witness :
  ∃ vec', Msort.merge_sort (≤) msort_numbers = Ret vec' ∧ Sorted (≤) vec' ∧ vec' ≡ₚ msort_numbers.
Proof. apply (merge_sort_sorts (≤) msort_numbers). cbn. lia. Defined.

Lemma quick_sort_sorts_witness :
  ∃ vec', Qsort.quick_sort (≤) msort_numbers = Ret vec' ∧ Sorted (≤) vec' ∧ vec' ≡ₚ msort_numbers.
Proof. apply (quick_sort_sorts (≤) msort_numbers). cbn. lia. Defined.
