(* ===== verification/Workloads.v ===== *)
(** The arithmetic workloads of the guest: [runtime/bin/matmul.rs] and
    [runtime/bin/factorial.rs].  An [i32] is a [Z] in the signed range. *)
From S2P Require Import Prelude Word.
From stdpp Require Import base numbers list.
From Stdlib Require Import Lia Factorial.
#[local] Open Scope Z_scope.
#[local] Coercion Z.of_nat : nat >-> Z.

(** * Factorial *)

Module Fact.
Section fact.
Context `{Profile}.

Definition word_mul (w a b : Z) : exec Z := narrow w (a * b).

(** [factorial(n)], by recursion on [n] *)
Fixpoint factorial (n : nat) : exec Z :=
  match n with
  | O => mret 0
  | S O => mret 1
  | S m => r ← factorial m; word_mul 32 n r
  end.
End fact.
End Fact.

(** * Matrix multiplication *)

Module I32.
Section i32.
Context `{Profile}.
(** [a + b] and [a * b] on [i32] *)
Definition narrow (z : Z) : exec Z :=
  if (- 2 ^ 31 <=? z) && (z <? 2 ^ 31) then Ret z
  else if overflow_checks then Panic POverflow else Ret (as_i32 (as_u32 z)).
Definition add (a b : Z) : exec Z := narrow (a + b).
Definition mul (a b : Z) : exec Z := narrow (a * b).
End i32.
End I32.

(** [for x in xs { body }] *)
Fixpoint for_each {A S} (xs : list A) (body : A → S → exec S) (s : S) : exec S :=
  match xs with
  | [] => mret s
  | x :: xs => s ← body x s; for_each xs body s
  end.

Abbreviation matrix := (list (list Z)).

Module Matmul.
Section matmul.
Context `{Profile}.

Definition generate_large_matrix (size : nat) : exec matrix :=
  '(m, _) ← for_each (seq 0 size) (λ _ '(m, counter),
    '(row, counter) ← for_each (seq 0 size) (λ _ '(row, counter),
      c ← I32.add counter 1; mret (row ++ [counter], c)) ([], counter);
    mret (m ++ [row], counter)) ([], 1);
  mret m.

(** [result[i][j] += a[i][k] * b[k][j]] *)
Definition accumulate (a b : matrix) (i j k : nat) (result : matrix) : exec matrix :=
  ra ← index a i; x ← index ra k;
  rb ← index b k; y ← index rb j;
  p ← I32.mul x y;
  row ← index result i; v ← index row j;
  s ← I32.add v p;
  row ← set_index row j s;
  set_index result i row.

Definition matrix_multiply (a b : matrix) : exec (option matrix) :=
  match a, b with
  | [], _ | _, [] => mret None
  | a0 :: _, b0 :: _ =>
      if negb (length a0 =? length b)%nat then mret None
      else
        let rows_a := length a in
        let cols_a := length a0 in
        let cols_b := length b0 in
        let result := replicate rows_a (replicate cols_b 0) in
        result ← for_each (seq 0 rows_a) (λ i,
          for_each (seq 0 cols_b) (λ j,
            for_each (seq 0 cols_a) (λ k, accumulate a b i j k))) result;
        mret (Some result)
  end.
End matmul.
End Matmul.

(** * Facts *)

(** the matrix of [n] rows and [p] columns with the entries [f] *)
Definition mat (n p : nat) (f : nat → nat → Z) : matrix :=
  (λ i, f i <$> seq 0 p) <$> seq 0 n.

(** the first [k] products of row [i] with column [j] *)
Fixpoint dot (fa fb : nat → nat → Z) (i j k : nat) : Z :=
  match k with O => 0 | S k => dot fa fb i j k + fa i k * fb k j end.
(** their sizes *)
Fixpoint weight (fa fb : nat → nat → Z) (i j k : nat) : Z :=
  match k with O => 0 | S k => weight fa fb i j k + Z.abs (fa i k * fb k j) end.

Section facts.
Context `{Profile}.

Lemma factorial_spec (n : nat) : (0 < n)%nat →
Fact.factorial n =
  if fact n <? 2 ^ 32 then Ret (Z.of_nat (fact n))
  else if overflow_checks then Panic POverflow else Ret (as_u32 (fact n)).
Proof.
  destruct n as [|n]; [lia|]. intros _. induction n as [|n IH]; [done|].
  change (Fact.factorial (S (S n))) with (r ← Fact.factorial (S n); Fact.word_mul 32 (S (S n)) r).
  rewrite IH. change (fact (S (S n))) with (S (S n) * fact (S n))%nat. rewrite Nat2Z.inj_mul.
  pose proof (lt_O_fact (S n)). set (m := fact (S n)) in *. clearbody m.
  unfold Fact.word_mul, narrow.
  destruct (Z.ltb_spec m (2 ^ 32)) as [Hm|Hm].
  - rewrite bind_Ret. rewrite (proj2 (Z.leb_le 0 _)) by lia. done.
  - rewrite (proj2 (Z.ltb_ge (S (S n) * m) _)) by nia. destruct overflow_checks; [done|].
    rewrite bind_Ret. assert (E : as_u32 (S (S n) * as_u32 m) = as_u32 (S (S n) * m)).
    { unfold wrap. by rewrite Z.mul_mod_idemp_r. }
    destruct (_ && _) eqn:Eb; [|by rewrite E].
    apply andb_true_iff in Eb as [E1%Z.leb_le E2%Z.ltb_lt]. rewrite <- E.
    rewrite (wrap_id 32 (S (S n) * as_u32 m)) by (split; lia). done.
Qed.

Lemma for_each_seq {S} (st : nat → S) (body : nat → S → exec S) a n :
  (∀ t, (a <= t < a + n)%nat → body t (st t) = Ret (st (Datatypes.S t))) →
  for_each (seq a n) body (st a) = Ret (st (a + n)%nat).
Proof.
  revert a. induction n as [|n IH]; intros a Hb; cbn; [by rewrite Nat.add_0_r|].
  rewrite Hb, bind_Ret by lia. rewrite IH by (intros; apply Hb; lia). do 2 f_equal. lia.
Qed.

Lemma mat_ext n p f g : (∀ i j, (i < n)%nat → (j < p)%nat → f i j = g i j) → mat n p f = mat n p g.
Proof.
  intros E. apply list_fmap_ext. intros i x [-> Hi]%lookup_seq.
  apply list_fmap_ext. intros j y [-> Hj]%lookup_seq. by apply E.
Qed.

Lemma mat_cons n p f : (0 < n)%nat → ∃ l, mat n p f = (f 0%nat <$> seq 0 p) :: l.
Proof. destruct n; [lia|]. intros _. by eexists. Qed.
Lemma length_mat n p f : length (mat n p f) = n.
Proof. unfold mat. by rewrite length_fmap, length_seq. Qed.
Lemma index_mat n p f i : (i < n)%nat → index (mat n p f) i = Ret (f i <$> seq 0 p).
Proof. intros. apply index_Ret. unfold mat. by rewrite list_lookup_fmap, lookup_seq_lt. Qed.
Lemma index_row p (g : nat → Z) j : (j < p)%nat → index (g <$> seq 0 p) j = Ret (g j).
Proof. intros. apply index_Ret. by rewrite list_lookup_fmap, lookup_seq_lt. Qed.
Lemma set_row {B} p (g : nat → B) j v : (j < p)%nat →
  set_index (g <$> seq 0 p) j v = Ret ((λ j', if decide (j' = j) then v else g j') <$> seq 0 p).
Proof.
  intros Hj. rewrite set_index_Ret by (by rewrite length_fmap, length_seq). f_equal.
  apply list_eq. intros k. destruct (decide (k < p)%nat).
  - rewrite list_lookup_fmap, lookup_seq_lt by done. cbn. destruct (decide (k = j)) as [->|].
    + rewrite list_lookup_insert_eq; [done|]. by rewrite length_fmap, length_seq.
    + rewrite list_lookup_insert_ne by done. by rewrite list_lookup_fmap, lookup_seq_lt.
  - rewrite !lookup_ge_None_2; [done|..]; rewrite ?length_insert, length_fmap, length_seq; lia.
Qed.

Lemma i32_Ret z : Z.abs z < 2 ^ 31 → I32.narrow z = Ret z.
Proof.
  intros. unfold I32.narrow. by rewrite (proj2 (Z.leb_le _ _)), (proj2 (Z.ltb_lt _ _)) by lia.
Qed.

Lemma dot_weight fa fb i j k : Z.abs (dot fa fb i j k) ≤ weight fa fb i j k.
Proof. induction k as [|k IH]; cbn; lia. Qed.
Lemma weight_mono fa fb i j k k' : (k <= k')%nat → weight fa fb i j k ≤ weight fa fb i j k'.
Proof. induction 1; cbn; lia. Qed.

(** the generated matrix counts from one, row by row *)
Lemma generate_row_spec (n : nat) c : - 2 ^ 31 < c → c + n < 2 ^ 31 →
  for_each (seq 0 n) (λ _ '(row, counter), c ← I32.add counter 1; mret (row ++ [counter], c)) ([], c) =
    Ret ((λ j : nat, c + j) <$> seq 0 n, c + n).
Proof.
  intros Hc Hn. pose proof (for_each_seq (λ t, ((λ j : nat, c + j) <$> seq 0 t, c + t))
    (λ _ '(row, counter), c ← I32.add counter 1; mret (row ++ [counter], c)) 0 n) as E.
  cbv beta in E. change ((λ j : nat, c + j) <$> seq 0 0) with ([] : list Z) in E.
  rewrite Z.add_0_r in E. apply E. intros t Ht.
  unfold I32.add. rewrite i32_Ret, bind_Ret by lia.
  rewrite seq_S, fmap_app. cbn. do 2 f_equal. lia.
Qed.

Lemma generate_spec (n : nat) : n * n + 1 < 2 ^ 31 →
  Matmul.generate_large_matrix n = Ret (mat n n (λ i j, i * n + 1 + j)).
Proof.
  intros Hn. unfold Matmul.generate_large_matrix.
  pose proof (for_each_seq (λ t, (mat t n (λ i j, i * n + 1 + j), t * n + 1)) (λ _ '(m, counter),
    '(row, counter) ← for_each (seq 0 n) (λ _ '(row, counter),
      c ← I32.add counter 1; mret (row ++ [counter], c)) ([], counter);
    mret (m ++ [row], counter)) 0 n) as E.
  cbv beta in E. change ((mat 0 n (λ i j : nat, i * n + 1 + j), 0%nat * n + 1)) with (([] : matrix), 1) in E.
  rewrite E; [done|]. intros t Ht. rewrite generate_row_spec by nia. rewrite bind_Ret.
  unfold mat. rewrite seq_S, fmap_app. cbn. do 2 f_equal. lia.
Qed.

Section multiply.
Context (fa fb : nat → nat → Z) (n m p : nat).
Context (Hfit : ∀ i j, (i < n)%nat → (j < p)%nat → weight fa fb i j m < 2 ^ 31).

(** the entries when [k] products of entry [(i, j)] have been added *)
Definition entries (i j k i' j' : nat) : Z :=
  if decide (i' < i ∨ i' = i ∧ j' < j)%nat then dot fa fb i' j' m
  else if decide (i' = i ∧ j' = j) then dot fa fb i j k else 0.

Lemma accumulate_spec i j k : (i < n)%nat → (j < p)%nat → (k < m)%nat →
  Matmul.accumulate (mat n m fa) (mat m p fb) i j k (mat n p (entries i j k)) =
    Ret (mat n p (entries i j (S k))).
Proof using Hfit.
  intros Hi Hj Hk. unfold Matmul.accumulate, I32.add, I32.mul.
  rewrite (index_mat n m), bind_Ret, index_row, bind_Ret by done.
  rewrite (index_mat m p), bind_Ret, index_row, bind_Ret by done.
  pose proof (Hfit i j Hi Hj) as Hw. pose proof (weight_mono fa fb i j (S k) m Hk) as Hm.
  pose proof (dot_weight fa fb i j (S k)) as Hd. cbn [dot weight] in Hm, Hd.
  pose proof (dot_weight fa fb i j k) as Hd'.
  rewrite i32_Ret, bind_Ret by lia. rewrite index_mat, bind_Ret, index_row, bind_Ret by done.
  assert (E : entries i j k i j = dot fa fb i j k).
  { unfold entries. rewrite decide_False by lia. by rewrite decide_True. }
  rewrite E, i32_Ret, bind_Ret by lia. rewrite set_row, bind_Ret by done.
  unfold mat at 1. rewrite set_row by done. f_equal. apply list_fmap_ext. intros i' x [-> Hi']%lookup_seq.
  cbn. unfold entries. destruct (decide (i' = i)) as [->|Hne].
  - apply list_fmap_ext. intros j' y [-> Hj']%lookup_seq. cbn. destruct (decide (j' = j)) as [->|].
    + by rewrite decide_False, decide_True by lia.
    + repeat case_decide; (done || lia).
  - apply list_fmap_ext. intros j' y [-> Hj']%lookup_seq. cbn. repeat case_decide; (done || lia).
Qed.

Lemma entries_next_col i j : mat n p (entries i j m) = mat n p (entries i (S j) 0).
Proof.
  apply mat_ext. intros i' j' _ _. unfold entries.
  repeat case_decide; try done; try lia; by destruct_and!; subst.
Qed.
Lemma entries_next_row i : mat n p (entries i p 0) = mat n p (entries (S i) 0 0).
Proof.
  apply mat_ext. intros i' j' _ Hj. unfold entries. repeat case_decide; (done || lia).
Qed.

Lemma multiply_spec : (0 < n)%nat → (0 < m)%nat →
  Matmul.matrix_multiply (mat n m fa) (mat m p fb) =
    Ret (Some (mat n p (λ i j, dot fa fb i j m))).
Proof using Hfit.
  intros Hn Hm. unfold Matmul.matrix_multiply.
  destruct (mat_cons n m fa Hn) as [ta Ea], (mat_cons m p fb Hm) as [tb Eb].
  rewrite Ea, Eb. cbv beta iota. rewrite <- Ea, <- Eb.
  rewrite !length_mat, !length_fmap, !length_seq, Nat.eqb_refl. cbn [negb].
  assert (Hz : replicate n (replicate p 0) = mat n p (entries 0 0 0)).
  { symmetry. apply list_eq. intros i. destruct (decide (i < n)%nat).
    - unfold mat. rewrite list_lookup_fmap, lookup_seq_lt, lookup_replicate_2 by done. cbn. f_equal.
      apply list_eq. intros j. destruct (decide (j < p)%nat).
      + rewrite list_lookup_fmap, lookup_seq_lt, lookup_replicate_2 by done. cbn. f_equal.
        unfold entries. repeat case_decide; try done; try lia; by destruct_and!; subst.
      + rewrite !lookup_ge_None_2; [done|..]; rewrite ?length_replicate, ?length_fmap, ?length_seq; lia.
    - rewrite !lookup_ge_None_2; [done|..]; rewrite ?length_replicate, ?length_mat; lia. }
  rewrite Hz. rewrite (for_each_seq (λ i, mat n p (entries i 0 0))).
  - rewrite bind_Ret. cbn. do 2 f_equal. apply mat_ext. intros i j Hi Hj. unfold entries.
    repeat case_decide; (done || lia).
  - intros i Hi. rewrite <- entries_next_row.
    rewrite (for_each_seq (λ j, mat n p (entries i j 0))); [done|]. intros j Hj.
    rewrite <- entries_next_col. rewrite (for_each_seq (λ k, mat n p (entries i j k))); [done|].
    intros k Hk. apply accumulate_spec; lia.
Qed.
End multiply.
End facts.

(** C36: Matrix multiplication is exact: for every non-empty [n] by [m] and [m] by [p]
    matrix whose sums of absolute products fit an [i32], the triple loop over indices returns
    the product matrix without an out-of-range index or an overflow, in either profile. *)
Theorem matrix_multiply_exact `{Profile} (fa fb : nat → nat → Z) (n m p : nat) :
  (0 < n)%nat → (0 < m)%nat →
  (∀ i j, (i < n)%nat → (j < p)%nat → weight fa fb i j m < 2 ^ 31) →
  Matmul.matrix_multiply (mat n m fa) (mat m p fb) = Ret (Some (mat n p (λ i j, dot fa fb i j m))).
Proof. intros Hn Hm Hfit. by apply multiply_spec. Qed.

(** C38: [factorial] computes the factorial of every positive number whose factorial fits 32
    bits, and beyond that panics with overflow checks and wraps without; on zero it returns
    zero, which is not 0! = 1. *)
Theorem factorial_exact `{Profile} (n : nat) :
Fact.factorial n =
  if (n =? 0)%nat then Ret 0
  else if fact n <? 2 ^ 32 then Ret (Z.of_nat (fact n))
  else if overflow_checks then Panic POverflow else Ret (as_u32 (fact n)).
Proof.
  destruct (Nat.eqb_spec n 0) as [->|]; [done|]. apply factorial_spec. lia.
Qed.

#[local] Existing Instance dev_profile.

Lemma matrix_multiply_exact_witness :
  Matmul.matrix_multiply (mat 2 2 (λ i j, i + j)) (mat 2 2 (λ i j, i - j)) =
    Ret (Some (mat 2 2 (λ i j, dot (λ i j, i + j) (λ i j, i - j) i j 2))).
Proof.
  apply matrix_multiply_exact; [lia | lia |]. intros i j Hi Hj.
  destruct i as [|[|i]]; [| |lia]; (destruct j as [|[|j]]; [| |lia]); cbn; lia.
Defined.
