(* ===== verification/Guest.v ===== *)
(** The guest's start-up and console: [runtime/src/lib.rs] and [basic_io.rs], and the [main]
    of every program under [runtime/bin].

    A guest program is a function of a [World]: the system calls made so far, the volatile
    writes of the start-up and the heap's allocator.  It returns, panics, or is ended by an
    ECALL.  Text is a list of [char]s.  A vector is its block and its elements: every
    allocation and deallocation the sources ask for (the vectors, the copies that a merge
    makes, the rows of the matrices, the drops at the end of a scope) is a call of the global
    allocator, in the order of the sources, and an allocation it refuses panics.  What the
    blocks hold is the elements, not bytes of a memory.  The linker's symbols and the texts
    that [core] and [alloc] give panics are parameters. *)
From S2P Require Import Prelude Word Uop Pipe Allocator Sorting Workloads.
From Stdlib Require Import Lia Ascii String.
From stdpp Require Import base numbers list sets strings pretty.
#[local] Open Scope Z_scope.

Abbreviation text := (list Z).

(** the characters of an ASCII literal *)
Definition chars (s : string) : text := (λ c, Z.of_N (N_of_ascii c)) <$> list_ascii_of_string s.
Definition newline : text := [10].

(** * Guest programs *)

Record World := { syscalls : list (Z * Z); volatile : list (Z * Z); allocator : Allocator }.

Definition record_call (a0 a1 : Z) (w : World) : World :=
  {| syscalls := syscalls w ++ [(a0, a1)]; volatile := volatile w; allocator := allocator w |}.
Definition write_volatile (a v : Z) (w : World) : World :=
  {| syscalls := syscalls w; volatile := volatile w ++ [(a, v)]; allocator := allocator w |}.
Definition with_allocator (al : Allocator) (w : World) : World :=
  {| syscalls := syscalls w; volatile := volatile w; allocator := al |}.

(** the world a program starts in.  [ALLOCATOR] is a static in .bss, whose initial value
    [Bump.new] is all zeros: clearing the section leaves it. *)
Definition boot : World := {| syscalls := []; volatile := []; allocator := Bump.new |}.

Inductive outcome (A : Type) :=
  | Returned (a : A)
  | Panicked (message : text)
  | Terminated.
Arguments Returned {A} a. Arguments Panicked {A} message. Arguments Terminated {A}.

Definition guest (A : Type) : Type := World → outcome A * World.

#[export] Instance guest_ret : MRet guest := λ A a w, (Returned a, w).
#[export] Instance guest_bind : MBind guest := λ A B f m w,
  match m w with
  | (Returned a, w) => f a w
  | (Panicked s, w) => (Panicked s, w)
  | (Terminated, w) => (Terminated, w)
  end.

Definition modify (f : World → World) : guest () := λ w, (Returned tt, f w).
Definition panic_with {A} (s : text) : guest A := λ w, (Panicked s, w).

(** * System calls and the console *)

(** ECALL: the processor halts on a0 = 0 and otherwise goes on, with no other effect *)
Definition ecall (reg_a0 reg_a1 : Z) : guest () := λ w,
  (if reg_a0 =? 0 then Terminated else Returned tt, record_call reg_a0 reg_a1 w).

Definition __internal_syscall (reg_a0 reg_a1 : Z) : guest () := ecall reg_a0 reg_a1.

Definition platform_outb (single_char : Z) : guest () := __internal_syscall 1 single_char.

Module Stdout.
(** [for c in s.chars() { platform_outb(c); }] *)
Fixpoint write_chars (s : text) : guest () :=
  match s with [] => mret tt | c :: s => _ ← platform_outb c; write_chars s end.
Definition write_str (s : text) : guest (Result () ()) := _ ← write_chars s; mret (Ok tt).
End Stdout.

(** [write!(Stdout, ..)] writes the pieces of the format one after the other, up to the first
    error; [writeln!] adds a line feed *)
Fixpoint write_fmt (pieces : list text) : guest (Result () ()) :=
  match pieces with
  | [] => mret (Ok tt)
  | s :: pieces =>
      r ← Stdout.write_str s;
      match r with Ok _ => write_fmt pieces | Err e => mret (Err e) end
  end.
Definition writeln_fmt (pieces : list text) : guest (Result () ()) := write_fmt (pieces ++ [newline]).

(** [{}] on an integer, [{:3}], and [{:?}] on a vector and on a string with no character to
    escape *)
Definition display (z : Z) : text := chars (pretty z).
Definition display_width (n : nat) (z : Z) : text :=
  replicate (n - List.length (display z)) 32 ++ display z.
Fixpoint separated (ts : list text) : text :=
  match ts with [] => [] | [t] => t | t :: ts => t ++ chars ", " ++ separated ts end.
Definition debug_vec (ts : list text) : text := chars "[" ++ separated ts ++ chars "]".
Definition debug_str (s : text) : text := [34] ++ s ++ [34].

Section programs.
(** the text that [core] gives a panic of each kind, and the one that [alloc] gives the panic
  of an allocation of so many bytes that failed *)
Context `{Profile} (message : panic → text) (oom : Z → text).

Definition lift {A} (m : exec A) : guest A :=
  match m with Ret a => mret a | Panic p => panic_with (message p) end.
(** [Result::unwrap] *)
Definition unwrap_result {A E} (r : Result A E) : guest A :=
  match r with Ok a => mret a | Err _ => panic_with (message PUnwrap) end.

(** * Start-up *)

Definition exit_success : guest Empty_set :=
  _ ← __internal_syscall 0 0;
  panic_with (message PUnreachable).

Definition terminate : guest Empty_set := exit_success.

(** [bss_range.for_each(|a| *a = 0)] *)
Fixpoint zero_bytes (range : list Z) : guest () :=
  match range with [] => mret tt | a :: range => _ ← modify (write_volatile a 0); zero_bytes range end.

(** the symbols of the linker script *)
Record Symbols := { bss_start : Z; bss_end : Z; sym_heap_start : Z; sym_heap_end : Z }.

Definition start (l : Symbols) {A} (main : guest A) : guest Empty_set :=
  let bss_range := seqZ (bss_start l) (bss_end l - bss_start l) in
  _ ← zero_bytes bss_range;
  _ ← modify (λ w, with_allocator (Bump.init (sym_heap_start l) (sym_heap_end l) (allocator w)) w);
  _ ← main;
  terminate.

(** the panic handler *)
Definition panic_handler (info_message : text) : guest Empty_set :=
  _ ← writeln_fmt [chars "Panicked! "; info_message];
  terminate.

(** a program runs from [start], and a panic runs the handler *)
Definition run_program (l : Symbols) {A} (main : guest A) : guest Empty_set := λ w,
  match start l main w with
  | (Panicked s, w) => panic_handler s w
  | r => r
  end.

(** * The heap *)

(** [alloc::alloc::alloc] and [dealloc] on the global allocator; a block of no bytes is
    never asked for, and a null answer is the panic of [handle_alloc_error] *)
Definition alloc_block (layout : Layout) : guest Z := λ w,
  if layout_size layout =? 0 then (Returned (layout_align layout), w)
  else match Bump.alloc (allocator w) layout with
       | Ret (ptr, al) =>
           if ptr =? null then (Panicked (oom (layout_size layout)), with_allocator al w)
           else (Returned ptr, with_allocator al w)
       | Panic p => (Panicked (message p), w)
       end.
Definition free_block (ptr : Z) (layout : Layout) : guest () := λ w,
  if layout_size layout =? 0 then (Returned tt, w)
  else match Bump.dealloc (allocator w) ptr layout with
       | Ret al => (Returned tt, with_allocator al w)
       | Panic p => (Panicked (message p), w)
       end.

(** a [Vec]: its block and its elements; those of the programs are of word-aligned types of
    4 ([i32]), 8 ([&str]) or 12 bytes ([Vec]) *)
Record Vec (A : Type) := { vec_ptr : Z; vec_layout : Layout; elems : list A }.
Arguments vec_ptr {A}. Arguments vec_layout {A}. Arguments elems {A}.
Definition array_layout (size_of : Z) (n : nat) : Layout :=
  {| layout_size := size_of * Z.of_nat n; layout_align := 4 |}.

Definition with_capacity {A} (size_of : Z) (n : nat) : guest (Vec A) :=
  ptr ← alloc_block (array_layout size_of n);
  mret {| vec_ptr := ptr; vec_layout := array_layout size_of n; elems := [] |}.
(** the elements of a vector replaced in place *)
Definition holding {A} (v : Vec A) (xs : list A) : Vec A :=
  {| vec_ptr := vec_ptr v; vec_layout := vec_layout v; elems := xs |}.
(** [vec![..]], and [to_vec] and [clone] of the same elements *)
Definition vec_of {A} (size_of : Z) (xs : list A) : guest (Vec A) :=
  v ← with_capacity size_of (List.length xs); mret (holding v xs).
Definition drop_vec {A} (v : Vec A) : guest () := free_block (vec_ptr v) (vec_layout v).

(** * The programs *)

Fixpoint for_each_guest {A} (xs : list A) (body : A → guest ()) : guest () :=
  match xs with [] => mret tt | x :: xs => _ ← body x; for_each_guest xs body end.
(** a loop that changes its state *)
Fixpoint fold_guest {A S} (xs : list A) (body : A → S → guest S) (s : S) : guest S :=
  match xs with [] => mret s | x :: xs => s ← body x s; fold_guest xs body s end.

Definition hello_main : guest () :=
  _ ← writeln_fmt [chars "Hello, World!"]; mret tt.

(** the loop consumes the vector, which is dropped when it ends *)
Definition print_nums : list Z := [-100; 20; 124; 33; 123; 12; 01].
Definition print_nums_main : guest () :=
  nums ← vec_of 4 print_nums;
  _ ← for_each_guest (elems nums) (λ i, _ ← writeln_fmt [display i]; mret tt);
  drop_vec nums.

Definition factorial_main : guest (Result () ()) :=
  n ← lift (Fact.factorial 20);
  r ← writeln_fmt [chars "The result of factorial(20) is "; display n];
  match r with Ok _ => mret (Ok tt) | Err e => mret (Err e) end.

(** ** Merge sort, with the copies that a merge makes *)

Definition merge (vec : list Z) (start mid end_ : nat) : guest (list Z) :=
  l ← lift (sub_vec vec start mid);
  left ← vec_of 4 l;
  r ← lift (sub_vec vec mid end_);
  right ← vec_of 4 r;
  vec ← lift ('(i, j, k, vec) ← Msort.merge_loop Z.le
                (List.length (elems left) + List.length (elems right))
                (elems left) (elems right) 0 0 start vec;
              '(k, vec) ← Msort.copy_loop (List.length (elems left)) (elems left) i k vec;
              '(_, vec) ← Msort.copy_loop (List.length (elems right)) (elems right) j k vec;
              mret vec);
  _ ← drop_vec right;
  _ ← drop_vec left;
  mret vec.

Fixpoint merge_sort_range (fuel : nat) (vec : list Z) (start end_ : nat) : guest (list Z) :=
  n ← lift (Usize.sub end_ start);
  if (n <=? 1)%nat then mret vec
  else match fuel with
  | O => mret vec
  | S fuel =>
      mid ← lift (Usize.add start (n / 2));
      vec ← merge_sort_range fuel vec start mid;
      vec ← merge_sort_range fuel vec mid end_;
      merge vec start mid end_
  end.

Definition merge_sort (vec : Vec Z) : guest (Vec Z) :=
  let n := List.length (elems vec) in
  if (n <=? 1)%nat then mret vec
  else xs ← merge_sort_range n (elems vec) 0 n; mret (holding vec xs).

Definition msort_vec : list Z := [64; 34; 25; 12; 22; 11; 90; 88; 76; 50; 42].
Definition msort_main : guest () :=
  numbers ← vec_of 4 msort_vec;
  r ← writeln_fmt [chars "Before sorting: "; debug_vec (display <$> elems numbers)];
  _ ← unwrap_result r;
  numbers ← merge_sort numbers;
  r ← writeln_fmt [chars "After sorting: "; debug_vec (display <$> elems numbers)];
  _ ← unwrap_result r;
  drop_vec numbers.

(** ** Quick sort, which moves the elements in place *)

(** the order of [&str]: the code points, lexicographically *)
Fixpoint text_leb (s t : text) : bool :=
  match s, t with
  | [], _ => true
  | _ :: _, [] => false
  | a :: s, b :: t => (a <? b) || ((a =? b) && text_leb s t)
  end.
Definition text_le (s t : text) : Prop := Is_true (text_leb s t).
#[export] Instance text_le_dec s t : Decision (text_le s t) := Is_true_dec _.

Definition quick_sort {T} (R : T → T → Prop) `{∀ x y, Decision (R x y)} (vec : Vec T) : guest (Vec T) :=
  xs ← lift (Qsort.quick_sort R (elems vec)); mret (holding vec xs).

Definition qsort_vec : list Z := [64; 34; 25; 12; 22; 11; 90].
Definition words : list text := chars <$> ["banana"; "apple"; "cherry"; "date"]%string.
Definition qsort_main : guest () :=
  numbers ← vec_of 4 qsort_vec;
  _ ← writeln_fmt [chars "Before: "; debug_vec (display <$> elems numbers)];
  numbers ← quick_sort Z.le numbers;
  _ ← writeln_fmt [chars "After: "; debug_vec (display <$> elems numbers)];
  words ← vec_of 8 words;
  _ ← writeln_fmt [newline ++ chars "Before: "; debug_vec (debug_str <$> elems words)];
  words ← quick_sort text_le words;
  _ ← writeln_fmt [chars "After: "; debug_vec (debug_str <$> elems words)];
  _ ← drop_vec words;
  drop_vec numbers.

(** ** Matrices: a vector of vectors *)

Definition values (m : Vec (Vec Z)) : matrix := elems <$> elems m.

Definition drop_matrix (m : Vec (Vec Z)) : guest () :=
  _ ← for_each_guest (elems m) drop_vec; drop_vec m.

Definition generate_row (size : nat) (counter : Z) : exec (list Z * Z) :=
  for_each (seq 0 size) (λ _ '(row, counter),
    c ← I32.add counter 1; mret (row ++ [counter], c)) ([], counter).
Definition generate_large_matrix (size : nat) : guest (Vec (Vec Z)) :=
  matrix ← with_capacity 12 size;
  '(rows, _) ← fold_guest (seq 0 size) (λ _ '(rows, counter),
    row ← with_capacity 4 size;
    '(r, counter) ← lift (generate_row size counter);
    mret (rows ++ [holding row r], counter)) ([], 1);
  mret (holding matrix rows).

(** [vec![elem; n]]: the block of the vector, [n - 1] clones of the element, and the element *)
Definition vec_from_elem (elem : Vec Z) (n : nat) : guest (Vec (Vec Z)) :=
  v ← with_capacity 12 n;
  clones ← fold_guest (seq 1 (n - 1)) (λ _ clones,
    c ← vec_of 4 (elems elem); mret (clones ++ [c])) [];
  mret (holding v (clones ++ [elem])).

Definition matrix_multiply (a b : Vec (Vec Z)) : guest (option (Vec (Vec Z))) :=
  match values a, values b with
  | [], _ | _, [] => mret None
  | a0 :: _, b0 :: _ =>
      if negb (List.length a0 =? List.length (values b))%nat then mret None
      else
        let rows_a := List.length (values a) in
        let cols_a := List.length a0 in
        let cols_b := List.length b0 in
        elem ← vec_of 4 (replicate cols_b 0);
        result ← vec_from_elem elem rows_a;
        vals ← lift (for_each (seq 0 rows_a) (λ i,
          for_each (seq 0 cols_b) (λ j,
            for_each (seq 0 cols_a) (λ k, Matmul.accumulate (values a) (values b) i j k)))
          (values result));
        mret (Some (holding result (zip_with holding (elems result) vals)))
  end.

Definition print_matrix (matrix : matrix) (name : text) : guest () :=
  r ← writeln_fmt [name; chars ":"]; _ ← unwrap_result r;
  _ ← for_each_guest matrix (λ row,
    r ← write_fmt [chars "["]; _ ← unwrap_result r;
    _ ← for_each_guest (imap pair row) (λ '(i, val),
      _ ← (if (0 <? i)%nat then r ← write_fmt [chars ", "]; unwrap_result r else mret tt);
      r ← write_fmt [display_width 3 val]; unwrap_result r);
    r ← writeln_fmt [chars "]"]; unwrap_result r);
  r ← writeln_fmt []; unwrap_result r.

(** the name of the result, with the multiplication sign U+00D7 *)
Definition result_name : text := chars "A " ++ [215] ++ chars " B Result".
Definition matmul_main : guest () :=
  matrix_a ← generate_large_matrix 15;
  matrix_b ← generate_large_matrix 15;
  _ ← print_matrix (values matrix_a) (chars "Matrix A");
  _ ← print_matrix (values matrix_b) (chars "Matrix B");
  result ← matrix_multiply matrix_a matrix_b;
  _ ← match result with
      | Some result => _ ← print_matrix (values result) result_name; drop_matrix result
      | None => r ← writeln_fmt [chars "Matmul fail!!!"]; unwrap_result r
      end;
  _ ← drop_matrix matrix_b;
  drop_matrix matrix_a.
End programs.
Arguments vec_ptr {A}. Arguments vec_layout {A}. Arguments elems {A}.

(** * What a run shows *)

(** the console's text appended to the calls *)
Definition put (t : text) (w : World) : World :=
  {| syscalls := syscalls w ++ ((λ c, (1, c)) <$> t); volatile := volatile w; allocator := allocator w |}.

(** a part of a program that writes [t] and returns [a], or panics *)
Definition emits {A} (m : guest A) (t : text) (a : A) : Prop := ∀ w, m w = (Returned a, put t w).
Definition fails {A} (m : guest A) (t s : text) : Prop := ∀ w, m w = (Panicked s, put t w).

Lemma put_nil w : put [] w = w.
Proof. destruct w. unfold put. cbn. by rewrite app_nil_r. Qed.
Lemma put_app t u w : put (t ++ u) w = put u (put t w).
Proof. unfold put. cbn. by rewrite fmap_app, app_assoc. Qed.

Lemma emits_ret {A} (a : A) : emits (mret a) [] a.
Proof. intros w. by rewrite put_nil. Qed.
Lemma emits_bind {A B} (m : guest A) (f : A → guest B) t a u b :
  emits m t a → emits (f a) u b → emits (m ≫= f) (t ++ u) b.
Proof. intros Hm Hf w. unfold mbind, guest_bind. by rewrite Hm, Hf, put_app. Qed.
Lemma fails_bind {A B} (m : guest A) (f : A → guest B) t s : fails m t s → fails (m ≫= f) t s.
Proof. intros Hm w. unfold mbind, guest_bind. by rewrite Hm. Qed.
Lemma emits_text {A} (m : guest A) t u a : emits m t a → t = u → emits m u a.
Proof. by intros ? <-. Qed.

Lemma emits_for {A} (body : A → guest ()) (f : A → text) xs :
  (∀ x, emits (body x) (f x) tt) → emits (for_each_guest xs body) (concat (f <$> xs)) tt.
Proof.
  intros Hb. induction xs as [|x xs IH]; cbn; [apply emits_ret|]. by eapply emits_bind.
Qed.

Lemma emits_outb c : emits (platform_outb c) [c] tt.
Proof. by intros w. Qed.
Lemma emits_chars s : emits (Stdout.write_chars s) s tt.
Proof.
  induction s as [|c s IH]; cbn; [apply emits_ret|].
  apply (emits_bind _ _ [c] tt s tt); [apply emits_outb | exact IH].
Qed.
Lemma emits_write_str s : emits (Stdout.write_str s) s (Ok tt).
Proof.
  apply (emits_text _ (s ++ []) s); [|apply app_nil_r].
  apply (emits_bind _ _ s tt); [apply emits_chars | apply emits_ret].
Qed.
Lemma emits_write ps : emits (write_fmt ps) (concat ps) (Ok tt).
Proof.
  induction ps as [|s ps IH]; cbn; [apply emits_ret|].
  apply (emits_bind _ _ s (Ok tt)); [apply emits_write_str | exact IH].
Qed.
Lemma emits_writeln ps : emits (writeln_fmt ps) (concat ps ++ newline) (Ok tt).
Proof. eapply emits_text; [apply emits_write|]. by rewrite concat_app. Qed.

Create HintDb guest.
#[export] Hint Resolve emits_ret emits_writeln emits_write : guest.

Section message.
Context `{Profile} (message : panic → text).

Lemma emits_lift {A} (m : exec A) a : m = Ret a → emits (lift message m) [] a.
Proof. intros ->. apply emits_ret. Qed.
Lemma emits_unwrap {A E} (a : A) : emits (unwrap_result (E := E) message (Ok a)) [] a.
Proof. apply emits_ret. Qed.
End message.
#[export] Hint Resolve emits_lift emits_unwrap : guest.

(** runs a straight-line program; what is left is its results and its text *)
Ltac emit := eapply emits_text; [repeat first [progress eauto with guest | eapply emits_bind] |].

(** ** What the programs need of the heap *)

(** the state of the allocator with [n] blocks handed out and room for [k] more bytes *)
Record room (s e n k : Z) (al : Allocator) : Prop := {
  rm_start : heap_start al = s;
  rm_end : heap_end al = e;
  rm_count : num_alloc al = n;
  rm_next : s ≤ next al;
  rm_space : next al + k ≤ e;
  rm_bytes : 0 ≤ n ≤ next al - s;
  rm_reset : n = 0 → next al = s;
}.

Section heap.
Context `{Profile} (message : panic → text) (oom : Z → text).
Context (s e : Z) (Hse : 0 < s ≤ e) (He : e ≤ 2 ^ 31).

(** a part of a program that asks for [k] bytes at most, takes the blocks handed out from [n]
    to [n'], writes [t] and returns a result in [Q] *)
Definition works {A} (m : guest A) (n n' k : Z) (t : text) (Q : A → Prop) : Prop :=
  0 ≤ k ∧ ∀ w b, 0 ≤ b → room s e n (k + b) (allocator w) →
    ∃ a al, m w = (Returned a, with_allocator al (put t w)) ∧ Q a ∧ room s e n' b al.

Lemma works_emits {A} (m : guest A) n t a : emits m t a → works m n n 0 t (λ x, x = a).
Proof using Type.
  intros Hm. split; [done|]. intros w b _ Hr. exists a, (allocator w). rewrite Hm.
  split_and!; [by destruct w | done | exact Hr].
Qed.
Lemma works_ret {A} (a : A) n (Q : A → Prop) : Q a → works (mret a) n n 0 [] Q.
Proof using Type.
  intros Ha. split; [done|]. intros w b _ Hr. exists a, (allocator w).
  split_and!; [by rewrite put_nil; destruct w | done | exact Hr].
Qed.
Lemma works_bind {A B} (m : guest A) (f : A → guest B) n n1 n' k l t u Q Q' :
  works m n n1 k t Q → (∀ a, Q a → works (f a) n1 n' l u Q') → 0 ≤ l →
  works (m ≫= f) n n' (k + l) (t ++ u) Q'.
Proof using Type.
  intros [Hk Hm] Hf Hl. split; [lia|]. intros w b Hb Hr.
  destruct (Hm w (l + b)) as (a & al & E & Ha & Hr1); [lia | by rewrite Z.add_assoc|].
  destruct (Hf a Ha) as [_ Hfa]. destruct (Hfa (with_allocator al (put t w)) b Hb Hr1)
    as (c & al' & E' & Hc & Hr'). exists c, al'. split_and!; [|done..].
  unfold mbind, guest_bind. rewrite E, E', put_app. done.
Qed.
Lemma works_mono {A} (m : guest A) n n' k k' t t' (Q Q' : A → Prop) : works m n n' k t Q →
  k ≤ k' → t = t' → (∀ a, Q a → Q' a) → works m n n' k' t' Q'.
Proof using Type.
  intros [Hk Hm] Hkk <- HQ. split; [lia|]. intros w b Hb [].
  destruct (Hm w b Hb) as (a & al & E & Ha & Hr1); [constructor; (done || lia)|].
  exists a, al. split_and!; [done | by apply HQ | done].
Qed.
(** sequence with a bound on the whole *)
Lemma works_seq {A B} (m : guest A) (f : A → guest B) n n1 n' k l kl t u tu Q Q' :
  works m n n1 k t Q → (∀ a, Q a → works (f a) n1 n' l u Q') → 0 ≤ l → k + l ≤ kl → t ++ u = tu →
  works (m ≫= f) n n' kl tu Q'.
Proof using Type. intros Hm Hf Hl Hkl E. eapply works_mono; [by eapply works_bind | done..]. Qed.

Lemma works_lift {A} (m : exec A) a n : m = Ret a → works (lift message m) n n 0 [] (λ x, x = a).
Proof using Type. intros ->. by apply works_ret. Qed.
Lemma works_print ps n (f : Result () () → guest ()) n' k u tu Q :
  works (f (Ok tt)) n n' k u Q → (concat ps ++ newline) ++ u = tu →
  works (writeln_fmt ps ≫= f) n n' k tu Q.
Proof using Type.
  intros Hf <-. pose proof (proj1 Hf) as Hk.
  eapply works_seq; [apply works_emits, emits_writeln | by intros ? -> | done | lia | done].
Qed.

(** ** Blocks *)

Lemma room_alloc al n k b size : room s e n (k + b) al → 0 ≤ b → 0 < size → size + 3 ≤ k →
  ∃ ptr al', Bump.alloc al {| layout_size := size; layout_align := 4 |} = Ret (ptr, al') ∧
    ptr ≠ null ∧ room s e (n + 1) b al'.
Proof using Hse He.
  intros [Es Ee Ec Hn Hsp Hb _] Hb0 Hsize Hk. unfold Bump.alloc.
  rewrite (alloc_start_Ret al _ 2) by (done || lia). rewrite bind_Ret. cbn [layout_size].
  pose proof (round_up_spec (next al) 2 ltac:(lia) ltac:(lia)) as [_ Hr]. change (2 ^ 2) with 4 in *.
  rewrite wrap_id by (unfold in_range; lia). unfold Bump.checked_add.
  rewrite (proj2 (Z.ltb_lt _ _)) by lia. rewrite (proj2 (Z.ltb_ge _ _)) by lia.
  unfold word_add. rewrite narrow_Ret, bind_Ret by (unfold in_range; lia).
  eexists _, _. split; [reflexivity|]. unfold null. split; [lia|]. constructor; cbn; lia.
Qed.

Lemma room_dealloc al n b ptr l : room s e (n + 1) b al → 0 ≤ b → 0 ≤ n →
  ∃ al', Bump.dealloc al ptr l = Ret al' ∧ room s e n b al'.
Proof using Hse He.
  intros [Es Ee Ec Hn Hsp Hb _] Hb0 Hn0. unfold Bump.dealloc.
  rewrite (proj2 (Z.eqb_neq _ _)) by lia. unfold word_sub.
  rewrite narrow_Ret, bind_Ret by (unfold in_range; lia). eexists. split; [reflexivity|].
  rewrite Ec, Es. replace (n + 1 - 1) with n by lia.
  constructor; cbn; destruct (Z.eqb_spec n 0); lia.
Qed.

(** a vector whose block holds [n] elements *)
Definition vec_ok {A} (size_of : Z) (n : nat) (v : Vec A) : Prop := vec_layout v = array_layout size_of n.

Lemma works_capacity {A} n size_of len : 0 < size_of → (0 < len)%nat →
  works (with_capacity (A := A) message oom size_of len) n (n + 1) (size_of * Z.of_nat len + 3) []
    (λ v, vec_ok size_of len v ∧ elems v = []).
Proof using Hse He.
  intros Hs Hl. split; [lia|]. intros w b Hb Hr. unfold with_capacity, mbind, guest_bind, alloc_block.
  cbn [layout_size array_layout]. rewrite (proj2 (Z.eqb_neq _ _)) by lia.
  destruct (room_alloc _ n _ b (size_of * Z.of_nat len) Hr Hb) as (ptr & al & E & Hp & Hr'); [lia..|].
  unfold array_layout. rewrite E, (proj2 (Z.eqb_neq _ _)) by done.
  eexists _, al. split; [by rewrite put_nil|]. by split_and!.
Qed.

Lemma works_vec_of {A} n size_of (xs : list A) : 0 < size_of → (0 < length xs)%nat →
  works (vec_of message oom size_of xs) n (n + 1) (size_of * Z.of_nat (length xs) + 3) []
    (λ v, vec_ok size_of (length xs) v ∧ elems v = xs).
Proof using Hse He.
  intros Hs Hl. eapply works_seq; [by apply works_capacity | | done | lia | done].
  intros v [Hv _]. apply works_ret. by split.
Qed.

Lemma works_drop {A} n size_of len (v : Vec A) : vec_ok size_of len v → 0 < size_of → (0 < len)%nat →
  0 ≤ n → works (drop_vec message v) (n + 1) n 0 [] (λ _, True).
Proof using Hse He.
  intros Hv Hs Hl Hn. split; [done|]. intros w b Hb Hr. unfold drop_vec, free_block. rewrite Hv.
  cbn [layout_size array_layout]. rewrite (proj2 (Z.eqb_neq _ _)) by lia.
  destruct (room_dealloc _ n _ (vec_ptr v) (array_layout size_of len) Hr Hb Hn) as (al & E & Hr').
  rewrite E. exists tt, al. by rewrite put_nil.
Qed.
End heap.

(** ** The programs *)

(** the text of a matrix *)
Definition row_text (row : list Z) : text :=
  chars "[" ++ separated (display_width 3 <$> row) ++ chars "]" ++ newline.
Definition matrix_text (m : matrix) (name : text) : text :=
  name ++ chars ":" ++ newline ++ concat (row_text <$> m) ++ newline.

Section mains.
Context `{Profile} (message : panic → text).

(** one entry, after its separator *)
Definition entry_text (i : nat) (val : Z) : text :=
  (if (0 <? i)%nat then chars ", " else []) ++ display_width 3 val.

Definition separator (i : nat) : text := if (0 <? i)%nat then chars ", " else [].

Lemma separated_entries row n :
  concat ((λ '(i, val), entry_text i val) <$> imap (λ i x, (n + i, x)%nat) row) =
  match row with [] => [] | _ => separator n ++ separated (display_width 3 <$> row) end.
Proof.
  revert n. induction row as [|x row IH]; intros n; [done|]. rewrite imap_cons.
  rewrite (imap_ext _ (λ i x, (S n + i, x)%nat)) by (intros; unfold compose; f_equal; lia).
  cbn [fmap list_fmap concat]. rewrite IH, Nat.add_0_r. unfold entry_text at 1, separator.
  destruct row as [|y row]; cbn [fmap list_fmap separated]; [by rewrite app_nil_r|].
  by rewrite <- !app_assoc.
Qed.

Lemma emits_entry i val :
  emits (_ ← (if (0 <? i)%nat then r ← write_fmt [chars ", "]; unwrap_result message r else mret tt);
         r ← write_fmt [display_width 3 val]; unwrap_result message r) (entry_text i val) tt.
Proof.
  unfold entry_text. destruct (0 <? i)%nat; emit; cbn [concat app]; by rewrite ?app_nil_r.
Qed.

Lemma emits_row row :
  emits (r ← write_fmt [chars "["]; _ ← unwrap_result message r;
         _ ← for_each_guest (imap pair row) (λ '(i, val),
           _ ← (if (0 <? i)%nat then r ← write_fmt [chars ", "]; unwrap_result message r else mret tt);
           r ← write_fmt [display_width 3 val]; unwrap_result message r);
         r ← writeln_fmt [chars "]"]; unwrap_result message r) (row_text row) tt.
Proof.
  emit; [apply (emits_for _ (λ '(i, val), entry_text i val)); intros [i val]; apply emits_entry|].
  unfold row_text. pose proof (separated_entries row 0) as E.
  change (imap (λ i x, ((0 + i)%nat, x)) row) with (imap pair row) in E. rewrite E.
  cbn [concat app]. rewrite !app_nil_r. by destruct row.
Qed.

Lemma emits_matrix m name : emits (print_matrix message m name) (matrix_text m name) tt.
Proof.
  unfold print_matrix. emit; [apply (emits_for _ row_text), emits_row|].
  unfold matrix_text. cbn [concat app]. by rewrite ?app_nil_r, <- ?app_assoc.
Qed.
End mains.
#[export] Hint Resolve emits_matrix : guest.

(** ** Merge sort: the copies of a merge are given back at its end *)

(** the bytes that sorting a range asks for *)
Fixpoint merge_cost (fuel len : nat) : Z :=
  if (len <=? 1)%nat then 0
  else match fuel with
  | O => 0
  | S fuel => merge_cost fuel (len / 2) + merge_cost fuel (len - len / 2) + (4 * Z.of_nat len + 6)
  end.

Lemma merge_cost_nonneg fuel len : 0 ≤ merge_cost fuel len.
Proof.
  revert len. induction fuel as [|fuel IH]; intros len; cbn [merge_cost]; destruct (len <=? 1)%nat; try lia.
  pose proof (IH (len / 2)%nat). pose proof (IH (len - len / 2)%nat). lia.
Qed.

Lemma sub_vec_inv {A} (vec : list A) a b l : sub_vec vec a b = Ret l → length l = (b - a)%nat.
Proof.
  unfold sub_vec. case_decide; [|done]. intros [= <-]. rewrite length_take, length_drop. lia.
Qed.

(** sequencing, with the side conditions on the bytes left to the end *)
Ltac step tac := eapply works_bind; [tac | | shelve].

Section traffic.
Context `{Profile} (message : panic → text) (oom : Z → text).
Context (s e : Z) (Hse : 0 < s ≤ e) (He : e ≤ 2 ^ 31).
Abbreviation works := (works s e).
Abbreviation vec_of := (vec_of message oom).
Abbreviation drop_vec := (drop_vec message).

Lemma lift_Ret {A B} (a : A) (f : A → guest B) : lift message (Ret a) ≫= f = f a.
Proof using Type. reflexivity. Qed.

Lemma works_merge n vec start mid end_ vec' : 0 ≤ n → (start < mid < end_)%nat →
  Msort.merge Z.le vec start mid end_ = Ret vec' →
  works (merge message oom vec start mid end_) n n (4 * Z.of_nat (end_ - start) + 6) []
    (λ x, x = vec').
Proof using Hse He.
  intros Hn Hr Hm. unfold Msort.merge in Hm. apply bind_inv in Hm as (l & El & Hm).
  apply bind_inv in Hm as (r & Er & Hm).
  pose proof (sub_vec_inv _ _ _ _ El) as Hl. pose proof (sub_vec_inv _ _ _ _ Er) as Hrl.
  unfold merge. eapply works_mono; [|shelve|shelve|intros ? E; exact E].
  step ltac:(by apply works_lift). intros ? ->.
  step ltac:(apply works_vec_of; (done || lia)). intros left [Hvl Hel].
  step ltac:(by apply works_lift). intros ? ->.
  step ltac:(apply works_vec_of; (done || lia)). intros right [Hvr Her]. rewrite Hel, Her.
  step ltac:(by apply works_lift). intros ? ->.
  step ltac:(eapply works_drop; [done..|exact Hvr|lia|lia|lia]). intros _ _.
  step ltac:(eapply works_drop; [done..|exact Hvl|lia|lia|lia]). intros _ _.
  by apply works_ret.
  Unshelve. all: first [lia | done].
Qed.

Lemma works_merge_sort_range n fuel vec start end_ vec' : 0 ≤ n → (start ≤ end_)%nat →
  Z.of_nat end_ < 2 ^ 32 → Msort.merge_sort_range Z.le fuel vec start end_ = Ret vec' →
  works (merge_sort_range message oom fuel vec start end_) n n (merge_cost fuel (end_ - start)) []
    (λ x, x = vec').
Proof using Hse He.
  intros Hn. revert vec start end_ vec'. induction fuel as [|fuel IH]; intros vec start end_ vec' Hr He32 Hm;
    cbn [merge_sort_range Msort.merge_sort_range merge_cost] in *;
    rewrite Usize.sub_Ret, bind_Ret in Hm by lia; rewrite Usize.sub_Ret, lift_Ret by lia;
    destruct (Nat.leb_spec (end_ - start) 1) as [Hle|Hgt].
  1, 2, 3: injection Hm as ->; by apply works_ret.
  pose proof (merge_cost_nonneg fuel ((end_ - start) / 2)) as Hc1.
  pose proof (merge_cost_nonneg fuel (end_ - start - (end_ - start) / 2)) as Hc2.
  assert (Hmid : (0 < (end_ - start) / 2 < end_ - start)%nat).
  { split; [apply Nat.div_str_pos; lia | apply Nat.div_lt; lia]. }
  rewrite Usize.add_Ret, bind_Ret in Hm by lia. rewrite Usize.add_Ret, lift_Ret by lia.
  apply bind_inv in Hm as (v1 & E1 & Hm). apply bind_inv in Hm as (v2 & E2 & Hm).
  set (h := ((end_ - start) / 2)%nat) in *.
  assert (Eh1 : (start + h - start = h)%nat) by lia.
  assert (Eh2 : (end_ - (start + h) = end_ - start - h)%nat) by lia.
  eapply works_mono; [|shelve|shelve|intros ? E; exact E].
  step ltac:(eapply IH; [lia|lia|exact E1]). intros ? ->.
  step ltac:(eapply IH; [lia|lia|exact E2]). intros ? ->.
  eapply works_merge; [done|lia|exact Hm].
  Unshelve. all: rewrite ?Eh1, ?Eh2; first [done | lia | nia].
Qed.
End traffic.

(** ** Matrices: a block for the rows, and one for each row *)

(** a matrix of [rows] rows of [cols] entries, with its blocks *)
Record matrix_ok (rows cols : nat) (vals : matrix) (m : Vec (Vec Z)) : Prop := {
  mo_block : vec_ok 12 rows m;
  mo_rows : Forall (vec_ok 4 cols) (elems m);
  mo_values : values m = vals;
}.

Section matrices.
Context `{Profile} (message : panic → text) (oom : Z → text).
Context (s e : Z) (Hse : 0 < s ≤ e) (He : e ≤ 2 ^ 31).
Abbreviation works := (works s e).

Lemma works_rows size xs rows vs c vs' c' n : (0 < size)%nat → 0 ≤ n →
  for_each xs (λ (_ : nat) '(m, counter),
    '(row, counter) ← generate_row size counter; mret (m ++ [row], counter)) (vs, c) = Ret (vs', c') →
  elems <$> rows = vs → Forall (vec_ok 4 size) rows →
  works (fold_guest xs (λ _ '(rows, counter),
      row ← with_capacity message oom 4 size;
      '(r, counter) ← lift message (generate_row size counter);
      mret (rows ++ [holding row r], counter)) (rows, c))
    n (n + Z.of_nat (length xs)) (Z.of_nat (length xs) * (4 * Z.of_nat size + 3)) []
    (λ p, elems <$> p.1 = vs' ∧ Forall (vec_ok 4 size) p.1).
Proof using Hse He.
  intros Hs. revert rows vs c n. induction xs as [|x xs IH]; intros rows vs c n Hn Hf Hv Hok.
  { injection Hf as -> ->. rewrite Z.add_0_r. by apply works_ret. }
  cbn [for_each] in Hf. apply bind_inv in Hf as ([vs1 c1] & E1 & Hf).
  apply bind_inv in E1 as ([row c2] & Er & E1). injection E1 as <- <-. cbn [fold_guest].
  replace (n + Z.of_nat (length (x :: xs))) with (n + 1 + Z.of_nat (length xs)) by (cbn; lia).
  eapply (works_seq _ _ _ _ _ (n + 1) _ (4 * Z.of_nat size + 3) _ _ [] [] _
    (λ p, ∃ v, vec_ok 4 size v ∧ elems v = row ∧ p = (rows ++ [v], c2))).
  - eapply works_mono; [|shelve|shelve|intros ? E; exact E].
    step ltac:(apply works_capacity; (done || lia)). intros v [Hvok _].
    step ltac:(by apply works_lift). intros ? ->. apply works_ret.
    exists (holding v row). by split_and!.
  - intros p (v & Hvok & Ev & ->). apply (IH _ (vs ++ [row]) c2 (n + 1)); [lia | exact Hf | |].
    + by rewrite fmap_app, Hv, <- Ev.
    + by rewrite Forall_app, Forall_singleton.
  - lia.
  - cbn [length]. lia.
  - done.
  Unshelve. all: first [done | lia | nia].
Qed.

Lemma works_generate size vals n : (0 < size)%nat → 0 ≤ n →
  Matmul.generate_large_matrix size = Ret vals →
  works (generate_large_matrix message oom size) n (n + 1 + Z.of_nat size)
    (12 * Z.of_nat size + 3 + Z.of_nat size * (4 * Z.of_nat size + 3)) []
    (matrix_ok size size vals).
Proof using Hse He.
  intros Hs Hn Hg. unfold Matmul.generate_large_matrix in Hg.
  apply bind_inv in Hg as ([vs c] & Ef & Hg). injection Hg as ->.
  eapply works_mono; [|shelve|shelve|intros ? E; exact E].
  step ltac:(apply works_capacity; (done || lia)). intros v [Hv _].
  step ltac:(eapply works_rows; [done|lia|exact Ef|done|by constructor]).
  intros [rows c'] [Er Hr]. cbn [fst] in *. rewrite length_seq. apply works_ret. by constructor.
  Unshelve. all: rewrite ?length_seq; first [done | lia | nia].
Qed.

(** [vec![elem; n]] *)
Lemma works_clones (v : Vec Z) xs acc cols n : (0 < cols)%nat → 0 ≤ n → length (elems v) = cols →
  Forall (λ c, vec_ok 4 cols c ∧ elems c = elems v) acc →
  works (fold_guest xs (λ (_ : nat) clones, c ← vec_of message oom 4 (elems v); mret (clones ++ [c])) acc)
    n (n + Z.of_nat (length xs)) (Z.of_nat (length xs) * (4 * Z.of_nat cols + 3)) []
    (λ l, Forall (λ c, vec_ok 4 cols c ∧ elems c = elems v) l ∧ length l = (length acc + length xs)%nat).
Proof using Hse He.
  intros Hc Hn Hl. revert acc n Hn. induction xs as [|x xs IH]; intros acc n Hn Ha.
  { rewrite Z.add_0_r. apply works_ret. cbn. by rewrite Nat.add_0_r. }
  replace (n + Z.of_nat (length (x :: xs))) with (n + 1 + Z.of_nat (length xs)) by (cbn; lia).
  cbn [fold_guest].
  eapply (works_seq _ _ _ _ _ (n + 1) _ (4 * Z.of_nat cols + 3) _ _ [] [] _
    (λ l, ∃ c, (vec_ok 4 cols c ∧ elems c = elems v) ∧ l = acc ++ [c])).
  - eapply works_mono; [|shelve|shelve|intros ? E; exact E].
    step ltac:(apply works_vec_of; (done || lia)). intros c Hok. apply works_ret.
    exists c. by rewrite <- Hl.
  - intros l (c & Hok & ->). eapply works_mono; [apply (IH _ (n + 1)); [lia|] | done | done |].
    + by rewrite Forall_app, Forall_singleton.
    + intros l [? E]. rewrite length_app in E. cbn in *. split; [done | lia].
  - lia.
  - cbn [length]. lia.
  - done.
  Unshelve. all: first [done | lia | nia].
Qed.

Lemma works_from_elem elem rows cols xs n : (0 < rows)%nat → (0 < cols)%nat → 0 ≤ n →
  vec_ok 4 cols elem → elems elem = xs → length xs = cols →
  works (vec_from_elem message oom elem rows) n (n + Z.of_nat rows)
    (12 * Z.of_nat rows + 3 + Z.of_nat (rows - 1) * (4 * Z.of_nat cols + 3)) []
    (matrix_ok rows cols (replicate rows xs)).
Proof using Hse He.
  intros Hr Hc Hn Hok Ex Hl. unfold vec_from_elem.
  replace (n + Z.of_nat rows) with (n + 1 + Z.of_nat (rows - 1)) by lia.
  eapply works_mono; [|shelve|shelve|intros ? E; exact E].
  step ltac:(apply works_capacity; (done || lia)). intros v [Hv _].
  replace (rows - 1)%nat with (length (seq 1 (rows - 1))) at 2 by by rewrite length_seq.
  rewrite <- Ex. step ltac:(apply (works_clones elem _ [] cols); [done|lia|by rewrite Ex|by constructor]).
  intros clones [Hcl Hlen]. rewrite length_seq in Hlen. apply works_ret. constructor; [done| |].
  - cbn [elems holding]. rewrite Forall_app, Forall_singleton. split; [|done]. by eapply Forall_impl; [exact Hcl|]; intros ? [].
  - unfold values. cbn [elems holding]. rewrite fmap_app. replace rows with ((rows - 1) + 1)%nat at 1 by lia.
    rewrite replicate_add. f_equal. cbn in Hlen. rewrite <- Hlen. clear -Hcl.
    induction Hcl as [|c l [_ Ec] _ IH]; [done|]. cbn. by rewrite Ec, IH.
  Unshelve. all: rewrite ?length_seq; first [done | lia | nia].
Qed.

(** the elements replaced in place, row by row *)
Lemma values_holding rows cols vs m vals : matrix_ok rows cols vs m → length vals = length vs →
  matrix_ok rows cols vals (holding m (zip_with holding (elems m) vals)).
Proof using Type.
  intros [Hb Hr Ev] Hl. rewrite <- Ev in Hl. unfold values in Hl. rewrite length_fmap in Hl.
  constructor; [done|..]; unfold values; cbn [elems holding]; clear -Hr Hl;
    revert vals Hl; induction Hr as [|r l Hr _ IH]; intros [|v vals] Hl; try done; cbn in *.
  - constructor; [done|]. apply IH. lia.
  - f_equal. apply IH. lia.
Qed.

(** the loops are those of the product of two lists of lists *)
Lemma works_multiply a b rows cols vals n : (0 < rows)%nat → (0 < cols)%nat → 0 ≤ n →
  length (values a) = rows → length (default [] (head (values b))) = cols →
  Matmul.matrix_multiply (values a) (values b) = Ret (Some vals) → length vals = rows →
  works (matrix_multiply message oom a b) n (n + 1 + Z.of_nat rows)
    (12 * Z.of_nat rows + 3 + Z.of_nat rows * (4 * Z.of_nat cols + 3)) []
    (λ r, ∃ m, r = Some m ∧ matrix_ok rows cols vals m).
Proof using Hse He.
  intros Hr Hc Hn Ha Hb Hm Hv. unfold Matmul.matrix_multiply in Hm. unfold matrix_multiply.
  destruct (values a) as [|a0 a'] eqn:Eva; [done|]. destruct (values b) as [|b0 b'] eqn:Evb; [done|].
  cbn in Hb. unfold id in Hb. destruct (negb _); [done|].
  apply bind_inv in Hm as (vs & Ef & Hm). injection Hm as ->. rewrite Ha, Hb in Ef |- *.
  eapply works_mono; [|shelve|shelve|intros ? E; exact E].
  step ltac:(apply works_vec_of; (done || (rewrite ?length_replicate; lia))). intros elem [He1 He2].
  rewrite length_replicate in He1.
  step ltac:(eapply works_from_elem; [done..|lia|exact He1|exact He2|apply length_replicate]).
  intros result Hres. rewrite (mo_values _ _ _ _ Hres).
  step ltac:(by apply works_lift). intros ? ->. apply works_ret. eexists. split; [reflexivity|].
  eapply values_holding; [exact Hres|]. by rewrite length_replicate.
  Unshelve. all: rewrite ?length_replicate; first [done | lia | nia].
Qed.

(** the rows are dropped in order, then the block of the vector *)
Lemma works_drop_rows size_of cols (l : list (Vec Z)) n : Forall (vec_ok size_of cols) l →
  0 < size_of → (0 < cols)%nat → 0 ≤ n →
  works (for_each_guest l (drop_vec message)) (n + Z.of_nat (length l)) n 0 [] (λ _, True).
Proof using Hse He.
  intros Hl Hs Hc Hn. induction Hl as [|v l Hv _ IH]; [rewrite Z.add_0_r; by apply works_ret|].
  replace (n + Z.of_nat (length (v :: l))) with (n + Z.of_nat (length l) + 1) by (cbn; lia).
  cbn [for_each_guest]. eapply works_seq; [eapply works_drop; [done..|exact Hv|done|done|lia] |
    intros _ _; exact IH | done | done | done].
Qed.

Lemma works_drop_matrix rows cols vals m n : matrix_ok rows cols vals m → (0 < rows)%nat →
  (0 < cols)%nat → length vals = rows → 0 ≤ n →
  works (drop_matrix message m) (n + 1 + Z.of_nat rows) n 0 [] (λ _, True).
Proof using Hse He.
  intros [Hb Hr Ev] Hpr Hpc Hl Hn. rewrite <- Ev in Hl. unfold values in Hl. rewrite length_fmap in Hl.
  rewrite <- Hl at 1. unfold drop_matrix.
  eapply works_seq; [apply (works_drop_rows _ _ _ _ Hr); (done || lia) |
    intros _ _; eapply works_drop; [done..|exact Hb|done|lia|done] | done | done | done].
Qed.
End matrices.

(** ** The sorts on vectors *)

Section sorts.
Context `{Profile} (message : panic → text) (oom : Z → text).
Context (s e : Z) (Hse : 0 < s ≤ e) (He : e ≤ 2 ^ 31).
Abbreviation works := (works s e).

Lemma works_merge_sort v xs ys n : elems v = xs → 0 ≤ n → Z.of_nat (length xs) < 2 ^ 32 →
  Msort.merge_sort Z.le xs = Ret ys →
  works (merge_sort message oom v) n n (merge_cost (length xs) (length xs)) []
    (λ v', vec_layout v' = vec_layout v ∧ elems v' = ys).
Proof using Hse He.
  intros Hv Hn Hl Hm. unfold Msort.merge_sort in Hm. unfold merge_sort. rewrite Hv.
  destruct (length xs <=? 1)%nat eqn:El.
  - injection Hm as ->. eapply works_mono; [by apply (works_ret _ _ v n (λ v', vec_layout v' = vec_layout v ∧ elems v' = ys)) |
      | done | done].
    apply merge_cost_nonneg.
  - eapply works_mono; [|shelve|shelve|intros ? E; exact E].
    step ltac:(eapply works_merge_sort_range; [done..|lia|lia|exact Hm]). intros ? ->.
    by apply works_ret.
  Unshelve. all: rewrite ?Nat.sub_0_r; first [done | lia].
Qed.

Lemma works_quick_sort {T} (R : T → T → Prop) `{∀ x y, Decision (R x y)} (v : Vec T) ys n :
  Qsort.quick_sort R (elems v) = Ret ys →
  works (quick_sort message R v) n n 0 [] (λ v', vec_layout v' = vec_layout v ∧ elems v' = ys).
Proof using Type.
  intros Hq. unfold quick_sort. rewrite Hq. by apply works_ret.
Qed.
End sorts.

(** ** Start-up *)

(** the .bss range, and the world that [start] gives to [main] *)
Definition bss (l : Symbols) : list Z := seqZ (bss_start l) (bss_end l - bss_start l).
Definition fresh_heap (l : Symbols) : Allocator := Bump.init (sym_heap_start l) (sym_heap_end l) Bump.new.
Definition started (l : Symbols) : World :=
  {| syscalls := []; volatile := (λ a, (a, 0)) <$> bss l; allocator := fresh_heap l |}.

(** how a program ends: [t] written one character per call, then the halting ECALL; the
    volatile writes are the clearing of .bss, once each byte, and the heap is as [start] left
    it, every block having been given back *)
Definition ends_with (l : Symbols) (t : text) (r : outcome Empty_set * World) : Prop :=
  r = (Terminated, {| syscalls := ((λ c, (1, c)) <$> t) ++ [(0, 0)];
                      volatile := (λ a, (a, 0)) <$> bss l; allocator := fresh_heap l |}).

Lemma zero_bytes_spec range w : zero_bytes range w =
  (Returned tt, {| syscalls := syscalls w; volatile := volatile w ++ ((λ a, (a, 0)) <$> range);
                   allocator := allocator w |}).
Proof.
  revert w. induction range as [|b range IH]; intros w.
  - cbn. rewrite app_nil_r. by destruct w.
  - cbn [zero_bytes]. unfold mbind, guest_bind. cbn. rewrite IH. cbn. by rewrite <- app_assoc.
Qed.

Section ends.
Context `{Profile} (message : panic → text) (oom : Z → text) (l : Symbols).
Context (Hheap : 0 < sym_heap_start l ≤ sym_heap_end l) (Hhigh : sym_heap_end l ≤ 2 ^ 31).
Abbreviation works := (works (sym_heap_start l) (sym_heap_end l)).
Abbreviation run_program := (run_program message l).

Lemma start_boot {A} (main : guest A) :
  start message l main boot = (main ≫= λ _, terminate message) (started l).
Proof using Type.
  unfold start. unfold mbind at 1, guest_bind at 1. rewrite zero_bytes_spec. reflexivity.
Qed.

Lemma room_fresh k : k ≤ sym_heap_end l - sym_heap_start l →
  room (sym_heap_start l) (sym_heap_end l) 0 k (fresh_heap l).
Proof using Type. intros. constructor; cbn; lia. Qed.
Lemma room_empty k al : room (sym_heap_start l) (sym_heap_end l) 0 k al → al = fresh_heap l.
Proof using Type. intros [Es Ee Ec _ _ _ Hr]. destruct al. cbn in *. subst. by rewrite Hr. Qed.

Lemma works_ends {A} (main : guest A) k t Q : works main 0 0 k t Q →
  k ≤ sym_heap_end l - sym_heap_start l → ends_with l t (run_program main boot).
Proof using Type.
  intros [Hk Hm] Hroom. destruct (Hm (started l) 0) as (a & al & E & _ & Hr); [done | |].
  { apply room_fresh. lia. }
  apply room_empty in Hr as ->. unfold Guest.run_program. rewrite start_boot.
  unfold mbind, guest_bind. by rewrite E.
Qed.
Lemma emits_ends {A} (main : guest A) t a : emits main t a → ends_with l t (run_program main boot).
Proof using Hheap.
  intros Hm. eapply works_ends; [by apply works_emits | lia].
Qed.
Lemma panicking_ends {A} (main : guest A) t p : main (started l) = (Panicked p, put t (started l)) →
  ends_with l (t ++ chars "Panicked! " ++ p ++ newline) (run_program main boot).
Proof using Type.
  intros Hm. unfold Guest.run_program. rewrite start_boot. unfold mbind, guest_bind. rewrite Hm.
  unfold panic_handler. unfold mbind, guest_bind. rewrite emits_writeln, <- put_app. cbn [concat].
  by rewrite app_nil_r, <- app_assoc.
Qed.

(** *** A heap that cannot hold the first block *)

Definition refuses {A} (m : guest A) (size : Z) : Prop := m (started l) = (Panicked (oom size), started l).

Lemma refuses_bind {A B} (m : guest A) (f : A → guest B) size : refuses m size → refuses (m ≫= f) size.
Proof using Type. unfold refuses, mbind, guest_bind. by intros ->. Qed.

Lemma refuses_capacity {A} size_of len size : size_of * Z.of_nat len = size → 0 < size < 2 ^ 31 →
  sym_heap_end l < round_up (sym_heap_start l) 4 + size →
  refuses (with_capacity (A := A) message oom size_of len) size.
Proof using Hheap Hhigh.
  intros Es Hs Hfull. unfold refuses, with_capacity, mbind, guest_bind, alloc_block, array_layout.
  cbn [layout_size]. rewrite Es, (proj2 (Z.eqb_neq _ _)) by lia. unfold Bump.alloc.
  rewrite (alloc_start_Ret _ _ 2) by (cbn; (done || lia)). rewrite bind_Ret. cbn [layout_size].
  change (2 ^ 2) with 4. change (next (allocator (started l))) with (sym_heap_start l).
  rewrite wrap_id by (unfold in_range; lia). unfold Bump.checked_add.
  change (heap_end (allocator (started l))) with (sym_heap_end l).
  destruct (_ <? 2 ^ 32); [|done]. by rewrite (proj2 (Z.ltb_lt _ _)).
Qed.
Lemma refuses_vec_of {A} size_of (xs : list A) size : size_of * Z.of_nat (length xs) = size →
  0 < size < 2 ^ 31 → sym_heap_end l < round_up (sym_heap_start l) 4 + size →
  refuses (vec_of message oom size_of xs) size.
Proof using Hheap Hhigh. intros. by apply refuses_bind, refuses_capacity. Qed.
Lemma refusing_ends {A} (main : guest A) size : refuses main size →
  ends_with l (chars "Panicked! " ++ oom size ++ newline) (run_program main boot).
Proof using Type. intros Hm. apply (panicking_ends main []). by rewrite put_nil. Qed.
End ends.

(** * The six programs *)

Inductive program := Hello | PrintNums | Factorial | MSort | QSort | MatMul.

(** the binaries of [runtime/Cargo.toml] *)
Definition run `{Profile} (message : panic → text) (oom : Z → text) (l : Symbols) (b : program)
    : guest Empty_set :=
  match b with
  | Hello => run_program message l hello_main
  | PrintNums => run_program message l (print_nums_main message oom)
  | Factorial => run_program message l (factorial_main message)
  | MSort => run_program message l (msort_main message oom)
  | QSort => run_program message l (qsort_main message oom)
  | MatMul => run_program message l (matmul_main message oom)
  end.

(** the bytes of heap that a program asks for, with up to three for the alignment of each
    block: one vector; one vector and the copies of ten merges, which are not reclaimed while
    the vector is held; two vectors; three matrices of sixteen blocks *)
Definition need (b : program) : Z :=
  match b with
  | Hello | Factorial => 0
  | PrintNums => 28 + 3
  | MSort => 44 + 3 + merge_cost 11 11
  | QSort => (28 + 3) + (32 + 3)
  | MatMul => 3 * (180 + 3 + 15 * (60 + 3))
  end.

(** the size of the first block it asks for *)
Definition first_block (b : program) : option Z :=
  match b with
  | Hello | Factorial => None
  | PrintNums | QSort => Some 28
  | MSort => Some 44
  | MatMul => Some 180
  end.

Definition lines (ls : list string) : text := concat ((λ s, chars s ++ newline) <$> ls).

(** the matrix that matmul squares: 1 to 225, row by row *)
Definition counting (i j : nat) : Z := 15 * Z.of_nat i + Z.of_nat j + 1.

(** what each program is there to write; factorial(20) = 2432902008176640000 does not fit *)
Definition console `{Profile} (message : panic → text) (b : program) : text :=
  match b with
  | Hello => lines ["Hello, World!"%string]
  | PrintNums => lines ["-100"; "20"; "124"; "33"; "123"; "12"; "1"]%string
  | Factorial =>
      if overflow_checks then chars "Panicked! " ++ message POverflow ++ newline
      else lines ["The result of factorial(20) is 2192834560"%string]
  | MSort => lines ["Before sorting: [64, 34, 25, 12, 22, 11, 90, 88, 76, 50, 42]";
                    "After sorting: [11, 12, 22, 25, 34, 42, 50, 64, 76, 88, 90]"]%string
  | QSort =>
      lines ["Before: [64, 34, 25, 12, 22, 11, 90]"; "After: [11, 12, 22, 25, 34, 64, 90]"]%string ++
      newline ++ chars "Before: " ++
      debug_vec (debug_str ∘ chars <$> ["banana"; "apple"; "cherry"; "date"]%string) ++ newline ++
      chars "After: " ++
      debug_vec (debug_str ∘ chars <$> ["apple"; "banana"; "cherry"; "date"]%string) ++ newline
  | MatMul =>
      let m := mat 15 15 counting in
      matrix_text m (chars "Matrix A") ++ matrix_text m (chars "Matrix B") ++
      matrix_text (mat 15 15 (λ i j, dot counting counting i j 15)) result_name
  end.

Section pure.
Context `{Profile}.

Lemma generated : Matmul.generate_large_matrix 15 = Ret (mat 15 15 counting).
Proof. destruct H; vm_compute; reflexivity. Qed.
Lemma multiplied : Matmul.matrix_multiply (mat 15 15 counting) (mat 15 15 counting) =
  Ret (Some (mat 15 15 (λ i j, dot counting counting i j 15))).
Proof. destruct H; vm_compute; reflexivity. Qed.
Lemma msorted : Msort.merge_sort Z.le msort_vec = Ret [11; 12; 22; 25; 34; 42; 50; 64; 76; 88; 90].
Proof. destruct H; vm_compute; reflexivity. Qed.
Lemma qsorted : Qsort.quick_sort Z.le qsort_vec = Ret [11; 12; 22; 25; 34; 64; 90].
Proof. destruct H; vm_compute; reflexivity. Qed.
Lemma words_sorted : Qsort.quick_sort text_le words =
  Ret (chars <$> ["apple"; "banana"; "cherry"; "date"]%string).
Proof. destruct H; vm_compute; reflexivity. Qed.
End pure.

Section mains.
Context `{Profile} (message : panic → text) (oom : Z → text).
Context (s e : Z) (Hse : 0 < s ≤ e) (He : e ≤ 2 ^ 31).
Abbreviation works := (works s e).

Ltac begin := eapply works_mono; [|shelve|shelve|intros ? E; exact E].
Ltac printed := step ltac:(apply works_emits, emits_writeln); intros ? ->.
Ltac unwraps := step ltac:(apply works_emits, emits_unwrap); intros ? ->.

Lemma works_nums : works (print_nums_main message oom) 0 0 (need PrintNums)
  (console message PrintNums) (λ _, True).
Proof using Hse He.
  unfold print_nums_main. begin.
  step ltac:(apply works_vec_of; (done || (cbn; lia))). intros nums [Hv Hx]. rewrite Hx.
  step ltac:(apply works_emits, (emits_for _ (λ i, display i ++ newline)); intros i; emit;
    cbn [concat app]; by rewrite !app_nil_r). intros ? _.
  eapply works_drop; [done..|exact Hv|done|cbn; lia|done].
  Unshelve. all: try (vm_compute; done).
Qed.

Lemma works_msort : works (msort_main message oom) 0 0 (need MSort)
  (console message MSort) (λ _, True).
Proof using Hse He.
  unfold msort_main. begin.
  step ltac:(apply works_vec_of; (done || (cbn; lia))). intros numbers [Hv Hx]. rewrite Hx. printed. unwraps.
  step ltac:(by eapply works_merge_sort; [done..|exact Hx|done|done|apply msorted]).
  intros sorted [Hv' Hx']. rewrite Hx'. printed. unwraps.
  eapply works_drop; [done..|unfold vec_ok; rewrite Hv'; exact Hv|done|cbn; lia|done].
  Unshelve. all: try (vm_compute; done).
Qed.

Lemma works_qsort : works (qsort_main message oom) 0 0 (need QSort)
  (console message QSort) (λ _, True).
Proof using Hse He.
  unfold qsort_main. begin.
  step ltac:(apply works_vec_of; (done || (cbn; lia))). intros numbers [Hv Hx]. rewrite Hx. printed.
  step ltac:(apply works_quick_sort; rewrite Hx; apply qsorted). intros sorted [Hv' Hx']. rewrite Hx'. printed.
  step ltac:(apply works_vec_of; (done || (cbn; lia))). intros ws [Hw Hy]. rewrite Hy. printed.
  step ltac:(apply works_quick_sort; rewrite Hy; apply words_sorted). intros ws' [Hw' Hy']. rewrite Hy'. printed.
  step ltac:(eapply works_drop; [done..|unfold vec_ok; rewrite Hw'; exact Hw|done|cbn; lia|done]). intros _ _.
  eapply works_drop; [done..|unfold vec_ok; rewrite Hv'; exact Hv|done|cbn; lia|done].
  Unshelve. all: try (vm_compute; done).
Qed.

Lemma works_matmul : works (matmul_main message oom) 0 0 (need MatMul)
  (console message MatMul) (λ _, True).
Proof using Hse He.
  unfold matmul_main. begin.
  step ltac:(eapply works_generate; [done..|lia|lia|apply generated]). intros a Ha.
  step ltac:(eapply works_generate; [done..|lia|lia|apply generated]). intros b Hb.
  rewrite (mo_values _ _ _ _ Ha), (mo_values _ _ _ _ Hb).
  step ltac:(apply works_emits, emits_matrix). intros ? _.
  step ltac:(apply works_emits, emits_matrix). intros ? _.
  step ltac:(eapply (works_multiply _ _ _ _ _ _ a b 15 15); rewrite ?(mo_values _ _ _ _ Ha), ?(mo_values _ _ _ _ Hb);
    [done..|lia|lia|done|done|done|apply multiplied|done]).
  intros ? (m & -> & Hm). rewrite (mo_values _ _ _ _ Hm).
  step ltac:(step ltac:(apply works_emits, emits_matrix); intros ? _;
    eapply works_drop_matrix; [done..|exact Hm|lia|lia|done|lia]). intros _ _.
  step ltac:(eapply works_drop_matrix; [done..|exact Hb|lia|lia|done|lia]). intros _ _.
  eapply works_drop_matrix; [done..|exact Ha|lia|lia|done|lia].
  Unshelve.
  all: lazymatch goal with
       | |- _ = _ => cbn [console app]; rewrite ?app_nil_r; reflexivity
       | |- _ => first [lia | vm_compute; done]
       end.
Qed.
End mains.

Lemma factorial_checked message (H : Profile) : overflow_checks = true →
  fails (factorial_main message) [] (message POverflow).
Proof.
  intros E. unfold factorial_main. apply fails_bind. intros w. rewrite put_nil.
  destruct H; [|done]. vm_compute. reflexivity.
Qed.
Lemma factorial_wraps message (H : Profile) : overflow_checks = false →
  emits (factorial_main message) (lines ["The result of factorial(20) is 2192834560"%string]) (Ok tt).
Proof.
  intros E. assert (F : Fact.factorial 20 = Ret 2192834560).
  { destruct H; [done|]. vm_compute. reflexivity. }
  unfold factorial_main. rewrite F. eapply emits_text.
  - eapply emits_bind; [apply emits_ret|]. eapply emits_bind; [apply emits_writeln | apply emits_ret].
  - vm_compute. reflexivity.
Qed.

(** C24: Every program of the runtime does, on the simulated processor, what it is written
    for, in either build profile and wherever the linker puts its sections in the lower half
    of the address space, when the heap holds what the program asks for: [start] clears
    exactly the .bss range, byte by byte, and initialises the allocator; the program writes
    exactly its text to the console, one character per system call - the greeting, the
    numbers, the vectors before and after sorting, the two matrices and their product -; every
    block it was given, the copies of the merges and the rows of the matrices included, is
    given back; and it ends by the ECALL with a0 = 0, never reaching the [unreachable!] behind
    it.  This holds for factorial too, which with overflow checks panics: the handler writes
    the panic's message and ends the program in the same way; without, it writes 20! modulo
    2^32.  When the heap cannot hold even the first block that a program asks for, the handler
    writes the message of the failed allocation, nothing else, and ends the program. *)
Theorem guest_programs `{Profile} (message : panic → text) (oom : Z → text) (l : Symbols) (b : program) :
  0 < sym_heap_start l ≤ sym_heap_end l → sym_heap_end l ≤ 2 ^ 31 →
  (need b ≤ sym_heap_end l - sym_heap_start l →
     ends_with l (console message b) (run message oom l b boot)) ∧
  (∀ size, first_block b = Some size → sym_heap_end l < round_up (sym_heap_start l) 4 + size →
     ends_with l (chars "Panicked! " ++ oom size ++ newline) (run message oom l b boot)).
Proof.
  intros Hheap Hhigh. split; destruct b; cbn [run first_block]; intros.
  - eapply emits_ends; [done|]. unfold hello_main. emit. reflexivity.
  - by eapply works_ends; [apply works_nums|].
  - unfold console. destruct overflow_checks eqn:E.
    + apply (panicking_ends _ _ _ []). by apply factorial_checked.
    + apply (emits_ends _ _ Hheap _ _ (Ok tt)). by apply factorial_wraps.
  - by eapply works_ends; [apply works_msort|].
  - by eapply works_ends; [apply works_qsort|].
  - by eapply works_ends; [apply works_matmul|].
  - done.
  - simplify_eq. apply refusing_ends, refuses_bind. by apply refuses_vec_of.
  - done.
  - simplify_eq. apply refusing_ends, refuses_bind. by apply refuses_vec_of.
  - simplify_eq. apply refusing_ends, refuses_bind. by apply refuses_vec_of.
  - simplify_eq. apply refusing_ends, refuses_bind, refuses_bind. by apply refuses_capacity.
Qed.

#[local] Existing Instance dev_profile.

(** merge sort in a heap of 263 bytes, and in none *)
Lemma guest_programs_witness :
  let l hend := {| bss_start := 8192; bss_end := 8216; sym_heap_start := 8216; sym_heap_end := hend |} in
  let oom n := chars "memory allocation of " ++ display n ++ chars " bytes failed" in
  ends_with (l 8479) (lines ["Before sorting: [64, 34, 25, 12, 22, 11, 90, 88, 76, 50, 42]";
      "After sorting: [11, 12, 22, 25, 34, 42, 50, 64, 76, 88, 90]"]%string)
    (run (λ _, []) oom (l 8479) MSort boot) ∧
  ends_with (l 8216) (lines ["Panicked! memory allocation of 44 bytes failed"%string])
    (run (λ _, []) oom (l 8216) MSort boot).
Proof.
  intros l oom. split.
  - apply (guest_programs (λ _, []) oom (l 8479) MSort); [cbn; lia | cbn; lia | vm_compute; discriminate].
  - exact (proj2 (guest_programs (λ _, []) oom (l 8216) MSort ltac:(cbn; lia) ltac:(cbn; lia))
      44 eq_refl eq_refl).
Defined.

(** * The processor's side *)

(** an ECALL that retires halts the processor exactly when a0 is zero; the call to print a
    character changes nothing but the counter, so that the console's text is lost *)
Lemma ecall_retires {RP P} (p : PipelineProcessor RP P) op x a0 a1 :
  wb_op p = Some op → inst op = Instruction.Inst.Ecall x → Op.writeback op = None →
  placeholder op = false → id_regs p !! 10%nat = Some a0 → id_regs p !! 11%nat = Some a1 →
  Cpu.pipe_stage_wb p = Ret (Cpu.with_hpm (PipeStat.inst_ret (hpm p))
    (Cpu.with_wb_op None (if a0 =? 0 then Cpu.with_halt true p else p))).
Proof.
  intros Ew Ei En Ep E0 E1. unfold Cpu.pipe_stage_wb. rewrite Ew, Ei.
  rewrite (index_Ret _ _ _ E0), (index_Ret _ _ _ E1), !bind_Ret, En, bind_Ret.
  unfold Op.is_placeholder. rewrite Ep. cbn [negb]. by destruct (a0 =? 0).
Qed.
