(* ===== verification/UnitTests.v ===== *)
(** The repository's unit tests as programs of the model: what a test needs ([assert_eq!],
    [expect], [#[should_panic]], loops that wait), and the tests of the components that have
    no state of their own: micro-ops, decode and execute units, statistics, cache
    configuration, write policies, prefetchers, replacement policies, DRAM timing and bank. *)
From S2P Require Import Prelude Word Format Instruction BranchPredictor Uop Execute Decode AbstractMem ReplacementPolicy CacheConfig Dram Pipe.
From stdpp Require Import base list numbers strings.
From Stdlib Require Import Lia SpecFloat.
#[local] Open Scope Z_scope.
#[local] Coercion Z.of_nat : nat >-> Z.

(** * What the tests use *)

Definition assert_eq {A} `{EqDecision A} (x y : A) : exec unit := assert_ (bool_decide (x = y)).
Definition assert_ne {A} `{EqDecision A} (x y : A) : exec unit := assert_ (bool_decide (x ≠ y)).

(** [Result::expect] and [Result::expect_err] *)
Definition expect {A E} (r : Result A E) : exec A :=
  match r with Ok a => mret a | Err _ => Panic PUnwrap end.
Definition expect_err {A E} (r : Result A E) : exec E :=
  match r with Err e => mret e | Ok _ => Panic PUnwrap end.
Definition is_err {A E} (r : Result A E) : bool := match r with Err _ => true | Ok _ => false end.

(** [#[should_panic]]: the text of the panic is that of one kind of check *)
Definition should_panic {A} (p : panic) (t : exec A) : exec unit :=
  match t with Panic q => assert_eq q p | Ret _ => Panic PExplicit end.

Definition passes (t : exec unit) : Prop := t = Ret tt.

Lemma all_pass (l : list (exec unit)) : forallb is_ret l = true → Forall passes l.
Proof.
  induction l as [|t l IH]; cbn; intros E; [constructor|]. apply andb_true_iff in E as [Et E].
  constructor; [|by apply IH]. by destruct t as [[]|].
Qed.

(** [while !fin(s) { s = step(s) }] with the number of its iterations; a test that is not
  over within the fuel fails *)
Fixpoint wait {S} (step : S → exec S) (fin : S → bool) (fuel : nat) (s : S) : exec (nat * S) :=
  if fin s then mret (O, s)
  else match fuel with
  | O => Panic PExplicit
  | S fuel => s ← step s; '(n, s) ← wait step fin fuel s; mret (Datatypes.S n, s)
  end.

(** [(a - b).abs() < 1e-9] on [f64]; a decimal literal is the double nearest to the
  fraction [n / d], as the correctly rounded quotient is *)
Module TestFloat.
Definition lit (n d : nat) : spec_float := F64.div (F64.of_usize n) (F64.of_usize d).
Definition sub (a b : spec_float) : spec_float := SFsub 53 1024 a b.
Definition approx_eq (a b : spec_float) : bool :=
  SFltb (SFabs (sub a b))
    (F64.div (F64.of_usize 1) (binary_normalize 53 1024 1000000000 0 false)).
(** [assert_eq!(a, b)] *)
Definition same (a b : spec_float) : exec unit := assert_ (SFeqb a b).
End TestFloat.

#[export] Instance BankState_eq_dec : EqDecision BankState.
Proof. solve_decision. Defined.
#[export] Instance BankEvent_eq_dec : EqDecision BankEvent.
Proof. solve_decision. Defined.
#[export] Instance GeneralCacheConfigError_eq_dec : EqDecision GeneralCacheConfigError.
Proof. solve_decision. Defined.
#[export] Instance AluOpTwoSelect_eq_dec : EqDecision Alu.AluOpTwoSelect.
Proof. solve_decision. Defined.

(** * The tests of the processor's parts *)

Module CoreTests.
#[local] Existing Instance Alu.AluOpTypes_eq_dec.
Section tests.
Context `{Profile}.

(** ** [uop.rs] *)
Definition load_materialization_sign_and_zero_extends_bytes : exec unit :=
  let signed := LoadAccess 0 Byte SignExt in
  let zero := LoadAccess 0 Byte ZeroExt in
  v ← Access.loaded_value signed [0x80];
  _ ← assert_eq v 0xffffff80;
  w ← Access.loaded_value zero [0x80];
  assert_eq w 0x80.

(** ** [decode.rs] *)
Definition op_imm_reads_register_and_selects_immediate_alu_operand : exec unit :=
  regs ← set_index (replicate 32 0) 2 0xAA;
  let op := Op.default in
  let op := {| raw_inst := raw_inst op; inst := Inst.Addi (IType (Z.lor (Z.shiftl 2 15) (Z.shiftl 3 7)));
    pc := pc op; rs1 := rs1 op; rs2 := rs2 op; immediate_signext := immediate_signext op;
    alu_op_type := alu_op_type op; alu_op1_sel := alu_op1_sel op;
    alu_op2_sel := alu_op2_sel op; alu_result := alu_result op;
    alu_result_as_rd_dst_value := alu_result_as_rd_dst_value op; rd_index := rd_index op;
    rd_write_value := rd_write_value op; bp_result := bp_result op;
    placeholder := placeholder op |} in
  r ← Decode.decode op regs;
  op ← expect r;
  _ ← assert_eq (rs1 op) (Some (2, 0xAA));
  _ ← assert_eq (rd_index op) (Some 3);
  _ ← assert_eq (alu_op_type op) Alu.Add;
  assert_eq (alu_op2_sel op) Alu.ImmSignExt.

(** ** [execute.rs] *)
Definition rv32_division_zero_cases_match_architecture : exec unit :=
  _ ← assert_eq (Execute.alu_result Alu.Div 12 0) (2 ^ 32 - 1);
  assert_eq (Execute.alu_result Alu.Rem 12 0) 12.

Definition signed_and_unsigned_branches_compare_different_domains : exec unit :=
  let inst := BType 0 in
  _ ← assert_eq (Execute.branch_taken (Inst.Blt inst) (2 ^ 32 - 1) 1) (Some true);
  assert_eq (Execute.branch_taken (Inst.Bltu inst) (2 ^ 32 - 1) 1) (Some false).

(** ** [statistic.rs] *)
Definition pipe_finalize_rates_basic : exec unit :=
  let s := PipeStat.default in
  let s := {| total_ticked_cycle := 40; inst_fetched := inst_fetched s; inst_retire := 25;
    branch_inst_cnt := 10; branch_miss_cnt := 2; total_flush_cnt := total_flush_cnt s;
    actual_flushed_inst_cnt := actual_flushed_inst_cnt s; ipc := ipc s;
    branch_miss_rate := branch_miss_rate s |} in
  let s := PipeStat.finalize_rates s in
  _ ← assert_ (TestFloat.approx_eq (ipc s) (TestFloat.lit 625 1000));
  assert_ (TestFloat.approx_eq (branch_miss_rate s) (TestFloat.lit 2 10)).

Definition pipe_finalize_rates_zero_denominators_return_zero : exec unit :=
  let s := PipeStat.finalize_rates PipeStat.default in
  _ ← TestFloat.same (ipc s) F64.zero;
  TestFloat.same (branch_miss_rate s) F64.zero.

Definition all : list (exec unit) :=
  [load_materialization_sign_and_zero_extends_bytes;
   op_imm_reads_register_and_selects_immediate_alu_operand;
   rv32_division_zero_cases_match_architecture;
   signed_and_unsigned_branches_compare_different_domains;
   pipe_finalize_rates_basic; pipe_finalize_rates_zero_denominators_return_zero].
End tests.
End CoreTests.

(** * The tests of the caches' parts *)

Module CachePartTests.
Section tests.
Context `{Profile}.

(** ** [config.rs] *)
Definition builds_power_of_two_geometry_for_address_slicing : exec unit :=
  config ← expect (Config.new "L1-D$" 4096 32 2);
  _ ← assert_eq (num_sets (geometry config)) 64;
  _ ← assert_eq (offset_bit_width (geometry config)) 5;
  assert_eq (index_bit_width (geometry config)) 6.

Definition rejects_non_power_of_two_block_size : exec unit :=
  err ← expect_err (Config.new "L1-D$" 4096 24 2);
  assert_eq err (BlockSizeNotPowerOfTwo 24).

(** ** [write_policy.rs] *)
Definition default_is_write_back_write_allocate : exec unit :=
  let wp := Policy.default in
  _ ← assert_eq wp WriteBackWriteAllocate;
  _ ← assert_ (Policy.is_write_back wp);
  assert_ (Policy.is_write_allocate wp).

Definition axes_are_orthogonal : exec unit :=
  foldr (λ wp rest,
    _ ← assert_ne (Policy.is_write_back wp) (Policy.is_write_through wp);
    _ ← assert_ne (Policy.is_write_allocate wp) (Policy.is_no_write_allocate wp);
    rest) (mret tt)
  [WriteBackWriteAllocate; WriteBackNoWriteAllocate; WriteThroughWriteAllocate;
   WriteThroughNoWriteAllocate].

(** ** [prefetcher.rs] *)
Definition null_returns_no_predictions : exec unit :=
  let p := NullPrefetcher in
  l ← Prefetch.predict p 0x100 true false;
  _ ← assert_eq l [];
  l ← Prefetch.predict p 0x100 false true;
  assert_eq l [].

Definition next_line_predicts_next_block_aligned_address : exec unit :=
  let p := NextLinePrefetcher 32 in
  l ← Prefetch.predict p 0x40 false false;
  _ ← assert_eq l [0x60];
  l ← Prefetch.predict p 0x55 true false;
  assert_eq l [0x60].

Definition next_line_handles_high_address_without_panic : exec unit :=
  let p := NextLinePrefetcher 32 in
  predictions ← Prefetch.predict p 0xFFFFFFE0 false false;
  assert_eq (length predictions) 1%nat.

Definition kind_builds_appropriate_prefetcher : exec unit :=
  let null_b := Prefetch.build Null 32 in
  l ← Prefetch.predict null_b 0x10 false false;
  _ ← assert_eq l [];
  let nl_b := Prefetch.build NextLine 32 in
  l ← Prefetch.predict nl_b 0x10 false false;
  assert_eq l [0x20].

(** ** [statistic.rs] *)

(** a fresh record with the counters of a test *)
Definition counted (loads load_misses stores store_misses : nat) : CacheStatistic :=
  let s := CacheStat.new "test" in
  {| stat_name := stat_name s; load_cnt := loads; store_cnt := stores;
     load_miss_cnt := load_misses; store_miss_cnt := store_misses;
     prefetch_issued_cnt := prefetch_issued_cnt s; load_miss_rate := load_miss_rate s;
     store_miss_rate := store_miss_rate s; overall_miss_rate := overall_miss_rate s |}.

Definition finalize_rates_basic : exec unit :=
  let s := CacheStat.finalize_rates (counted 10 2 4 1) in
  _ ← assert_ (TestFloat.approx_eq (load_miss_rate s) (TestFloat.lit 2 10));
  _ ← assert_ (TestFloat.approx_eq (store_miss_rate s) (TestFloat.lit 25 100));
  assert_ (TestFloat.approx_eq (overall_miss_rate s) (TestFloat.lit 3 14)).

Definition finalize_rates_zero_traffic_returns_zero : exec unit :=
  let s := CacheStat.finalize_rates (CacheStat.new "test") in
  _ ← TestFloat.same (load_miss_rate s) F64.zero;
  _ ← TestFloat.same (store_miss_rate s) F64.zero;
  TestFloat.same (overall_miss_rate s) F64.zero.

Definition finalize_rates_loads_only : exec unit :=
  let s := CacheStat.finalize_rates (counted 100 25 0 0) in
  _ ← assert_ (TestFloat.approx_eq (load_miss_rate s) (TestFloat.lit 25 100));
  _ ← TestFloat.same (store_miss_rate s) F64.zero;
  assert_ (TestFloat.approx_eq (overall_miss_rate s) (TestFloat.lit 25 100)).

Definition finalize_rates_all_miss : exec unit :=
  let s := CacheStat.finalize_rates (counted 5 5 3 3) in
  _ ← assert_ (TestFloat.approx_eq (load_miss_rate s) (TestFloat.lit 1 1));
  _ ← assert_ (TestFloat.approx_eq (store_miss_rate s) (TestFloat.lit 1 1));
  assert_ (TestFloat.approx_eq (overall_miss_rate s) (TestFloat.lit 1 1)).

Definition all : list (exec unit) :=
  [builds_power_of_two_geometry_for_address_slicing; rejects_non_power_of_two_block_size;
   default_is_write_back_write_allocate; axes_are_orthogonal; null_returns_no_predictions;
   next_line_predicts_next_block_aligned_address;
   next_line_handles_high_address_without_panic; kind_builds_appropriate_prefetcher;
   finalize_rates_basic; finalize_rates_zero_traffic_returns_zero; finalize_rates_loads_only;
   finalize_rates_all_miss].
End tests.
End CachePartTests.

(** ** [replacement_policy.rs] *)

Module PlruTests.
Import PseudoLru.
Definition rejects_non_power_of_two : exec unit := should_panic PAssert (PseudoLru.new 3).

Definition one_way_always_evicts_zero : exec unit :=
  p ← PseudoLru.new 1;
  p ← PseudoLru.insert p 0;
  '(full, way, p) ← PseudoLru.evict p;
  assert_eq (full, way) (true, 0%nat).

Definition invalid_ways_picked_first : exec unit :=
  p ← PseudoLru.new 4;
  p ← PseudoLru.insert p 2;
  '(full, way, p) ← PseudoLru.evict p;
  _ ← assert_ (negb full);
  assert_ne way 2%nat.

Definition evicts_lru_when_full_two_way : exec unit :=
  p ← PseudoLru.new 2;
  p ← PseudoLru.insert p 0;
  p ← PseudoLru.insert p 1;
  '(full, way, p) ← PseudoLru.evict p;
  _ ← assert_ full;
  assert_eq way 0%nat.

Definition evicts_lru_when_full_four_way : exec unit :=
  p ← PseudoLru.new 4;
  p ← PseudoLru.insert p 0;
  p ← PseudoLru.insert p 1;
  p ← PseudoLru.insert p 2;
  p ← PseudoLru.insert p 3;
  p ← PseudoLru.promote p 0;
  '(full, way, p) ← PseudoLru.evict p;
  _ ← assert_ full;
  assert_ ((way =? 1) || (way =? 2))%nat.

Definition evicts_lru_when_full_eight_way : exec unit :=
  p ← PseudoLru.new 8;
  p ← foldl (λ p w, p ← p; PseudoLru.insert p w) (mret p) (seq 0 8);
  p ← PseudoLru.promote p 0;
  '(full, way, p) ← PseudoLru.evict p;
  _ ← assert_ full;
  _ ← assert_ne way 0%nat;
  assert_ne way 7%nat.

Definition all : list (exec unit) :=
  [rejects_non_power_of_two; one_way_always_evicts_zero; invalid_ways_picked_first;
   evicts_lru_when_full_two_way; evicts_lru_when_full_four_way;
   evicts_lru_when_full_eight_way].
End PlruTests.

(** * The tests of the DRAM's timing and bank *)

Module BankTests.
(** ** [timing.rs] *)
Definition educational_default_passes_validity_check : exec unit :=
  Timing.assert_valid Timing.educational_default.
Definition ddr4_2400_passes_validity_check : exec unit := Timing.assert_valid Timing.ddr4_2400.
Definition zero_t_rcd_is_rejected : exec unit :=
  should_panic PAssert (Timing.assert_valid {| t_rcd := 0; t_cl := 4; t_rp := 4 |}).

Section bank.
Context `{Profile}.

(** ** [bank.rs] *)

(** [assert!(matches!(b.advance_one_cycle(), e))] *)
Definition advance (e : option BankEvent) (b : BankState) : exec BankState :=
  '(b, got) ← Bank.advance_one_cycle b; _ ← assert_eq got e; mret b.
(** [b.advance_one_cycle();] *)
Definition advance_ (b : BankState) : exec BankState :=
  '(b, _) ← Bank.advance_one_cycle b; mret b.

Definition idle_bank_starts_idle : exec unit := assert_eq Bank.new Dram.Idle.

Definition activate_takes_exactly_t_rcd_cycles : exec unit :=
  b ← Bank.issue_activate 7 4 Bank.new;
  b ← advance None b;
  b ← advance None b;
  b ← advance None b;
  b ← advance (Some ActivationFinished) b;
  assert_eq b (Active 7).

Definition read_emits_event_and_returns_to_active : exec unit :=
  b ← Bank.issue_activate 3 1 Bank.new;
  b ← advance_ b;
  _ ← assert_eq b (Active 3);
  b ← Bank.issue_read 3 2 b;
  b ← advance None b;
  b ← advance (Some ReadFinished) b;
  assert_eq b (Active 3).

Definition write_emits_event_and_returns_to_active : exec unit :=
  b ← Bank.issue_activate 5 1 Bank.new;
  b ← advance_ b;
  b ← Bank.issue_write 5 3 b;
  b ← advance None b;
  b ← advance None b;
  b ← advance (Some WriteFinished) b;
  assert_eq b (Active 5).

Definition precharge_returns_bank_to_idle : exec unit :=
  b ← Bank.issue_activate 2 1 Bank.new;
  b ← advance_ b;
  b ← Bank.issue_precharge 2 b;
  b ← advance None b;
  b ← advance (Some PrechargeFinished) b;
  assert_eq b Dram.Idle.

Definition cannot_activate_an_already_active_bank : exec unit :=
  b ← Bank.issue_activate 1 1 Bank.new;
  b ← advance_ b;
  should_panic PAssert (Bank.issue_activate 2 1 b).

Definition read_must_match_open_row : exec unit :=
  b ← Bank.issue_activate 1 1 Bank.new;
  b ← advance_ b;
  should_panic PAssert (Bank.issue_read 9 1 b).

Definition all : list (exec unit) :=
  [educational_default_passes_validity_check; ddr4_2400_passes_validity_check;
   zero_t_rcd_is_rejected; idle_bank_starts_idle; activate_takes_exactly_t_rcd_cycles;
   read_emits_event_and_returns_to_active; write_emits_event_and_returns_to_active;
   precharge_returns_bank_to_idle; cannot_activate_an_already_active_bank;
   read_must_match_open_row].
End bank.
End BankTests.
