(* ===== verification/MemoryTests.v ===== *)
(** The repository's unit tests of the memories and of the transactions with them
    ([simple_mem.rs], [simple_dram/mod.rs], [lower_memory.rs], [memory_access.rs]), with the
    memories that the tests define for themselves. *)
From S2P Require Import Prelude Word Format Instruction BranchPredictor Uop AbstractMem LowerMemory MemoryAccess SimpleMem Dram ReplacementPolicy CacheConfig Pipe UnitTests.
From stdpp Require Import base gmap list numbers.
From Stdlib Require Import Lia.
#[local] Open Scope Z_scope.
#[local] Coercion Z.of_nat : nat >-> Z.

#[export] Instance MemoryTransactionStatus_eq_dec : EqDecision MemoryTransactionStatus.
Proof. solve_decision. Defined.

(** a device and the heap of its requests, clocked until a request is done *)
Section devices.
Context {M : Type} `{AbstractMemoryInterface M}.

Definition step (s : M * heap) : exec (M * heap) := tick s.1 s.2.
Definition done_in (req : MemoryReqType) (s : M * heap) : bool := Req.is_done req s.2.

(** [mem.try_register_req(&req).expect(..)] *)
Definition register (req : MemoryReqType) (s : M * heap) : exec (M * heap) :=
  '(res, m, h) ← try_register_req s.1 req s.2; _ ← expect res; mret (m, h).
End devices.

(** * [simple_mem.rs] *)

Module SimpleMemTests.

(** the memory and the golden copy of its data; the generator's data are an argument *)
Definition random_initialize (init_data : list Z) : SimpleMem * list Z :=
  ({| SimpleMem.data := init_data; SimpleMem.pending_req := None; stall_countdown := 0;
      load_access_count := 0; store_access_count := 0 |}, init_data).

(** a request registered and clocked until it is done *)
Definition perform (req : MemoryReqType) (s : SimpleMem * heap) : exec (SimpleMem * heap) :=
  s ← register req s; '(_, s) ← wait step (done_in req) 16 s; mret s.

(** one round of the loop of [ramdom_access]: the store and its verification; a draw is the
  outcome of [random_bool], the start address and the bytes *)
Definition access (draw : bool * Z * list Z) (s : SimpleMem * list Z * heap)
    : exec (SimpleMem * list Z * heap) :=
  let '(is_store, access_start_addr, random_store_data) := draw in
  let '(mem_dut, mem_golden, h) := s in
  if (is_store : bool) then
    let access_length := length random_store_data in
    let '(store_req, h) := Req.store access_start_addr random_store_data h in
    mem_golden ← write_slice mem_golden (Z.to_nat access_start_addr) access_length random_store_data;
    '(mem_dut, h) ← perform store_req (mem_dut, h);
    let '(load_req, h) := Req.load access_start_addr access_length h in
    '(mem_dut, h) ← perform load_req (mem_dut, h);
    load_data ← Req.load_data load_req h;
    bytes ← slice load_data 0 access_length;
    _ ← assert_eq bytes random_store_data;
    mret (mem_dut, mem_golden, h)
  else mret (mem_dut, mem_golden, h).

Fixpoint accesses (draws : list (bool * Z * list Z)) (s : SimpleMem * list Z * heap)
    : exec (SimpleMem * list Z * heap) :=
  match draws with
  | [] => mret s
  | d :: draws => s ← access d s; accesses draws s
  end.

Definition ramdom_access (init_data : list Z) (draws : list (bool * Z * list Z)) : exec unit :=
  let '(mem_dut, mem_golden) := random_initialize init_data in
  _ ← accesses draws (mem_dut, mem_golden, Heap.empty);
  mret tt.

(** what the generator may draw *)
Definition draw_ok (d : bool * Z * list Z) : Prop :=
  let '(_, addr, bytes) := d in 0 ≤ addr ∧ addr + length bytes < MEM_SIZE.
End SimpleMemTests.

(** * [simple_dram/mod.rs] *)

Module DramTests.
Section tests.
Context `{Profile}.

Definition build_dram (row_size : Z) : exec (SimpleDram * heap) :=
  d ← Dram.new (replicate (Z.to_nat 0x10000) 0) Timing.educational_default;
  d ← Dram.with_row_size row_size d;
  mret (d, Heap.empty).

(** the number of cycles until the request is done, at most 10,000 *)
Definition run_to_completion (req : MemoryReqType) (s : SimpleDram * heap)
    : exec (nat * (SimpleDram * heap)) :=
  s ← register req s;
  wait step (done_in req) (Z.to_nat 9999) s.

(** a load or a store made and run to completion *)
Definition run_load (addr : Z) (len : nat) (s : SimpleDram * heap)
    : exec (MemoryReqType * nat * (SimpleDram * heap)) :=
  let '(req, h) := Req.load addr len s.2 in
  '(cycles, s) ← run_to_completion req (s.1, h);
  mret (req, cycles, s).
Definition run_store (addr : Z) (bytes : list Z) (s : SimpleDram * heap)
    : exec (MemoryReqType * nat * (SimpleDram * heap)) :=
  let '(req, h) := Req.store addr bytes s.2 in
  '(cycles, s) ← run_to_completion req (s.1, h);
  mret (req, cycles, s).

Definition cold_load_takes_t_rcd_plus_t_cl_cycles : exec unit :=
  s ← build_dram 256;
  let t := timing s.1 in
  '(_, cycles, s) ← run_load 0x100 4 s;
  _ ← assert_eq (Z.of_nat cycles) (t_rcd t + t_cl t);
  _ ← assert_eq (row_buffer_miss_cnt s.1) 1%nat;
  assert_eq (row_buffer_hit_cnt s.1) 0%nat.

Definition row_buffer_hit_takes_only_t_cl_cycles : exec unit :=
  s ← build_dram 256;
  let t := timing s.1 in
  '(_, _, s) ← run_load 0x100 4 s;
  '(_, cycles, s) ← run_load 0x110 4 s;
  _ ← assert_eq (Z.of_nat cycles) (t_cl t);
  _ ← assert_eq (row_buffer_hit_cnt s.1) 1%nat;
  assert_eq (row_buffer_miss_cnt s.1) 1%nat.

Definition row_buffer_miss_takes_t_rp_plus_t_rcd_plus_t_cl : exec unit :=
  s ← build_dram 256;
  let t := timing s.1 in
  '(_, _, s) ← run_load 0x100 4 s;
  '(_, cycles, s) ← run_load 0x200 4 s;
  _ ← assert_eq (Z.of_nat cycles) (t_rp t + t_rcd t + t_cl t);
  _ ← assert_eq (row_buffer_miss_cnt s.1) 2%nat;
  assert_eq (row_buffer_hit_cnt s.1) 0%nat.

Definition store_then_load_round_trips_data : exec unit :=
  s ← build_dram 256;
  '(_, _, s) ← run_store 0x40 [0xDE; 0xAD; 0xBE; 0xEF] s;
  '(l, _, s) ← run_load 0x40 4 s;
  buf ← Req.load_data l s.2;
  assert_eq buf [0xDE; 0xAD; 0xBE; 0xEF].

Definition store_to_open_row_is_a_hit : exec unit :=
  s ← build_dram 256;
  let t := timing s.1 in
  '(_, _, s) ← run_load 0 4 s;
  '(_, cycles, s) ← run_store 0x10 [1; 2; 3; 4] s;
  _ ← assert_eq (Z.of_nat cycles) (t_cl t);
  assert_eq (row_buffer_hit_cnt s.1) 1%nat.

Definition second_request_rejected_while_one_is_in_flight : exec unit :=
  s ← build_dram 256;
  let '(first, h) := Req.load 0x40 4 s.2 in
  s ← register first (s.1, h);
  let '(second, h) := Req.load 0x80 4 s.2 in
  '(res, _, _) ← try_register_req s.1 second h;
  assert_ (is_err res).

Definition out_of_bound_access_panics : exec unit :=
  s ← build_dram 256;
  let '(req, h) := Req.load 0xFFFF0000 4 s.2 in
  should_panic PAssert (try_register_req s.1 req h).

Definition all : list (exec unit) :=
  [cold_load_takes_t_rcd_plus_t_cl_cycles; row_buffer_hit_takes_only_t_cl_cycles;
   row_buffer_miss_takes_t_rp_plus_t_rcd_plus_t_cl; store_then_load_round_trips_data;
   store_to_open_row_is_a_hit; second_request_rejected_while_one_is_in_flight;
   out_of_bound_access_panics].
End tests.
End DramTests.

(** * [lower_memory.rs] *)

Module TransactionTests.

(** a memory that completes a store when it accepts it *)
Inductive ImmediateMemory := Immediate.
#[local] Instance Immediate_Clocked : Clocked ImmediateMemory := λ m h, mret (m, h).
#[local] Instance Immediate_AbstractMemoryInterface : AbstractMemoryInterface ImmediateMemory := {
  try_register_req m req h := h ← Req.complete_store req h; mret (Ok tt, m, h);
}.

Definition accepted_request_completes_on_the_following_progress_check : exec unit :=
  let '(req, h) := Req.store 0x40 [1] Heap.empty in
  let transaction := LowerMemory.new req in
  '(fin, transaction, m, h) ← LowerMemory.progress transaction Immediate h;
  _ ← assert_ (negb fin);
  '(fin, _, _, _) ← LowerMemory.progress transaction m h;
  assert_ fin.

(** ** [memory_access.rs]: a memory that may refuse its first request *)
Record RetryMemory := { first_register_fails : bool; pending : option MemoryReqType }.

#[local] Instance Retry_Clocked : Clocked RetryMemory := λ m h,
  match pending m with
  | Some req =>
      h ← Req.complete_load_from_slice req [0x80] h;
      mret ({| first_register_fails := first_register_fails m; pending := None |}, h)
  | None => mret (m, h)
  end.
#[local] Instance Retry_AbstractMemoryInterface : AbstractMemoryInterface RetryMemory := {
  try_register_req m req h :=
    if first_register_fails m then
      mret (Err tt, {| first_register_fails := false; pending := pending m |}, h)
    else mret (Ok tt, {| first_register_fails := first_register_fails m; pending := Some req |}, h);
}.

Definition load_transaction_retries_and_materializes_result : exec unit :=
  let access := LoadAccess 0x10 Byte SignExt in
  let memory := {| first_register_fails := true; pending := None |} in
  let transaction := Transaction.default in
  '(st, transaction, memory, h) ← Transaction.progress transaction memory access Heap.empty;
  _ ← assert_eq st Pending;
  '(st, transaction, memory, h) ← Transaction.progress transaction memory access h;
  _ ← assert_eq st Pending;
  '(memory, h) ← tick memory h;
  '(st, _, _, _) ← Transaction.progress transaction memory access h;
  assert_eq st (Complete (Some 0xffffff80)).

Definition all : list (exec unit) :=
  [accepted_request_completes_on_the_following_progress_check;
   load_transaction_retries_and_materializes_result].
End TransactionTests.

(** * The tests pass *)

Lemma wait_ticks {M} `{AbstractMemoryInterface M} (fin : M * heap → bool) n k m h m' h' :
  (∀ i, (i < n)%nat → ∃ mi hi, ticks i m h = Ret (mi, hi) ∧ fin (mi, hi) = false) →
  ticks n m h = Ret (m', h') → fin (m', h') = true →
  wait step fin (n + k) (m, h) = Ret (n, (m', h')).
Proof.
  revert m h. induction n as [|n IH]; intros m h Hb Ht Hf.
  { injection Ht as <- <-. destruct k; cbn; by rewrite Hf. }
  destruct (Hb O) as (m0 & h0 & [= <- <-] & Hf0); [lia|]. cbn [wait Nat.add]. rewrite Hf0.
  cbn [ticks] in Ht. unfold step. cbn [fst snd].
  destruct (tick m h) as [[m1 h1]|] eqn:E; [|done]. rewrite bind_Ret in *.
  rewrite IH; [done | | done | done]. intros i Hi. destruct (Hb (S i)) as (mi & hi & Hti & Hfi); [lia|].
  exists mi, hi. split; [|done]. cbn [ticks] in Hti. by rewrite E in Hti.
Qed.

(** a request of a test on the memory *)
Lemma perform_ok (m : SimpleMem) r h :
  SimpleMem.pending_req m = None → in_bounds m r → req_wf r → Req.is_done r h = false →
  ∃ m', SimpleMemTests.perform r (m, h) =
      Ret (m', Heap.set (Req.id r) (reply r (view_of (SimpleMem.data m))) h) ∧
    SimpleMem.pending_req m' = None ∧ length (SimpleMem.data m') = length (SimpleMem.data m) ∧
    ∀ a, view_of (SimpleMem.data m') a = view_apply r (view_of (SimpleMem.data m)) a.
Proof.
  intros Hp Hb Hwf Hd. unfold SimpleMemTests.perform, register. cbn [fst snd].
  change (@try_register_req _ _ m r h) with (SimpleMemory.try_register_req m r h).
  unfold SimpleMemory.try_register_req.
  rewrite (proj2 (Z.ltb_lt _ _) (proj2 (proj1 Hb))), Hp. cbn [assert_]. rewrite !bind_Ret.
  set (m1 := Build_SimpleMem _ _ _ _ _).
  assert (Hn : ∀ n, (n ≤ 15)%nat → ticks n m1 h = Ret (SimpleMemory.with_stall (15 - n) m1, h)).
  { intros n ?. eapply ticks_stall; [done|]. cbn. unfold MAIN_MEM_LATENCY. lia. }
  destruct (tick_serve (SimpleMemory.with_stall 0 m1) r h) as (d & E & Hl & Hv); [done..|].
  cbn [expect]. rewrite !bind_Ret. change 16%nat with (16 + 0)%nat.
  rewrite (wait_ticks _ 16 0 m1 h (SimpleMemory.served d (SimpleMemory.with_stall 0 m1))
    (Heap.set (Req.id r) (reply r (view_of (SimpleMem.data m))) h)).
  - rewrite bind_Ret. eexists. split; [reflexivity|]. split_and!; [done | exact Hl | exact Hv].
  - intros i Hi. eexists _, _. split; [apply Hn; lia | exact Hd].
  - change 16%nat with (15 + 1)%nat. rewrite ticks_add, Hn by lia. rewrite bind_Ret.
    change (15 - 15)%nat with O. cbn [ticks].
    change (@tick SimpleMem mem_clocked (SimpleMemory.with_stall 0 m1) h)
      with (SimpleMemory.tick (SimpleMemory.with_stall 0 m1) h).
    rewrite E.
    reflexivity.
  - unfold done_in. destruct r; cbn; unfold LoadReq.is_done, StoreReq.is_done; cbn;
      by rewrite get_set_eq.
Qed.

(** C29: The memory's random test, which the repository leaves out of its test suite, passes
  whatever the generator draws: every store of every length and address below the size of
  the memory is read back by the load that follows it, and no request is refused. *)
Theorem random_access_passes init_data draws :
  Z.of_nat (length init_data) = MEM_SIZE → Forall SimpleMemTests.draw_ok draws →
  passes (SimpleMemTests.ramdom_access init_data draws).
Proof.
  intros Hlen Hd. unfold passes, SimpleMemTests.ramdom_access, SimpleMemTests.random_initialize.
  set (m := Build_SimpleMem _ _ _ _ _).
  assert (Hm : SimpleMem.pending_req m = None ∧ Z.of_nat (length (SimpleMem.data m)) = MEM_SIZE) by done.
  assert (Hg : Z.of_nat (length init_data) = MEM_SIZE) by done. clearbody m. clear Hlen.
  generalize Heap.empty. revert m Hm init_data Hg.
  induction Hd as [|[[st addr] bytes] draws [Ha Hb] Hd IH]; intros m [Hp Hl] g Hg h; [done|].
  cbn [SimpleMemTests.accesses SimpleMemTests.access]. destruct st; [|rewrite bind_Ret; by apply IH].
  cbn -[SimpleMemTests.perform SimpleMemTests.accesses].
  rewrite write_slice_Ret, bind_Ret by lia.
  destruct (perform_ok m (fst (Req.store addr bytes h)) (snd (Req.store addr bytes h)))
    as (m1 & E1 & Hp1 & Hl1 & Hv1); cbn; [done | split; cbn; lia | done | |].
  { unfold StoreReq.is_done, Heap.get. cbn. by rewrite lookup_insert_eq. }
  cbn in E1. rewrite E1, bind_Ret.
  set (h1 := Heap.set _ _ _).
  destruct (perform_ok m1 (fst (Req.load addr (length bytes) h1)) (snd (Req.load addr (length bytes) h1)))
    as (m2 & E2 & Hp2 & Hl2 & Hv2); cbn; [done | split; cbn; lia | done | |].
  { unfold LoadReq.is_done, Heap.get. cbn. by rewrite lookup_insert_eq. }
  cbn in E2. rewrite E2, bind_Ret. cbn -[SimpleMemTests.accesses]. unfold LoadReq.data.
  cbn -[SimpleMemTests.accesses]. rewrite get_set_eq. cbn -[SimpleMemTests.accesses].
  rewrite slice_Ret by (rewrite length_view_read; lia). rewrite bind_Ret, drop_0.
  rewrite (take_ge (view_read _ _ _)) by (rewrite length_view_read; lia).
  replace (view_read _ _ _) with bytes.
  - unfold assert_eq. rewrite bool_decide_true by done. cbn [assert_]. rewrite !bind_Ret.
    apply IH; [split; [done | lia] | rewrite length_write_slice; lia].
  - rewrite <- (view_read_write_same (view_of (SimpleMem.data m)) addr bytes) at 1.
    apply view_read_eq; [by rewrite length_view_read|]. intros i Hi.
    rewrite list_lookup_total_alt, lookup_view_read by done. cbn. by rewrite (Hv1 (addr + i)).
Qed.

Lemma random_access_witness :
  passes (SimpleMemTests.ramdom_access (replicate (Z.to_nat MEM_SIZE) 7)
            [(true, 64, [1; 2; 3]); (false, 0, []); (true, 66, [9; 8]); (true, 5, [])]).
Proof.
  apply random_access_passes.
  - by rewrite length_replicate, Z2Nat.id.
  - by repeat constructor.
Defined.

(** A check by evaluation, on the tests' fixed inputs: the model passes the repository's unit
  tests of the processor's parts, of the caches' parts, of the pseudo-LRU policy, of the DRAM
  with its bank and timing, and of the two kinds of transactions with a memory, with and
  without overflow checks. *)
Lemma unit_tests_pass : ∀ P : Profile, Forall passes
  (CoreTests.all ++ CachePartTests.all ++ PlruTests.all ++ BankTests.all ++
   DramTests.all ++ TransactionTests.all).
Proof. intros []; apply all_pass; vm_compute; reflexivity. Qed.
