(* ===== verification/CacheTests.v ===== *)
(** The repository's unit tests of the cache controller
    ([general_cache/mod.rs], module [unit_tests]): a FIFO cache over the fixed-latency memory.
    The random contents of the memory are an argument; the loops that wait are given fuel. *)
From S2P Require Import Prelude Word AbstractMem SimpleMem LowerMemory ReplacementPolicy CacheConfig CacheSet GeneralCache UnitTests MemoryTests.
From stdpp Require Import base list numbers strings.
From Stdlib Require Import Lia.
#[local] Open Scope Z_scope.
#[local] Coercion Z.of_nat : nat >-> Z.

Module CacheTests.

(** the cache, its backing memory and the requests *)
Definition system : Type := GeneralCache Fifo.FifoRP * SimpleMem * heap.

Section tests.
Context `{Profile}.

(** [cache.tick(); mem.borrow_mut().tick();], and the other order *)
Definition tick_both (s : system) : exec system :=
  let '(c, m, h) := s in
  '(c, m, h) ← Cache.tick c m h; '(m, h) ← tick m h; mret (c, m, h).
Definition tick_mem_first (s : system) : exec system :=
  let '(c, m, h) := s in
  '(m, h) ← tick m h; Cache.tick c m h.
Definition tick_mem (s : system) : exec system :=
  let '(c, m, h) := s in '(m, h) ← tick m h; mret (c, m, h).

Definition is_done (req : MemoryReqType) (s : system) : bool := Req.is_done req s.2.
Definition stats (s : system) : CacheStatistic := hpm s.1.1.

(** [cache.try_register_req(&req)]: whether it is accepted *)
Definition try_cache (req : MemoryReqType) (s : system) : exec (bool * system) :=
  let '(c, m, h) := s in
  '(res, c, m, h) ← Cache.try_register_req c m req h; mret (negb (is_err res), (c, m, h)).
Definition register_cache (req : MemoryReqType) (s : system) : exec system :=
  '(ok, s) ← try_cache req s; if (ok : bool) then mret s else Panic PExplicit.
Definition register_mem (req : MemoryReqType) (s : system) : exec system :=
  let '(c, m, h) := s in
  '(res, m, h) ← try_register_req m req h;
  if is_err res then Panic PExplicit else mret (c, m, h).

Definition new_load (addr : Z) (len : nat) (s : system) : MemoryReqType * system :=
  let '(req, h) := Req.load addr len s.2 in (req, (s.1, h)).
Definition new_store (addr : Z) (bytes : list Z) (s : system) : MemoryReqType * system :=
  let '(req, h) := Req.store addr bytes s.2 in (req, (s.1, h)).

(** fuel enough for the waiting loops of the tests *)
Definition patience : nat := 1000.

Definition build (init_data : list Z) (config : GeneralCacheConfig) : exec system :=
  c ← Cache.new config; mret (c, SimpleMemory.new init_data, Heap.empty).

(** [vec![0u8; 0x10000]] *)
Definition zeros : list Z := replicate (Z.to_nat 0x10000) 0.

Definition initialize_system (random_init_data : list Z) : exec system :=
  cache_config ← expect (Config.new "test_cache" 4096 32 2);
  build random_init_data cache_config.

Definition allocate_without_write_back (random_init_data : list Z) : exec unit :=
  s ← initialize_system random_init_data;
  let '(read_req_for_cache, s) := new_load 100 4 s in
  let '(read_req_for_mem, s) := new_load 100 4 s in
  s ← register_cache read_req_for_cache s;
  s ← register_mem read_req_for_mem s;
  '(_, s) ← wait tick_mem_first
    (λ s, is_done read_req_for_cache s && is_done read_req_for_mem s) patience s;
  cache_data ← Req.load_data read_req_for_cache s.2;
  mem_data ← Req.load_data read_req_for_mem s.2;
  cache_word ← slice cache_data 0 4;
  mem_word ← slice mem_data 0 4;
  assert_eq cache_word mem_word.

(** a load or a store given to the cache and clocked until it is done *)
Definition complete (req : MemoryReqType) (s : system) : exec system :=
  s ← register_cache req s; '(_, s) ← wait tick_both (is_done req) patience s; mret s.

(** the same, noting whether the cache is ever in the state [WriteBack] after a cycle *)
Definition tick_watching (s : bool * system) : exec (bool * system) :=
  s' ← tick_both s.2;
  mret (match fsm s'.1.1 with WriteBack _ _ => true | _ => s.1 end, s').

Definition cause_write_back (random_init_data : list Z) : exec unit :=
  s ← initialize_system random_init_data;
  let num_set := 32 in
  let block_size := 32 in
  s ← foldl (λ s i, s ← s; let '(read_req, s) := new_load (block_size * num_set * i) 4 s in
                    complete read_req s) (mret s) (seqZ 0 4);
  let '(write_req, s) := new_store 0 (replicate 4 116) s in
  s ← complete write_req s;
  let '(read_req, s) := new_load (block_size * num_set * 4) 4 s in
  s ← register_cache read_req s;
  '(_, (ever_been_write_back_state, s)) ←
    wait tick_watching (λ s, is_done read_req s.2) patience (false, s);
  _ ← assert_ ever_been_write_back_state;
  let '(read_req, s) := new_load 0 4 s in
  s ← register_mem read_req s;
  '(_, s) ← wait tick_mem (is_done read_req) patience s;
  l ← Req.load_data read_req s.2;
  assert_ (forallb (λ item, item =? 116) l).

(** the cycles of a miss on an empty cache *)
Definition cycles_to_resolve_cold_miss (miss_penalty_cycles : nat) : exec nat :=
  cfg ← expect (Config.new "test" 4096 32 2);
  s ← build zeros (Config.with_miss_penalty miss_penalty_cycles cfg);
  let '(req, s) := new_load 0 4 s in
  s ← register_cache req s;
  '(ticks, _) ← wait tick_both (is_done req) patience s;
  mret ticks.

Definition miss_penalty_is_per_cache_configurable : exec unit :=
  low ← cycles_to_resolve_cold_miss 2;
  high ← cycles_to_resolve_cold_miss 20;
  _ ← assert_ (low <? high)%nat;
  assert_eq (high - low)%nat 18%nat.

(** at most 10,000 cycles *)
Definition run_until_done (req : MemoryReqType) (s : system) : exec system :=
  '(_, s) ← wait tick_both (is_done req) (Z.to_nat 9999) s; mret s.

Definition accepts_aligned_upper_cache_block_transfer : exec unit :=
  cfg ← expect (Config.new "l2" 16384 64 4);
  s ← build zeros (Config.with_miss_penalty 1 cfg);
  let '(upper_cache_fill, s) := new_load 0 32 s in
  s ← register_cache upper_cache_fill s;
  _ ← run_until_done upper_cache_fill s;
  mret tt.

Definition build_cache_with_policy (wp : WritePolicy) : exec system :=
  cfg ← expect (Config.new "test" 4096 32 2);
  build zeros (Config.with_write_policy wp (Config.with_miss_penalty 1 cfg)).

Definition write_through_propagates_store_hit_to_memory : exec unit :=
  s ← build_cache_with_policy WriteThroughWriteAllocate;
  let '(store, s) := new_store 0x40 [0xAB; 0xCD; 0xEF; 0x12] s in
  s ← register_cache store s;
  s ← run_until_done store s;
  let '(probe, s) := new_load 0x40 4 s in
  s ← register_mem probe s;
  '(_, s) ← wait tick_mem (is_done probe) patience s;
  buf ← Req.load_data probe s.2;
  word ← slice buf 0 4;
  assert_eq word [0xAB; 0xCD; 0xEF; 0x12].

Definition no_write_allocate_bypasses_cache_on_store_miss : exec unit :=
  s ← build_cache_with_policy WriteBackNoWriteAllocate;
  let '(store, s) := new_store 0x80 [0x11; 0x22; 0x33; 0x44] s in
  s ← register_cache store s;
  s ← run_until_done store s;
  let before_load := load_miss_cnt (stats s) in
  let '(load, s) := new_load 0x80 4 s in
  s ← register_cache load s;
  s ← run_until_done load s;
  _ ← assert_ (before_load <? load_miss_cnt (stats s))%nat;
  buf ← Req.load_data load s.2;
  word ← slice buf 0 4;
  assert_eq word [0x11; 0x22; 0x33; 0x44].

(** [while cache.try_register_req(&req).is_err() { .. }] *)
Fixpoint retry (fuel : nat) (req : MemoryReqType) (s : system) : exec system :=
  '(ok, s) ← try_cache req s;
  if (ok : bool) then mret s
  else match fuel with
  | O => Panic PExplicit
  | S fuel => s ← tick_both s; retry fuel req s
  end.

(** [for _ in 0..200 { if .. { break; } .. }] *)
Fixpoint drain (n : nat) (s : system) : exec system :=
  match n with
  | O => mret s
  | S n =>
      if negb (prefetch_in_flight s.1.1) && bool_decide (prefetch_queue s.1.1 = [])
      then mret s
      else s ← tick_both s; drain n s
  end.

Definition run_sequential_pattern (kind : PrefetcherKind) (n_blocks block_size : Z)
    : exec (nat * nat) :=
  cfg ← expect (Config.new "test" 4096 block_size 2);
  s ← build zeros (Config.with_prefetcher_kind kind (Config.with_miss_penalty 1 cfg));
  s ← foldl (λ s i, s ← s; let '(req, s) := new_load (i * block_size) 4 s in
                    s ← retry patience req s;
                    s ← run_until_done req s;
                    drain 200 s) (mret s) (seqZ 0 n_blocks);
  mret (load_miss_cnt (stats s), prefetch_issued_cnt (stats s)).

Definition next_line_prefetcher_reduces_misses_on_sequential_pattern : exec unit :=
  '(null_misses, null_prefetches) ← run_sequential_pattern Null 5 32;
  '(nl_misses, nl_prefetches) ← run_sequential_pattern NextLine 5 32;
  _ ← assert_eq null_misses 5%nat;
  _ ← assert_eq null_prefetches 0%nat;
  _ ← assert_ (0 <? nl_prefetches)%nat;
  assert_ (nl_misses <? null_misses)%nat.

Definition all (random_init_data : list Z) : list (exec unit) :=
  [allocate_without_write_back random_init_data; cause_write_back random_init_data;
   miss_penalty_is_per_cache_configurable; accepts_aligned_upper_cache_block_transfer;
   write_through_propagates_store_hit_to_memory;
   no_write_allocate_bypasses_cache_on_store_miss;
   next_line_prefetcher_reduces_misses_on_sequential_pattern].
End tests.
End CacheTests.

(** 0x10000 bytes of a linear congruential generator *)
Fixpoint noise (n : nat) (x : Z) : list Z :=
  match n with
  | O => []
  | S n => Z.land (Z.shiftr x 16) 255 :: noise n (Z.land (1103515245 * x + 12345) (2 ^ 31 - 1))
  end.

(** A check by evaluation: the cache controller of the model passes the repository's unit tests
  of it (fills, write-backs, the miss penalty, transfers of upper-level blocks, both
  write-through and no-write-allocate stores and the next-line prefetcher) when the random
  contents that the tests give the memory are one fixed sequence of bytes. *)
Lemma cache_tests_pass : ∀ P : Profile,
  Forall passes (CacheTests.all (noise (Z.to_nat 0x10000) 2024)).
Proof. intros []; apply all_pass; vm_compute; reflexivity. Qed.
