(* ===== verification/RunnerTests.v ===== *)
(** The texts of the errors ([Display]) and the runner's integration tests
    ([simulator/tests/simulation_runner.rs]): whole simulations of a program that halts at
    once, and a configuration that is refused. *)
From S2P Require Import Prelude Word Instruction BranchPredictor Uop Execute Decode AbstractMem SimpleMem Dram ReplacementPolicy CacheConfig CacheSet GeneralCache Pipe Runner UnitTests.
From stdpp Require Import base list numbers strings pretty.
From Stdlib Require Import Lia.
#[local] Open Scope Z_scope.
#[local] Coercion Z.of_nat : nat >-> Z.

(** * The texts of the errors *)

Module Display.
#[local] Open Scope string_scope.

(** [GeneralCacheConfigError] *)
Definition cache_error (e : GeneralCacheConfigError) : string :=
  match e with
  | ZeroTotalSize => "total size must be greater than zero"
  | ZeroBlockSize => "block size must be greater than zero"
  | BlockSizeNotPowerOfTwo block_size =>
      "block size must be a power of two, got " +:+ pretty block_size
  | ZeroAssociativity => "associativity must be greater than zero"
  | SetCapacityOverflow block_size num_of_way =>
      "block size " +:+ pretty block_size +:+ " and associativity " +:+ pretty num_of_way +:+
      " overflow set capacity"
  | TotalSizeNotSetMultiple total_size block_size num_of_way =>
      "total size " +:+ pretty total_size +:+ " must be a multiple of block size " +:+
      pretty block_size +:+ " x associativity " +:+ pretty num_of_way
  | NumSetsNotPowerOfTwo num_sets =>
      "number of sets must be a power of two, got " +:+ pretty num_sets
  end.

(** [SimulationConfigError] *)
Definition config_error (e : SimulationConfigError) : string :=
  match e with
  | CacheError level source => "invalid " +:+ level +:+ " cache config: " +:+ cache_error source
  | PseudoLruAssociativity level num_of_way =>
      "invalid " +:+ level +:+
      " replacement config: PLRU associativity must be a power of two, got " +:+
      pretty num_of_way
  end.

(** [Error::source] *)
Definition config_error_source (e : SimulationConfigError) : option GeneralCacheConfigError :=
  match e with CacheError _ source => Some source | PseudoLruAssociativity _ _ => None end.

(** the digits of a [u32] in base 16, without leading zeros *)
Definition hex_digit (upper : bool) (d : Z) : string :=
  String (Ascii.ascii_of_nat (Z.to_nat
    (if d <? 10 then 48 + d else (if upper then 55 else 87) + d)%Z)) EmptyString.
Fixpoint hex_digits (fuel : nat) (upper : bool) (n : Z) : string :=
  match fuel with
  | O => ""
  | S fuel =>
      (if (n <? 16)%Z then "" else hex_digits fuel upper (n / 16)) +:+ hex_digit upper (n mod 16)
  end.
(** [{:#x}]; and [{:#08X}], padded with zeros to eight characters *)
Definition hex_lower (n : Z) : string := "0x" +:+ hex_digits 8 false n.
Definition hex_upper_08 (n : Z) : string :=
  let digits := hex_digits 8 true n in
  "0x" +:+ String.concat "" (replicate (6 - String.length digits) "0") +:+ digits.

(** [DecodeError] *)
Definition decode_error (e : DecodeError) : string :=
  match e with
  | IllegalInstruction raw_inst pc =>
      "Unknown instruction: " +:+ hex_upper_08 raw_inst +:+ " at PC: " +:+ hex_lower pc
  | UnsupportedFence pc => "FENCE is not implemented at PC: " +:+ hex_lower pc
  end.

Example decode_error_text :
  decode_error (IllegalInstruction 0xABC 0x1f0) =
  "Unknown instruction: 0x000ABC at PC: 0x1f0".
Proof. reflexivity. Qed.
End Display.

(** * The runner's tests *)

Module RunnerTests.
Definition MEM_SIZE : Z := 0x40000.
Definition ECALL : Z := 0x00000073.
Definition NOP : Z := 0x00000013.

(** the entry point and the image *)
Definition halt_program : exec (Z * list Z) :=
  let prog_body := concat (replicate (Z.to_nat (MEM_SIZE / 4)) (to_le_bytes 4 NOP)) in
  prog_body ← write_slice prog_body 0 4 (to_le_bytes 4 ECALL);
  mret (0, prog_body).

Section tests.
Context `{Profile}.

(** iterations of the simulation loop, enough for the halt of [halt_program] *)
Definition fuel : nat := 1000.

(** [run(halt_program(), config)]; the random policy is not used *)
Definition run_halt (config : SimulationConfig)
    : exec (Result SimulationReport SimulationConfigError) :=
  '(entry_pc, prog_body) ← halt_program;
  r ← Runner.run (λ _ _, O) entry_pc prog_body config fuel;
  match r with Some r => mret r | None => Panic PExplicit end.

Definition runner_halts_raw_program_and_reports_hierarchy_stats : exec unit :=
  r ← run_halt Sim.default;
  report ← expect r;
  _ ← assert_ (1 <=? inst_retire (rep_pipeline report))%nat;
  _ ← assert_ (0 <? total_ticked_cycle (rep_pipeline report))%nat;
  _ ← assert_eq (stat_name (rep_l1i report)) "L1-I$"%string;
  _ ← assert_eq (stat_name (rep_l1d report)) "L1-D$"%string;
  _ ← assert_eq (stat_name (rep_l2 report)) "L2$"%string;
  assert_ (match rep_backing_memory report with SimpleMemReport => true | _ => false end).

Definition runner_composes_dram_and_predictor_adapters : exec unit :=
  let config := {| l1i := l1i Sim.default; l1d := l1d Sim.default; l2 := l2 Sim.default;
    replacement_policy := replacement_policy Sim.default;
    sim_write_policy := sim_write_policy Sim.default;
    sim_prefetcher_kind := sim_prefetcher_kind Sim.default;
    backing_memory := BackingMemoryKind.SimpleDram Timing.educational_default;
    sim_branch_predictor := BranchPredictorKind.Dummy |} in
  r ← run_halt config;
  report ← expect r;
  match rep_backing_memory report with
  | SimpleDramReport row_buffer_hit_cnt row_buffer_miss_cnt =>
      _ ← assert_eq row_buffer_hit_cnt 0%nat;
      assert_ (0 <? row_buffer_miss_cnt)%nat
  | SimpleMemReport => Panic PExplicit
  end.

Definition runner_rejects_invalid_cache_geometry_before_controller_construction : exec unit :=
  let config := {| l1i := l1i Sim.default; l1d := Level.new 256 24 2 2; l2 := l2 Sim.default;
    replacement_policy := replacement_policy Sim.default;
    sim_write_policy := sim_write_policy Sim.default;
    sim_prefetcher_kind := sim_prefetcher_kind Sim.default;
    backing_memory := backing_memory Sim.default;
    sim_branch_predictor := sim_branch_predictor Sim.default |} in
  r ← run_halt config;
  match r with
  | Ok _ => Panic PExplicit
  | Err err =>
      assert_eq (Display.config_error err)
        "invalid L1-D$ cache config: block size must be a power of two, got 24"%string
  end.

Definition all : list (exec unit) :=
  [runner_halts_raw_program_and_reports_hierarchy_stats;
   runner_composes_dram_and_predictor_adapters;
   runner_rejects_invalid_cache_geometry_before_controller_construction].
End tests.
End RunnerTests.

(** A check by evaluation, on the tests' fixed inputs: the model passes the repository's
  integration tests of its runner.  The default machine and one with a DRAM and the static
  predictor both halt and report the statistics of their parts, and an invalid geometry is
  refused with its message. *)
Lemma runner_tests_pass : ∀ P : Profile, Forall passes RunnerTests.all.
Proof. intros []; apply all_pass; vm_compute; reflexivity. Qed.
