(* ===== verification/Main.v ===== *)
(** The simulator as a command: [simulator/src/main.rs] - from the program's file and the
    options to what is printed and the statistics that are written -, and the tests that run
    it on prebuilt programs, [simulator/tests/artifact_programs.rs].

    [clap] parses the options and [serde_json] prints the report: the options are an argument
    and the printer is a parameter, as are the ELF parser, the generator of the random policy
    and which paths can be written.  The texts are those of [println!]. *)
From S2P Require Import Prelude Word Format Instruction BranchPredictor Uop Execute Decode AbstractMem ReplacementPolicy CacheConfig CacheSet GeneralCache Device MemoryDevices CacheDevice Hierarchy SimpleMem Dram Pipe Runner RunnerSpec IsaMachine FlatMachine PipeRun PipeHalt Discipline WholeSystem Total Elf.
From Stdlib Require Import Lia Ascii String SpecFloat.
From stdpp Require Import base numbers list strings pretty.
#[local] Open Scope Z_scope.
#[local] Coercion Z.of_nat : nat >-> Z.
#[local] Existing Instance Dummy.predictor.
#[local] Existing Instance Bimodal.predictor.

(** * Texts *)

Module Text.
#[local] Open Scope string_scope.

(** [n] over [10 ^ 4], with four digits after the point *)
Definition four_digits (n : Z) : string :=
  let d := pretty n in String.concat "" (replicate (4 - String.length d) "0") +:+ d.
Definition decimal (n : Z) : string := pretty (n / 10000)%Z +:+ "." +:+ four_digits (n mod 10000)%Z.

(** [m * 2 ^ e] in units of [10 ^ -4], ties to even *)
Definition rounded (m e : Z) : Z :=
  if (0 <=? e)%Z then (m * 10000 * 2 ^ e)%Z
  else
    let d := (2 ^ (- e))%Z in
    let q := (m * 10000 / d)%Z in
    let r := (m * 10000 mod d)%Z in
    if (d <? 2 * r)%Z || ((2 * r =? d)%Z && Z.odd q) then (q + 1)%Z else q.

Definition sign (s : bool) : string := if s then "-" else "".

(** [{:.4}] on an [f64] *)
Definition fixed4 (f : spec_float) : string :=
  match f with
  | S754_zero s => sign s +:+ decimal 0
  | S754_infinity s => sign s +:+ "inf"
  | S754_nan => "NaN"
  | S754_finite s m e => sign s +:+ decimal (rounded (Zpos m) e)
  end.

(** the derived [{:?}] of the options *)
Definition rp_name (a : ReplacementPolicyArg.t) : string :=
  match a with
  | ReplacementPolicyArg.Fifo => "Fifo"
  | ReplacementPolicyArg.Random => "Random"
  | ReplacementPolicyArg.Plru => "Plru"
  end.
Definition bp_name (a : BranchPredictorArg.t) : string :=
  match a with BranchPredictorArg.Dummy => "Dummy" | BranchPredictorArg.Bimodal => "Bimodal" end.
Definition memory_name (a : BackingMemoryArg.t) : string :=
  match a with BackingMemoryArg.SimpleMem => "SimpleMem" | BackingMemoryArg.Dram => "Dram" end.

Definition pipeline_line (s : PipeStatistic) : string :=
  "Pipeline: cycles=" +:+ pretty (total_ticked_cycle s) +:+ " retired=" +:+ pretty (inst_retire s) +:+
  " ipc=" +:+ fixed4 (ipc s) +:+ " branch_miss=" +:+ fixed4 (branch_miss_rate s).
Definition cache_line (label : string) (s : CacheStatistic) : string :=
  "  " +:+ label +:+ " load_cnt=" +:+ pretty (load_cnt s) +:+ " load_miss=" +:+ pretty (load_miss_cnt s) +:+
  " (" +:+ fixed4 (load_miss_rate s) +:+ ")  store_cnt=" +:+ pretty (store_cnt s) +:+
  " store_miss=" +:+ pretty (store_miss_cnt s) +:+ " (" +:+ fixed4 (store_miss_rate s) +:+
  ")  overall_miss=" +:+ fixed4 (overall_miss_rate s).

(** the lines printed after a simulation *)
Definition report_lines (args : Args) (simulation : SimulationReport) : list string :=
  ["Program: " +:+ prog args;
   "Replacement policy: " +:+ rp_name (arg_rp args);
   "Branch predictor: " +:+ bp_name (arg_bp args);
   "Backing memory: " +:+ memory_name (arg_memory args);
   pipeline_line (rep_pipeline simulation);
   cache_line "L1-I$" (rep_l1i simulation);
   cache_line "L1-D$" (rep_l1d simulation);
   cache_line "L2$  " (rep_l2 simulation)].

(** [Path::join] *)
Definition last_is_slash (p : string) : bool :=
  match String.get (String.length p - 1) p with Some c => Ascii.eqb c "/"%char | None => false end.
Definition join (dir file : string) : string :=
  if String.prefix "/" file then file
  else if String.eqb dir "" || last_is_slash dir then dir +:+ file
  else dir +:+ "/" +:+ file.
End Text.

(** * The command *)

(** the files that can be read, and what has been written and printed *)
Record World := {
  disk : string → option (list Z);
  written : list (string * string);
  stdout : list string;
}.
Definition print (ls : list string) (w : World) : World :=
  {| disk := disk w; written := written w; stdout := stdout w ++ ls |}.
Definition write (path text : string) (w : World) : World :=
  {| disk := disk w; written := written w ++ [(path, text)]; stdout := stdout w |}.

Record CliRunReport := { simulation : SimulationReport; config : Args }.

(** the errors that [main] returns in its box *)
Inductive MainError :=
  | ConfigError (e : SimulationConfigError)
  | JsonError
  | WriteError.

Section main.
Context `{Profile} (random_range : list nat → nat → nat).
Context (parse : list Z → option ObjectFile) (to_string_pretty : CliRunReport → option string).
Context (writable : string → bool).

Definition elf_path (args : Args) : string := Text.join (elf_dir args) (prog args).

(** [if let Some(path) = &args.stats_out { .. }] *)
Definition write_stats (args : Args) (report : SimulationReport) (w : World)
    : Result unit MainError * World :=
  match stats_out args with
  | None => (Ok tt, w)
  | Some path =>
      match to_string_pretty {| simulation := report; config := args |} with
      | None => (Err JsonError, w)
      | Some json =>
          if writable path then
            (Ok tt, print [("wrote stats JSON to " +:+ path)%string] (write path json w))
          else (Err WriteError, w)
      end
  end.

(** [None] when [fuel] cycles do not reach the halt *)
Definition main (fuel : nat) (args : Args) (w : World) : exec (option (Result unit MainError * World)) :=
  info ← Elf.elf_loader parse (disk w (elf_path args));
  r ← Runner.run random_range (entry_pc info) (prog_body info) (Cli.simulation_config args) fuel;
  mret (match r with
        | None => None
        | Some (Err e) => Some (Err (ConfigError e), w)
        | Some (Ok simulation) =>
            Some (write_stats args simulation (print (Text.report_lines args simulation) w))
        end).
End main.

Example third : Text.fixed4 (F64.div (F64.of_usize 1) (F64.of_usize 3)) = "0.3333"%string.
Proof. vm_compute. reflexivity. Qed.
Example tie : Text.fixed4 (F64.div (F64.of_usize 1) (F64.of_usize 32)) = "0.0312"%string.
Proof. vm_compute. reflexivity. Qed.
Example whole : Text.fixed4 (F64.of_usize 12) = "12.0000"%string.
Proof. vm_compute. reflexivity. Qed.
Example joined : Text.join "../target" "hello" = "../target/hello"%string.
Proof. reflexivity. Qed.

(** * Simulations through the runner *)

(** a configuration whose caches the hierarchy theorems cover: machine words as sizes, a
    write policy that keeps its data, 31 bits of address for offset and index at most, words
    in the blocks of the L1 caches, these in the blocks of the L2, and these in the memory *)
Record sound_config (c : SimulationConfig) (i d l : GeneralCacheConfig) : Prop := {
  sc_accepted : Sim.cache_configs c = Ok (i, d, l);
  sc_words : Forall (level_words ∘ snd) (Sim.levels c);
  sc_policy : sim_write_policy c ≠ WriteBackNoWriteAllocate;
  sc_widths : Forall (λ cfg, 1 ≤ CacheConfig.offset_bit_width (geometry cfg) +
    CacheConfig.index_bit_width (geometry cfg) ≤ 31) [i; d; l];
  sc_blocks : 4 ≤ CacheConfig.block_size (geometry i) ≤ CacheConfig.block_size (geometry l) ∧
    4 ≤ CacheConfig.block_size (geometry d) ≤ CacheConfig.block_size (geometry l);
  sc_memory : CacheConfig.block_size (geometry l) ≤ Elf.MEM_SIZE;
  sc_timing : match backing_memory c with
    | BackingMemoryKind.SimpleMem => True
    | BackingMemoryKind.SimpleDram t => DramInv.valid_timing t
    end;
}.

(** an image whose program, on the flat machine, reaches a halting ECALL with registers [rs]
    within [n] events, with code in [lo, hi) and accesses in the reach of the caches *)
Record halting `{Profile} (i d l : GeneralCacheConfig) (entry_pc : Z) (image : list Z) (lo hi : Z) (n : nat)
    (rs : list Z) : Prop := {
  ha_low : 0 ≤ lo;
  ha_reach : hi ≤ reach i (reach l Elf.MEM_SIZE);
  ha_code : valid_code lo hi (view_of image);
  ha_orderly : orderly lo hi (reach d (reach l Elf.MEM_SIZE)) (n + 7) (boot entry_pc (view_of image)) = true;
  ha_final : flat_final n (boot entry_pc (view_of image)) = Ret (Some rs);
}.

#[local] Existing Instance everywhere.

Lemma reach_nonneg (cfg : GeneralCacheConfig) D :
  0 < CacheConfig.block_size (geometry cfg) ≤ D → 0 ≤ reach cfg D.
Proof.
  intros Hb. unfold reach. pose proof (Z.div_le_mono _ D _ (proj1 Hb) (proj2 Hb)) as Hq.
  rewrite Z.div_same in Hq by lia. destruct (prefetcher_kind cfg); nia.
Qed.

Section policy.
Context `{Profile} {RP : Type} `{ReplacementLaws RP}.

(** one memory, either predictor *)
Lemma memory_total {M} `{Device M} `{!DeviceLaws (RG := everywhere) M}
    c i d l entry_pc image lo hi n rs (m : M) memory_report :
  (∀ (m : M) h, Device.cycle m h = AbstractMem.tick m h) →
  sound_config c i d l → fits (RP := RP) i d l m Heap.empty →
  d_view m = view_of image → d_span m = Elf.MEM_SIZE →
  halting i d l entry_pc image lo hi n rs →
  ∃ fuel r, Runner.run_with_predictor RP entry_pc m c memory_report fuel = Ret (Some (Ok r)) ∧
    final_registers r = rs.
Proof.
  intros Hclock [Hc _ _ _ Hb Hm _] Hf Ev Es [Hlo Hhi Hcode Hord Hfin].
  assert (Hdi : disciplined lo hi entry_pc i d l m (n + 7)).
  { constructor; rewrite ?Ev; unfold fetch_top, data_top; rewrite ?Es; try done.
    pose proof (reach_nonneg l Elf.MEM_SIZE ltac:(lia)). destruct Hf as [Hi _ Hl _ _ _ _ _ _].
    pose proof (reach_le l Elf.MEM_SIZE Hl ltac:(done)).
    pose proof (reach_le i (reach l Elf.MEM_SIZE) Hi ltac:(done)). unfold Elf.MEM_SIZE in *. lia. }
  rewrite <- Ev in Hfin. unfold Runner.run_with_predictor. destruct (sim_branch_predictor c).
  - by apply (simulation_ends Hclock lo hi entry_pc Dummy.new c i d l m memory_report n rs).
  - by apply (simulation_ends Hclock lo hi entry_pc Bimodal.new c i d l m memory_report n rs).
Qed.

Lemma dram_ticks (m : SimpleDram) h : Device.cycle m h = AbstractMem.tick m h.
Proof. reflexivity. Qed.

(** either memory *)
Lemma policy_total c i d l entry_pc image lo hi n rs : Z.of_nat (length image) = Elf.MEM_SIZE →
  sound_config c i d l → Forall (configured RP) [i; d; l] →
  halting i d l entry_pc image lo hi n rs →
  ∃ fuel r, Runner.run_with_policy RP entry_pc image c fuel = Ret (Some (Ok r)) ∧
    final_registers r = rs.
Proof.
  intros Hlen Hs Hc Hh. rewrite !Forall_cons in Hc. destruct Hc as (Hi & Hd & Hl & _).
  pose proof Hs as [_ _ _ _ Hb Hm Ht]. unfold Runner.run_with_policy.
  destruct (backing_memory c) as [|t] eqn:Eb.
  - apply (memory_total c i d l entry_pc image lo hi n rs (SimpleMemory.new image) _ simple_mem_clock Hs);
      [|done| |done].
    2: { change (Z.min MEM_SIZE (length image) = Elf.MEM_SIZE). by rewrite Hlen. }
    constructor; try done; try lia.
    + change (CacheConfig.block_size (geometry l) ≤ Z.to_nat (Z.min MEM_SIZE (length image))).
      rewrite Hlen. change (Z.min MEM_SIZE Elf.MEM_SIZE) with Elf.MEM_SIZE. lia.
    + change (0 ≤ Z.min MEM_SIZE (length image) ≤ 2 ^ 32). rewrite Hlen. done.
  - assert (En : ∃ dram, Dram.new image t = Ret dram ∧ fits (RP := RP) i d l dram Heap.empty ∧
      d_view dram = view_of image ∧ d_span dram = Elf.MEM_SIZE).
    { destruct (Ht) as ([? _] & [? _] & [? _]). eexists. split.
      { unfold Dram.new, Timing.assert_valid. rewrite !(proj2 (Z.leb_le 1 _)) by done. reflexivity. }
      split; [|split; [reflexivity | exact Hlen]].
      constructor; try done; try lia.
      - change (CacheConfig.block_size (geometry l) ≤ length image). by rewrite Hlen.
      - change (0 ≤ length image ≤ 2 ^ 32). rewrite Hlen. done. }
    destruct En as (dram & En & Hf & Hv & Hsp).
    destruct (memory_total c i d l entry_pc image lo hi n rs dram
      (λ dram, SimpleDramReport (row_buffer_hit_cnt dram) (row_buffer_miss_cnt dram))
      dram_ticks Hs Hf Hv Hsp Hh) as (fuel & r & E & Er).
    exists fuel, r. by rewrite En.
Qed.
End policy.

(** any policy *)
Section runs.
Context `{Profile} (random_range : list nat → nat → nat).
(** [random_range(0..n)] returns a number of the range *)
Context (random_range_bound : ∀ g n, (0 < n)%nat → (random_range g n < n)%nat).

Lemma run_total c i d l entry_pc image lo hi n rs : Z.of_nat (length image) = Elf.MEM_SIZE →
  sound_config c i d l → halting i d l entry_pc image lo hi n rs →
  ∃ fuel r, Runner.run random_range entry_pc image c fuel = Ret (Some (Ok r)) ∧
    final_registers r = rs.
Proof.
  intros Hlen Hs Hh. pose proof Hs as [Hc Hw Hpol Hwid _ _ _].
  destruct (cache_configs_built c i d l Hw Hc) as [Hways Hb].
  assert (Hconf : ∀ RP `{ReplacementLaws RP},
    (∀ nl, nl ∈ Sim.levels c → rp_ways (Z.to_nat (cl_num_of_way nl.2))) → Forall (configured RP) [i; d; l]).
  { intros RP ? ? Hrp. apply Forall_lookup. intros k cfg Hk.
    destruct (Forall2_lookup_r _ _ _ _ _ Hb Hk) as (nl & Hnl & [Hbu Hwo]).
    apply (built_configured c nl); try done; [by eapply (Forall_lookup_1 _ _ _ _ Hwid)|].
    apply Hrp. by eapply list_elem_of_lookup_2. }
  assert (Hpos : ∀ nl, nl ∈ Sim.levels c → 0 < cl_num_of_way nl.2).
  { intros nl [k Hk]%list_elem_of_lookup_1. destruct (Forall2_lookup_l _ _ _ _ _ Hb Hk) as (cfg & _ & [Hbu Hwo]).
    by destruct (built_ways c nl cfg Hbu Hwo) as (_ & ? & _). }
  unfold Runner.run. destruct (replacement_policy c) eqn:Erp.
  - eapply policy_total; try done. apply Hconf. intros nl Hnl. specialize (Hpos nl Hnl). cbn. lia.
  - eapply (policy_total (RP := Random.RandomRP)
      (H1 := Random_laws random_range random_range_bound)); try done.
    apply Hconf. intros nl Hnl. specialize (Hpos nl Hnl). cbn. lia.
  - eapply policy_total; try done. apply Hconf. intros nl Hnl. specialize (Hpos nl Hnl).
    unfold ways_ok in Hways. specialize (Hways Erp). rewrite Forall_forall in Hways.
    specialize (Hways nl Hnl). cbn. rewrite Z2Nat.id by lia. by apply is_power_of_two_spec.
Qed.
End runs.

(** more fuel changes nothing once the halt is reached *)
Section fuel.
Context `{Profile} (random_range : list nat → nat → nat).

Lemma loop_more {RP} `{ReplacementPolicy RP} {P} `{BranchPredict P} {M} `{AbstractMemoryInterface M}
    n k (p : PipelineProcessor RP P) (m : M) h x : (n ≤ k)%nat →
  Runner.run_loop n p m h = Ret (Some x) → Runner.run_loop k p m h = Ret (Some x).
Proof.
  revert k p m h. induction n as [|n IH]; intros k p m h Hk E; cbn in E.
  - destruct k; cbn; by destruct (halt p).
  - destruct k as [|k]; [lia|]. cbn. destruct (halt p); [done|].
    apply bind_inv in E as ([[p1 m1] h1] & Ec & E). rewrite Ec, bind_Ret. apply IH; [lia | done].
Qed.

Lemma predictor_more {RP} `{ReplacementPolicy RP} {M} `{AbstractMemoryInterface M}
    entry_pc (m : M) c memory_report n k x : (n ≤ k)%nat →
  Runner.run_with_predictor RP entry_pc m c memory_report n = Ret (Some x) →
  Runner.run_with_predictor RP entry_pc m c memory_report k = Ret (Some x).
Proof.
  intros Hk. unfold Runner.run_with_predictor, Runner.run_with_memory.
  destruct (sim_branch_predictor c), (Sim.cache_configs c) as [[[i d] l]|e]; try done;
    intros E; apply bind_inv in E as (p0 & -> & E); rewrite bind_Ret;
    apply bind_inv in E as ([[[p' m'] h']|] & E & Ex); try discriminate Ex;
    by rewrite (loop_more n k _ _ _ _ Hk E), bind_Ret.
Qed.

Lemma policy_more {RP} `{ReplacementPolicy RP} entry_pc image c n k x : (n ≤ k)%nat →
  Runner.run_with_policy RP entry_pc image c n = Ret (Some x) →
  Runner.run_with_policy RP entry_pc image c k = Ret (Some x).
Proof.
  intros Hk. unfold Runner.run_with_policy. destruct (backing_memory c) as [|t].
  - by apply predictor_more.
  - intros E. apply bind_inv in E as (dram & -> & E). rewrite bind_Ret. by eapply predictor_more.
Qed.

Lemma run_fuel_more entry_pc image c n k x : (n ≤ k)%nat →
  Runner.run random_range entry_pc image c n = Ret (Some x) →
  Runner.run random_range entry_pc image c k = Ret (Some x).
Proof. unfold Runner.run. destruct (replacement_policy c); apply policy_more. Qed.
End fuel.

(** a configuration that the check refuses *)
Section refused.
Context `{Profile} (random_range : list nat → nat → nat).

Lemma predictor_refused {RP} `{ReplacementPolicy RP} {M} `{AbstractMemoryInterface M}
    entry_pc (m : M) c e memory_report fuel : Sim.cache_configs c = Err e →
  Runner.run_with_predictor RP entry_pc m c memory_report fuel = Ret (Some (Err e)).
Proof.
  intros E. unfold Runner.run_with_predictor, Runner.run_with_memory. rewrite E.
  by destruct (sim_branch_predictor c).
Qed.
Lemma policy_refused {RP} `{ReplacementPolicy RP} entry_pc image args e fuel :
  Sim.cache_configs (Cli.simulation_config args) = Err e →
  Runner.run_with_policy RP entry_pc image (Cli.simulation_config args) fuel = Ret (Some (Err e)).
Proof.
  intros E. unfold Runner.run_with_policy. cbn [Cli.simulation_config backing_memory].
  destruct (arg_memory args); cbn [BackingMemoryArg.into]; by apply predictor_refused.
Qed.
Lemma run_refused entry_pc image args e fuel :
  Sim.cache_configs (Cli.simulation_config args) = Err e →
  Runner.run random_range entry_pc image (Cli.simulation_config args) fuel = Ret (Some (Err e)).
Proof.
  intros E. unfold Runner.run. destruct (replacement_policy _); by apply policy_refused.
Qed.
End refused.

(** * The command does what it is for *)

(** what a successful simulation leaves: the lines printed, then the statistics file if one is
    asked for *)
Record reports (to_string_pretty : CliRunReport → option string) (writable : string → bool)
    (args : Args) (r : SimulationReport) (w : World) (res : Result unit MainError) (w' : World) : Prop := {
  rp_disk : disk w' = disk w;
  rp_plain : stats_out args = None → res = Ok tt ∧ written w' = written w ∧
    stdout w' = stdout w ++ Text.report_lines args r;
  rp_json path json : stats_out args = Some path →
    to_string_pretty {| simulation := r; config := args |} = Some json → writable path = true →
    res = Ok tt ∧ written w' = written w ++ [(path, json)] ∧
    stdout w' = stdout w ++ Text.report_lines args r ++ [("wrote stats JSON to " +:+ path)%string];
  rp_failed e : res = Err e → written w' = written w ∧ stdout w' = stdout w ++ Text.report_lines args r;
}.

Lemma write_stats_reports to_string_pretty writable args r w :
  let p := write_stats to_string_pretty writable args r (print (Text.report_lines args r) w) in
  reports to_string_pretty writable args r w p.1 p.2.
Proof.
  cbv zeta. unfold write_stats. destruct (stats_out args) as [path|] eqn:Es;
    [destruct (to_string_pretty _) as [json|] eqn:Ej; [destruct (writable path) eqn:Ew|]|];
    constructor; cbn [fst snd print write disk written stdout]; intros; simplify_eq; try (done || congruence).
  by rewrite <- app_assoc.
Qed.

Lemma length_image o : Z.of_nat (length (image o)) = Elf.MEM_SIZE.
Proof.
  unfold image. assert (0 ≤ Elf.MEM_SIZE) by (unfold Elf.MEM_SIZE; lia). generalize dependent Elf.MEM_SIZE.
  intros n Hn. unfold view_read. rewrite length_fmap, length_seqZ. lia.
Qed.

(** C1: The command, from the program's file to its report.  When the file cannot be read or
    is no RISC-V executable that fits the memory, it panics and prints nothing; when the
    configuration is refused, it returns the error of the check and prints nothing.  Of the
    configurations that the check accepts, the theorem covers those that are sound
    ([sound_config]): a write policy other than write-back without write-allocate (which loses
    data, [Hierarchy.wb_nwa_loses_data]), offset and index of 1 to 31 bits at each level, L1
    blocks of at least 4 bytes and no larger than the L2's, these no larger than the memory,
    and DRAM timings of at least a cycle.  Under such a configuration, with any of the three
    replacement policies (the random one draws from one generator that all sets share),
    either prefetcher, predictor and memory: if the program in the image of the file's
    segments halts on the sequential machine with registers [rs], leaving its code alone, with
    aligned accesses in the reach of the caches and only instructions in its code, then the
    simulation ends without a panic with [rs] as its final registers, its eight lines are
    printed, and the statistics file, if one is asked for, is written. *)
Theorem main_outcomes `{Profile} (random_range : list nat → nat → nat)
    (parse : list Z → option ObjectFile) to_string_pretty (writable : string → bool)
    (args : Args) (w : World) :
  (∀ bytes o, parse bytes = Some o → words o) →
  (∀ g n, (0 < n)%nat → (random_range g n < n)%nat) →
  let main fuel := main random_range parse to_string_pretty writable fuel args w in
  ((∀ o, disk w (elf_path args) ≫= parse = Some o → ¬ loadable o) → ∀ fuel, ∃ p, main fuel = Panic p) ∧
  ∀ o, disk w (elf_path args) ≫= parse = Some o → loadable o →
    (∀ e fuel, Sim.cache_configs (Cli.simulation_config args) = Err e →
       main fuel = Ret (Some (Err (ConfigError e), w))) ∧
    (∀ i d l lo hi n rs, sound_config (Cli.simulation_config args) i d l →
       halting i d l (as_u32 (entry o)) (image o) lo hi n rs →
       ∃ enough r res w', (∀ fuel, (enough ≤ fuel)%nat → main fuel = Ret (Some (res, w'))) ∧
         final_registers r = rs ∧ reports to_string_pretty writable args r w res w').
Proof.
  intros Hwords Hrng main'. subst main'. split.
  - intros Hno fuel. unfold main. destruct (disk w (elf_path args)) as [bytes|]; [|by eexists].
    pose proof (elf_loader_spec parse bytes (Hwords bytes)) as Hs. revert Hs.
    generalize (Elf.elf_loader parse (Some bytes)). intros [info|p]; [|by eexists].
    intros (o & E & Hl & _). by destruct (Hno o E).
  - intros o Ho Hl. destruct (disk w (elf_path args)) as [bytes|] eqn:Ed; [|done]. cbn [mbind option_bind] in Ho.
    assert (Em : ∀ fuel, main random_range parse to_string_pretty writable fuel args w =
      (r ← Runner.run random_range (as_u32 (entry o)) (image o) (Cli.simulation_config args) fuel;
       mret (match r with
             | None => None
             | Some (Err e) => Some (Err (ConfigError e), w)
             | Some (Ok r) => Some (write_stats to_string_pretty writable args r (print (Text.report_lines args r) w))
             end))).
    { intros fuel. unfold main. rewrite Ed, (elf_loader_Ret parse bytes o (Hwords bytes) Ho Hl), bind_Ret.
      reflexivity. }
    split.
    + intros e fuel Hc. rewrite Em, (run_refused random_range _ _ _ e fuel Hc), bind_Ret. done.
    + intros i d l lo hi n rs Hs Hh.
      destruct (run_total random_range Hrng _ i d l _ _ lo hi n rs (length_image o) Hs Hh)
        as (fuel & r & E & Er).
      eexists fuel, r, _, _. split; [|split; [exact Er | apply write_stats_reports]].
      intros k Hk. rewrite Em, (run_fuel_more random_range _ _ _ fuel k _ Hk E), bind_Ret.
      by rewrite <- surjective_pairing.
Qed.

(** * The tests on prebuilt programs *)

Module ArtifactTests.
Section tests.
Context `{Profile} (random_range : list nat → nat → nat).
Context (parse : list Z → option ObjectFile) (disk : string → option (list Z)).

(** [elf::elf_loader(..)], [run(program, SimulationConfig::default()).expect(..)] *)
Definition run_fixture (fuel : nat) (path : string) : exec (option SimulationReport) :=
  program ← Elf.elf_loader parse (disk path);
  r ← Runner.run random_range (entry_pc program) (prog_body program) Sim.default fuel;
  match r with
  | None => mret None
  | Some (Ok report) => mret (Some report)
  | Some (Err _) => Panic PUnwrap
  end.

(** [for name in names { let report = ..; assert!(..) }] *)
Fixpoint for_fixtures (fuel : nat) (dir : string) (check : SimulationReport → bool)
    (names : list string) : exec (option unit) :=
  match names with
  | [] => mret (Some tt)
  | name :: names =>
      report ← run_fixture fuel (Text.join dir name);
      match report with
      | None => mret None
      | Some report => _ ← assert_ (check report); for_fixtures fuel dir check names
      end
  end.

Definition inst_list : list string := [
  "rv32ui-p-add"; "rv32ui-p-lui"; "rv32ui-p-sub"; "rv32ui-p-addi"; "rv32ui-p-and";
  "rv32ui-p-andi"; "rv32ui-p-lw"; "rv32ui-p-lh"; "rv32ui-p-lhu"; "rv32ui-p-lb"; "rv32ui-p-lbu";
  "rv32ui-p-sw"; "rv32ui-p-sh"; "rv32ui-p-sb"; "rv32ui-p-beq"; "rv32ui-p-bne"; "rv32ui-p-blt";
  "rv32ui-p-bge"; "rv32ui-p-bltu"; "rv32ui-p-bgeu"; "rv32ui-p-jal"; "rv32ui-p-jalr";
  "rv32ui-p-or"; "rv32ui-p-ori"; "rv32ui-p-sll"; "rv32ui-p-slli"; "rv32ui-p-sra";
  "rv32ui-p-srai"; "rv32ui-p-srl"; "rv32ui-p-srli"; "rv32ui-p-slt"; "rv32ui-p-sltu";
  "rv32ui-p-slti"; "rv32ui-p-sltiu"; "rv32ui-p-auipc"; "rv32um-p-mul"; "rv32um-p-mulh";
  "rv32um-p-mulhu"; "rv32um-p-mulhsu"; "rv32um-p-div"; "rv32um-p-divu"; "rv32um-p-rem";
  "rv32um-p-remu"]%string.

(** x3 is the number of the test that failed, or 1 *)
Definition riscv_isa_artifacts_pass (fuel : nat) : exec (option unit) :=
  for_fixtures fuel "../riscv-tests/isa"
    (λ report, bool_decide (final_registers report !! 3%nat = Some 1)) inst_list.

Definition runtime_workload_artifacts_halt (fuel : nat) : exec (option unit) :=
  for_fixtures fuel "../target/riscv32im-unknown-none-elf/debug"
    (λ report, (0 <? inst_retire (rep_pipeline report))%nat)
    ["hello"; "print_nums"; "msort"; "qsort"; "matmul"]%string.
End tests.
End ArtifactTests.

(** the levels of the default configuration *)
Definition default_levels : GeneralCacheConfig * GeneralCacheConfig * GeneralCacheConfig :=
  match Sim.cache_configs Sim.default with Ok ls => ls | Err _ => (sum_i, sum_d, sum_l) end.

Lemma default_sound :
  sound_config Sim.default default_levels.1.1 default_levels.1.2 default_levels.2.
Proof.
  constructor; try done.
  - repeat constructor; cbn; lia.
  - repeat constructor; by vm_compute.
Qed.

Section fixtures.
Context `{Profile} (random_range : list nat → nat → nat).
Context (random_range_bound : ∀ g n, (0 < n)%nat → (random_range g n < n)%nat).
Context (parse : list Z → option ObjectFile) (parse_words : ∀ bytes o, parse bytes = Some o → words o).
Context (disk : string → option (list Z)).

(** a fixture that halts on the flat machine with 1 in x3 *)
Definition passes_isa (path : string) : Prop := ∃ o lo hi n rs,
  disk path ≫= parse = Some o ∧ loadable o ∧ rs !! 3%nat = Some 1 ∧
  halting default_levels.1.1 default_levels.1.2 default_levels.2 (as_u32 (entry o)) (image o) lo hi n rs.

(** the test of the instruction set passes when every fixture does on the flat machine *)
Lemma isa_artifacts : Forall (passes_isa ∘ Text.join "../riscv-tests/isa") ArtifactTests.inst_list →
  ∃ enough, ∀ fuel, (enough ≤ fuel)%nat →
    ArtifactTests.riscv_isa_artifacts_pass random_range parse disk fuel = Ret (Some tt).
Proof using random_range_bound parse_words.
  unfold ArtifactTests.riscv_isa_artifacts_pass. induction 1 as [|name names Hn _ [k2 IH]]; [by exists 0%nat|].
  destruct Hn as (o & lo & hi & n & rs & Ho & Hl & Hrs & Hh).
  destruct (disk _) as [bytes|] eqn:Ed; [|done]. cbn [mbind option_bind] in Ho.
  destruct (run_total random_range random_range_bound _ _ _ _ _ _ lo hi n rs (length_image o)
    default_sound Hh) as (k1 & r & E & Er).
  exists (k1 + k2)%nat. intros fuel Hf. cbn [ArtifactTests.for_fixtures]. unfold ArtifactTests.run_fixture.
  rewrite Ed, (elf_loader_Ret parse bytes o (parse_words bytes) Ho Hl), bind_Ret.
  cbn [entry_pc prog_body]. rewrite (run_fuel_more random_range _ _ _ k1 fuel _ ltac:(lia) E), !bind_Ret.
  rewrite bool_decide_true by (by rewrite Er). cbn [assert_]. rewrite bind_Ret. apply IH. lia.
Qed.
End fixtures.

(** * A run of the command *)

#[local] Existing Instance dev_profile.

(** a file with [sum_program], padded with NOPs *)
Definition sum_object : ObjectFile := {|
  format := Elf32; architecture := Riscv32; kind := Executable; is_little_endian := true;
  segments := [Build_Segment 0 256 (Some (sum_program ++ flat_map (λ _, to_le_bytes 4 19) (seq 0 54)))];
  entry := 0 |}.

(** the random policy, no branch prediction, DRAM, and a statistics file *)
Definition sum_args : Args := {|
  prog := "sum"; elf_dir := "bin";
  l1i_size := 256; l1i_block := 16; l1i_ways := 2; l1i_penalty := 1;
  l1d_size := 64; l1d_block := 16; l1d_ways := 2; l1d_penalty := 1;
  l2_size := 512; l2_block := 32; l2_ways := 4; l2_penalty := 5;
  arg_rp := ReplacementPolicyArg.Random; arg_wp := WritePolicyArg.WtWa;
  arg_prefetcher := PrefetcherArg.NextLine; arg_bp := BranchPredictorArg.Dummy;
  arg_memory := BackingMemoryArg.Dram; stats_out := Some "stats.json"%string |}.

Definition sum_world : World := {|
  disk := λ path, if String.eqb path "bin/sum" then Some [127; 69; 76; 70] else None;
  written := []; stdout := [] |}.

Definition sum_levels : GeneralCacheConfig * GeneralCacheConfig * GeneralCacheConfig :=
  match Sim.cache_configs (Cli.simulation_config sum_args) with Ok ls => ls | Err _ => default_levels end.

Lemma sum_sound :
  sound_config (Cli.simulation_config sum_args) sum_levels.1.1 sum_levels.1.2 sum_levels.2.
Proof.
  constructor; try done.
  - repeat constructor; cbn; lia.
  - repeat constructor; by vm_compute.
Qed.

(** the image, as the loader computes it *)
Definition sum_image : list Z :=
  match Elf.elf_loader (λ _, Some sum_object) (Some []) with Ret info => prog_body info | Panic _ => [] end.

Lemma sum_words o : Some sum_object = Some o → words o.
Proof. intros [= <-]. repeat constructor; cbn; try lia; intros d [= <-]; vm_compute; reflexivity. Qed.
Lemma sum_loadable : loadable sum_object.
Proof.
  split_and!; try done. apply Forall_singleton. split; [done|]. eexists. split; [reflexivity|].
  by vm_compute.
Qed.

Lemma sum_image_ok : sum_image = image sum_object.
Proof.
  assert (E : Elf.elf_loader (λ _, Some sum_object) (Some []) =
    Ret {| entry_pc := as_u32 (entry sum_object); prog_body := image sum_object |}).
  { apply elf_loader_Ret; [exact sum_words | reflexivity | exact sum_loadable]. }
  unfold sum_image. revert E. generalize (Elf.elf_loader (λ _, Some sum_object) (Some [])).
  intros r ->. reflexivity.
Qed.

Lemma sum_halting : ∃ rs, halting sum_levels.1.1 sum_levels.1.2 sum_levels.2 (as_u32 (entry sum_object))
  (image sum_object) 0 192 22 rs ∧ take 11 rs = [0; 0; 0; 0; 0; 0; 15; 15; 225; 0; 0].
Proof.
  rewrite <- sum_image_ok. eexists. split; [constructor|].
  - done.
  - vm_compute. discriminate.
  - apply code_valid_spec. vm_compute. reflexivity.
  - vm_compute. reflexivity.
  - vm_compute. reflexivity.
  - reflexivity.
Qed.

Lemma main_outcomes_witness : ∃ enough r res w',
  (∀ fuel, (enough ≤ fuel)%nat →
     main (λ _ _, 0%nat) (λ _, Some sum_object) (λ _, Some "{}"%string) (λ _, true) fuel sum_args sum_world =
       Ret (Some (res, w'))) ∧
  take 11 (final_registers r) = [0; 0; 0; 0; 0; 0; 15; 15; 225; 0; 0] ∧ res = Ok tt ∧
  written w' = [("stats.json", "{}")]%string ∧ take 1 (stdout w') = ["Program: sum"%string].
Proof.
  destruct sum_halting as (rs & Hh & Hrs).
  destruct (main_outcomes (λ _ _, 0%nat) (λ _, Some sum_object) (λ _, Some "{}"%string) (λ _, true)
    sum_args sum_world (λ _, sum_words) (λ _ _ H, H)) as [_ Hok].
  destruct (Hok sum_object eq_refl sum_loadable) as [_ Hrun].
  destruct (Hrun _ _ _ _ _ _ _ sum_sound Hh) as (enough & r & res & w' & E & Er & Hrep).
  exists enough, r, res, w'. split; [exact E|]. rewrite Er. split; [exact Hrs|].
  destruct (rp_json _ _ _ _ _ _ _ Hrep "stats.json"%string "{}"%string eq_refl eq_refl eq_refl) as (-> & -> & ->).
  split; [reflexivity|]. split; reflexivity.
Defined.

(** the test of the workloads passes on files that halt *)
Example workloads_halt : ArtifactTests.runtime_workload_artifacts_halt (λ _ _, 0%nat)
  (λ _, Some sum_object) (λ _, Some []) 400 = Ret (Some tt).
Proof. vm_compute. reflexivity. Qed.
